(* ===== verification/_CoqProject ===== *)
-Q . S2P
Prelude.v
ListHead.v
ListSpec.v
ListIter.v
Hlist.v
Kernel.v
Uapi.v
State.v
Prims.v
Context.v
Proc.v
Complist.v
IdrOld.v
Scheduler.v
Worker.v
Device.v
Rcu.v
Locks.v
Frames.v
Private.v
Tables.v
Typing.v
System.v
Counting.v
KernelInst.v
Scenario.v
User.v
UserLib.v
Example.v
ExampleSpec.v
UserKernel.v
Tests.v
Benchmark.v
BenchSuite.v
BenchSpec.v
Interleave.v
InterleaveInv.v
InterleaveSeq.v
PropComplist.v
PropThreads.v
PropRound.v
PropDevice.v
PropSystem.v
PropUser.v
PropInterleave.v
