(* ===== verification/Prelude.v ===== *)
(** * Linux User-Mode Scheduling: a verification library

    The program (under [src/]) lets a process schedule its own threads: a
    kernel module ([src/src/module/src]) keeps, for every open of the device
    /dev/ums, completion lists of worker threads, the scheduler threads that
    take workers from them, and a queue of events per scheduler; a user library
    ([src/src/lib]) wraps the ioctl calls; an example program
    ([src/examples/00-simple-example]) schedules workers with it.  This library
    models the module, the user library with its unit tests, the example, the
    benchmark ([src/benchmark]) and the intrusive lists of
    [src/src/util/list.h], and proves what their operations do, error paths
    included, alone, on top of each other and interleaved.

    ** The parts and how they interact

    A task becomes a worker ([enter_ums_worker_mode]) or a scheduler
    ([enter_ums_scheduler_mode]).  A new worker sleeps in a completion list.  A
    scheduler dequeues the list ([ums_complist_dqcontext] takes all contexts at
    once and returns the first one, [ums_complist_next_context] the others),
    and runs one of them ([exec_ums_context]), which suspends the scheduler.  A
    worker that yields ([ums_worker_yield]) or ends ([ums_worker_end]) queues an
    event for the scheduler that ran it and makes it runnable; the scheduler
    takes events with [ums_sched_dqevent].  Both waits sleep on a wait queue.
    Objects are reference counted and freed by RCU callbacks; each is shown
    under /proc/ums.

    In user space, [enter_ums_scheduling_mode] turns the calling thread into a
    scheduler and calls an entry point for every event; [ums_pthread_create]
    starts a thread that becomes a worker before it runs its function and leaves
    worker mode in the destructor of a thread-specific key.  The example's entry
    point keeps a ready queue (a list of list.h) which it fills from the
    completion list and from which it runs one context per event.

    ** The files

    - [Prelude]: error numbers, machine integers, lemmas on strings and lists.
    - [ListHead]: the circular lists of list.h, on a memory of list cells; a
      pointer is uninitialised, NULL, poisoned or a cell.  [ListIter]: its other
      loop macros.  [Hlist]: its hash lists.
    - [ListSpec]: a memory holds a [forest] of disjoint sequences; the class
      [ListOps]/[ListLaws] is the interface the module uses, and the routines of
      [ListHead] are an instance.
    - [Kernel]: the classes [KernelOps] (what the kernel does and the module
      cannot determine: allocation, idr, hash tables, procfs, signals, device
      registration) and [KernelLaws] (what its documentation promises).  A
      hidden state [kenv] decides when calls fail, so nothing is assumed about
      that.
    - [Uapi]: [uapi/ums/ums_ioctl.h].  [State]: the structures of the headers,
      the heap, and the monad [kM] of the handlers, whose outcome is [Ok],
      [Sleep] (the call waits in a wait queue) or [Bug] (the C program would
      use an uninitialised, NULL or freed pointer, unbalance a lock, overrun a
      buffer).  [Prims]: the kernel calls as operations of the monad, the
      tactics that run them.
    - [Context], [Complist], [Scheduler], [Worker], [Device], [Proc]: one file
      per component, with the functions of [context.h], [context.c],
      [complist.c], [idr_l.h], [scheduler.c], [worker.c], [enter_ums.c],
      [device.c], [ums_mod.c] and [proc/*.c] under their C names.  A lemma
      [f_run] gives the outcome of [f] as a closed expression.  [IdrOld]: the
      branch of [idr_l.h] for kernels before 3.9.
    - [Rcu], [Locks]: program logics for the nesting of RCU read-side sections,
      and for locks and list cells.
    - [Frames], [Private], [Tables], [Typing]: what calls leave alone ([Frames]),
      objects no table leads to yet ([Private]), the outcomes of the changes of
      tables ([Tables]), and what the tables promise about the objects they lead
      to ([Typing]), for any invariant of objects in the class [HeapInv].
    - [System]: the module as a transition system: calls of tasks, sleeping
      calls that are resumed, RCU callbacks; invariants by rule induction.
      [Counting]: the reference counts of completion lists as an instance of
      [HeapInv] and invariant of the system.
    - [KernelInst]: a concrete kernel that satisfies the laws; [Scenario]: a
      session on it, computed; the witnesses run on its worlds.
    - [User]: a process seen from one thread (errno, memory, static variables),
      the class [SysOps] of the services it calls, and the monad [uM] of user
      code, whose outcome is a value, a call that never returns, or a crash.
    - [UserLib]: [src/src/lib/src/*.c], [private.h] and [umsdefs.h] under their C
      names.  [Example]: the functions of [main.c].
    - [ExampleSpec]: the interface [ContextSource] (what the example needs from
      the library and the module) and the ready queue proved against it.
      [UserKernel]: the module as an instance of [SysOps] and of
      [ContextSource].
    - [Tests]: [src/src/lib/tests]: the stubs of the system calls as an instance
      of [SysOps], and the tests as programs over [UserLib].
    - [Benchmark]: the timer, the primality test and the entry point of
      [src/benchmark].  [BenchSuite]: its suites of schedulers and workers, in
      memory, and its main function.  [BenchSpec]: a logic of what user code
      does to memory, and what the suites leave allocated.
    - [Interleave]: the two shared queues of the module (the completion list of
      [complist.c], the event queue of [scheduler.c]) as programs of single
      steps (take the lock, test, enqueue, change the list, unlock, wake) that
      any number of tasks run interleaved, with an executable scheduler;
      [InterleaveInv]: its invariant and termination measure; [InterleaveSeq]:
      a task alone does what the functions of [Complist] and [Scheduler] do.
    - [PropComplist], [PropThreads], [PropRound], [PropDevice], [PropSystem],
      [PropUser], [PropInterleave]: the theorems; those of list.h are in
      [ListSpec], [ListIter] and [Hlist], that of the suites in [BenchSpec].

    ** What the theorems show

    Lists: any sequence of operations of list.h on well-formed lists (circular
    or hash lists) does what the same operations on sequences do; the loops that
    tolerate removal compute [filter].  Completion lists: contexts are handed
    out once each and in order; adding wakes waiters; a waiting scheduler gets
    the context that arrives; creation, deletion and reference counting.
    Threads: the switch to a worker and back, a whole round in which a scheduler
    runs a batch of workers and each yields, events delivered in order and
    restored when they cannot be copied out, no lost wakeups, the life of a
    worker from entry to its RCU callback, strangers get -ESRCH.  System: in
    every reachable state the list cells are exactly those of live structures,
    ids and pids lead to live structures of their kind, what was handed to RCU
    is allocated and cannot be found, no lock is held and no RCU section is open
    between calls, so that no call finds a lock taken; if the calls of a run
    delete no list twice (read off the log of the calls) and enter the modes
    with lists that exist, the count of a completion list is exactly the number
    of its workers and schedulers, plus one until the log says it was deleted,
    so that it outlives them.  Interleaving: in every
    interleaving of adders and takers each element is handed to one task, and in
    order if all are added at the tail; at most one task is between lock and
    unlock; a task sleeps only while the queue is empty or a wakeup for it is
    under way; the calls come to rest.  A consistency lemma relates the two
    translations of the queue functions: a task that runs alone computes the
    sequential functions.  RCU: every call returns outside RCU sections and gives
    up the CPU outside of them, with the exceptions stated.  Device and procfs:
    dispatch, loading and unloading, opening, the paths and their buffers for
    every 32-bit pid, the number in the name of a worker's link, and reads of
    info files, whose bytes come from a stack buffer that is modelled byte by
    byte: a read of bytes that were never written is undefined.  Library: the scheduling loop agrees
    with a step relation, and on the module it reports the events in the order
    of the kernel's queue; the error contract; the life of a worker thread;
    fork.  Example on library on module: the contexts of a completion list are
    run once each and in order.  Tests: the suites of completion lists and of
    workers pass on the modelled library, and so do the assertions of the
    scheduler entry points; the tests that run a scheduler read an event that
    the stub never wrote.  Benchmark: the timer shows the time between two
    readings, the workers' loop decides primality, and of the blocks obtained
    with malloc a suite that is created and destroyed, or cannot be created,
    leaves none but itself; the thread attributes it initialised are counted and
    shown to be lost.  Failures of the calls are tied to the answer of the
    kernel or of malloc that causes them where the comment says so; where a document of the repository says something
    else than the code does, the theorem says so in its comment.  Defects: theorems marked so prove that a path
    of the code does something it must not do.

    ** Bounds and fuel

    [dequeue_complist_loop] and [dequeue_event_loop] have fuel 2: a wait that
    returns 0 has just seen its condition true, so the loop ends in its second
    round; the theorems state [Ok] or [Sleep], never that fuel ran out.  [walk]
    and [hwalk] have a bound on the number of nodes.  [pde_below] has the number
    of entries.  [scheduling_loop] is endless in C; its fuel bounds the passes,
    and the theorem about it relates every number of passes to the unbounded
    relation [passes].  The loops of [get_next_context] need more fuel than the
    batch is long, which the theorem assumes and shows to be enough.  In
    [Interleave] an addition takes 4 steps alone and a take 8; the executable
    schedules are shown to be runs of the step relation, which has no bound, and
    all runs to settle.  [prime_loop] has the number of passes of the C loop.
    Integers keep the width of the C types ([s32], [u64], ...).

    ** What is not modelled

    In [System] a handler runs without interleaving up to the point where it
    sleeps or calls [schedule]; the functions on the shared queues, which all
    handlers meet in, are also interleaved step by step ([Interleave]), where the
    signal test of the wait comes after the condition has been tested again.  After
    [schedule] only [return 0] follows in each handler, so it is modelled as a
    mark in [w_blk] and the return.  Reference counts are unbounded integers; the
    kernel's saturate at the largest [int].  Of the attributes of a thread only
    the number of initialised variables is kept.  Memory ordering and
    interrupts are left out.  There is one open device file.  A process is seen
    from one thread: other threads act through the services it calls, and do not
    write to the memory it uses; the threads of the unit tests run when they
    are joined.  The command line of the benchmark is modelled as parsed by
    getopt, and the texts it prints are shortened.  Of the tables of functions,
    those of procfs are not definitions: the kernel calls the one handler in
    each.  The header [src/src/lib/include/ums.h] only declares and documents
    functions.  The build files, the packaging and the documentation hold no
    program logic.

    ** Extensions

    The handlers as a whole could be interleaved step by step the way the queue
    functions are, which would need a model of RCU grace periods; and the threads
    of the example could run as concurrent processes over the transition
    system. *)

From stdpp Require Import prelude gmap strings pretty.

#[export] Set Default Goal Selector "!".
#[export] Set Warnings "-clear-no-such-hyp".

(** ** Error numbers

    The values of <errno.h> / <linux/errno.h> that the sources return. *)
Definition ESRCH : Z := 3.
Definition EINTR : Z := 4.
Definition EBADF : Z := 9.
Definition EAGAIN : Z := 11.
Definition ENOMEM : Z := 12.
Definition EACCES : Z := 13.
Definition EFAULT : Z := 14.
Definition EINVAL : Z := 22.
Definition ENOSPC : Z := 28.
Definition ENOTSUP : Z := 95.
Definition ERESTARTSYS : Z := 512.
Definition ENOTSUPP : Z := 524.

(** Flags of open(2), <fcntl.h>. *)
Definition O_ACCMODE : Z := 3.
Definition O_RDONLY : Z := 0.

(** ** Machine integers

    Integers are [Z]; a conversion to a C type of [w] bits is written out with
    the two functions below. *)
Definition wrap_u (w : Z) (z : Z) : Z := z mod 2 ^ w.
Definition wrap_s (w : Z) (z : Z) : Z := (z + 2 ^ (w - 1)) mod 2 ^ w - 2 ^ (w - 1).

Abbreviation u64 := (wrap_u 64).
Abbreviation u32 := (wrap_u 32).
Abbreviation s32 := (wrap_s 32).
Abbreviation s64 := (wrap_s 64).

Lemma wrap_u_id w z : (0 ≤ w → 0 ≤ z < 2 ^ w → wrap_u w z = z)%Z.
Proof. intros ??. apply Z.mod_small. lia. Qed.

Lemma wrap_s_id w z : (0 < w → - 2 ^ (w - 1) ≤ z < 2 ^ (w - 1) → wrap_s w z = z)%Z.
Proof.
  intros Hw Hz. unfold wrap_s. assert (2 ^ w = 2 * 2 ^ (w - 1))%Z.
  { rewrite <- Z.pow_succ_r by lia. f_equal. lia. }
  rewrite Z.mod_small; lia.
Qed.

Lemma wrap_u_range w z : (0 ≤ w → 0 ≤ wrap_u w z < 2 ^ w)%Z.
Proof. intros. apply Z.mod_pos_bound. apply Z.pow_pos_nonneg; lia. Qed.

Lemma wrap_s_range w z : (0 < w → - 2 ^ (w - 1) ≤ wrap_s w z < 2 ^ (w - 1))%Z.
Proof.
  intros Hw. unfold wrap_s. assert (2 ^ w = 2 * 2 ^ (w - 1))%Z.
  { rewrite <- Z.pow_succ_r by lia. f_equal. lia. }
  pose proof (Z.mod_pos_bound (z + 2 ^ (w - 1)) (2 ^ w)). 
  assert (0 < 2 ^ (w-1))%Z by (apply Z.pow_pos_nonneg; lia). lia.
Qed.

(** ** Decimal numerals and strings *)

Lemma string_length_app (s t : string) :
  String.length (s +:+ t) = (String.length s + String.length t)%nat.
Proof. induction s as [|c s IH]; simpl; [done|by rewrite IH]. Qed.

Lemma string_app_assoc (s t u : string) : (s +:+ t) +:+ u = s +:+ (t +:+ u).
Proof. induction s as [|c s IH]; [done|]. change (String c ((s +:+ t) +:+ u) = String c (s +:+ (t +:+ u))). by rewrite IH. Qed.

Lemma substring_all (s : string) n : String.length s ≤ n → String.substring 0 n s = s.
Proof.
  revert n. induction s as [|c s IH]; intros [|n] Hn; simpl in *; try done; [lia|].
  rewrite IH by lia. done.
Qed.

Lemma substring_split (s : string) a n m :
  String.substring a n s +:+ String.substring (a + n) m s = String.substring a (n + m) s.
Proof.
  revert a n m. induction s as [|ch s IH]; intros [|a] [|n] m; simpl; try done.
  change (String ch (String.substring 0 n s +:+ String.substring n m s) =
          String ch (String.substring 0 (n + m) s)).
  by rewrite (IH 0 n m : String.substring 0 n s +:+ String.substring n m s = _).
Qed.
Lemma substring_long (s : string) a n m :
  String.length s ≤ a + n → String.length s ≤ a + m →
  String.substring a n s = String.substring a m s.
Proof.
  revert a n m. induction s as [|ch s IH]; intros [|a] [|n] [|m] Hn Hm; simpl in *;
    try done; try lia; try (apply IH; lia).
  f_equal. apply IH; lia.
Qed.
Lemma substring_prefix (s : string) off n m :
  m ≤ n → String.substring 0 m (String.substring off n s) = String.substring off m s.
Proof.
  revert off n m. induction s as [|c s IH]; intros [|off] [|n] [|m] Hle; try done; try lia; simpl.
  - f_equal. apply (IH 0 n m). lia.
  - apply (IH off 0 0). lia.
  - apply (IH off (S n) 0). lia.
  - apply (IH off (S n) (S m)). lia.
Qed.
Lemma substring_past (s : string) a n : String.length s ≤ a → String.substring a n s = "".
Proof.
  revert a. induction s as [|ch s IH]; intros [|a] Hl; simpl in *;
    [by destruct n..|lia|]. apply IH. lia.
Qed.

Lemma pretty_N_go_length (n : nat) (x : N) (s : string) :
  (x < 10 ^ N.of_nat n)%N →
  String.length s ≤ String.length (pretty_N_go x s) ≤ String.length s + n.
Proof.
  revert x s. induction n as [|n IH]; intros x s Hx.
  - assert (x = 0%N) as -> by lia. rewrite pretty_N_go_0. lia.
  - destruct (decide (x = 0%N)) as [->|Hne]; [rewrite pretty_N_go_0; lia|].
    rewrite pretty_N_go_step by lia.
    assert (x `div` 10 < 10 ^ N.of_nat n)%N as Hd.
    { apply N.Div0.div_lt_upper_bound. rewrite Nnat.Nat2N.inj_succ, N.pow_succ_r' in Hx. lia. }
    specialize (IH _ (String (pretty_N_char (x `mod` 10)) s) Hd). simpl in IH. lia.
Qed.

(** Decimal numerals have no line breaks, so that lines of text can be told
    apart. *)
Definition newline : string := String (Ascii.ascii_of_nat 10) "".
Fixpoint one_line (s : string) : bool :=
  match s with
  | "" => true
  | String c s => negb (Ascii.eqb c (Ascii.ascii_of_nat 10)) && one_line s
  end.
Lemma one_line_app s t : one_line (s +:+ t) = one_line s && one_line t.
Proof. induction s as [|c s IH]; [done|]. simpl. by rewrite <- andb_assoc, <- IH. Qed.
Lemma pretty_N_go_one_line (x : N) (s : string) :
  one_line s = true → one_line (pretty_N_go x s) = true.
Proof.
  revert s. induction (N.lt_wf_0 x) as [x _ IH]. intros s Hs.
  destruct (decide (0 < x)%N) as [Hx|Hx].
  - rewrite pretty_N_go_step by done. apply IH; [by apply N.div_lt|]. simpl. rewrite Hs.
    unfold pretty_N_char. by repeat case_match.
  - assert (x = 0%N) as -> by lia. by rewrite pretty_N_go_0.
Qed.
Lemma pretty_Z_one_line (z : Z) : one_line (pretty z) = true.
Proof.
  assert (∀ p, one_line (pretty (N.pos p)) = true) as Hp.
  { intros p. unfold pretty, pretty_N. case_decide; [done|]. by apply pretty_N_go_one_line. }
  destruct z as [|p|p]; [done|apply Hp|]. apply (Hp p).
Qed.
Lemma line_inj (s s' t t' : string) :
  one_line s = true → one_line s' = true → s +:+ newline +:+ t = s' +:+ newline +:+ t' →
  s = s' ∧ t = t'.
Proof.
  revert s'. induction s as [|c s IH]; intros [|c' s'] Hs Hs' E; simpl in *.
  - by injection E.
  - injection E as <- _. done.
  - injection E as -> _. done.
  - injection E as -> E. apply andb_true_iff in Hs as [_ Hs], Hs' as [_ Hs'].
    by destruct (IH s' Hs Hs' E) as [-> ->].
Qed.

(** Bytes of a string, as an array. *)
Lemma substring_bytes (s : string) off n :
  String.string_of_list_ascii (take n (drop off (String.list_ascii_of_string s))) =
    String.substring off n s.
Proof.
  revert off n. induction s as [|c s IH]; intros [|off] [|n]; try done; simpl.
  - f_equal. apply (IH 0 n).
  - apply (IH off 0).
  - apply (IH off (S n)).
Qed.

Lemma pretty_N_length (n : nat) (x : N) :
  (x < 10 ^ N.of_nat (S n))%N → 1 ≤ String.length (pretty x) ≤ S n.
Proof.
  intros Hx. unfold pretty, pretty_N. case_decide; [simpl; lia|].
  rewrite pretty_N_go_step by lia.
  assert (x `div` 10 < 10 ^ N.of_nat n)%N as Hd.
  { apply N.Div0.div_lt_upper_bound. rewrite Nnat.Nat2N.inj_succ, N.pow_succ_r' in Hx. lia. }
  pose proof (pretty_N_go_length n _ (String (pretty_N_char (x `mod` 10)) "") Hd) as Hlen.
  simpl in Hlen. lia.
Qed.

(** A number of at most [S n] digits, with its sign. *)
Lemma pretty_Z_length (n : nat) (z : Z) :
  (Z.abs z < 10 ^ Z.of_nat (S n))%Z →
  1 ≤ String.length (pretty z) ≤ S n + (if decide (z < 0)%Z then 1 else 0).
Proof.
  intros Hz.
  assert (∀ p, Z.abs z = Z.pos p → (N.pos p < 10 ^ N.of_nat (S n))%N) as Hp.
  { intros p Hp. rewrite Hp in Hz. apply N2Z.inj_lt. rewrite N2Z.inj_pow, nat_N_Z. done. }
  destruct z as [|p|p]; unfold pretty, pretty_Z; cbn [pretty_Z].
  - cbn. lia.
  - pose proof (pretty_N_length n (N.pos p) (Hp p eq_refl)). case_decide; [lia|].
    unfold pretty, pretty_positive. lia.
  - pose proof (pretty_N_length n (N.pos p) (Hp p eq_refl)). case_decide; [|lia].
    rewrite string_length_app. unfold pretty, pretty_positive. cbn [String.length]. lia.
Qed.

Lemma pretty_Z_nonempty (z : Z) : String.length (pretty z) ≠ 0.
Proof.
  pose proof (pretty_Z_length (Z.to_nat (Z.abs z)) z) as H.
  assert (Z.abs z < 10 ^ Z.of_nat (S (Z.to_nat (Z.abs z))))%Z as Hlt.
  { rewrite Nat2Z.inj_succ, Z2Nat.id by lia.
    pose proof (Z.pow_gt_lin_r 10 (Z.succ (Z.abs z))). lia. }
  specialize (H Hlt). lia.
Qed.

(** ** Lists *)

Lemma Forall2_impl_in {A B} (P Q : A → B → Prop) l k :
  Forall2 P l k → (∀ x y, x ∈ l → P x y → Q x y) → Forall2 Q l k.
Proof.
  induction 1 as [|x y l k HP HF IH]; intros Hi; constructor.
  - apply Hi; [apply list_elem_of_here|done].
  - apply IH. intros x' y' Hx. apply Hi. by apply list_elem_of_further.
Qed.

(** Taking a member out of a list without duplicates. *)
Lemma filter_mid {A} `{EqDecision A} (l1 : list A) x l2 :
  NoDup (l1 ++ x :: l2) → filter (.≠ x) (l1 ++ x :: l2) = l1 ++ l2.
Proof.
  intros Hnd. rewrite <- Permutation_middle, NoDup_cons in Hnd.
  assert (∀ l : list A, x ∉ l → filter (.≠ x) l = l) as Hid.
  { intros l. induction l as [|y l IH]; intros Hx; [done|].
    rewrite filter_cons_True by set_solver. f_equal. apply IH. set_solver. }
  rewrite filter_app, filter_cons_False by naive_solver.
  rewrite !Hid by set_solver. done.
Qed.
