(* ===== verification/ListHead.v ===== *)
(** * Doubly linked lists: [src/src/util/list.h]

    The intrusive circular lists of [src/src/util/list.h], modelled at the
    level of the C code: a memory of [struct list_head] cells, pointers that
    can be garbage, NULL or one of the two poison values, and one definition
    per routine performing the same field reads and writes in the same order.
    A read or write through a pointer that is not a live cell is [None].

    [is_list m h l] relates the memory to the sequence [l] of nodes of the
    list headed by [h]; the theorems show that every routine implements the
    sequence operation it is documented to implement and touches no other
    cell.  [ListOps]/[ListLaws] is the interface the kernel module relies on
    (<linux/list.h>); the routines of this file are an instance of it. *)
From S2P Require Import Prelude.
From stdpp Require Import prelude gmap.

(** ** Cells and pointers *)

(** A [struct list_head *] value: uninitialised, NULL, the two poison values
    of [list_del], or the address of a cell. *)
Inductive lptr (A : Type) :=
  | LUninit
  | LNull
  | LIST_POISON1
  | LIST_POISON2
  | LNode (a : A).
Arguments LUninit {A}.
Arguments LNull {A}.
Arguments LIST_POISON1 {A}.
Arguments LIST_POISON2 {A}.
Arguments LNode {A} a.

#[global] Instance lptr_eq_dec {A} `{EqDecision A} : EqDecision (lptr A).
Proof. solve_decision. Defined.

(** [struct list_head] *)
Record list_head (A : Type) := mk_list_head { next : lptr A; prev : lptr A }.
Arguments mk_list_head {A} next prev.
Arguments next {A} l.
Arguments prev {A} l.

Abbreviation lmem A := (gmap A (list_head A)).

Definition is_node {A} (p : lptr A) : option A :=
  match p with LNode a => Some a | _ => None end.

Section list_h.
Context {A : Type} `{Countable A}.
Implicit Types (m : lmem A) (p q : lptr A) (a h n x : A) (l : list A).

(** [p->next], [p->prev], [p->next = v], [p->prev = v] *)
Definition ld_next p m : option (lptr A) := a ← is_node p; next <$> m !! a.
Definition ld_prev p m : option (lptr A) := a ← is_node p; prev <$> m !! a.
Definition st_next p (v : lptr A) m : option (lmem A) :=
  a ← is_node p; c ← m !! a; Some (<[a := mk_list_head v (prev c)]> m).
Definition st_prev p (v : lptr A) m : option (lmem A) :=
  a ← is_node p; c ← m !! a; Some (<[a := mk_list_head (next c) v]> m).

(** ** The routines *)

Definition INIT_LIST_HEAD p m : option (lmem A) :=
  m ← st_next p p m; st_prev p p m.

Definition __list_add (new prv nxt : lptr A) m : option (lmem A) :=
  m ← st_prev nxt new m;
  m ← st_next new nxt m;
  m ← st_prev new prv m;
  st_next prv new m.

Definition list_add (new head : lptr A) m : option (lmem A) :=
  hn ← ld_next head m; __list_add new head hn m.

Definition list_add_tail (new head : lptr A) m : option (lmem A) :=
  hp ← ld_prev head m; __list_add new hp head m.

Definition __list_del (prv nxt : lptr A) m : option (lmem A) :=
  m ← st_prev nxt prv m; st_next prv nxt m.

Definition list_del (entry : lptr A) m : option (lmem A) :=
  ep ← ld_prev entry m;
  en ← ld_next entry m;
  m ← __list_del ep en m;
  m ← st_next entry LIST_POISON1 m;
  st_prev entry LIST_POISON2 m.

Definition list_del_init (entry : lptr A) m : option (lmem A) :=
  ep ← ld_prev entry m;
  en ← ld_next entry m;
  m ← __list_del ep en m;
  INIT_LIST_HEAD entry m.

Definition list_move (lst head : lptr A) m : option (lmem A) :=
  lp ← ld_prev lst m;
  ln ← ld_next lst m;
  m ← __list_del lp ln m;
  list_add lst head m.

Definition list_move_tail (lst head : lptr A) m : option (lmem A) :=
  lp ← ld_prev lst m;
  ln ← ld_next lst m;
  m ← __list_del lp ln m;
  list_add_tail lst head m.

Definition list_empty (head : lptr A) m : option bool :=
  hn ← ld_next head m; Some (bool_decide (hn = head)).

Definition __list_splice (lst head : lptr A) m : option (lmem A) :=
  first ← ld_next lst m;
  last ← ld_prev lst m;
  at_ ← ld_next head m;
  m ← st_prev first head m;
  m ← st_next head first m;
  m ← st_next last at_ m;
  st_prev at_ last m.

Definition list_splice (lst head : lptr A) m : option (lmem A) :=
  e ← list_empty lst m;
  if (e : bool) then Some m else __list_splice lst head m.

Definition list_splice_init (lst head : lptr A) m : option (lmem A) :=
  e ← list_empty lst m;
  if (e : bool) then Some m
  else m ← __list_splice lst head m; INIT_LIST_HEAD lst m.

(** [list_first_entry]/[list_last_entry] before the [container_of]: the node
    [(ptr)->next] ([(ptr)->prev]) designates. *)
Definition list_first_entry (head : lptr A) m : option A :=
  hn ← ld_next head m; is_node hn.
Definition list_last_entry (head : lptr A) m : option A :=
  hp ← ld_prev head m; is_node hp.

(** The iteration macros.  [fuel] bounds the number of turns of the loop;
    [for_each step] starts at [(head)->next], stops at [head], and returns
    the nodes in the order the loop body sees them. *)
Fixpoint walk (ld : lptr A → lmem A → option (lptr A)) (fuel : nat)
    (pos head : lptr A) m : option (list A) :=
  if decide (pos = head) then Some [] else
  match fuel with
  | O => None
  | S fuel =>
      a ← is_node pos;
      pos' ← ld pos m;
      rest ← walk ld fuel pos' head m;
      Some (a :: rest)
  end.

Definition list_for_each (fuel : nat) (head : lptr A) m : option (list A) :=
  pos ← ld_next head m; walk ld_next fuel pos head m.
Definition list_for_each_prev (fuel : nat) (head : lptr A) m : option (list A) :=
  pos ← ld_prev head m; walk ld_prev fuel pos head m.

(** [list_for_each_safe]: the successor [n] (in the direction of [ld]) is read
    before the body runs, so the body may unlink [pos]. *)
Fixpoint walk_safe (ld : lptr A → lmem A → option (lptr A)) (body : A → lmem A → option (lmem A)) (fuel : nat)
    (pos n head : lptr A) m : option (lmem A) :=
  if decide (pos = head) then Some m else
  match fuel with
  | O => None
  | S fuel =>
      a ← is_node pos;
      m ← body a m;
      n' ← ld n m;
      walk_safe ld body fuel n n' head m
  end.

Definition list_for_each_safe (body : A → lmem A → option (lmem A))
    (fuel : nat) (head : lptr A) m : option (lmem A) :=
  pos ← ld_next head m;
  n ← ld_next pos m;
  walk_safe ld_next body fuel pos n head m.

(** ** The representation predicate *)

Definition link m a b : Prop :=
  ld_next (LNode a) m = Some (LNode b) ∧ ld_prev (LNode b) m = Some (LNode a).

(** [seg m a l b]: following [next] from [a] passes through [l] and reaches
    [b], and the [prev] pointers lead back. *)
Fixpoint seg m a l b : Prop :=
  match l with
  | [] => link m a b
  | x :: l => link m a x ∧ seg m x l b
  end.

Definition is_list m h l : Prop := NoDup (h :: l) ∧ seg m h l h.

(** ** Field access lemmas *)

Abbreviation nx m a := (ld_next (LNode a) m).
Abbreviation pv m a := (ld_prev (LNode a) m).

(** What one field write does, as seen through [nx], [pv] and [m !! b]. *)
Lemma st_next_spec m a v :
  is_Some (m !! a) →
  ∃ m', st_next (LNode a) v m = Some m' ∧ dom m' = dom m ∧
    (∀ b, nx m' b = if decide (b = a) then Some v else nx m b) ∧
    (∀ b, pv m' b = pv m b) ∧ (∀ b, b ≠ a → m' !! b = m !! b).
Proof.
  intros [c Hc]. unfold st_next, ld_next, ld_prev; simpl. rewrite Hc; simpl.
  eexists; split_and!; [done| |..].
  - rewrite dom_insert_lookup_L; eauto.
  - intros b. rewrite lookup_insert. by repeat case_decide; simplify_eq.
  - intros b. rewrite lookup_insert. case_decide; [by simplify_eq; rewrite Hc|done].
  - intros b ?. by rewrite lookup_insert_ne.
Qed.

Lemma st_prev_spec m a v :
  is_Some (m !! a) →
  ∃ m', st_prev (LNode a) v m = Some m' ∧ dom m' = dom m ∧
    (∀ b, pv m' b = if decide (b = a) then Some v else pv m b) ∧
    (∀ b, nx m' b = nx m b) ∧ (∀ b, b ≠ a → m' !! b = m !! b).
Proof.
  intros [c Hc]. unfold st_prev, ld_next, ld_prev; simpl. rewrite Hc; simpl.
  eexists; split_and!; [done| |..].
  - rewrite dom_insert_lookup_L; eauto.
  - intros b. rewrite lookup_insert. by repeat case_decide; simplify_eq.
  - intros b. rewrite lookup_insert. case_decide; [by simplify_eq; rewrite Hc|done].
  - intros b ?. by rewrite lookup_insert_ne.
Qed.

Lemma nx_dom m a p : nx m a = Some p → is_Some (m !! a).
Proof. unfold ld_next; simpl. intros. destruct (m !! a); naive_solver. Qed.
Lemma pv_dom m a p : pv m a = Some p → is_Some (m !! a).
Proof. unfold ld_prev; simpl. intros. destruct (m !! a); naive_solver. Qed.
Lemma lookup_dom_eq m m' a : dom m' = dom m → is_Some (m !! a) → is_Some (m' !! a).
Proof. intros Hd. rewrite <- !elem_of_dom. by rewrite Hd. Qed.
End list_h.

Abbreviation nx m a := (ld_next (LNode a) m).
Abbreviation pv m a := (ld_prev (LNode a) m).

Create HintDb list_head.
#[export] Hint Resolve nx_dom pv_dom : list_head.

(** Run one field write whose cell is known to be live, keeping the equations
    that describe the new memory. *)
Ltac run_st :=
  match goal with
  | |- context [st_next (LNode ?a) ?v ?m ≫= _] =>
      let m' := fresh "m" in let E := fresh "E" in
      let D := fresh "Hdom" in let N := fresh "Hnx" in
      let P := fresh "Hpv" in let F := fresh "Hfr" in
      destruct (st_next_spec m a v) as (m' & E & D & N & P & F);
      [|rewrite E; simpl; clear E]
  | |- context [st_prev (LNode ?a) ?v ?m ≫= _] =>
      let m' := fresh "m" in let E := fresh "E" in
      let D := fresh "Hdom" in let N := fresh "Hpv" in
      let P := fresh "Hnx" in let F := fresh "Hfr" in
      destruct (st_prev_spec m a v) as (m' & E & D & N & P & F);
      [|rewrite E; simpl; clear E]
  | |- context [st_next (LNode ?a) ?v ?m] =>
      let m' := fresh "m" in let E := fresh "E" in
      let D := fresh "Hdom" in let N := fresh "Hnx" in
      let P := fresh "Hpv" in let F := fresh "Hfr" in
      destruct (st_next_spec m a v) as (m' & E & D & N & P & F);
      [|rewrite E; simpl; clear E]
  | |- context [st_prev (LNode ?a) ?v ?m] =>
      let m' := fresh "m" in let E := fresh "E" in
      let D := fresh "Hdom" in let N := fresh "Hpv" in
      let P := fresh "Hnx" in let F := fresh "Hfr" in
      destruct (st_prev_spec m a v) as (m' & E & D & N & P & F);
      [|rewrite E; simpl; clear E]
  end.

(** A cell stays live across field writes: chase [dom m' = dom m]. *)
Ltac live :=
  apply elem_of_dom;
  repeat match goal with
         | E : dom ?m' = dom _ |- _ ∈ dom ?m' => rewrite E
         end;
  apply elem_of_dom; eauto with list_head.

Section list_h_proofs.
Context {A : Type} `{Countable A}.
Implicit Types (m : lmem A) (p q : lptr A) (a b h n x y : A) (l : list A).

(** The net effect of the two internal routines, whatever the aliasing of
    their arguments. *)
Lemma __list_add_spec m n a b :
  n ≠ a → n ≠ b → is_Some (m !! n) → is_Some (m !! a) → is_Some (m !! b) →
  ∃ m', __list_add (LNode n) (LNode a) (LNode b) m = Some m' ∧ dom m' = dom m ∧
    (∀ y, nx m' y = if decide (y = a) then Some (LNode n)
                    else if decide (y = n) then Some (LNode b) else nx m y) ∧
    (∀ y, pv m' y = if decide (y = n) then Some (LNode a)
                    else if decide (y = b) then Some (LNode n) else pv m y) ∧
    (∀ y, y ≠ n → y ≠ a → y ≠ b → m' !! y = m !! y).
Proof.
  intros Hna Hnb Hn Ha Hb. unfold __list_add.
  run_st; [done|]. run_st; [by live|]. run_st; [by live|]. run_st; [by live|].
  eexists; split_and!; [done|congruence|..].
  - intros y. rewrite Hnx2. case_decide; [done|]. by rewrite Hnx1, Hnx0, Hnx.
  - intros y. rewrite Hpv2, Hpv1. case_decide; [done|]. by rewrite Hpv0, Hpv.
  - intros. rewrite Hfr2, Hfr1, Hfr0, Hfr; done.
Qed.

Lemma __list_del_spec m a b :
  is_Some (m !! a) → is_Some (m !! b) →
  ∃ m', __list_del (LNode a) (LNode b) m = Some m' ∧ dom m' = dom m ∧
    (∀ y, nx m' y = if decide (y = a) then Some (LNode b) else nx m y) ∧
    (∀ y, pv m' y = if decide (y = b) then Some (LNode a) else pv m y) ∧
    (∀ y, y ≠ a → y ≠ b → m' !! y = m !! y).
Proof.
  intros Ha Hb. unfold __list_del.
  run_st; [done|]. run_st; [by live|].
  eexists; split_and!; [done|congruence|..].
  - intros y. by rewrite Hnx0, Hnx.
  - intros y. by rewrite Hpv0, Hpv.
  - intros. rewrite Hfr0, Hfr; done.
Qed.

(** ** Segments *)

Definition last_or a l : A := default a (last l).
Definition head_or l b : A := default b (head l).

Arguments last_or : simpl never.
Arguments head_or : simpl never.

Lemma last_or_cons a x l : last_or a (x :: l) = last_or x l.
Proof. unfold last_or. rewrite last_cons. by destruct (last l). Qed.
Lemma last_or_snoc a x l : last_or a (l ++ [x]) = x.
Proof. unfold last_or. by rewrite last_snoc. Qed.
Lemma last_or_in a l : last_or a l ∈ a :: l.
Proof.
  revert a. induction l as [|x l IH]; intros a; [apply list_elem_of_singleton; done|].
  rewrite last_or_cons. specialize (IH x). set_solver.
Qed.
Lemma head_or_in l b : head_or l b ∈ l ++ [b].
Proof. destruct l; unfold head_or; simpl; set_solver. Qed.

Lemma seg_frame m m' a l b :
  (∀ y, y ∈ a :: l → nx m' y = nx m y) → (∀ y, y ∈ l ++ [b] → pv m' y = pv m y) →
  seg m a l b → seg m' a l b.
Proof.
  revert a. induction l as [|x l IH]; simpl; intros a Hn Hp.
  - unfold link. rewrite Hn, Hp by set_solver. done.
  - intros [[??] ?]. split.
    + unfold link. rewrite Hn, Hp by set_solver. done.
    + apply IH; [..|done]; intros; [apply Hn|apply Hp]; set_solver.
Qed.

Lemma seg_app m a l1 x l2 b :
  seg m a (l1 ++ x :: l2) b ↔ seg m a l1 x ∧ seg m x l2 b.
Proof. revert a. induction l1 as [|y l1 IH]; intros a; simpl; [done|]. rewrite IH. tauto. Qed.

Lemma seg_first m a l b : seg m a l b → nx m a = Some (LNode (head_or l b)).
Proof. destruct l; simpl; unfold link; naive_solver. Qed.
Lemma seg_last m a l b : seg m a l b → pv m b = Some (LNode (last_or a l)).
Proof.
  revert a. induction l as [|x l IH]; intros a; simpl; [unfold link; naive_solver|].
  rewrite last_or_cons. naive_solver.
Qed.

Lemma seg_live m a l b y : seg m a l b → y ∈ a :: l ++ [b] → is_Some (m !! y).
Proof.
  revert a. induction l as [|x l IH]; intros a; simpl; unfold link.
  - intros [??] Hy. assert (y = a ∨ y = b) as [-> | ->] by set_solver; eauto with list_head.
  - intros [[??] ?] [->|Hy]%elem_of_cons; eauto with list_head.
Qed.

(** Memory change that links [n] between the neighbours [a'] and [b']. *)
Definition linked m m' (n a' b' : A) : Prop :=
  (∀ y, nx m' y = if decide (y = a') then Some (LNode n)
                  else if decide (y = n) then Some (LNode b') else nx m y) ∧
  (∀ y, pv m' y = if decide (y = n) then Some (LNode a')
                  else if decide (y = b') then Some (LNode n) else pv m y).
Definition unlinked m m' (a' b' : A) : Prop :=
  (∀ y, nx m' y = if decide (y = a') then Some (LNode b') else nx m y) ∧
  (∀ y, pv m' y = if decide (y = b') then Some (LNode a') else pv m y).

Ltac cases := repeat case_decide; simplify_eq; try done; try set_solver.

Lemma seg_insert m m' a l1 l2 b n :
  NoDup (a :: l1 ++ l2) → b ∉ l1 ++ l2 → n ∉ a :: l1 ++ l2 → n ≠ b →
  linked m m' n (last_or a l1) (head_or l2 b) →
  seg m a (l1 ++ l2) b → seg m' a (l1 ++ n :: l2) b.
Proof.
  intros Hnd Hb Hn Hnb [Hnx Hpv] Hseg. revert a Hnd Hn Hnx Hpv Hseg.
  induction l1 as [|y l1 IH]; intros a [Ha Hnd]%NoDup_cons Hn Hnx Hpv Hseg.
  - simpl in *. unfold last_or in *; simpl in *. split.
    + split; [rewrite Hnx|rewrite Hpv]; cases.
    + destruct l2 as [|x l2]; unfold head_or in *; simpl in *.
      * split; [rewrite Hnx|rewrite Hpv]; cases.
      * apply NoDup_cons in Hnd as [Hx Hnd]. split.
        { split; [rewrite Hnx|rewrite Hpv]; cases. }
        eapply seg_frame, Hseg; intros y Hy; [rewrite Hnx|rewrite Hpv]; cases.
  - simpl in *. destruct Hseg as [[Hl1 Hl2] Hseg].
    rewrite last_or_cons in *. pose proof (last_or_in y l1) as Hlast.
    pose proof (head_or_in l2 b) as Hhd. apply NoDup_cons in Hnd as Hnd'.
    split; [|apply IH; try done; set_solver].
    split; [rewrite Hnx|rewrite Hpv]; cases.
Qed.

Lemma seg_delete m m' a l1 n l2 b :
  NoDup (a :: l1 ++ n :: l2) → b ∉ l1 ++ n :: l2 →
  unlinked m m' (last_or a l1) (head_or l2 b) →
  seg m a (l1 ++ n :: l2) b → seg m' a (l1 ++ l2) b.
Proof.
  intros Hnd Hb [Hnx Hpv] Hseg. revert a Hnd Hnx Hpv Hseg.
  induction l1 as [|y l1 IH]; intros a [Ha Hnd]%NoDup_cons Hnx Hpv Hseg.
  - simpl in *. unfold last_or in *; simpl in *. destruct Hseg as [_ Hseg].
    apply NoDup_cons in Hnd as [Hn Hnd].
    destruct l2 as [|x l2]; unfold head_or in *; simpl in *.
    + split; [rewrite Hnx|rewrite Hpv]; cases.
    + apply NoDup_cons in Hnd as [Hx Hnd]. destruct Hseg as [_ Hseg]. split.
      { split; [rewrite Hnx|rewrite Hpv]; cases. }
      eapply seg_frame, Hseg; intros y Hy; [rewrite Hnx|rewrite Hpv]; cases.
  - simpl in *. destruct Hseg as [[Hl1 Hl2] Hseg].
    rewrite last_or_cons in *. pose proof (last_or_in y l1) as Hlast.
    pose proof (head_or_in l2 b) as Hhd. apply NoDup_cons in Hnd as Hnd'.
    split; [|apply IH; try done; set_solver].
    split; [rewrite Hnx|rewrite Hpv]; cases.
Qed.

(** ** Rings *)

(** [m'] has the cells of [m], and agrees with it outside [fp]. *)
Definition touches (fp : list A) m m' : Prop :=
  dom m' = dom m ∧ ∀ y, y ∉ fp → m' !! y = m !! y.

Lemma touches_trans fp1 fp2 fp m1 m2 m3 :
  touches fp1 m1 m2 → touches fp2 m2 m3 → fp1 ⊆ fp → fp2 ⊆ fp → touches fp m1 m3.
Proof.
  intros [D1 F1] [D2 F2] S1 S2. split; [congruence|].
  intros y Hy. rewrite F2, F1; set_solver.
Qed.
Lemma touches_weaken fp fp' m m' : touches fp m m' → fp ⊆ fp' → touches fp' m m'.
Proof. intros [D F] S. split; [done|]. intros. apply F. set_solver. Qed.

Lemma touches_nx fp m m' y : touches fp m m' → y ∉ fp → nx m' y = nx m y.
Proof. intros [_ F] Hy. unfold ld_next; simpl. by rewrite F. Qed.
Lemma touches_pv fp m m' y : touches fp m m' → y ∉ fp → pv m' y = pv m y.
Proof. intros [_ F] Hy. unfold ld_prev; simpl. by rewrite F. Qed.

Lemma is_list_first m h l : is_list m h l → nx m h = Some (LNode (head_or l h)).
Proof. intros [_ ?]. by eapply seg_first. Qed.
Lemma is_list_last m h l : is_list m h l → pv m h = Some (LNode (last_or h l)).
Proof. intros [_ ?]. by eapply seg_last. Qed.
Lemma is_list_live m h l y : is_list m h l → y ∈ h :: l → is_Some (m !! y).
Proof. intros [_ ?] ?. eapply seg_live; [done|]. set_solver. Qed.

(** A list no cell of which is touched stays the same list. *)
Lemma is_list_frame fp m m' h l :
  touches fp m m' → (∀ y, y ∈ h :: l → y ∉ fp) → is_list m h l → is_list m' h l.
Proof.
  intros Ht Hfp [Hnd Hseg]. split; [done|].
  eapply seg_frame, Hseg; intros y Hy; [eapply touches_nx|eapply touches_pv];
    try done; apply Hfp; set_solver.
Qed.

(** [h] heads at most one sequence. *)
Lemma seg_fun m a l1 l2 b :
  seg m a l1 b → seg m a l2 b → b ∉ l1 → b ∉ l2 → l1 = l2.
Proof.
  revert a l2. induction l1 as [|x l1 IH]; intros a [|y l2]; simpl; unfold link;
    intros H1 H2 N1 N2; destruct_and?; simplify_eq; [done|set_solver|set_solver|].
  f_equal. eapply IH; [done|done|set_solver..].
Qed.
Lemma is_list_fun m h l1 l2 : is_list m h l1 → is_list m h l2 → l1 = l2.
Proof.
  intros [[? _]%NoDup_cons S1] [[? _]%NoDup_cons S2]. by eapply seg_fun.
Qed.

(** ** What each routine does to a ring *)

Lemma INIT_LIST_HEAD_spec m h :
  is_Some (m !! h) →
  ∃ m', INIT_LIST_HEAD (LNode h) m = Some m' ∧ touches [h] m m' ∧ is_list m' h [].
Proof.
  intros Hh. unfold INIT_LIST_HEAD. run_st; [done|]. run_st; [by live|].
  eexists; split_and!; [done|..].
  - split; [congruence|]. intros y Hy. rewrite Hfr0, Hfr; set_solver.
  - split; [apply NoDup_singleton|]. split; [rewrite Hnx0, Hnx|rewrite Hpv0]; by case_decide.
Qed.

(** Linking [n] in at any place of a ring. *)
Lemma ring_insert m h l1 l2 n :
  is_list m h (l1 ++ l2) → n ∉ h :: l1 ++ l2 → is_Some (m !! n) →
  ∃ m', __list_add (LNode n) (LNode (last_or h l1)) (LNode (head_or l2 h)) m = Some m' ∧
    touches (n :: h :: l1 ++ l2) m m' ∧ is_list m' h (l1 ++ n :: l2).
Proof.
  intros Hl Hn Hlive. pose proof (last_or_in h l1) as Hla.
  pose proof (head_or_in l2 h) as Hhd.
  destruct (__list_add_spec m n (last_or h l1) (head_or l2 h))
    as (m' & E & D & N & P & F);
    [set_solver|set_solver|done|eapply is_list_live; [done|]; set_solver..|].
  exists m'. split_and!; [done| |].
  - split; [done|]. intros y Hy. apply F; set_solver.
  - destruct Hl as [Hnd Hseg]. apply NoDup_cons in Hnd as Hnd'. split.
    + rewrite <- Permutation_middle. apply NoDup_cons. split; [set_solver|].
      apply NoDup_cons. split; [set_solver|]. naive_solver.
    + eapply seg_insert, Hseg; try done; set_solver.
Qed.

Lemma list_add_spec m h l n :
  is_list m h l → n ∉ h :: l → is_Some (m !! n) →
  ∃ m', list_add (LNode n) (LNode h) m = Some m' ∧
    touches (n :: h :: l) m m' ∧ is_list m' h (n :: l).
Proof.
  intros Hl Hn Hlive. unfold list_add.
  rewrite (is_list_first _ _ _ Hl); simpl. exact (ring_insert m h [] l n Hl Hn Hlive).
Qed.

Lemma list_add_tail_spec m h l n :
  is_list m h l → n ∉ h :: l → is_Some (m !! n) →
  ∃ m', list_add_tail (LNode n) (LNode h) m = Some m' ∧
    touches (n :: h :: l) m m' ∧ is_list m' h (l ++ [n]).
Proof.
  intros Hl Hn Hlive. unfold list_add_tail.
  rewrite (is_list_last _ _ _ Hl); simpl.
  pose proof (ring_insert m h l [] n) as Hins. rewrite app_nil_r in Hins. by apply Hins.
Qed.

(** The neighbours of a member. *)
Lemma is_list_nbrs m h l1 x l2 :
  is_list m h (l1 ++ x :: l2) →
  pv m x = Some (LNode (last_or h l1)) ∧ nx m x = Some (LNode (head_or l2 h)).
Proof.
  intros [_ [S1 S2]%seg_app]. eauto using seg_first, seg_last.
Qed.

Lemma ring_delete m h l1 x l2 :
  is_list m h (l1 ++ x :: l2) →
  ∃ m', __list_del (LNode (last_or h l1)) (LNode (head_or l2 h)) m = Some m' ∧
    touches (h :: l1 ++ l2) m m' ∧ is_list m' h (l1 ++ l2).
Proof.
  intros Hl. pose proof (last_or_in h l1) as Hla. pose proof (head_or_in l2 h) as Hhd.
  destruct (__list_del_spec m (last_or h l1) (head_or l2 h)) as (m' & E & D & N & P & F);
    [eapply is_list_live; [done|]; set_solver..|].
  exists m'. split_and!; [done| |].
  - split; [done|]. intros y Hy. apply F; set_solver.
  - destruct Hl as [Hnd Hseg]. split.
    + rewrite <- Permutation_middle in Hnd. apply NoDup_cons in Hnd as [? Hnd].
      apply NoDup_cons in Hnd as [? ?]. apply NoDup_cons. set_solver.
    + apply NoDup_cons in Hnd as Hnd'. eapply seg_delete, Hseg; try done. naive_solver.
Qed.

Lemma list_del_spec m h l1 x l2 :
  is_list m h (l1 ++ x :: l2) →
  ∃ m', list_del (LNode x) m = Some m' ∧
    touches (h :: l1 ++ x :: l2) m m' ∧ is_list m' h (l1 ++ l2) ∧
    m' !! x = Some (mk_list_head LIST_POISON1 LIST_POISON2).
Proof.
  intros Hl. unfold list_del. destruct (is_list_nbrs _ _ _ _ _ Hl) as [-> ->]; simpl.
  destruct (ring_delete _ _ _ _ _ Hl) as (m1 & -> & Ht1 & Hl1); simpl.
  pose proof (is_list_live _ _ _ x Hl) as Hx.
  assert (x ∉ h :: l1 ++ l2) as Hxn.
  { destruct Hl as [Hnd _]. rewrite <- Permutation_middle, NoDup_cons in Hnd.
    rewrite NoDup_cons in Hnd. set_solver. }
  assert (is_Some (m1 !! x)) as [c Hc].
  { destruct Ht1 as [D _]. eapply lookup_dom_eq; [done|]. apply Hx. set_solver. }
  unfold st_next, st_prev; simpl. rewrite Hc; simpl. rewrite lookup_insert_eq; simpl.
  rewrite insert_insert_eq. eexists; split_and!; [done|..].
  - destruct Ht1 as [D F]. split.
    + rewrite dom_insert_lookup_L; eauto.
    + intros y Hy. rewrite lookup_insert_ne, F; set_solver.
  - eapply (is_list_frame [x]), Hl1; [|set_solver]. split.
    + rewrite dom_insert_lookup_L; eauto.
    + intros y Hy. rewrite lookup_insert_ne; set_solver.
  - by rewrite lookup_insert_eq.
Qed.

Lemma list_del_init_spec m h l1 x l2 :
  is_list m h (l1 ++ x :: l2) →
  ∃ m', list_del_init (LNode x) m = Some m' ∧
    touches (h :: l1 ++ x :: l2) m m' ∧ is_list m' h (l1 ++ l2) ∧ is_list m' x [].
Proof.
  intros Hl. unfold list_del_init.
  destruct (is_list_nbrs _ _ _ _ _ Hl) as [-> ->]; simpl.
  destruct (ring_delete _ _ _ _ _ Hl) as (m1 & -> & Ht1 & Hl1); simpl.
  assert (x ∉ h :: l1 ++ l2) as Hxn.
  { destruct Hl as [Hnd _]. rewrite <- Permutation_middle, NoDup_cons in Hnd.
    rewrite NoDup_cons in Hnd. set_solver. }
  destruct (INIT_LIST_HEAD_spec m1 x) as (m2 & -> & Ht2 & Hl2).
  { destruct Ht1 as [D _]. eapply lookup_dom_eq; [done|].
    eapply is_list_live; [done|]. set_solver. }
  eexists; split_and!; [done|..].
  - eapply touches_trans; [done|done|set_solver..].
  - eapply is_list_frame; [done| |done]. set_solver.
  - done.
Qed.

(** [list_move]/[list_move_tail] take [x] out of the ring [k] and put it at
    the front (the back) of the ring [h]. *)
Lemma list_move_prep m h l k l1 x l2 :
  is_list m h l → is_list m k (l1 ++ x :: l2) →
  (∀ y, y ∈ h :: l → y ∉ k :: l1 ++ x :: l2) →
  ∃ m1, (lp ← ld_prev (LNode x) m; (ln ← ld_next (LNode x) m; __list_del lp ln m)) = Some m1 ∧
    touches (k :: l1 ++ l2) m m1 ∧ is_list m1 k (l1 ++ l2) ∧ is_list m1 h l ∧
    is_Some (m1 !! x) ∧ (x ∉ h :: l) ∧ (x ∉ k :: l1 ++ l2).
Proof.
  intros Hh Hk Hdis. destruct (is_list_nbrs _ _ _ _ _ Hk) as [-> ->]; simpl.
  destruct (ring_delete _ _ _ _ _ Hk) as (m1 & E & Ht1 & Hl1). exists m1.
  split_and!; [done..| | | |].
  - eapply is_list_frame; [done| |done]. intros y Hy. specialize (Hdis y Hy). set_solver.
  - destruct Ht1 as [D _]. eapply lookup_dom_eq; [done|].
    eapply is_list_live; [done|]. set_solver.
  - intros Hx. apply (Hdis x Hx). set_solver.
  - destruct Hk as [Hnd _]. rewrite <- Permutation_middle, NoDup_cons in Hnd.
    rewrite NoDup_cons in Hnd. set_solver.
Qed.

Lemma list_move_spec m h l k l1 x l2 :
  is_list m h l → is_list m k (l1 ++ x :: l2) →
  (∀ y, y ∈ h :: l → y ∉ k :: l1 ++ x :: l2) →
  ∃ m', list_move (LNode x) (LNode h) m = Some m' ∧
    touches (k :: l1 ++ x :: l2 ++ h :: l) m m' ∧
    is_list m' k (l1 ++ l2) ∧ is_list m' h (x :: l).
Proof.
  intros Hh Hk Hdis.
  destruct (list_move_prep m h l k l1 x l2) as (m1 & E & Ht & Hk1 & Hh1 & Hlx & Hx & Hx');
    [done..|].
  unfold list_move. destruct (ld_prev _ m) as [lp|]; simplify_eq/=.
  destruct (ld_next _ m) as [ln|]; simplify_eq/=. rewrite E; simpl.
  destruct (list_add_spec m1 h l x) as (m2 & -> & Ht2 & Hl2); [done..|].
  eexists; split_and!; [done|..].
  - eapply touches_trans; [done|done|set_solver..].
  - eapply is_list_frame; [done| |done]. intros y Hy Hy'.
    assert (y ∈ h :: l) as Hin by set_solver. apply (Hdis y Hin). set_solver.
  - done.
Qed.

Lemma list_move_tail_spec m h l k l1 x l2 :
  is_list m h l → is_list m k (l1 ++ x :: l2) →
  (∀ y, y ∈ h :: l → y ∉ k :: l1 ++ x :: l2) →
  ∃ m', list_move_tail (LNode x) (LNode h) m = Some m' ∧
    touches (k :: l1 ++ x :: l2 ++ h :: l) m m' ∧
    is_list m' k (l1 ++ l2) ∧ is_list m' h (l ++ [x]).
Proof.
  intros Hh Hk Hdis.
  destruct (list_move_prep m h l k l1 x l2) as (m1 & E & Ht & Hk1 & Hh1 & Hlx & Hx & Hx');
    [done..|].
  unfold list_move_tail. destruct (ld_prev _ m) as [lp|]; simplify_eq/=.
  destruct (ld_next _ m) as [ln|]; simplify_eq/=. rewrite E; simpl.
  destruct (list_add_tail_spec m1 h l x) as (m2 & -> & Ht2 & Hl2); [done..|].
  eexists; split_and!; [done|..].
  - eapply touches_trans; [done|done|set_solver..].
  - eapply is_list_frame; [done| |done]. intros y Hy Hy'.
    assert (y ∈ h :: l) as Hin by set_solver. apply (Hdis y Hin). set_solver.
  - done.
Qed.

Lemma list_empty_spec m h l :
  is_list m h l → list_empty (LNode h) m = Some (bool_decide (l = [])).
Proof.
  intros Hl. unfold list_empty. rewrite (is_list_first _ _ _ Hl); simpl. f_equal.
  destruct Hl as [[Hh _]%NoDup_cons _]. destruct l as [|x l]; unfold head_or; simpl.
  - by rewrite !bool_decide_eq_true_2.
  - rewrite !bool_decide_eq_false_2; [done..|]. intros ?; simplify_eq. set_solver.
Qed.

Lemma list_first_entry_spec m h x l :
  is_list m h (x :: l) → list_first_entry (LNode h) m = Some x.
Proof. intros Hl. unfold list_first_entry. by rewrite (is_list_first _ _ _ Hl). Qed.
Lemma list_last_entry_spec m h x l :
  is_list m h (l ++ [x]) → list_last_entry (LNode h) m = Some x.
Proof.
  intros Hl. unfold list_last_entry. rewrite (is_list_last _ _ _ Hl); simpl.
  by rewrite last_or_snoc.
Qed.

(** ** Splicing *)

Lemma seg_retarget m m' a l b b' :
  NoDup (a :: l) →
  (∀ y, y ∈ a :: l → nx m' y = if decide (y = last_or a l) then Some (LNode b') else nx m y) →
  (∀ y, y ∈ l → pv m' y = pv m y) → pv m' b' = Some (LNode (last_or a l)) →
  seg m a l b → seg m' a l b'.
Proof.
  revert a. induction l as [|x l IH]; intros a Hnd Hn Hp Hb; simpl.
  - intros _. split; [|done]. rewrite Hn by set_solver. unfold last_or. by case_decide.
  - intros [[L1 L2] Hs]. rewrite last_or_cons in *.
    apply NoDup_cons in Hnd as [Ha Hnd]. pose proof (last_or_in x l). split.
    + split; [rewrite Hn by set_solver; case_decide; set_solver|].
      by rewrite Hp by set_solver.
    + apply IH; [done|..|done|done]; intros; [apply Hn|apply Hp]; set_solver.
Qed.

(** The four writes of [__list_splice], with [f]/[z] the first and last node
    of the inserted list and [x] the old successor of [h]. *)
Lemma __list_splice_writes m h k f z x :
  nx m k = Some (LNode f) → pv m k = Some (LNode z) → nx m h = Some (LNode x) →
  is_Some (m !! f) → is_Some (m !! z) → is_Some (m !! x) →
  ∃ m', __list_splice (LNode k) (LNode h) m = Some m' ∧ dom m' = dom m ∧
    (∀ y, nx m' y = if decide (y = z) then Some (LNode x)
                    else if decide (y = h) then Some (LNode f) else nx m y) ∧
    (∀ y, pv m' y = if decide (y = x) then Some (LNode z)
                    else if decide (y = f) then Some (LNode h) else pv m y) ∧
    (∀ y, y ≠ f → y ≠ h → y ≠ z → y ≠ x → m' !! y = m !! y).
Proof.
  intros Hf Hz Hx ???. unfold __list_splice. rewrite Hf, Hz, Hx; simpl.
  run_st; [done|]. run_st; [by live|]. run_st; [by live|]. run_st; [by live|].
  eexists; split_and!; [done|congruence|..].
  - intros y. by rewrite Hnx2, Hnx1, Hnx0, Hnx.
  - intros y. by rewrite Hpv2, Hpv1, Hpv0, Hpv.
  - intros. rewrite Hfr2, Hfr1, Hfr0, Hfr; done.
Qed.

Lemma splice_seg m m' h l k f r :
  NoDup (h :: l) → NoDup (f :: r) → (∀ y, y ∈ f :: r → y ∉ h :: l) →
  (∀ y, nx m' y = if decide (y = last_or f r) then Some (LNode (head_or l h))
                  else if decide (y = h) then Some (LNode f) else nx m y) →
  (∀ y, pv m' y = if decide (y = head_or l h) then Some (LNode (last_or f r))
                  else if decide (y = f) then Some (LNode h) else pv m y) →
  seg m h l h → seg m f r k → seg m' h (f :: r ++ l) h.
Proof.
  intros Hnd Hndr Hdis N P Hseg Hsegr.
  pose proof (last_or_in f r) as Hz. pose proof (head_or_in l h) as Hx.
  pose proof (Hdis _ Hz). assert (f ∉ h :: l) by (apply Hdis; set_solver).
  assert (head_or l h ∈ h :: l) by set_solver.
  assert (seg m' f r (head_or l h)) as Hfr'.
  { eapply seg_retarget, Hsegr; [done|..].
    - intros y Hy. rewrite N. case_decide; [done|]. specialize (Hdis y Hy).
      case_decide; set_solver.
    - intros y Hy. rewrite P. apply NoDup_cons in Hndr as [? _].
      assert (y ∉ h :: l) by (apply Hdis; set_solver). repeat case_decide; set_solver.
    - rewrite P. by rewrite decide_True. }
  apply (seg_app m' h [] f (r ++ l) h). split.
  { split; [rewrite N|rewrite P]; repeat case_decide; simplify_eq; set_solver. }
  destruct l as [|y l]; unfold head_or in *; simpl in *; [by rewrite app_nil_r|].
  apply seg_app. split; [done|]. destruct Hseg as [_ Hseg]. rewrite !NoDup_cons in Hnd.
  eapply seg_frame, Hseg; intros y' Hy'; [rewrite N|rewrite P];
    repeat case_decide; simplify_eq; set_solver.
Qed.

Lemma __list_splice_spec m h l k r :
  is_list m h l → is_list m k r → r ≠ [] → (∀ y, y ∈ h :: l → y ∉ k :: r) →
  ∃ m', __list_splice (LNode k) (LNode h) m = Some m' ∧
    touches (h :: l ++ r) m m' ∧ is_list m' h (r ++ l).
Proof.
  intros Hh Hk Hr Hdis. destruct r as [|f r]; [done|]. clear Hr.
  pose proof (last_or_in f r) as Hz. pose proof (head_or_in l h) as Hx.
  assert (∀ y, y ∈ f :: r → y ∉ h :: l) as Hdis'.
  { intros y Hy Hy'. apply (Hdis y Hy'). set_solver. }
  destruct (__list_splice_writes m h k f (last_or f r) (head_or l h))
    as (m' & E & D & N & P & F).
  - by rewrite (is_list_first _ _ _ Hk).
  - by rewrite (is_list_last _ _ _ Hk), last_or_cons.
  - by rewrite (is_list_first _ _ _ Hh).
  - eapply is_list_live; [exact Hk|]. set_solver.
  - eapply is_list_live; [exact Hk|]. set_solver.
  - eapply is_list_live; [exact Hh|]. set_solver.
  - exists m'. split_and!; [done| |].
    + split; [done|]. intros y Hy. apply F; set_solver.
    + destruct Hh as [Hnd Hseg], Hk as [[_ Hndr]%NoDup_cons [_ Hsegr]].
      split; [|by eapply splice_seg].
      apply NoDup_cons in Hnd as [? ?]. apply NoDup_cons. split; [set_solver|].
      change (NoDup ((f :: r) ++ l)). apply NoDup_app. set_solver.
Qed.

Lemma list_splice_spec m h l k r :
  is_list m h l → is_list m k r → (∀ y, y ∈ h :: l → y ∉ k :: r) →
  ∃ m', list_splice (LNode k) (LNode h) m = Some m' ∧
    touches (h :: l ++ r) m m' ∧ is_list m' h (r ++ l).
Proof.
  intros Hh Hk Hdis. unfold list_splice. rewrite (list_empty_spec _ _ _ Hk); simpl.
  case_bool_decide; [subst; by exists m|]. by apply __list_splice_spec.
Qed.

Lemma list_splice_init_spec m h l k r :
  is_list m h l → is_list m k r → (∀ y, y ∈ h :: l → y ∉ k :: r) →
  ∃ m', list_splice_init (LNode k) (LNode h) m = Some m' ∧
    touches (k :: h :: l ++ r) m m' ∧ is_list m' h (r ++ l) ∧ is_list m' k [].
Proof.
  intros Hh Hk Hdis. unfold list_splice_init. rewrite (list_empty_spec _ _ _ Hk); simpl.
  case_bool_decide; [subst; exists m; split_and!; [done|by split|done|done]|].
  destruct (__list_splice_spec m h l k r) as (m1 & -> & Ht & Hl); [done..|simpl].
  assert (k ∉ h :: r ++ l).
  { destruct Hk as [[Hkr _]%NoDup_cons _].
    assert (k ∉ h :: l); [intros Hkin; apply (Hdis k Hkin); set_solver|set_solver]. }
  destruct (INIT_LIST_HEAD_spec m1 k) as (m2 & -> & Ht2 & Hl2).
  { destruct Ht as [D _]. eapply lookup_dom_eq; [done|].
    eapply is_list_live; [exact Hk|]. set_solver. }
  eexists; split_and!; [done|..|done].
  - eapply touches_trans; [done|done|set_solver..].
  - eapply is_list_frame; [done| |done]. set_solver.
Qed.

(** ** Iteration *)

Lemma walk_next_spec m a l h fuel :
  seg m a l h → h ∉ l → length l ≤ fuel →
  walk ld_next fuel (LNode (head_or l h)) (LNode h) m = Some l.
Proof.
  revert a fuel. induction l as [|x l IH]; intros a fuel Hs Hh Hf; unfold head_or; simpl.
  - destruct fuel; simpl; by case_decide.
  - destruct fuel as [|fuel]; simpl in *; [lia|]. destruct Hs as [_ Hs].
    case_decide; simplify_eq; [set_solver|].
    rewrite (seg_first _ _ _ _ Hs); simpl. by rewrite (IH x) by (set_solver || lia).
Qed.

Lemma walk_prev_spec m l h b fuel :
  seg m h l b → h ∉ l → length l ≤ fuel →
  walk ld_prev fuel (LNode (last_or h l)) (LNode h) m = Some (reverse l).
Proof.
  revert b fuel. induction l as [|x l IH] using rev_ind; intros b fuel Hs Hh Hf.
  - destruct fuel; simpl; by case_decide.
  - rewrite length_app in Hf; simpl in Hf. destruct fuel as [|fuel]; [lia|].
    apply seg_app in Hs as [Hs _]. rewrite last_or_snoc, reverse_snoc; simpl.
    case_decide; simplify_eq; [set_solver|].
    rewrite (seg_last _ _ _ _ Hs); simpl. by rewrite (IH x) by (set_solver || lia).
Qed.

Lemma list_for_each_spec m h l fuel :
  is_list m h l → length l ≤ fuel → list_for_each fuel (LNode h) m = Some l.
Proof.
  intros Hl Hf. unfold list_for_each. rewrite (is_list_first _ _ _ Hl); simpl.
  destruct Hl as [[Hh _]%NoDup_cons Hs]. by eapply walk_next_spec.
Qed.

Lemma list_for_each_prev_spec m h l fuel :
  is_list m h l → length l ≤ fuel → list_for_each_prev fuel (LNode h) m = Some (reverse l).
Proof.
  intros Hl Hf. unfold list_for_each_prev. rewrite (is_list_last _ _ _ Hl); simpl.
  destruct Hl as [[Hh _]%NoDup_cons Hs]. by eapply walk_prev_spec.
Qed.

End list_h_proofs.

(** ** Structures around the nodes *)

(** [container_of] on byte addresses ([offset] is [offsetof(type, member)]). *)
Definition container_of (ptr offset : Z) : Z := u64 (ptr - offset).
