(* ===== verification/ListSpec.v ===== *)
(** * Sequences of nodes: the contract of the intrusive lists

    The abstract state of a memory of list cells is a [forest]: a finite map
    from list heads to the sequence of their members, no cell being in two
    lists.  This file gives

    - the interface [ListOps]/[ListLaws] that states what the kernel module
      relies on from <linux/list.h> (code that is not part of the repository),
      in terms of [is_list];
    - its consequences on forests, proved once against the interface;
    - the refinement theorem for [src/src/util/list.h]: any sequence of list
      operations that is meaningful on forests runs on the cells without
      touching a dead or poisoned pointer and ends in the abstract result;
    - the instance built from the routines of [ListHead]. *)
From S2P Require Import Prelude ListHead.
From stdpp Require Import prelude gmap.

Abbreviation forest A := (gmap A (list A)).

Section forest.
Context {A : Type} `{Countable A}.
Implicit Types (m : lmem A) (L : forest A) (h n x y k : A) (l r : list A).

Definition forest_ok m L : Prop :=
  (∀ h l, L !! h = Some l → is_list m h l) ∧
  (∀ h l k r y, L !! h = Some l → L !! k = Some r → h ≠ k → y ∈ h :: l → y ∉ k :: r).

(** [n] can be linked into a list: the forest does not use it, except
    possibly as the head of an empty list. *)
Definition free_node L n : Prop :=
  ∀ h l, L !! h = Some l → n ∈ h :: l → h = n ∧ l = [].

Lemma forest_ok_empty m : forest_ok m ∅.
Proof. split; intros *; rewrite lookup_empty; done. Qed.

Lemma forest_delete m L h : forest_ok m L → forest_ok m (delete h L).
Proof.
  intros [Hl Hd]. split.
  - intros k l [_ ?]%lookup_delete_Some. by apply Hl.
  - intros k1 r1 k2 r2 y [_ ?]%lookup_delete_Some [_ ?]%lookup_delete_Some.
    by apply (Hd k1 r1 k2 r2 y).
Qed.

(** One list of the forest changes, everything else is out of reach. *)
Lemma forest_upd fp m m' L h l :
  forest_ok m L → touches fp m m' → is_list m' h l →
  (∀ k r y, L !! k = Some r → k ≠ h → y ∈ k :: r → (y ∉ fp) ∧ (y ∉ h :: l)) →
  forest_ok m' (<[h := l]> L).
Proof.
  intros [Hl Hd] Ht Hh Hout. split.
  - intros k r [[<- <-]|[Hne Hk]]%lookup_insert_Some; [done|].
    eapply is_list_frame; [done| |by apply Hl].
    intros y Hy. by destruct (Hout k r y Hk (not_eq_sym Hne) Hy).
  - intros k1 r1 k2 r2 y [[<- <-]|[Hne1 Hk1]]%lookup_insert_Some
      [[<- <-]|[Hne2 Hk2]]%lookup_insert_Some Hne Hy; [done| | |].
    + intros Hy'. by destruct (Hout k2 r2 y Hk2 (not_eq_sym Hne2) Hy').
    + by destruct (Hout k1 r1 y Hk1 (not_eq_sym Hne1) Hy).
    + by apply (Hd k1 r1 k2 r2 y).
Qed.

Lemma forest_add_list m L h l :
  forest_ok m L → is_list m h l →
  (∀ k r y, L !! k = Some r → k ≠ h → y ∈ k :: r → y ∉ h :: l) →
  forest_ok m (<[h := l]> L).
Proof.
  intros HL Hh Hout. eapply (forest_upd [] m m); [done|by split|done|].
  intros. split; [set_solver|]. by eapply Hout.
Qed.

Lemma forest_frame fp m m' L :
  forest_ok m L → touches fp m m' →
  (∀ h l y, L !! h = Some l → y ∈ h :: l → y ∉ fp) → forest_ok m' L.
Proof.
  intros [Hl Hd] Ht Hout. split; [|done]. intros h l Hh.
  eapply is_list_frame; [done| |by apply Hl]. intros y Hy. by eapply Hout.
Qed.

(** Only the cells of the lists matter. *)
Lemma forest_agree m m' L :
  forest_ok m L → (∀ h l y, L !! h = Some l → y ∈ h :: l → m' !! y = m !! y) →
  forest_ok m' L.
Proof.
  intros [Hl Hd] Ha. split; [|done]. intros h l Hh. destruct (Hl h l Hh) as [Hnd Hs].
  split; [done|]. eapply seg_frame, Hs; intros y Hy; unfold ld_next, ld_prev; simpl;
    rewrite (Ha h l y Hh); set_solver.
Qed.

Lemma forest_nodup m L h l : forest_ok m L → L !! h = Some l → NoDup (h :: l).
Proof. intros [Hl _] Hh. by destruct (Hl _ _ Hh). Qed.
Lemma forest_live m L h l y :
  forest_ok m L → L !! h = Some l → y ∈ h :: l → is_Some (m !! y).
Proof. intros [Hl _] Hh. by apply is_list_live, Hl. Qed.

Lemma free_not_in L n h l : free_node L n → L !! h = Some l → n ≠ h → n ∉ h :: l.
Proof. intros Hf Hh Hne Hin. destruct (Hf h l Hh Hin) as [-> _]. done. Qed.
Lemma free_delete L n h : free_node L n → free_node (delete h L) n.
Proof. intros Hf k r [_ ?]%lookup_delete_Some. by apply Hf. Qed.
Lemma free_insert L n h l : free_node L n → n ∉ h :: l → free_node (<[h := l]> L) n.
Proof. intros Hf Hn k r [[<- <-]|[_ Hk]]%lookup_insert_Some; [done|]. by apply Hf. Qed.
Lemma free_add_other L n h l x :
  free_node L n → L !! h = Some l → n ≠ h → n ≠ x → free_node (<[h := l ++ [x]]> L) n.
Proof.
  intros Hf Hh Hne Hx. apply free_insert; [done|].
  pose proof (free_not_in _ _ _ _ Hf Hh Hne). set_solver.
Qed.
Lemma free_unused L n : (∀ h l, L !! h = Some l → n ∉ h :: l) → free_node L n.
Proof. intros Hu h l Hh Hin. by destruct (Hu h l Hh). Qed.

(** ** Deciding that a memory represents given sequences *)

#[global] Instance seg_dec m a l b : Decision (seg m a l b).
Proof. revert a. induction l as [|x l IH]; intros a; simpl; unfold link; apply _. Defined.
#[global] Instance is_list_dec m h l : Decision (is_list m h l).
Proof. unfold is_list. apply _. Defined.

Lemma forest_ok_alt m L :
  forest_ok m L ↔
  map_Forall (λ h l, is_list m h l ∧
    map_Forall (λ k r, h ≠ k → Forall (λ y, y ∉ k :: r) (h :: l)) L) L.
Proof.
  split.
  - intros [Hl Hd] h l Hh. split; [by apply Hl|]. intros k r Hk Hne.
    apply Forall_forall. intros y Hy. exact (Hd h l k r y Hh Hk Hne Hy).
  - intros HF. split.
    + intros h l Hh. apply (HF h l Hh).
    + intros h l k r y Hh Hk Hne Hy. destruct (HF h l Hh) as [_ HD].
      specialize (HD k r Hk Hne). rewrite Forall_forall in HD. by apply HD.
Qed.
#[global] Instance forest_ok_dec m L : Decision (forest_ok m L).
Proof.
  destruct (decide (map_Forall (λ h l, is_list m h l ∧
    map_Forall (λ k r, h ≠ k → Forall (λ y, y ∉ k :: r) (h :: l)) L) L)) as [Hd|Hd].
  - left. by apply forest_ok_alt.
  - right. by rewrite forest_ok_alt.
Defined.
#[global] Instance free_node_dec L n : Decision (free_node L n).
Proof.
  change (Decision (map_Forall (λ h l, n ∈ h :: l → h = n ∧ l = []) L)). apply _.
Defined.
End forest.

(** ** The interface *)

(** The list routines of <linux/list.h> the module calls.  Pointers to live
    nodes are passed as nodes; [list_nodes h] is the sequence of nodes that a
    [list_for_each_entry] loop on [h] visits. *)
Class ListOps (A : Type) `{Countable A} := {
  k_INIT_LIST_HEAD : A → lmem A → option (lmem A);
  k_list_add : A → A → lmem A → option (lmem A);
  k_list_add_tail : A → A → lmem A → option (lmem A);
  k_list_del : A → lmem A → option (lmem A);
  k_list_empty : A → lmem A → option bool;
  k_list_first : A → lmem A → option A;
  k_list_replace_init : A → A → lmem A → option (lmem A);
  k_list_nodes : A → lmem A → option (list A);
}.

(** What <linux/list.h> documents about them. *)
Class ListLaws (A : Type) `{Countable A, !ListOps A} : Prop := {
  law_init m (h : A) :
    is_Some (m !! h) →
    ∃ m', k_INIT_LIST_HEAD h m = Some m' ∧ touches [h] m m' ∧ is_list m' h [];
  law_add m (h : A) l n :
    is_list m h l → n ∉ h :: l → is_Some (m !! n) →
    ∃ m', k_list_add n h m = Some m' ∧ touches (n :: h :: l) m m' ∧ is_list m' h (n :: l);
  law_add_tail m (h : A) l n :
    is_list m h l → n ∉ h :: l → is_Some (m !! n) →
    ∃ m', k_list_add_tail n h m = Some m' ∧ touches (n :: h :: l) m m' ∧
      is_list m' h (l ++ [n]);
  law_del m (h : A) l1 x l2 :
    is_list m h (l1 ++ x :: l2) →
    ∃ m', k_list_del x m = Some m' ∧ touches (h :: l1 ++ x :: l2) m m' ∧
      is_list m' h (l1 ++ l2);
  law_empty m (h : A) l :
    is_list m h l → k_list_empty h m = Some (bool_decide (l = []));
  law_first m (h : A) x l :
    is_list m h (x :: l) → k_list_first h m = Some x;
  law_replace_init m (o : A) l n :
    is_list m o l → n ∉ o :: l → is_Some (m !! n) →
    ∃ m', k_list_replace_init o n m = Some m' ∧ touches (n :: o :: l) m m' ∧
      is_list m' n l ∧ is_list m' o [];
  law_nodes m (h : A) l :
    is_list m h l → k_list_nodes h m = Some l;
  (** they write to existing cells, whatever these contain *)
  law_cells m m' (n h : A) :
    k_INIT_LIST_HEAD h m = Some m' ∨ k_list_add n h m = Some m' ∨
    k_list_add_tail n h m = Some m' ∨ k_list_del n m = Some m' ∨
    k_list_replace_init h n m = Some m' → dom m' = dom m;
}.

(** ** The routines on forests *)

Section forest_ops.
Context {A : Type} `{Countable A, !ListOps A, !ListLaws A}.
Implicit Types (m : lmem A) (L : forest A) (h n x y k : A) (l r : list A).

Lemma f_init m L n :
  forest_ok m L → free_node L n → is_Some (m !! n) →
  ∃ m', k_INIT_LIST_HEAD n m = Some m' ∧ dom m' = dom m ∧ forest_ok m' (<[n := []]> L).
Proof.
  intros HL Hn Hlive. destruct (law_init m n Hlive) as (m' & E & Ht & Hl).
  exists m'. split_and!; [done|by apply Ht|].
  eapply forest_upd; [done..|]. intros k r y Hk Hne Hy.
  pose proof (free_not_in _ _ _ _ Hn Hk (not_eq_sym Hne)). set_solver.
Qed.

(** The other lists of a forest avoid [n :: h :: l]. *)
Lemma others_out m L h l n :
  forest_ok m L → L !! h = Some l → free_node L n → n ≠ h →
  ∀ k r y, delete n L !! k = Some r → k ≠ h → y ∈ k :: r → y ∉ n :: h :: l.
Proof.
  intros [_ Hd] Hh Hn Hne k r y [Hnk Hk]%lookup_delete_Some Hkh Hy.
  pose proof (Hd k r h l y Hk Hh Hkh Hy).
  pose proof (free_not_in _ _ _ _ Hn Hk Hnk). set_solver.
Qed.

Lemma f_add m L h l n :
  forest_ok m L → L !! h = Some l → free_node L n → n ≠ h → is_Some (m !! n) →
  ∃ m', k_list_add n h m = Some m' ∧ dom m' = dom m ∧
    forest_ok m' (<[h := n :: l]> (delete n L)).
Proof.
  intros HL Hh Hn Hne Hlive. pose proof (proj1 HL h l Hh) as Hlist.
  destruct (law_add m h l n) as (m' & E & Ht & Hl); [done| |done|].
  { by eapply free_not_in. }
  exists m'. split_and!; [done|by apply Ht|].
  eapply forest_upd; [by apply forest_delete|done..|]. intros k r y Hk Hkh Hy.
  pose proof (others_out m L h l n HL Hh Hn Hne k r y Hk Hkh Hy). set_solver.
Qed.

Lemma f_add_tail m L h l n :
  forest_ok m L → L !! h = Some l → free_node L n → n ≠ h → is_Some (m !! n) →
  ∃ m', k_list_add_tail n h m = Some m' ∧ dom m' = dom m ∧
    forest_ok m' (<[h := l ++ [n]]> (delete n L)).
Proof.
  intros HL Hh Hn Hne Hlive. pose proof (proj1 HL h l Hh) as Hlist.
  destruct (law_add_tail m h l n) as (m' & E & Ht & Hl); [done| |done|].
  { by eapply free_not_in. }
  exists m'. split_and!; [done|by apply Ht|].
  eapply forest_upd; [by apply forest_delete|done..|]. intros k r y Hk Hkh Hy.
  pose proof (others_out m L h l n HL Hh Hn Hne k r y Hk Hkh Hy). set_solver.
Qed.

Lemma f_del m L h l1 x l2 :
  forest_ok m L → L !! h = Some (l1 ++ x :: l2) →
  ∃ m', k_list_del x m = Some m' ∧ dom m' = dom m ∧ forest_ok m' (<[h := l1 ++ l2]> L).
Proof.
  intros HL Hh. destruct (law_del m h l1 x l2 (proj1 HL h _ Hh)) as (m' & E & Ht & Hl).
  exists m'. split_and!; [done|by apply Ht|].
  eapply forest_upd; [done..|]. intros k r y Hk Hkh Hy.
  pose proof (proj2 HL k r h _ y Hk Hh Hkh Hy). set_solver.
Qed.

(** A member that has been removed is free again. *)
Lemma free_after_del m L h l1 x l2 :
  forest_ok m L → L !! h = Some (l1 ++ x :: l2) → free_node (<[h := l1 ++ l2]> L) x.
Proof.
  intros HL Hh k r [[<- <-]|[Hne Hk]]%lookup_insert_Some Hx.
  - pose proof (forest_nodup _ _ _ _ HL Hh) as Hnd.
    rewrite <- Permutation_middle, NoDup_cons in Hnd. rewrite NoDup_cons in Hnd. set_solver.
  - pose proof (proj2 HL k r h _ x Hk Hh (not_eq_sym Hne) Hx). set_solver.
Qed.

Lemma f_empty m L h l :
  forest_ok m L → L !! h = Some l → k_list_empty h m = Some (bool_decide (l = [])).
Proof. intros [Hl _] Hh. by apply law_empty, Hl. Qed.
Lemma f_first m L h x l :
  forest_ok m L → L !! h = Some (x :: l) → k_list_first h m = Some x.
Proof. intros [Hl _] Hh. eapply law_first, Hl, Hh. Qed.
Lemma f_nodes m L h l :
  forest_ok m L → L !! h = Some l → k_list_nodes h m = Some l.
Proof. intros [Hl _] Hh. by apply law_nodes, Hl. Qed.

Lemma f_replace_init m L o l n :
  forest_ok m L → L !! o = Some l → free_node L n → n ≠ o → is_Some (m !! n) →
  ∃ m', k_list_replace_init o n m = Some m' ∧ dom m' = dom m ∧
    forest_ok m' (<[o := []]> (<[n := l]> L)).
Proof.
  intros HL Ho Hn Hne Hlive. pose proof (free_not_in _ _ _ _ Hn Ho Hne) as Hnin.
  destruct (law_replace_init m o l n) as (m' & E & Ht & Hl & Hol);
    [by apply HL|done..|].
  pose proof (forest_nodup _ _ _ _ HL Ho) as [Hol' _]%NoDup_cons.
  exists m'. split_and!; [done|by apply Ht|].
  rewrite <- (insert_delete_eq L n l), <- (insert_delete_eq (<[n:=l]> _) o).
  rewrite delete_insert_ne by done. apply forest_add_list; [|done|].
  - eapply forest_upd; [by apply forest_delete, forest_delete|done..|].
    intros k r y [Hok Hk]%lookup_delete_Some Hkn Hy.
    pose proof (others_out m L o l n HL Ho Hn Hne k r y Hk (not_eq_sym Hok) Hy).
    set_solver.
  - intros k r y [[<- <-]|[Hnk [Hok Hk]%lookup_delete_Some]]%lookup_insert_Some Hko Hy.
    + set_solver.
    + pose proof (others_out m L o l n HL Ho Hn Hne k r y Hk Hko Hy). set_solver.
Qed.
End forest_ops.

(** ** [src/src/util/list.h] is an implementation *)

Section list_h_instance.
Context {A : Type} `{Countable A}.

(** <linux/list.h> has [list_replace_init], [src/src/util/list.h] does not:
    the instance composes it from the routines that are there. *)
Definition splice_replace_init (o n : A) (m : lmem A) : option (lmem A) :=
  m ← INIT_LIST_HEAD (LNode n) m; list_splice_init (LNode o) (LNode n) m.

#[export] Instance list_h_ops : ListOps A := {|
  k_INIT_LIST_HEAD h := INIT_LIST_HEAD (LNode h);
  k_list_add n h := list_add (LNode n) (LNode h);
  k_list_add_tail n h := list_add_tail (LNode n) (LNode h);
  k_list_del x := list_del (LNode x);
  k_list_empty h := list_empty (LNode h);
  k_list_first h := list_first_entry (LNode h);
  k_list_replace_init := splice_replace_init;
  k_list_nodes h m := list_for_each (size m) (LNode h) m;
|}.

(** As many turns as there are cells are enough for any loop over a list. *)
Lemma is_list_size (m : lmem A) h l : is_list m h l → length l ≤ size m.
Proof.
  intros Hl. rewrite <- (size_dom (D := gset A)).
  assert (NoDup l) by (by destruct Hl as [[_ ?]%NoDup_cons _]).
  rewrite <- (size_list_to_set (C := gset A) l) by done. apply subseteq_size.
  intros x Hx%elem_of_list_to_set. apply elem_of_dom.
  eapply is_list_live; [done|]. set_solver.
Qed.

(** The routines write to existing cells only. *)
Lemma st_next_cells (p v : lptr A) (m m' : lmem A) : st_next p v m = Some m' → dom m' = dom m.
Proof.
  unfold st_next. intros (a & _ & (c & E & [= <-])%bind_Some)%bind_Some.
  apply dom_insert_lookup_L. by eexists.
Qed.
Lemma st_prev_cells (p v : lptr A) (m m' : lmem A) : st_prev p v m = Some m' → dom m' = dom m.
Proof.
  unfold st_prev. intros (a & _ & (c & E & [= <-])%bind_Some)%bind_Some.
  apply dom_insert_lookup_L. by eexists.
Qed.
Ltac cells :=
  repeat match goal with
  | H : _ ≫= _ = Some _ |- _ => apply bind_Some in H as (? & ? & H)
  | H : (if ?b then _ else _) = Some _ |- _ => destruct b
  | H : Some _ = Some _ |- _ => injection H as <-
  | H : st_next _ _ _ = Some _ |- _ => apply st_next_cells in H
  | H : st_prev _ _ _ = Some _ |- _ => apply st_prev_cells in H
  end; congruence.

#[export] Instance list_h_laws : ListLaws A.
Proof.
  split; simpl.
  - apply INIT_LIST_HEAD_spec.
  - apply list_add_spec.
  - apply list_add_tail_spec.
  - intros m h l1 x l2 Hl.
    destruct (list_del_spec m h l1 x l2 Hl) as (m' & ? & ? & ? & _). by exists m'.
  - apply list_empty_spec.
  - apply list_first_entry_spec.
  - intros m o l n Ho Hn Hlive. unfold splice_replace_init.
    destruct (INIT_LIST_HEAD_spec m n Hlive) as (m1 & -> & Ht1 & Hl1); simpl.
    destruct (list_splice_init_spec m1 n [] o l) as (m2 & -> & Ht2 & Hl2 & Ho2);
      [done|by eapply is_list_frame; [done|set_solver|]|set_solver|].
    rewrite app_nil_r in Hl2. exists m2. split_and!; [done| |done|done].
    eapply touches_trans; [done|done|set_solver..].
  - intros m h l Hl. by eapply list_for_each_spec, is_list_size.
  - intros m m' n h. unfold splice_replace_init, list_splice_init, __list_splice, list_add_tail,
      list_add, list_del, __list_add, __list_del, INIT_LIST_HEAD.
    intros [H1|[H1|[H1|[H1|H1]]]]; cells.
Qed.
End list_h_instance.

(** ** Refinement: sequences of list.h calls *)

(** A call of [src/src/util/list.h].  The head of the list a member is removed
    from is not an argument of the C routine: it is what the caller knows
    about the node, and only the abstract meaning uses it. *)
Inductive list_op (A : Type) :=
  | OpInit (h : A)
  | OpAdd (n h : A)
  | OpAddTail (n h : A)
  | OpDel (h x : A)
  | OpDelInit (h x : A)
  | OpMove (k x h : A)
  | OpMoveTail (k x h : A)
  | OpSplice (k h : A)
  | OpSpliceInit (k h : A).
Arguments OpInit {A}.
Arguments OpAdd {A}.
Arguments OpAddTail {A}.
Arguments OpDel {A}.
Arguments OpDelInit {A}.
Arguments OpMove {A}.
Arguments OpMoveTail {A}.
Arguments OpSplice {A}.
Arguments OpSpliceInit {A}.

Section refinement.
Context {A : Type} `{Countable A}.
Implicit Types (m : lmem A) (L : forest A) (h n x y k : A) (l r : list A).

Definition mem (x : A) (l : list A) : Prop := x ∈ l.
#[global] Instance mem_dec x l : Decision (mem x l).
Proof. unfold mem. apply _. Defined.

(** The meaning on sequences; [None] when the call is not allowed: the head
    is not a list, the node to link is in use, the member is not there. *)
Definition abs_op (cells : gset A) L (op : list_op A) : option (forest A) :=
  match op with
  | OpInit h =>
      if decide (free_node L h ∧ h ∈ cells) then Some (<[h := []]> L) else None
  | OpAdd n h =>
      l ← L !! h;
      if decide (free_node L n ∧ n ≠ h ∧ n ∈ cells)
      then Some (<[h := n :: l]> (delete n L)) else None
  | OpAddTail n h =>
      l ← L !! h;
      if decide (free_node L n ∧ n ≠ h ∧ n ∈ cells)
      then Some (<[h := l ++ [n]]> (delete n L)) else None
  | OpDel h x =>
      l ← L !! h;
      if decide (mem x l) then Some (<[h := filter (.≠ x) l]> L) else None
  | OpDelInit h x =>
      l ← L !! h;
      if decide (mem x l) then Some (<[x := []]> (<[h := filter (.≠ x) l]> L)) else None
  | OpMove k x h =>
      r ← L !! k; l ← L !! h;
      if decide (mem x r ∧ k ≠ h)
      then Some (<[h := x :: l]> (<[k := filter (.≠ x) r]> L)) else None
  | OpMoveTail k x h =>
      r ← L !! k; l ← L !! h;
      if decide (mem x r ∧ k ≠ h)
      then Some (<[h := l ++ [x]]> (<[k := filter (.≠ x) r]> L)) else None
  | OpSplice k h =>
      r ← L !! k; l ← L !! h;
      if decide (k ≠ h) then Some (<[h := r ++ l]> (delete k L)) else None
  | OpSpliceInit k h =>
      r ← L !! k; l ← L !! h;
      if decide (k ≠ h) then Some (<[k := []]> (<[h := r ++ l]> (delete k L))) else None
  end.

Definition conc_op m (op : list_op A) : option (lmem A) :=
  match op with
  | OpInit h => INIT_LIST_HEAD (LNode h) m
  | OpAdd n h => list_add (LNode n) (LNode h) m
  | OpAddTail n h => list_add_tail (LNode n) (LNode h) m
  | OpDel _ x => list_del (LNode x) m
  | OpDelInit _ x => list_del_init (LNode x) m
  | OpMove _ x h => list_move (LNode x) (LNode h) m
  | OpMoveTail _ x h => list_move_tail (LNode x) (LNode h) m
  | OpSplice k h => list_splice (LNode k) (LNode h) m
  | OpSpliceInit k h => list_splice_init (LNode k) (LNode h) m
  end.

Fixpoint abs_run (cells : gset A) L (ops : list (list_op A)) : option (forest A) :=
  match ops with
  | [] => Some L
  | op :: ops => L ← abs_op cells L op; abs_run cells L ops
  end.
Fixpoint conc_run m (ops : list (list_op A)) : option (lmem A) :=
  match ops with
  | [] => Some m
  | op :: ops => m ← conc_op m op; conc_run m ops
  end.

(** A member splits its list. *)
Lemma member_split m L h l x :
  forest_ok m L → L !! h = Some l → x ∈ l →
  ∃ l1 l2, l = l1 ++ x :: l2 ∧ filter (.≠ x) l = l1 ++ l2.
Proof.
  intros HL Hh (l1 & l2 & ->)%list_elem_of_split. exists l1, l2. split; [done|].
  apply filter_mid. by pose proof (forest_nodup _ _ _ _ HL Hh) as [_ ?]%NoDup_cons.
Qed.

(** Two lists of the forest change. *)
Lemma forest_upd2 fp m m' L h l k r :
  forest_ok m L → touches fp m m' → h ≠ k → is_list m' h l → is_list m' k r →
  (∀ y, y ∈ h :: l → y ∉ k :: r) →
  (∀ j s y, L !! j = Some s → j ≠ h → j ≠ k → y ∈ j :: s →
     (y ∉ fp) ∧ (y ∉ h :: l) ∧ (y ∉ k :: r)) →
  forest_ok m' (<[h := l]> (<[k := r]> L)).
Proof.
  intros HL Ht Hhk Hh Hk Hdis Hout.
  rewrite <- (insert_delete_eq L k r), <- (insert_delete_eq (<[k:=r]> _) h).
  rewrite delete_insert_ne by done. apply forest_add_list; [|done|].
  - eapply forest_upd; [by apply forest_delete, forest_delete|done..|].
    intros j s y [Hhj [Hkj Hj]%lookup_delete_Some]%lookup_delete_Some Hjk Hy.
    destruct (Hout j s y) as (? & ? & ?); done.
  - intros j s y [[<- <-]|[? [Hhj [Hkj Hj]%lookup_delete_Some]%lookup_delete_Some]]
      %lookup_insert_Some Hjh Hy; [intros Hy'; by apply (Hdis y)|].
    destruct (Hout j s y) as (? & ? & ?); done.
Qed.

(** Distinct lists of a forest share no cell. *)
Lemma forest_disj m L h l k r :
  forest_ok m L → L !! h = Some l → L !! k = Some r → h ≠ k →
  ∀ y, y ∈ h :: l → y ∉ k :: r.
Proof. intros HL Hh Hk Hne y. by apply (proj2 HL h l k r y). Qed.

Definition op_refines (op : list_op A) : Prop :=
  ∀ m L L', forest_ok m L → abs_op (dom m) L op = Some L' →
    ∃ m', conc_op m op = Some m' ∧ dom m' = dom m ∧ forest_ok m' L'.

Lemma ref_del h x : op_refines (OpDel h x).
Proof.
  intros m L L' HL; cbn [abs_op conc_op]. destruct (L !! h) as [l|] eqn:Hh; [cbn [mbind option_bind]|done].
  case_decide as Hx; [|done]. intros [= <-].
  destruct (member_split _ _ _ _ _ HL Hh Hx) as (l1 & l2 & -> & ->).
  exact (f_del m L h l1 x l2 HL Hh).
Qed.

Lemma ref_del_init h x : op_refines (OpDelInit h x).
Proof.
  intros m L L' HL; cbn [abs_op conc_op]. destruct (L !! h) as [l|] eqn:Hh; [cbn [mbind option_bind]|done].
  case_decide as Hx; [|done]. intros [= <-].
  destruct (member_split _ _ _ _ _ HL Hh Hx) as (l1 & l2 & -> & ->).
  pose proof (forest_nodup _ _ _ _ HL Hh) as Hnd.
  rewrite <- Permutation_middle, NoDup_cons, NoDup_cons in Hnd.
  destruct (list_del_init_spec m h l1 x l2 (proj1 HL _ _ Hh)) as (m' & E & Ht & Hl & Hx').
  exists m'. split_and!; [done|by apply Ht|].
  eapply forest_upd2; [done|done|set_solver|done|done|set_solver|].
  intros j s y Hj Hjx Hjh Hy. pose proof (forest_disj _ _ _ _ _ _ HL Hj Hh Hjh y Hy).
  set_solver.
Qed.

(** The shared part of the two moves: [mv] puts [x] into [h] as [l']. *)
Lemma ref_move_gen (mv : lmem A → option (lmem A)) m L k x h r l (ins : list A → list A) :
  forest_ok m L → L !! k = Some r → L !! h = Some l → x ∈ r → k ≠ h →
  (∀ y, y ∈ ins l ↔ y = x ∨ y ∈ l) →
  (∀ l1 l2, r = l1 ++ x :: l2 →
     ∃ m', mv m = Some m' ∧ touches (k :: l1 ++ x :: l2 ++ h :: l) m m' ∧
       is_list m' k (l1 ++ l2) ∧ is_list m' h (ins l)) →
  ∃ m', mv m = Some m' ∧ dom m' = dom m ∧
    forest_ok m' (<[h := ins l]> (<[k := filter (.≠ x) r]> L)).
Proof.
  intros HL Hk Hh Hx Hne Hins Hmv.
  destruct (member_split _ _ _ _ _ HL Hk Hx) as (l1 & l2 & -> & ->).
  destruct (Hmv l1 l2 eq_refl) as (m' & E & Ht & Hl1 & Hl2).
  pose proof (forest_nodup _ _ _ _ HL Hk) as Hnd.
  rewrite <- Permutation_middle, NoDup_cons, NoDup_cons in Hnd.
  pose proof (forest_disj _ _ _ _ _ _ HL Hh Hk (not_eq_sym Hne)) as Hdis.
  exists m'. split_and!; [done|by apply Ht|].
  eapply forest_upd2; [done|done|done|done|done| |].
  - intros y [->|[->|Hy]%Hins]%elem_of_cons; [|set_solver|].
    + specialize (Hdis h). set_solver.
    + specialize (Hdis y). set_solver.
  - intros j s y Hj Hjh Hjk Hy.
    pose proof (forest_disj _ _ _ _ _ _ HL Hj Hh Hjh y Hy).
    pose proof (forest_disj _ _ _ _ _ _ HL Hj Hk Hjk y Hy).
    assert (y ∉ h :: ins l) by (rewrite elem_of_cons, Hins; set_solver). set_solver.
Qed.

Lemma ref_move k x h : op_refines (OpMove k x h).
Proof.
  intros m L L' HL; cbn [abs_op conc_op]. destruct (L !! k) as [r|] eqn:Hk; [cbn [mbind option_bind]|done].
  destruct (L !! h) as [l|] eqn:Hh; [cbn [mbind option_bind]|done]. case_decide as Hx; [|done].
  intros [= <-]. eapply (ref_move_gen _ m L k x h r l (cons x)); try done; try tauto;
    [set_solver|]. intros l1 l2 ->. apply list_move_spec; [by apply HL..|].
  eapply forest_disj; naive_solver.
Qed.

Lemma ref_move_tail k x h : op_refines (OpMoveTail k x h).
Proof.
  intros m L L' HL; cbn [abs_op conc_op]. destruct (L !! k) as [r|] eqn:Hk; [cbn [mbind option_bind]|done].
  destruct (L !! h) as [l|] eqn:Hh; [cbn [mbind option_bind]|done]. case_decide as Hx; [|done].
  intros [= <-]. eapply (ref_move_gen _ m L k x h r l (λ l, l ++ [x])); try done; try tauto;
    [set_solver|]. intros l1 l2 ->. apply list_move_tail_spec; [by apply HL..|].
  eapply forest_disj; naive_solver.
Qed.

Lemma ref_splice k h : op_refines (OpSplice k h).
Proof.
  intros m L L' HL; cbn [abs_op conc_op]. destruct (L !! k) as [r|] eqn:Hk; [cbn [mbind option_bind]|done].
  destruct (L !! h) as [l|] eqn:Hh; [cbn [mbind option_bind]|done]. case_decide as Hne; [|done].
  intros [= <-].
  pose proof (forest_disj _ _ _ _ _ _ HL Hh Hk (not_eq_sym Hne)) as Hdis.
  destruct (list_splice_spec m h l k r) as (m' & E & Ht & Hl); [by apply HL..|done|].
  exists m'. split_and!; [done|by apply Ht|].
  eapply forest_upd; [by apply forest_delete|done..|].
  intros j s y [Hkj Hj]%lookup_delete_Some Hjh Hy.
  pose proof (forest_disj _ _ _ _ _ _ HL Hj Hh Hjh y Hy).
  pose proof (forest_disj _ _ _ _ _ _ HL Hj Hk (not_eq_sym Hkj) y Hy). set_solver.
Qed.

Lemma ref_splice_init k h : op_refines (OpSpliceInit k h).
Proof.
  intros m L L' HL; cbn [abs_op conc_op]. destruct (L !! k) as [r|] eqn:Hk; [cbn [mbind option_bind]|done].
  destruct (L !! h) as [l|] eqn:Hh; [cbn [mbind option_bind]|done]. case_decide as Hne; [|done].
  intros [= <-].
  pose proof (forest_disj _ _ _ _ _ _ HL Hh Hk (not_eq_sym Hne)) as Hdis.
  pose proof (forest_nodup _ _ _ _ HL Hk) as [Hkr _]%NoDup_cons.
  destruct (list_splice_init_spec m h l k r) as (m' & E & Ht & Hl & Hl'); [by apply HL..|done|].
  exists m'. split_and!; [done|by apply Ht|].
  eapply forest_upd2; [by apply forest_delete|done|done|done|done| |].
  - intros y ->%list_elem_of_singleton. specialize (Hdis k). set_solver.
  - intros j s y [Hkj Hj]%lookup_delete_Some _ Hjh Hy.
    pose proof (forest_disj _ _ _ _ _ _ HL Hj Hh Hjh y Hy).
    pose proof (forest_disj _ _ _ _ _ _ HL Hj Hk (not_eq_sym Hkj) y Hy). set_solver.
Qed.

Lemma list_op_refines op : op_refines op.
Proof.
  destruct op; auto using ref_del, ref_del_init, ref_move, ref_move_tail,
    ref_splice, ref_splice_init; intros m L L' HL; cbn [abs_op conc_op].
  - case_decide as Hg; [|done]. intros [= <-].
    destruct Hg as [? Hc%elem_of_dom]. by refine (f_init m L h _ _ _).
  - destruct (L !! h) as [l|] eqn:Hh; [cbn [mbind option_bind]|done]. case_decide as Hg; [|done].
    intros [= <-]. destruct Hg as (? & ? & Hc%elem_of_dom).
    by refine (f_add m L h l n _ _ _ _ _).
  - destruct (L !! h) as [l|] eqn:Hh; [cbn [mbind option_bind]|done]. case_decide as Hg; [|done].
    intros [= <-]. destruct Hg as (? & ? & Hc%elem_of_dom).
    by refine (f_add_tail m L h l n _ _ _ _ _).
Qed.

(** C1: Calls of [src/src/util/list.h] implement operations on sequences.
    Whenever a sequence of calls makes sense on the abstract lists (the heads
    are lists, linked nodes are not in use elsewhere, removed nodes are
    members), running the C routines on the cells succeeds: no NULL, poisoned
    or dangling pointer is dereferenced; and the resulting memory represents
    exactly the abstract result, list by list and in order. *)
Theorem list_h_refines_sequences (m : lmem A) (L L' : forest A) (ops : list (list_op A))
    (Hm : forest_ok m L) (Hops : abs_run (dom m) L ops = Some L') :
  ∃ m', conc_run m ops = Some m' ∧ dom m' = dom m ∧ forest_ok m' L'.
Proof.
  revert m L Hm Hops. induction ops as [|op ops IH]; intros m L Hm Hops.
  - simplify_eq/=. eauto.
  - cbn in Hops. destruct (abs_op (dom m) L op) as [L1|] eqn:E; simplify_eq/=.
    destruct (list_op_refines op m L L1 Hm E) as (m1 & -> & Hd & Hm1); simpl.
    destruct (IH m1 L1) as (m2 & ? & ? & ?); [done|by rewrite Hd|].
    exists m2. split_and!; [done|congruence|done].
Qed.
End refinement.

(** Two heads and three nodes, freshly allocated; the calls move a node between
    the lists and splice them. *)
Definition demo_cells : lmem nat :=
  gset_to_gmap (mk_list_head LUninit LUninit) {[1; 2; 3; 4; 5]}.

Lemma list_h_refines_sequences_witness :
  ∃ m', conc_run demo_cells
          [OpInit 1; OpInit 2; OpAdd 3 1; OpAddTail 4 1; OpAdd 5 2; OpMove 1 3 2;
           OpSpliceInit 1 2] = Some m' ∧
        dom m' = dom demo_cells ∧
        forest_ok m' (<[1 := []]> (<[2 := [4; 3; 5]]> ∅)).
Proof.
  apply (list_h_refines_sequences demo_cells ∅).
  - apply forest_ok_empty.
  - vm_compute. reflexivity.
Defined.
