(* ===== verification/ListIter.v ===== *)
(** * Iteration over lists: the other loop macros of [src/src/util/list.h]

    The macros that start from a member, run backwards or tolerate the removal
    of the current node, on the cells of [ListHead].  A loop over entries is a
    loop over their [member] cells ([container_of] is applied to each).  The
    theorem of this file compares the loops that remove nodes while they run
    with [filter] on sequences. *)
From S2P Require Import Prelude ListHead ListSpec.
From stdpp Require Import prelude gmap.

Section iter.
Context {A : Type} `{Countable A}.
Implicit Types (m : lmem A) (h x y : A) (l : list A).

Definition list_for_each_entry_reverse (fuel : nat) (head : lptr A) m : option (list A) :=
  pos ← ld_prev head m; walk ld_prev fuel pos head m.

(** [pos ? : list_entry(head)] *)
Definition list_prepare_entry (pos head : lptr A) : lptr A :=
  match pos with LNull => head | _ => pos end.

Definition list_for_each_entry_continue (fuel : nat) (pos head : lptr A) m : option (list A) :=
  pos ← ld_next pos m; walk ld_next fuel pos head m.

Definition list_for_each_entry_safe_continue (body : A → lmem A → option (lmem A))
    (fuel : nat) (pos head : lptr A) m : option (lmem A) :=
  pos ← ld_next pos m;
  n ← ld_next pos m;
  walk_safe ld_next body fuel pos n head m.

Definition list_for_each_entry_safe_reverse (body : A → lmem A → option (lmem A))
    (fuel : nat) (head : lptr A) m : option (lmem A) :=
  pos ← ld_prev head m;
  n ← ld_prev pos m;
  walk_safe ld_prev body fuel pos n head m.

(** A loop body that unlinks the nodes with a property. *)
Definition del_if (P : A → Prop) `{∀ x, Decision (P x)} (a : A) m : option (lmem A) :=
  if decide (P a) then list_del (LNode a) m else Some m.

(** A ring can be left in both directions from any of its cells. *)
Lemma is_list_next m h l y : is_list m h l → y ∈ h :: l → is_Some (nx m y).
Proof.
  intros Hl Hy. pose proof (is_list_live _ _ _ _ Hl Hy) as [c Hc].
  unfold ld_next; simpl. by rewrite Hc.
Qed.
Lemma is_list_prev m h l y : is_list m h l → y ∈ h :: l → is_Some (pv m y).
Proof.
  intros Hl Hy. pose proof (is_list_live _ _ _ _ Hl Hy) as [c Hc].
  unfold ld_prev; simpl. by rewrite Hc.
Qed.

Lemma list_for_each_continue_spec m h l1 x l2 fuel :
  is_list m h (l1 ++ x :: l2) → length l2 ≤ fuel →
  list_for_each_entry_continue fuel (LNode x) (LNode h) m = Some l2.
Proof.
  intros Hl Hf. unfold list_for_each_entry_continue.
  destruct (is_list_nbrs _ _ _ _ _ Hl) as [_ ->]. destruct Hl as [[Hh _]%NoDup_cons Hs].
  apply seg_app in Hs as [_ Hs]. cbn [mbind option_bind]. eapply walk_next_spec; [exact Hs| |done].
  intros ?. apply Hh. set_solver.
Qed.

Section removing.
Context (P : A → Prop) `{!∀ x, Decision (P x)}.

Definition poisoned m x : Prop := m !! x = Some (mk_list_head LIST_POISON1 LIST_POISON2).
Definition others (l : list A) : list A := filter (λ x, ¬ P x) l.

(** One pass of the loop at the member [x]. *)
Lemma del_if_spec m h l1 x l2 :
  is_list m h (l1 ++ x :: l2) →
  ∃ m', del_if P x m = Some m' ∧ touches (h :: l1 ++ x :: l2) m m' ∧
    is_list m' h (l1 ++ others [x] ++ l2) ∧ (P x → poisoned m' x).
Proof.
  intros Hl. unfold del_if. case_decide as HP.
  - destruct (list_del_spec m h l1 x l2 Hl) as (m' & E & T & L & X).
    exists m'. unfold others. rewrite filter_cons_False by naive_solver. by split_and!.
  - exists m. unfold others. rewrite filter_cons_True by done. by split_and!.
Qed.

Lemma poisoned_touches fp m m' x : touches fp m m' → x ∉ fp → poisoned m x → poisoned m' x.
Proof. unfold poisoned. intros [_ F] Hx. by rewrite F. Qed.

(** What the rest of a removing loop does: the members [l] still ahead keep
    their order, those with the property are gone and poisoned. *)
Definition swept (fp l : list A) (l' : list A) h m m' : Prop :=
  touches fp m m' ∧ is_list m' h l' ∧ ∀ x, x ∈ l → P x → poisoned m' x.

Lemma swept_step fp fp' x l l' h m m1 m' :
  touches fp m m1 → (P x → poisoned m1 x) → swept fp' l l' h m1 m' →
  fp' ⊆ fp → (P x → x ∉ fp') → swept fp (x :: l) l' h m m'.
Proof.
  intros T1 X (T2 & L & X2) Hs Hx. split_and!; [by eapply touches_trans|done|].
  intros y [->|Hy]%elem_of_cons HP; [|by apply X2]. eapply poisoned_touches; eauto.
Qed.

Lemma member_not_head m h l1 x l2 : is_list m h (l1 ++ x :: l2) → x ≠ h ∧ x ∉ l1 ++ l2.
Proof.
  intros [Hnd _]. apply NoDup_cons in Hnd as [Hh Hnd]. rewrite <- Permutation_middle in Hnd.
  apply NoDup_cons in Hnd as [Hx _]. split; [intros ->; apply Hh|done]. set_solver.
Qed.

(** The cells of the list without [x], when it was to be removed. *)
Lemma others_cells h x l1 l2 : h :: l1 ++ others [x] ++ l2 ⊆ h :: l1 ++ x :: l2.
Proof.
  unfold others. destruct (decide (P x)).
  - rewrite filter_cons_False by naive_solver. simpl. set_solver.
  - rewrite filter_cons_True by done. simpl. set_solver.
Qed.
Lemma others_gone h x l1 l2 : x ≠ h → x ∉ l1 ++ l2 → P x → x ∉ h :: l1 ++ others [x] ++ l2.
Proof.
  intros Hh Hx HP. unfold others. rewrite filter_cons_False by naive_solver. simpl. set_solver.
Qed.

Lemma sweep_next m h l1 l2 fuel n :
  is_list m h (l1 ++ l2) → length l2 ≤ fuel → nx m (head_or l2 h) = Some n →
  ∃ m', walk_safe ld_next (del_if P) fuel (LNode (head_or l2 h)) n (LNode h) m = Some m' ∧
    swept (h :: l1 ++ l2) l2 (l1 ++ others l2) h m m'.
Proof.
  revert l1 m fuel n. induction l2 as [|x l2 IH]; intros l1 m fuel n Hl Hf Hn; simpl in Hf.
  - exists m. destruct fuel; simpl; rewrite decide_True by done;
      (split; [done|split_and!; [by split|done|set_solver]]).
  - destruct fuel as [|fuel]; [lia|]. destruct (is_list_nbrs _ _ _ _ _ Hl) as [_ Hx].
    change (nx m x = Some n) in Hn. simplify_eq. unfold head_or at 1; simpl.
    destruct (member_not_head _ _ _ _ _ Hl) as [Hxh Hxl]. rewrite decide_False by congruence.
    destruct (del_if_spec m h l1 x l2 Hl) as (m1 & -> & T1 & L1 & X1). cbn [mbind option_bind].
    rewrite (assoc_L (++)) in L1.
    destruct (is_list_next m1 h _ (head_or l2 h) L1) as [n' Hn'].
    { pose proof (head_or_in l2 h). set_solver. }
    rewrite Hn'. cbn [mbind option_bind].
    destruct (IH (l1 ++ others [x]) m1 fuel n') as (m' & E & S); [done|lia|done|].
    exists m'. split; [exact E|]. rewrite <- !(assoc_L (++)) in S.
    replace (l1 ++ others (x :: l2)) with (l1 ++ others [x] ++ others l2)
      by (unfold others; by rewrite (filter_app _ [x] l2)).
    eapply swept_step; eauto using others_cells, others_gone.
Qed.

Lemma sweep_prev m h l1 l2 fuel n :
  is_list m h (l1 ++ l2) → length l1 ≤ fuel → pv m (last_or h l1) = Some n →
  ∃ m', walk_safe ld_prev (del_if P) fuel (LNode (last_or h l1)) n (LNode h) m = Some m' ∧
    swept (h :: l1 ++ l2) l1 (others l1 ++ l2) h m m'.
Proof.
  revert l2 m fuel n. induction l1 as [|x l1 IH] using rev_ind; intros l2 m fuel n Hl Hf Hn.
  - exists m. destruct fuel; simpl; rewrite decide_True by done;
      (split; [done|split_and!; [by split|done|set_solver]]).
  - rewrite length_app in Hf. simpl in Hf. destruct fuel as [|fuel]; [lia|].
    rewrite <- (assoc_L (++)) in Hl. simpl in Hl. destruct (is_list_nbrs _ _ _ _ _ Hl) as [Hx _].
    rewrite last_or_snoc in *. simplify_eq. simpl.
    destruct (member_not_head _ _ _ _ _ Hl) as [Hxh Hxl]. rewrite decide_False by congruence.
    destruct (del_if_spec m h l1 x l2 Hl) as (m1 & -> & T1 & L1 & X1). cbn [mbind option_bind].
    destruct (is_list_prev m1 h _ (last_or h l1) L1) as [n' Hn'].
    { pose proof (last_or_in h l1). set_solver. }
    rewrite Hn'. cbn [mbind option_bind].
    destruct (IH (others [x] ++ l2) m1 fuel n') as (m' & E & S); [done|lia|done|].
    exists m'. split; [exact E|]. rewrite <- !(assoc_L (++)). simpl.
    replace (others (l1 ++ [x]) ++ l2) with (others l1 ++ others [x] ++ l2)
      by (unfold others; by rewrite filter_app, <- (assoc_L (++))).
    eapply (swept_step _ _ x) in S as (T & L & X); eauto using others_cells, others_gone.
    split_and!; [done..|]. intros y Hy. apply X. set_solver.
Qed.
End removing.

(** C19: The loops of list.h that tolerate removal compute [filter].  A loop
    whose body unlinks the nodes with a property, forwards from the head
    ([list_for_each_safe]), forwards from after a member
    ([list_for_each_entry_safe_continue]) or backwards
    ([list_for_each_entry_safe_reverse]), visits every node ahead of it exactly
    once: what remains is the sequence without those nodes, in order, which is
    what the plain loops then see; the removed nodes are poisoned, and no cell
    outside the list is touched. *)
Theorem safe_iteration_filters (P : A → Prop) `{!∀ x, Decision (P x)} m h l1 x l2 fuel
    (Hlist : is_list m h (l1 ++ x :: l2)) (Hfuel : length (l1 ++ x :: l2) ≤ fuel) :
  (∃ m', list_for_each_safe (del_if P) fuel (LNode h) m = Some m' ∧
     list_for_each fuel (LNode h) m' = Some (filter (λ y, ¬ P y) (l1 ++ x :: l2)) ∧
     (∀ y, y ∈ l1 ++ x :: l2 → P y → poisoned m' y) ∧
     (∀ y, y ∉ h :: l1 ++ x :: l2 → m' !! y = m !! y)) ∧
  (∃ m', list_for_each_entry_safe_continue (del_if P) fuel (LNode x) (LNode h) m = Some m' ∧
     list_for_each fuel (LNode h) m' = Some (l1 ++ x :: filter (λ y, ¬ P y) l2) ∧
     (∀ y, y ∈ l2 → P y → poisoned m' y) ∧
     (∀ y, y ∉ h :: l1 ++ x :: l2 → m' !! y = m !! y)) ∧
  (∃ m', list_for_each_entry_safe_reverse (del_if P) fuel (LNode h) m = Some m' ∧
     list_for_each_entry_reverse fuel (LNode h) m' =
       Some (reverse (filter (λ y, ¬ P y) (l1 ++ x :: l2))) ∧
     (∀ y, y ∈ l1 ++ x :: l2 → P y → poisoned m' y) ∧
     (∀ y, y ∉ h :: l1 ++ x :: l2 → m' !! y = m !! y)).
Proof.
  assert (∀ k : list A, length (filter (λ y, ¬ P y) k) ≤ length k) as Hlen by apply length_filter.
  rewrite length_app in Hfuel. simpl in Hfuel. split_and!.
  - unfold list_for_each_safe. rewrite (is_list_first _ _ _ Hlist). cbn [mbind option_bind].
    destruct (is_list_next _ _ _ (head_or (l1 ++ x :: l2) h) Hlist) as [n Hn].
    { pose proof (head_or_in (l1 ++ x :: l2) h). set_solver. }
    rewrite Hn. cbn [mbind option_bind].
    destruct (sweep_next P m h [] (l1 ++ x :: l2) fuel n) as (m' & E & (_ & F) & L & X);
      [done|rewrite length_app; simpl; lia|done|].
    exists m'. split_and!; [done| |done|done]. apply list_for_each_spec; [done|].
    etrans; [apply Hlen|]. rewrite length_app. simpl. lia.
  - unfold list_for_each_entry_safe_continue.
    destruct (is_list_nbrs _ _ _ _ _ Hlist) as [_ ->]. cbn [mbind option_bind].
    destruct (is_list_next _ _ _ (head_or l2 h) Hlist) as [n Hn].
    { pose proof (head_or_in l2 h). set_solver. }
    rewrite Hn. cbn [mbind option_bind].
    destruct (sweep_next P m h (l1 ++ [x]) l2 fuel n) as (m' & E & (_ & F) & L & X);
      [by rewrite <- (assoc_L (++))|lia|done|]. rewrite <- (assoc_L (++)) in *.
    exists m'. split_and!; [done| |done|done]. apply list_for_each_spec; [done|].
    rewrite length_app. simpl. specialize (Hlen l2). lia.
  - unfold list_for_each_entry_safe_reverse. rewrite (is_list_last _ _ _ Hlist).
    cbn [mbind option_bind].
    destruct (is_list_prev _ _ _ (last_or h (l1 ++ x :: l2)) Hlist) as [n Hn].
    { pose proof (last_or_in h (l1 ++ x :: l2)). set_solver. }
    rewrite Hn. cbn [mbind option_bind].
    destruct (sweep_prev P m h (l1 ++ x :: l2) [] fuel n) as (m' & E & (_ & F) & L & X);
      [by rewrite app_nil_r|rewrite length_app; simpl; lia|done|]. rewrite !app_nil_r in *.
    exists m'. split_and!; [done| |done|done]. apply list_for_each_prev_spec; [done|].
    etrans; [apply Hlen|]. rewrite length_app. simpl. lia.
Qed.
End iter.

(** A ring of three nodes around the head 0; the loops remove node 2. *)
Definition iter_cells : lmem nat :=
  {[ 0 := mk_list_head (LNode 1) (LNode 3); 1 := mk_list_head (LNode 2) (LNode 0);
     2 := mk_list_head (LNode 3) (LNode 1); 3 := mk_list_head (LNode 0) (LNode 2) ]}.

Lemma safe_iteration_filters_witness :
  ∃ m', list_for_each_safe (del_if (λ y, y = 2)) 3 (LNode 0) iter_cells = Some m' ∧
    list_for_each 3 (LNode 0) m' = Some [1; 3].
Proof.
  destruct (safe_iteration_filters (λ y, y = 2) iter_cells 0 [] 1 [2; 3] 3)
    as ((m' & E & L & _) & _).
  - apply (bool_decide_unpack _). vm_compute. exact I.
  - simpl. lia.
  - exists m'. split; [exact E|exact L].
Defined.
