(* ===== verification/Hlist.v ===== *)
(** * Hash lists: the second half of [src/src/util/list.h]

    The [hlist] routines: lists with a single-pointer head, whose nodes keep
    in [pprev] the address of the pointer that designates them, which is the
    [first] field of a head or the [next] field of another node (a [slot]).
    As in [ListHead] the routines are the C code's reads and writes in order,
    and [None] is an access through a pointer that is not a live slot or node.

    [hseg m s l]: following the pointers from slot [s] passes through [l] and
    ends in NULL, each node's [pprev] being the slot before it.  [insertion]
    and [removal] describe the memory after a node is linked in or out; every
    routine is shown to be one of the two, and the effect of the two on the
    lists of a memory is proved once. *)
From S2P Require Import Prelude ListHead.
From stdpp Require Import prelude gmap.

(** The lvalues of type [struct hlist_node *]. *)
Inductive slot (H A : Type) :=
  | SFirst (h : H)   (** [h->first] *)
  | SNext (n : A).   (** [n->next] *)
Arguments SFirst {H A} h.
Arguments SNext {H A} n.

#[global] Instance slot_eq_dec {H A} `{EqDecision H, EqDecision A} : EqDecision (slot H A).
Proof. solve_decision. Defined.

(** [struct hlist_head], [struct hlist_node] *)
Record hlist_head (A : Type) := mk_hlist_head { first : lptr A }.
Arguments mk_hlist_head {A} first.
Arguments first {A} h.
Record hlist_node (H A : Type) := mk_hlist_node { hnext : lptr A; pprev : lptr (slot H A) }.
Arguments mk_hlist_node {H A} hnext pprev.
Arguments hnext {H A} h.
Arguments pprev {H A} h.

Section hlist_h.
Context {H A : Type} `{Countable H, Countable A}.

Record hmem := mk_hmem {
  hm_heads : gmap H (hlist_head A);
  hm_nodes : gmap A (hlist_node H A);
}.
Implicit Types (m : hmem) (n x y : A) (h k : H) (p : lptr A) (s t : slot H A) (l r : list A).

(** Reading and writing [*s], [p->pprev]. *)
Definition ld_slot (q : lptr (slot H A)) m : option (lptr A) :=
  s ← is_node q;
  match s with
  | SFirst h => first <$> hm_heads m !! h
  | SNext n => hnext <$> hm_nodes m !! n
  end.
Definition st_slot (q : lptr (slot H A)) (v : lptr A) m : option hmem :=
  s ← is_node q;
  match s with
  | SFirst h => _ ← hm_heads m !! h; Some (mk_hmem (<[h := mk_hlist_head v]> (hm_heads m)) (hm_nodes m))
  | SNext n => c ← hm_nodes m !! n; Some (mk_hmem (hm_heads m) (<[n := mk_hlist_node v (pprev c)]> (hm_nodes m)))
  end.
Definition ld_pprev p m : option (lptr (slot H A)) := n ← is_node p; pprev <$> hm_nodes m !! n.
Definition st_pprev p (v : lptr (slot H A)) m : option hmem :=
  n ← is_node p; c ← hm_nodes m !! n;
  Some (mk_hmem (hm_heads m) (<[n := mk_hlist_node (hnext c) v]> (hm_nodes m))).

(** [&p->next], and a pointer tested as a condition. *)
Definition addr_next p : lptr (slot H A) :=
  match p with LNode n => LNode (SNext n) | _ => LUninit end.
Definition is_null {B} (q : lptr B) : option bool :=
  match q with LUninit => None | LNull => Some true | _ => Some false end.

(** ** The routines *)

Definition INIT_HLIST_HEAD h m : option hmem := st_slot (LNode (SFirst h)) LNull m.

Definition INIT_HLIST_NODE p m : option hmem :=
  m ← st_slot (addr_next p) LNull m; st_pprev p LNull m.

Definition hlist_unhashed p m : option bool := q ← ld_pprev p m; is_null q.

Definition hlist_empty h m : option bool := p ← ld_slot (LNode (SFirst h)) m; is_null p.

Definition __hlist_del p m : option hmem :=
  next ← ld_slot (addr_next p) m;
  pprv ← ld_pprev p m;
  m ← st_slot pprv next m;
  z ← is_null next;
  if (z : bool) then Some m else st_pprev next pprv m.

Definition hlist_del p m : option hmem :=
  m ← __hlist_del p m;
  m ← st_slot (addr_next p) LIST_POISON1 m;
  st_pprev p LIST_POISON2 m.

Definition hlist_del_init p m : option hmem :=
  pprv ← ld_pprev p m;
  z ← is_null pprv;
  if (z : bool) then Some m else m ← __hlist_del p m; INIT_HLIST_NODE p m.

Definition hlist_add_head p h m : option hmem :=
  fst ← ld_slot (LNode (SFirst h)) m;
  m ← st_slot (addr_next p) fst m;
  z ← is_null fst;
  m ← (if (z : bool) then Some m else st_pprev fst (addr_next p) m);
  m ← st_slot (LNode (SFirst h)) p m;
  st_pprev p (LNode (SFirst h)) m.

Definition hlist_add_before p (next : lptr A) m : option hmem :=
  q ← ld_pprev next m;
  m ← st_pprev p q m;
  m ← st_slot (addr_next p) next m;
  m ← st_pprev next (addr_next p) m;
  q ← ld_pprev p m;
  st_slot q p m.

Definition hlist_add_after p (next : lptr A) m : option hmem :=
  nn ← ld_slot (addr_next p) m;
  m ← st_slot (addr_next next) nn m;
  m ← st_slot (addr_next p) next m;
  m ← st_pprev next (addr_next p) m;
  nn ← ld_slot (addr_next next) m;
  z ← is_null nn;
  if (z : bool) then Some m else
    nn ← ld_slot (addr_next next) m; st_pprev nn (addr_next next) m.

(** The iteration macros: the nodes in the order the body sees them; [pos] is
    tested against NULL.  The [entry] variants apply [hlist_entry] to each. *)
Fixpoint hwalk (fuel : nat) (pos : lptr A) m : option (list A) :=
  z ← is_null pos;
  if (z : bool) then Some [] else
  match fuel with
  | O => None
  | S fuel =>
      n ← is_node pos;
      pos' ← ld_slot (addr_next pos) m;
      rest ← hwalk fuel pos' m;
      Some (n :: rest)
  end.

Definition hlist_for_each (fuel : nat) h m : option (list A) :=
  pos ← ld_slot (LNode (SFirst h)) m; hwalk fuel pos m.
Definition hlist_for_each_entry_continue (fuel : nat) (pos : lptr A) m : option (list A) :=
  pos ← ld_slot (addr_next pos) m; hwalk fuel pos m.
Definition hlist_for_each_entry_from (fuel : nat) (pos : lptr A) m : option (list A) :=
  hwalk fuel pos m.

(** [hlist_for_each_safe]: [n] is read from the node before the body runs. *)
Fixpoint hwalk_safe (body : A → hmem → option hmem) (fuel : nat) (pos : lptr A) m : option hmem :=
  z ← is_null pos;
  if (z : bool) then Some m else
  match fuel with
  | O => None
  | S fuel =>
      n ← is_node pos;
      nxt ← ld_slot (addr_next pos) m;
      m ← body n m;
      hwalk_safe body fuel nxt m
  end.
Definition hlist_for_each_safe (body : A → hmem → option hmem) (fuel : nat) h m : option hmem :=
  pos ← ld_slot (LNode (SFirst h)) m; hwalk_safe body fuel pos m.
End hlist_h.
Arguments hmem H A {_ _ _ _}.

(** The memory seen as two families of fields. *)
Abbreviation sl m s := (ld_slot (LNode s) m).
Abbreviation pp m n := (ld_pprev (LNode n) m).

(** ** Fields *)

Section fields.
Context {H A : Type} `{Countable H, Countable A}.
Implicit Types (m : hmem H A) (n x y b : A) (h : H) (s t u : slot H A) (l : list A).

Lemma st_slot_spec m s v :
  is_Some (sl m s) →
  ∃ m', st_slot (LNode s) v m = Some m' ∧
    (∀ u, sl m' u = if decide (u = s) then Some v else sl m u) ∧
    (∀ b, pp m' b = pp m b).
Proof.
  destruct m as [hs ns], s as [h|n]; unfold st_slot, ld_slot, ld_pprev; simpl;
    intros [c Hc%fmap_Some]; destruct Hc as (d & Hd & ->); rewrite Hd; simpl;
    eexists; (split_and!; [done| |]); simpl.
  - intros [k|y]; rewrite ?lookup_insert; repeat case_decide; by simplify_eq.
  - done.
  - intros [k|y]; rewrite ?lookup_insert; repeat case_decide; by simplify_eq.
  - intros b. rewrite lookup_insert. case_decide; [by simplify_eq; rewrite Hd|done].
Qed.

Lemma st_pprev_spec m n v :
  is_Some (pp m n) →
  ∃ m', st_pprev (LNode n) v m = Some m' ∧
    (∀ u, sl m' u = sl m u) ∧
    (∀ b, pp m' b = if decide (b = n) then Some v else pp m b).
Proof.
  destruct m as [hs ns]. unfold st_pprev, ld_slot, ld_pprev; simpl.
  intros [c Hc%fmap_Some]. destruct Hc as (d & Hd & ->). rewrite Hd; simpl.
  eexists. split_and!; [done| |]; simpl.
  - intros [k|y]; [done|]. rewrite lookup_insert. case_decide; [by simplify_eq; rewrite Hd|done].
  - intros b. rewrite lookup_insert. repeat case_decide; by simplify_eq.
Qed.

(** A node is live when its fields can be read. *)
Lemma node_live m n : is_Some (pp m n) ↔ is_Some (sl m (SNext n)).
Proof. unfold ld_slot, ld_pprev; simpl. by rewrite !fmap_is_Some. Qed.
End fields.

(** Runs the next field write; reads of the written memory are reads of the
    old one or the value written. *)
Ltac run_hst :=
  match goal with
  | |- context [st_slot (LNode ?s) ?v ?m] =>
      let m' := fresh "m" in let E := fresh "E" in
      let S := fresh "Hsl" in let P := fresh "Hpp" in
      destruct (st_slot_spec m s v) as (m' & E & S & P);
      [|rewrite E; simpl; clear E]
  | |- context [st_pprev (LNode ?n) ?v ?m] =>
      let m' := fresh "m" in let E := fresh "E" in
      let S := fresh "Hsl" in let P := fresh "Hpp" in
      destruct (st_pprev_spec m n v) as (m' & E & S & P);
      [|rewrite E; simpl; clear E]
  end.
Ltac hread :=
  repeat match goal with
  | S : ∀ u, ld_slot (LNode u) ?m' = _ |- context [ld_slot _ ?m'] => rewrite S
  | P : ∀ b, ld_pprev (LNode b) ?m' = _ |- context [ld_pprev _ ?m'] => rewrite P
  end; repeat case_decide; simplify_eq; try done.

(** Membership in concatenations; a field of the new memory by its equation. *)
Ltac elem_in := rewrite ?elem_of_cons, ?elem_of_app, ?elem_of_cons; tauto.
Ltac hfield E := rewrite E by congruence; repeat case_decide; simplify_eq/=; try congruence.

(** ** Paths *)

Section paths.
Context {H A : Type} `{Countable H, Countable A}.
Implicit Types (m : hmem H A) (n x y b : A) (h : H) (s t u : slot H A) (l : list A).

Fixpoint hseg m s l : Prop :=
  match l with
  | [] => sl m s = Some LNull
  | x :: l => sl m s = Some (LNode x) ∧ pp m x = Some (LNode s) ∧ hseg m (SNext x) l
  end.

Definition is_hlist m h l : Prop := NoDup l ∧ hseg m (SFirst h) l.

(** The slot after the nodes [l], and the pointer to the first of them. *)
Definition last_slot s l : slot H A := default s (SNext <$> last l).
Definition to_lptr (o : option A) : lptr A := match o with Some x => LNode x | None => LNull end.

Lemma last_slot_cons s x l : last_slot s (x :: l) = last_slot (SNext x) l.
Proof. unfold last_slot. rewrite last_cons. by destruct (last l). Qed.
Lemma last_slot_snoc s x l : last_slot s (l ++ [x]) = SNext x.
Proof. unfold last_slot. by rewrite last_snoc. Qed.
Lemma last_slot_in s l : last_slot s l = s ∨ ∃ y, y ∈ l ∧ last_slot s l = SNext y.
Proof.
  unfold last_slot. destruct (last l) as [y|] eqn:E; [|by left]. right. exists y.
  split; [|done]. by apply last_Some_elem_of.
Qed.

Lemma hseg_head m s l : hseg m s l → sl m s = Some (to_lptr (head l)).
Proof. destruct l; simpl; naive_solver. Qed.
Lemma hseg_tail m s l1 l2 : hseg m s (l1 ++ l2) → hseg m (last_slot s l1) l2.
Proof.
  revert s. induction l1 as [|x l1 IH]; intros s; [done|]. simpl. intros (_ & _ & Hs).
  rewrite last_slot_cons. by apply IH.
Qed.
Lemma hseg_live m s l x : hseg m s l → x ∈ l → is_Some (pp m x).
Proof.
  intros Hs Hx. apply list_elem_of_split in Hx as (l1 & l2 & ->).
  apply hseg_tail in Hs as (_ & -> & _). done.
Qed.

Lemma hseg_frame m m' s l :
  (∀ u, u = s ∨ (∃ y, y ∈ l ∧ u = SNext y) → sl m' u = sl m u) →
  (∀ y, y ∈ l → pp m' y = pp m y) → hseg m s l → hseg m' s l.
Proof.
  revert s. induction l as [|x l IH]; intros s Hs Hp; simpl.
  - rewrite Hs by (by left). done.
  - intros (E1 & E2 & E3). rewrite Hs by (by left). rewrite Hp by set_solver.
    split_and!; [done..|]. apply IH; [|set_solver|done].
    intros u [->|(y & Hy & ->)]; apply Hs; right; set_solver.
Qed.

(** The memory with [n] linked in at slot [t], before the node [o]. *)
Definition insertion t n (o : option A) m m' : Prop :=
  (∀ u, sl m' u = if decide (u = t) then Some (LNode n)
                  else if decide (u = SNext n) then sl m t else sl m u) ∧
  (∀ b, pp m' b = if decide (b = n) then Some (LNode t)
                  else if decide (o = Some b) then Some (LNode (SNext n)) else pp m b).

(** The memory with [n] taken out from between slot [t] and the node [o]; the
    fields of [n] itself are not described. *)
Definition removal t n (o : option A) m m' : Prop :=
  (∀ u, u ≠ SNext n → sl m' u = if decide (u = t) then sl m (SNext n) else sl m u) ∧
  (∀ b, b ≠ n → pp m' b = if decide (o = Some b) then Some (LNode t) else pp m b).

Lemma hseg_insert m m' s l1 l2 n :
  NoDup (l1 ++ l2) → n ∉ l1 ++ l2 → (∀ y, y ∈ n :: l1 ++ l2 → s ≠ SNext y) →
  hseg m s (l1 ++ l2) → insertion (last_slot s l1) n (head l2) m m' →
  hseg m' s (l1 ++ n :: l2).
Proof.
  intros Hnd Hn Hs Hseg [HS HP]. revert s Hs Hseg HS HP.
  induction l1 as [|x l1 IH]; intros s Hs Hseg HS HP; simpl in *;
    assert (s ≠ SNext n) as Hsn by (apply Hs; left).
  - unfold last_slot in HS, HP; simpl in *. split_and!; [by hfield HS|by hfield HP|].
    destruct l2 as [|y l2]; simpl in *; [by hfield HS|]. destruct Hseg as (E1 & E2 & E3).
    apply NoDup_cons in Hnd as [Hy Hnd]. apply not_elem_of_cons in Hn as [Hny Hn].
    split_and!; [by hfield HS|by hfield HP|]. eapply hseg_frame, E3.
    + intros u Hu. assert (s ≠ u ∧ u ≠ SNext n) as [? ?]; [|by hfield HS].
      destruct Hu as [-> |(z & Hz & ->)]; (split; [apply Hs; by elem_in|]); congruence.
    + intros z Hz. by hfield HP.
  - destruct Hseg as (E1 & E2 & E3). apply NoDup_cons in Hnd as [Hx Hnd].
    apply not_elem_of_cons in Hn as [Hnx Hn]. rewrite last_slot_cons in HS, HP.
    assert (s ≠ last_slot (SNext x) l1) as Hst.
    { destruct (last_slot_in (SNext x) l1) as [-> |(y & Hy & ->)]; apply Hs; by elem_in. }
    assert (head l2 ≠ Some x) as Hh.
    { intros Hh%head_Some_elem_of. apply Hx. by elem_in. }
    split_and!; [by hfield HS|by hfield HP|].
    apply IH; [done|done| |done|done|done]. intros y [-> |Hy]%elem_of_cons [= ->]; done.
Qed.

Lemma hseg_remove m m' s l1 x l2 :
  NoDup (l1 ++ x :: l2) → (∀ y, y ∈ l1 ++ x :: l2 → s ≠ SNext y) →
  hseg m s (l1 ++ x :: l2) → removal (last_slot s l1) x (head l2) m m' →
  hseg m' s (l1 ++ l2).
Proof.
  intros Hnd Hs Hseg [HS HP]. revert s Hs Hseg HS HP.
  induction l1 as [|z l1 IH]; intros s Hs Hseg HS HP; simpl in *;
    assert (s ≠ SNext x) as Hsx by (apply Hs; by elem_in).
  - unfold last_slot in HS, HP; simpl in *. destruct Hseg as (E1 & E2 & E3).
    apply NoDup_cons in Hnd as [Hx Hnd]. destruct l2 as [|y l2]; simpl in *; [by hfield HS|].
    destruct E3 as (E3 & E4 & E5). apply NoDup_cons in Hnd as [Hy Hnd].
    apply not_elem_of_cons in Hx as [Hxy Hx]. split_and!; [by hfield HS|by hfield HP|].
    eapply hseg_frame, E5.
    + intros u Hu. assert (s ≠ u ∧ u ≠ SNext x) as [? ?]; [|by hfield HS].
      destruct Hu as [-> |(w & Hw & ->)]; (split; [apply Hs; by elem_in|]); congruence.
    + intros w Hw. assert (w ≠ x) by congruence. by hfield HP.
  - destruct Hseg as (E1 & E2 & E3). apply NoDup_cons in Hnd as [Hz Hnd].
    assert (z ≠ x) as Hzx by (intros ->; apply Hz; by elem_in).
    rewrite last_slot_cons in HS, HP.
    assert (s ≠ last_slot (SNext z) l1) as Hst.
    { destruct (last_slot_in (SNext z) l1) as [-> |(y & Hy & ->)]; apply Hs; by elem_in. }
    assert (head l2 ≠ Some z) as Hh.
    { intros Hh%head_Some_elem_of. apply Hz. by elem_in. }
    split_and!; [by hfield HS|by hfield HP|].
    apply IH; [done| |done|done|done]. intros y Hy [= ->]. done.
Qed.
End paths.

(** ** What each routine does to a list *)

Section routines.
Context {H A : Type} `{Countable H, Countable A}.
Implicit Types (m : hmem H A) (n x y b : A) (h : H) (s t u : slot H A) (l : list A).

Lemma is_null_to_lptr (o : option A) : is_null (to_lptr o) = Some (bool_decide (o = None)).
Proof. by destruct o. Qed.

(** The pieces of a list around a member. *)
Lemma is_hlist_member m h l1 x l2 :
  is_hlist m h (l1 ++ x :: l2) →
  sl m (last_slot (SFirst h) l1) = Some (LNode x) ∧
  pp m x = Some (LNode (last_slot (SFirst h) l1)) ∧
  sl m (SNext x) = Some (to_lptr (head l2)) ∧ x ∉ l1 ++ l2.
Proof.
  intros [Hnd Hs]. apply hseg_tail in Hs as (E1 & E2 & E3%hseg_head). split_and!; [done..|].
  rewrite <- Permutation_middle in Hnd. by apply NoDup_cons in Hnd as [? _].
Qed.

Lemma last_slot_ne h l x : x ∉ l → last_slot (SFirst h) l ≠ SNext x.
Proof. intros Hx. destruct (last_slot_in (SFirst h) l) as [-> |(y & Hy & ->)]; congruence. Qed.

(** Writing the back pointer of the node after, when there is one. *)
Lemma st_pprev_opt m (o : option A) (v : lptr (slot H A)) :
  (∀ y, o = Some y → is_Some (pp m y)) →
  ∃ m', (z ← is_null (to_lptr o); if (z : bool) then Some m else st_pprev (to_lptr o) v m) = Some m' ∧
    (∀ u, sl m' u = sl m u) ∧
    (∀ b, pp m' b = if decide (o = Some b) then Some v else pp m b).
Proof.
  intros Hlive. destruct o as [y|]; simpl; [|by exists m].
  destruct (st_pprev_spec m y v) as (m' & E & S & P); [by apply Hlive|].
  exists m'. split_and!; [done..|]. intros b. rewrite P. repeat case_decide; by simplify_eq.
Qed.

Lemma __hlist_del_spec m h l1 x l2 :
  is_hlist m h (l1 ++ x :: l2) →
  ∃ m', __hlist_del (LNode x) m = Some m' ∧
    removal (last_slot (SFirst h) l1) x (head l2) m m' ∧
    is_Some (pp m' x).
Proof.
  intros Hl. destruct (is_hlist_member _ _ _ _ _ Hl) as (E1 & E2 & E3 & Hx).
  unfold __hlist_del. cbn [addr_next]. rewrite E3, E2; cbn [mbind option_bind].
  run_hst; [by rewrite E1|].
  destruct (st_pprev_opt m0 (head l2) (LNode (last_slot (SFirst h) l1)))
    as (m' & -> & S & P).
  { intros y Hy%head_Some_elem_of. rewrite Hpp. destruct Hl as [_ Hl].
    eapply hseg_live; [exact Hl|]. by elem_in. }
  exists m'. split; [done|]. split; [split|].
  - intros u Hu. rewrite S, Hsl, E3. done.
  - intros b Hb. by rewrite P, Hpp.
  - rewrite P, Hpp. case_decide; [done|by rewrite E2].
Qed.

(** The fields of the removed node can be overwritten. *)
Lemma removal_own t n o m m1 m2 :
  removal t n o m m1 → (∀ u, u ≠ SNext n → sl m2 u = sl m1 u) →
  (∀ b, b ≠ n → pp m2 b = pp m1 b) → removal t n o m m2.
Proof. intros [S P] S' P'. split; intros; [rewrite S', S|rewrite P', P]; done. Qed.

Lemma st_node_spec m n (v : lptr A) (w : lptr (slot H A)) :
  is_Some (pp m n) →
  ∃ m', (m ← st_slot (LNode (SNext n)) v m; st_pprev (LNode n) w m) = Some m' ∧
    (∀ u, sl m' u = if decide (u = SNext n) then Some v else sl m u) ∧
    (∀ b, pp m' b = if decide (b = n) then Some w else pp m b).
Proof.
  intros Hn. run_hst; [by apply node_live|]. run_hst; [by rewrite Hpp|].
  eexists. split_and!; [done|intros; by rewrite Hsl0, Hsl|intros; by rewrite Hpp0, Hpp].
Qed.

Lemma hlist_del_spec m h l1 x l2 :
  is_hlist m h (l1 ++ x :: l2) →
  ∃ m', hlist_del (LNode x) m = Some m' ∧ removal (last_slot (SFirst h) l1) x (head l2) m m' ∧
    pp m' x = Some LIST_POISON2 ∧ sl m' (SNext x) = Some LIST_POISON1.
Proof.
  intros Hl. unfold hlist_del. destruct (__hlist_del_spec _ _ _ _ _ Hl) as (m1 & -> & R & Hx).
  cbn [mbind option_bind addr_next].
  destruct (st_node_spec m1 x LIST_POISON1 LIST_POISON2 Hx) as (m' & E & S & P).
  exists m'. split; [exact E|]. split; [|by rewrite S, P, !decide_True].
  eapply removal_own; [exact R|intros; by rewrite S, decide_False|intros; by rewrite P, decide_False].
Qed.

Lemma hlist_del_init_spec m h l1 x l2 :
  is_hlist m h (l1 ++ x :: l2) →
  ∃ m', hlist_del_init (LNode x) m = Some m' ∧
    removal (last_slot (SFirst h) l1) x (head l2) m m' ∧
    pp m' x = Some LNull ∧ sl m' (SNext x) = Some LNull.
Proof.
  intros Hl. unfold hlist_del_init.
  destruct (is_hlist_member _ _ _ _ _ Hl) as (_ & -> & _ & _). cbn [mbind option_bind is_null].
  destruct (__hlist_del_spec _ _ _ _ _ Hl) as (m1 & -> & R & Hx).
  cbn [mbind option_bind addr_next]. unfold INIT_HLIST_NODE. cbn [addr_next].
  destruct (st_node_spec m1 x LNull LNull Hx) as (m' & E & S & P).
  exists m'. split; [exact E|]. split; [|by rewrite S, P, !decide_True].
  eapply removal_own; [exact R|intros; by rewrite S, decide_False|intros; by rewrite P, decide_False].
Qed.

Lemma hlist_add_head_spec m h l n :
  is_hlist m h l → n ∉ l → is_Some (pp m n) →
  ∃ m', hlist_add_head (LNode n) h m = Some m' ∧ insertion (SFirst h) n (head l) m m'.
Proof.
  intros [Hnd Hs] Hn Hlive. apply hseg_head in Hs as E. unfold hlist_add_head.
  cbn [addr_next]. rewrite E; cbn [mbind option_bind]. run_hst; [by apply node_live|].
  destruct (st_pprev_opt m0 (head l) (LNode (SNext n))) as (m1 & E1 & S1 & P1).
  { intros y Hy%head_Some_elem_of. rewrite Hpp. by eapply hseg_live. }
  destruct (is_null (to_lptr (head l))) as [z|]; [|done]. cbn [mbind option_bind] in *.
  rewrite E1. cbn [mbind option_bind]. run_hst; [by rewrite S1, Hsl, decide_False, E|].
  run_hst; [rewrite Hpp0, P1, Hpp; by case_decide|]. eexists. split; [done|]. split.
  - intros u. rewrite Hsl1, Hsl0, S1, Hsl. by rewrite E.
  - intros b. rewrite Hpp1, Hpp0, P1, Hpp. done.
Qed.

Lemma hlist_add_before_spec m h l1 x l2 n :
  is_hlist m h (l1 ++ x :: l2) → n ∉ l1 ++ x :: l2 → is_Some (pp m n) →
  ∃ m', hlist_add_before (LNode n) (LNode x) m = Some m' ∧
    insertion (last_slot (SFirst h) l1) n (Some x) m m'.
Proof.
  intros Hl Hn Hlive. destruct (is_hlist_member _ _ _ _ _ Hl) as (E1 & E2 & E3 & Hx).
  assert (n ≠ x ∧ n ∉ l1) as [Hnx Hn1] by (split; [intros ->|intros ?]; apply Hn; by elem_in).
  pose proof (last_slot_ne h l1 n Hn1) as Ht.
  unfold hlist_add_before. cbn [addr_next]. rewrite E2; cbn [mbind option_bind].
  run_hst; [done|]. run_hst; [rewrite Hsl; by apply node_live|].
  run_hst; [rewrite Hpp0, Hpp, decide_False by done; by rewrite E2|].
  rewrite Hpp1, Hpp0, Hpp, decide_False, decide_True by done. cbn [mbind option_bind].
  run_hst; [rewrite Hsl1, Hsl0, Hsl, decide_False by done; by rewrite E1|].
  eexists. split; [done|]. split.
  - intros u. rewrite Hsl2, Hsl1, Hsl0, Hsl, E1. done.
  - intros b. rewrite Hpp2, Hpp1, Hpp0, Hpp. repeat case_decide; congruence.
Qed.

Lemma hlist_add_after_spec m h l1 x l2 n :
  is_hlist m h (l1 ++ x :: l2) → n ∉ l1 ++ x :: l2 → is_Some (pp m n) →
  ∃ m', hlist_add_after (LNode x) (LNode n) m = Some m' ∧
    insertion (SNext x) n (head l2) m m'.
Proof.
  intros Hl Hn Hlive. destruct (is_hlist_member _ _ _ _ _ Hl) as (E1 & E2 & E3 & Hx).
  assert (n ≠ x ∧ n ∉ l2) as [Hnx Hn2] by (split; [intros ->|intros ?]; apply Hn; by elem_in).
  unfold hlist_add_after. cbn [addr_next]. rewrite E3; cbn [mbind option_bind].
  run_hst; [by apply node_live|]. run_hst; [rewrite Hsl, decide_False by congruence; by rewrite E3|].
  run_hst; [by rewrite Hpp0, Hpp|].
  rewrite Hsl1, Hsl0, Hsl, decide_False, decide_True by congruence. cbn [mbind option_bind].
  destruct (st_pprev_opt m2 (head l2) (LNode (SNext n))) as (m' & E & S & P).
  { intros y Hy%head_Some_elem_of. rewrite Hpp1. case_decide; [done|]. rewrite Hpp0, Hpp.
    destruct Hl as [_ Hl]. eapply hseg_live; [exact Hl|]. by elem_in. }
  exists m'. split; [exact E|]. split.
  - intros u. rewrite S, Hsl1, Hsl0, Hsl, E3. done.
  - intros b. rewrite P, Hpp1, Hpp0, Hpp. repeat case_decide; try congruence.
    exfalso. apply Hn2. subst. by apply head_Some_elem_of.
Qed.
End routines.

(** ** The lists of a memory *)

(** The abstract state: the sequence of each head, and the nodes known to be
    unhashed. *)
Record hlists (H A : Type) `{Countable H, Countable A} := mk_hlists {
  hl_lists : gmap H (list A);
  hl_unhashed : gset A;
}.
Arguments mk_hlists {H A _ _ _ _}.
Arguments hl_lists {H A _ _ _ _}.
Arguments hl_unhashed {H A _ _ _ _}.

Inductive hlist_op (H A : Type) :=
  | HInitHead (h : H)
  | HInitNode (n : A)
  | HAddHead (n : A) (h : H)
  | HAddBefore (h : H) (n x : A)
  | HAddAfter (h : H) (x n : A)
  | HDel (h : H) (x : A)
  | HDelInit (h : H) (x : A).
Arguments HInitHead {H A}.
Arguments HInitNode {H A}.
Arguments HAddHead {H A}.
Arguments HAddBefore {H A}.
Arguments HAddAfter {H A}.
Arguments HDel {H A}.
Arguments HDelInit {H A}.

Section refinement.
Context {H A : Type} `{Countable H, Countable A}.
Implicit Types (m : hmem H A) (L : gmap H (list A)) (F : gset A) (n x y b : A) (h k : H).
Implicit Types (s t u : slot H A) (l r : list A) (S : hlists H A).

Definition unlinked L n : Prop := map_Forall (λ _ l, n ∉ l) L.
#[global] Instance unlinked_dec L n : Decision (unlinked L n).
Proof. unfold unlinked. apply _. Defined.

Lemma unlinked_in L n h l : unlinked L n → L !! h = Some l → n ∉ l.
Proof. intros Hu Hh. exact (Hu h l Hh). Qed.

Definition hlists_ok m S : Prop :=
  (∀ h l, hl_lists S !! h = Some l → is_hlist m h l) ∧
  (∀ h k l r y, hl_lists S !! h = Some l → hl_lists S !! k = Some r → h ≠ k → y ∈ l → y ∉ r) ∧
  (∀ n, n ∈ hl_unhashed S → pp m n = Some LNull ∧ unlinked (hl_lists S) n).

(** The meaning of the calls on sequences. *)
Fixpoint insert_before n x l : list A :=
  match l with
  | [] => []
  | y :: l => if decide (y = x) then n :: y :: l else y :: insert_before n x l
  end.
Fixpoint insert_after x n l : list A :=
  match l with
  | [] => []
  | y :: l => if decide (y = x) then y :: n :: l else y :: insert_after x n l
  end.

Definition habs_op (heads : gset H) (nodes : gset A) S (op : hlist_op H A) : option (hlists H A) :=
  let L := hl_lists S in let F := hl_unhashed S in
  match op with
  | HInitHead h =>
      if decide (h ∈ heads) then Some (mk_hlists (<[h := []]> L) F) else None
  | HInitNode n =>
      if decide (n ∈ nodes ∧ unlinked L n) then Some (mk_hlists L ({[n]} ∪ F)) else None
  | HAddHead n h =>
      l ← L !! h;
      if decide (n ∈ nodes ∧ unlinked L n)
      then Some (mk_hlists (<[h := n :: l]> L) (F ∖ {[n]})) else None
  | HAddBefore h n x =>
      l ← L !! h;
      if decide (n ∈ nodes ∧ unlinked L n ∧ x ∈ (l : list A))
      then Some (mk_hlists (<[h := insert_before n x l]> L) (F ∖ {[n]})) else None
  | HAddAfter h x n =>
      l ← L !! h;
      if decide (n ∈ nodes ∧ unlinked L n ∧ x ∈ (l : list A))
      then Some (mk_hlists (<[h := insert_after x n l]> L) (F ∖ {[n]})) else None
  | HDel h x =>
      l ← L !! h;
      if decide (x ∈ (l : list A)) then Some (mk_hlists (<[h := filter (.≠ x) l]> L) F) else None
  | HDelInit h x =>
      if decide (x ∈ F) then Some S else
      l ← L !! h;
      if decide (x ∈ (l : list A)) then Some (mk_hlists (<[h := filter (.≠ x) l]> L) ({[x]} ∪ F)) else None
  end.

Definition hconc_op m (op : hlist_op H A) : option (hmem H A) :=
  match op with
  | HInitHead h => INIT_HLIST_HEAD h m
  | HInitNode n => INIT_HLIST_NODE (LNode n) m
  | HAddHead n h => hlist_add_head (LNode n) h m
  | HAddBefore _ n x => hlist_add_before (LNode n) (LNode x) m
  | HAddAfter _ x n => hlist_add_after (LNode x) (LNode n) m
  | HDel _ x => hlist_del (LNode x) m
  | HDelInit _ x => hlist_del_init (LNode x) m
  end.

Fixpoint habs_run (heads : gset H) (nodes : gset A) S (ops : list (hlist_op H A)) :
    option (hlists H A) :=
  match ops with
  | [] => Some S
  | op :: ops => S ← habs_op heads nodes S op; habs_run heads nodes S ops
  end.
Fixpoint hconc_run m (ops : list (hlist_op H A)) : option (hmem H A) :=
  match ops with
  | [] => Some m
  | op :: ops => m ← hconc_op m op; hconc_run m ops
  end.

(** The same fields exist. *)
Definition same_cells m m' : Prop := ∀ s, is_Some (sl m' s) ↔ is_Some (sl m s).

Lemma same_cells_heads m m' : same_cells m m' → dom (hm_heads m') = dom (hm_heads m).
Proof.
  intros Hs. apply set_eq. intros h. rewrite !elem_of_dom. specialize (Hs (SFirst h)).
  unfold ld_slot in Hs; simpl in Hs. by rewrite !fmap_is_Some in Hs.
Qed.
Lemma same_cells_nodes m m' : same_cells m m' → dom (hm_nodes m') = dom (hm_nodes m).
Proof.
  intros Hs. apply set_eq. intros n. rewrite !elem_of_dom. specialize (Hs (SNext n)).
  unfold ld_slot in Hs; simpl in Hs. by rewrite !fmap_is_Some in Hs.
Qed.
Lemma node_dom m n : n ∈ dom (hm_nodes m) ↔ is_Some (pp m n).
Proof. unfold ld_pprev; simpl. by rewrite fmap_is_Some, elem_of_dom. Qed.

Lemma insert_before_app n x l1 l2 :
  x ∉ l1 → insert_before n x (l1 ++ x :: l2) = l1 ++ n :: x :: l2.
Proof.
  induction l1 as [|y l1 IH]; simpl; intros Hx; [by rewrite decide_True|].
  apply not_elem_of_cons in Hx as [? ?]. rewrite decide_False, IH by congruence. done.
Qed.
Lemma insert_after_app n x l1 l2 :
  x ∉ l1 → insert_after x n (l1 ++ x :: l2) = l1 ++ x :: n :: l2.
Proof.
  induction l1 as [|y l1 IH]; simpl; intros Hx; [by rewrite decide_True|].
  apply not_elem_of_cons in Hx as [? ?]. rewrite decide_False, IH by congruence. done.
Qed.

(** One list changes; the slots and back pointers of the others do not. *)
Lemma hlists_upd m m' S h l F :
  hlists_ok m S → is_hlist m' h l →
  (∀ k r, hl_lists S !! k = Some r → k ≠ h →
     (∀ u, u = SFirst k ∨ (∃ y, y ∈ r ∧ u = SNext y) → sl m' u = sl m u) ∧
     (∀ y, y ∈ r → pp m' y = pp m y ∧ y ∉ l)) →
  (∀ n, n ∈ F → pp m' n = Some LNull ∧ (n ∉ l) ∧ ∀ k r, hl_lists S !! k = Some r → k ≠ h → n ∉ r) →
  hlists_ok m' (mk_hlists (<[h := l]> (hl_lists S)) F).
Proof.
  intros (Hl & Hd & _) Hh Hout HF. split_and!; simpl.
  - intros k r [[<- <-]|[Hne Hk]]%lookup_insert_Some; [done|].
    destruct (Hl k r Hk) as [Hnd Hs]. destruct (Hout k r Hk (not_eq_sym Hne)) as [HS HP].
    split; [done|]. eapply hseg_frame, Hs; [done|]. intros y Hy. by apply HP.
  - intros k1 k2 r1 r2 y [[<- <-]|[N1 K1]]%lookup_insert_Some
      [[<- <-]|[N2 K2]]%lookup_insert_Some Hne Hy; [done| | |].
    + intros Hy'. by destruct (Hout k2 r2 K2 (not_eq_sym N2)) as [_ [_ []]%(λ Q, Q y Hy')].
    + by destruct (Hout k1 r1 K1 (not_eq_sym N1)) as [_ [_ ?]%(λ Q, Q y Hy)].
    + by eapply (Hd k1 k2).
  - intros n Hn. destruct (HF n Hn) as (E & N & O). split; [done|].
    intros k r [[<- <-]|[Hne Hk]]%lookup_insert_Some; [done|]. by eapply O.
Qed.

Lemma hlists_insert m m' S h l1 l2 n :
  hlists_ok m S → hl_lists S !! h = Some (l1 ++ l2) → unlinked (hl_lists S) n →
  insertion (last_slot (SFirst h) l1) n (head l2) m m' →
  hlists_ok m' (mk_hlists (<[h := l1 ++ n :: l2]> (hl_lists S)) (hl_unhashed S ∖ {[n]})).
Proof.
  intros HS Hh Hn Hins. pose proof HS as (Hl & Hd & HF). pose proof (Hl h _ Hh) as [Hnd Hseg].
  pose proof (Hn h _ Hh : n ∉ l1 ++ l2) as Hn'. pose proof Hins as [IS IP].
  assert (∀ b, head l2 = Some b → b ∈ l1 ++ l2) as Hhd.
  { intros b Hb%head_Some_elem_of. by elem_in. }
  apply (hlists_upd m); [done| | |].
  - split.
    + rewrite <- Permutation_middle. by apply NoDup_cons.
    + eapply hseg_insert; done.
  - intros k r Hk Hne. split.
    + intros u Hu. rewrite IS.
      assert (u ≠ last_slot (SFirst h) l1 ∧ u ≠ SNext n) as [? ?]; [|by rewrite !decide_False].
      pose proof (Hn k r Hk). destruct Hu as [-> |(y & Hy & ->)].
      * split; [|done]. destruct (last_slot_in (SFirst h) l1) as [-> |(z & _ & ->)]; congruence.
      * pose proof (Hd k h r _ y Hk Hh Hne Hy) as Hyl.
        split; [|congruence]. apply not_eq_sym, last_slot_ne. intros ?. apply Hyl. by elem_in.
    + intros y Hy. pose proof (Hn k r Hk) as Hnr. pose proof (Hd k h r _ y Hk Hh Hne Hy) as Hyl.
      assert (y ≠ n) by (intros ->; done). split.
      * rewrite IP, !decide_False; [done| |done]. intros ?. by apply Hyl, Hhd.
      * intros [Hy1|[-> |Hy2]%elem_of_cons]%elem_of_app; [|done|]; apply Hyl; by elem_in.
  - intros b [Hb Hbn]%elem_of_difference. rewrite elem_of_singleton in Hbn.
    destruct (HF b Hb) as [E Hu]. pose proof (Hu h _ Hh : b ∉ l1 ++ l2) as Hbl. split_and!.
    + rewrite IP, !decide_False; [done| |done]. intros ?. by apply Hbl, Hhd.
    + intros [Hy1|[-> |Hy2]%elem_of_cons]%elem_of_app; [|done|]; apply Hbl; by elem_in.
    + intros k r Hk _. by eapply Hu.
Qed.

Lemma hlists_remove m m' S h l1 x l2 F :
  hlists_ok m S → hl_lists S !! h = Some (l1 ++ x :: l2) →
  removal (last_slot (SFirst h) l1) x (head l2) m m' →
  (∀ n, n ∈ F → n ∈ hl_unhashed S ∨ n = x ∧ pp m' x = Some LNull) →
  hlists_ok m' (mk_hlists (<[h := filter (.≠ x) (l1 ++ x :: l2)]> (hl_lists S)) F).
Proof.
  intros HS Hh Hrem HF'. pose proof HS as (Hl & Hd & HF). pose proof (Hl h _ Hh) as Hls.
  destruct (is_hlist_member _ _ _ _ _ Hls) as (_ & _ & _ & Hx). destruct Hls as [Hnd Hseg].
  pose proof Hrem as [RS RP]. rewrite filter_mid by done.
  assert (∀ b, head l2 = Some b → b ∈ l1 ++ x :: l2) as Hhd.
  { intros b Hb%head_Some_elem_of. by elem_in. }
  assert (∀ b, b ∈ l1 ++ l2 → b ∈ l1 ++ x :: l2) as Hsub.
  { intros b. rewrite !elem_of_app, elem_of_cons. tauto. }
  apply (hlists_upd m); [done| | |].
  - split.
    + rewrite <- Permutation_middle in Hnd. by apply NoDup_cons in Hnd as [_ ?].
    + eapply hseg_remove; done.
  - intros k r Hk Hne.
    assert (x ∉ r) as Hxr by (eapply (Hd h k); [done..|by elem_in]). split.
    + intros u Hu.
      assert (u ≠ last_slot (SFirst h) l1 ∧ u ≠ SNext x) as [? ?];
        [|by rewrite RS, decide_False].
      destruct Hu as [-> |(y & Hy & ->)].
      * split; [|done]. destruct (last_slot_in (SFirst h) l1) as [-> |(z & _ & ->)]; congruence.
      * pose proof (Hd k h r _ y Hk Hh Hne Hy) as Hyl.
        split; [|congruence]. apply not_eq_sym, last_slot_ne. intros ?. apply Hyl. by elem_in.
    + intros y Hy. pose proof (Hd k h r _ y Hk Hh Hne Hy) as Hyl. split; [|by intros ?%Hsub].
      rewrite RP, decide_False; [done| |congruence]. intros ?. by apply Hyl, Hhd.
  - intros b [Hb|[-> E]]%HF'.
    + destruct (HF b Hb) as [E Hu]. pose proof (Hu h _ Hh : b ∉ l1 ++ x :: l2) as Hbl. split_and!.
      * rewrite RP, decide_False; [done| |].
        -- intros ?. by apply Hbl, Hhd.
        -- intros ->. apply Hbl. by elem_in.
      * by intros ?%Hsub.
      * intros k r Hk _. by eapply Hu.
    + split_and!; [done..|]. intros k r Hk Hne. eapply (Hd h k); [done..|congruence|by elem_in].
Qed.

Lemma insertion_cells t n o m m' :
  insertion t n o m m' → is_Some (sl m t) → is_Some (sl m (SNext n)) → same_cells m m'.
Proof. intros [S _] Ht Hn u. rewrite S. repeat case_decide; subst; naive_solver. Qed.
Lemma removal_cells t n o m m' :
  removal t n o m m' → is_Some (sl m t) → is_Some (sl m (SNext n)) →
  is_Some (sl m' (SNext n)) → same_cells m m'.
Proof.
  intros [S _] Ht Hn Hn' u. destruct (decide (u = SNext n)) as [-> |Hu]; [done|].
  rewrite S by done. case_decide; subst; naive_solver.
Qed.

Definition hop_refines (op : hlist_op H A) : Prop := ∀ m S S',
  hlists_ok m S → habs_op (dom (hm_heads m)) (dom (hm_nodes m)) S op = Some S' →
  ∃ m', hconc_op m op = Some m' ∧ same_cells m m' ∧ hlists_ok m' S'.

(** Taking the guard of an abstract operation apart. *)
Ltac habs_inv :=
  simpl; intros;
  repeat match goal with
         | Hs : (_ ≫= _) = Some _ |- _ => apply bind_Some in Hs as (? & ? & Hs)
         | Hs : (if decide ?P then _ else None) = Some _ |- _ =>
             destruct (decide P); [|discriminate Hs]; destruct_and?; simplify_eq
         end.

Lemma ref_hinit_head h : hop_refines (HInitHead h).
Proof.
  intros m S S' HS. habs_inv. unfold INIT_HLIST_HEAD.
  assert (is_Some (sl m (SFirst h))) as Hh.
  { unfold ld_slot; simpl. by rewrite fmap_is_Some, <- elem_of_dom. }
  run_hst; [done|]. eexists. split_and!; [done| |].
  - intros u. rewrite Hsl. case_decide; subst; naive_solver.
  - pose proof HS as (Hl & Hd & HF). apply (hlists_upd m); [done| | |].
    + split; [constructor|]. simpl. by rewrite Hsl, decide_True.
    + intros k r Hk Hne. split; [|intros y Hy; rewrite Hpp, elem_of_nil; tauto].
      intros u Hu. rewrite Hsl, decide_False; [done|]. destruct Hu as [-> |(y & _ & ->)]; congruence.
    + intros n Hn. destruct (HF n Hn) as [E Hu]. rewrite Hpp, elem_of_nil. split_and!; [done|tauto|].
      intros k r Hk _. by eapply Hu.
Qed.

Lemma ref_hinit_node n : hop_refines (HInitNode n).
Proof.
  intros m S S' HS. habs_inv. match goal with Hn : n ∈ _ |- _ => apply node_dom in Hn end.
  unfold INIT_HLIST_NODE. cbn [addr_next].
  destruct (st_node_spec m n LNull LNull) as (m' & E & Es & Ep); [done|].
  exists m'. split_and!; [exact E| |].
  - intros u. rewrite Es. case_decide; subst; [|done]. split; [|done]. intros _. by apply node_live.
  - destruct HS as (Hl & Hd & HF). split_and!; simpl; [|done|].
    + intros h l Hh. destruct (Hl h l Hh) as [Hnd Hs]. split; [done|].
      assert (n ∉ l) by eauto using unlinked_in. eapply hseg_frame, Hs.
      * intros u Hu. rewrite Es, decide_False; [done|].
        destruct Hu as [-> |(y & Hy & ->)]; congruence.
      * intros y Hy. rewrite Ep, decide_False; [done|]. congruence.
    + intros b [->%elem_of_singleton|Hb]%elem_of_union; [by rewrite Ep, decide_True|].
      destruct (HF b Hb) as [Eb Hu]. split; [|done]. rewrite Ep. by case_decide.
Qed.

(** The three ways to link a node in. *)
Lemma ref_insert (op : hmem H A → option (hmem H A)) m S h l1 l2 n :
  hlists_ok m S → hl_lists S !! h = Some (l1 ++ l2) → n ∈ dom (hm_nodes m) →
  unlinked (hl_lists S) n →
  (is_hlist m h (l1 ++ l2) → n ∉ l1 ++ l2 → is_Some (pp m n) →
   ∃ m', op m = Some m' ∧ insertion (last_slot (SFirst h) l1) n (head l2) m m') →
  ∃ m', op m = Some m' ∧ same_cells m m' ∧
    hlists_ok m' (mk_hlists (<[h := l1 ++ n :: l2]> (hl_lists S)) (hl_unhashed S ∖ {[n]})).
Proof.
  intros HS Hh Hn%node_dom Hu Hop. pose proof HS as (Hl & _). pose proof (Hl h _ Hh) as Hls.
  destruct Hop as (m' & E & Hins); [done|by eapply unlinked_in|done|].
  exists m'. split_and!; [done| |by apply (hlists_insert m)].
  destruct Hls as [_ Hseg%hseg_tail%hseg_head].
  eapply insertion_cells; [done|by rewrite Hseg|by apply node_live].
Qed.

Lemma ref_hadd_head n h : hop_refines (HAddHead n h).
Proof.
  intros m S S' HS. habs_inv.
  eapply (ref_insert (hlist_add_head (LNode n) h) m S h []); eauto using hlist_add_head_spec.
Qed.
Lemma ref_hadd_before h n x : hop_refines (HAddBefore h n x).
Proof.
  intros m S S' HS. habs_inv. match goal with Hx : x ∈ ?l |- _ =>
    apply list_elem_of_split in Hx as (l1 & l2 & ->) end.
  destruct HS as (Hl & HS). edestruct (Hl h) as [Hnd _]; [done|].
  apply NoDup_app in Hnd as (_ & Hx & _). rewrite insert_before_app.
  - eapply (ref_insert (hlist_add_before (LNode n) (LNode x)) m S h l1 (x :: l2));
      eauto using hlist_add_before_spec. done.
  - intros Hx1. apply (Hx x Hx1). by elem_in.
Qed.
Lemma ref_hadd_after h x n : hop_refines (HAddAfter h x n).
Proof.
  intros m S S' HS. habs_inv. match goal with Hx : x ∈ ?l |- _ =>
    apply list_elem_of_split in Hx as (l1 & l2 & ->) end.
  destruct HS as (Hl & HS). edestruct (Hl h) as [Hnd _]; [done|].
  apply NoDup_app in Hnd as (_ & Hx & _). rewrite insert_after_app.
  - pose proof (ref_insert (hlist_add_after (LNode x) (LNode n)) m S h (l1 ++ [x]) l2 n) as R.
    rewrite <- !(assoc_L (++)), last_slot_snoc in R. simpl in R.
    apply R; eauto using hlist_add_after_spec. done.
  - intros Hx1. apply (Hx x Hx1). by elem_in.
Qed.

(** The two ways to take a member out. *)
Lemma ref_remove (op : hmem H A → option (hmem H A)) m S h l x F :
  hlists_ok m S → hl_lists S !! h = Some l → x ∈ l →
  (∀ l1 l2, is_hlist m h (l1 ++ x :: l2) → ∃ m', op m = Some m' ∧
     removal (last_slot (SFirst h) l1) x (head l2) m m' ∧
     is_Some (sl m' (SNext x)) ∧
     (∀ n, n ∈ F → n ∈ hl_unhashed S ∨ n = x ∧ pp m' x = Some LNull)) →
  ∃ m', op m = Some m' ∧ same_cells m m' ∧
    hlists_ok m' (mk_hlists (<[h := filter (.≠ x) l]> (hl_lists S)) F).
Proof.
  intros HS Hh (l1 & l2 & ->)%list_elem_of_split Hop. pose proof HS as (Hl & _).
  pose proof (Hl h _ Hh) as Hls. destruct (Hop l1 l2 Hls) as (m' & E & R & Hx & HF).
  exists m'. split_and!; [done| |by apply (hlists_remove m)].
  destruct (is_hlist_member _ _ _ _ _ Hls) as (E1 & _ & E2 & _).
  eapply removal_cells; [done|by rewrite E1|by rewrite E2|done].
Qed.

Lemma ref_hdel h x : hop_refines (HDel h x).
Proof.
  intros m S S' HS. habs_inv. eapply ref_remove; [done..|]. intros l1 l2 Hl.
  destruct (hlist_del_spec _ _ _ _ _ Hl) as (m' & E & R & _ & Es).
  exists m'. rewrite Es. split_and!; [done..|]. by left.
Qed.
Lemma ref_hdel_init h x : hop_refines (HDelInit h x).
Proof.
  intros m S S' HS. simpl. case_decide as Hx.
  - intros [= <-]. exists m. split_and!; [|done..]. unfold hlist_del_init.
    destruct HS as (_ & _ & HF). by destruct (HF x Hx) as [-> _].
  - habs_inv. eapply ref_remove; [done..|]. intros l1 l2 Hl.
    destruct (hlist_del_init_spec _ _ _ _ _ Hl) as (m' & E & R & Ep & Es).
    exists m'. rewrite Es. split_and!; [done..|].
    intros n [->%elem_of_singleton|Hn]%elem_of_union; [by right|by left].
Qed.

Lemma hlist_op_refines op : hop_refines op.
Proof.
  destruct op; auto using ref_hinit_head, ref_hinit_node, ref_hadd_head, ref_hadd_before,
    ref_hadd_after, ref_hdel, ref_hdel_init.
Qed.

Lemma hlist_run_refines ops m S S' :
  hlists_ok m S → habs_run (dom (hm_heads m)) (dom (hm_nodes m)) S ops = Some S' →
  ∃ m', hconc_run m ops = Some m' ∧ same_cells m m' ∧ hlists_ok m' S'.
Proof.
  revert m S. induction ops as [|op ops IH]; intros m S HS Hops.
  - simplify_eq/=. exists m. split_and!; [done| |done]. by intros s.
  - cbn in Hops. apply bind_Some in Hops as (S1 & E & Hops).
    destruct (hlist_op_refines op m S S1 HS E) as (m1 & E1 & Hc & HS1).
    destruct (IH m1 S1) as (m2 & E2 & Hc2 & HS2); [done| |].
    { by rewrite (same_cells_heads m m1), (same_cells_nodes m m1). }
    exists m2. cbn. rewrite E1. cbn. split_and!; [done| |done].
    intros s. by rewrite (Hc2 s), (Hc s).
Qed.

(** ** Iteration *)

Lemma hwalk_spec m s l fuel :
  hseg m s l → length l ≤ fuel → hwalk fuel (to_lptr (head l)) m = Some l.
Proof.
  revert s fuel. induction l as [|x l IH]; intros s fuel Hs Hf; [by destruct fuel|].
  destruct fuel as [|fuel]; simpl in *; [lia|]. destruct Hs as (_ & _ & Hs).
  rewrite (hseg_head _ _ _ Hs); cbn [mbind option_bind]. by rewrite (IH (SNext x)) by (done || lia).
Qed.
Lemma hlist_for_each_spec m h l fuel :
  is_hlist m h l → length l ≤ fuel → hlist_for_each fuel h m = Some l.
Proof.
  intros [_ Hs] Hf. unfold hlist_for_each. rewrite (hseg_head _ _ _ Hs). by eapply hwalk_spec.
Qed.
Lemma hlist_for_each_continue_spec m h l1 x l2 fuel :
  is_hlist m h (l1 ++ x :: l2) → length l2 ≤ fuel →
  hlist_for_each_entry_continue fuel (LNode x) m = Some l2.
Proof.
  intros [_ Hs] Hf. apply hseg_tail in Hs as (_ & _ & Hs).
  unfold hlist_for_each_entry_continue. cbn [addr_next]. rewrite (hseg_head _ _ _ Hs).
  by eapply hwalk_spec.
Qed.
Lemma hlist_for_each_from_spec m h l1 x l2 fuel :
  is_hlist m h (l1 ++ x :: l2) → length l2 < fuel →
  hlist_for_each_entry_from fuel (LNode x) m = Some (x :: l2).
Proof. intros [_ Hs] Hf. apply hseg_tail in Hs. by eapply (hwalk_spec m _ (x :: l2)). Qed.

Lemma hlist_empty_spec m h l : is_hlist m h l → hlist_empty h m = Some (bool_decide (l = [])).
Proof. intros [_ Hs]. unfold hlist_empty. rewrite (hseg_head _ _ _ Hs). by destruct l. Qed.
Lemma hlist_unhashed_member m h l x :
  is_hlist m h l → x ∈ l → hlist_unhashed (LNode x) m = Some false.
Proof.
  intros Hl (l1 & l2 & ->)%list_elem_of_split. unfold hlist_unhashed.
  by destruct (is_hlist_member _ _ _ _ _ Hl) as (_ & -> & _).
Qed.

(** The loop of [hlist_for_each_safe] whose body unlinks the nodes with a
    property. *)
Definition hdel_if (P : A → Prop) `{∀ x, Decision (P x)} (a : A) m : option (hmem H A) :=
  if decide (P a) then hlist_del (LNode a) m else Some m.

Lemma hsweep (P : A → Prop) `{!∀ x, Decision (P x)} m h l1 l2 fuel :
  is_hlist m h (l1 ++ l2) → length l2 ≤ fuel →
  ∃ m', hwalk_safe (hdel_if P) fuel (to_lptr (head l2)) m = Some m' ∧
    is_hlist m' h (l1 ++ filter (λ x, ¬ P x) l2).
Proof.
  revert l1 m fuel. induction l2 as [|x l2 IH]; intros l1 m fuel Hl Hf.
  - exists m. split; [by destruct fuel|done].
  - destruct fuel as [|fuel]; simpl in Hf; [lia|]. simpl.
    destruct (is_hlist_member _ _ _ _ _ Hl) as (_ & _ & -> & _). cbn [mbind option_bind].
    change (hdel_if P x m) with (if decide (P x) then hlist_del (LNode x) m else Some m).
    case_decide as HP.
    + destruct (hlist_del_spec _ _ _ _ _ Hl) as (m1 & -> & R & _). cbn [mbind option_bind].
      rewrite filter_cons_False by naive_solver. apply IH; [|lia].
      destruct Hl as [Hnd Hs]. split; [|by eapply hseg_remove].
      rewrite <- Permutation_middle in Hnd. by apply NoDup_cons in Hnd as [_ ?].
    + cbn [mbind option_bind]. rewrite filter_cons_True by done.
      destruct (IH (l1 ++ [x]) m fuel) as (m' & E & L'); [by rewrite <- (assoc_L (++))|lia|].
      exists m'. split; [done|]. by rewrite <- (assoc_L (++)) in L'.
Qed.

(** C18: Calls of the hash list routines implement operations on sequences.
    Whenever a sequence of calls makes sense (the heads and nodes exist, nodes
    to link are in no list, nodes to remove are members or known to be
    unhashed), running the C routines succeeds without touching a NULL,
    poisoned or dead pointer, and the memory represents the abstract result.
    The queries and loops agree with it: [hlist_for_each] sees the sequence of
    each head, [hlist_empty] and [hlist_unhashed] tell the truth, and a
    [hlist_for_each_safe] loop that unlinks the nodes with a property leaves the
    sequence without them. *)
Theorem hlist_h_refines_sequences m S S' (ops : list (hlist_op H A))
    (Hm : hlists_ok m S)
    (Hops : habs_run (dom (hm_heads m)) (dom (hm_nodes m)) S ops = Some S') :
  ∃ m', hconc_run m ops = Some m' ∧
    dom (hm_heads m') = dom (hm_heads m) ∧ dom (hm_nodes m') = dom (hm_nodes m) ∧
    hlists_ok m' S' ∧
    (∀ n, n ∈ hl_unhashed S' → hlist_unhashed (LNode n) m' = Some true) ∧
    ∀ h l fuel, hl_lists S' !! h = Some l → length l ≤ fuel →
      hlist_for_each fuel h m' = Some l ∧ hlist_empty h m' = Some (bool_decide (l = [])) ∧
      (∀ x, x ∈ l → hlist_unhashed (LNode x) m' = Some false) ∧
      ∀ (P : A → Prop) `(!∀ x, Decision (P x)),
        ∃ m'', hlist_for_each_safe (hdel_if P) fuel h m' = Some m'' ∧
          hlist_for_each fuel h m'' = Some (filter (λ x, ¬ P x) l).
Proof.
  destruct (hlist_run_refines ops m S S' Hm Hops) as (m' & E & Hc & HS).
  exists m'. split_and!; [done|by apply same_cells_heads|by apply same_cells_nodes|done| |].
  - intros n Hn. destruct HS as (_ & _ & HF). unfold hlist_unhashed. by destruct (HF n Hn) as [-> _].
  - intros h l fuel Hh Hf. destruct HS as (Hl & _). pose proof (Hl h l Hh) as Hls. split_and!.
    + by apply hlist_for_each_spec.
    + by apply hlist_empty_spec.
    + intros x Hx. by eapply hlist_unhashed_member.
    + intros P HP. unfold hlist_for_each_safe. pose proof Hls as [_ ->%hseg_head].
      destruct (hsweep P m' h [] l fuel Hls Hf) as (m'' & E'' & Hl'').
      exists m''. split; [done|]. apply hlist_for_each_spec; [done|].
      etrans; [apply length_filter|done].
Qed.
End refinement.

(** Two heads and four nodes, never initialised; nodes are linked before,
    after and at the head, and taken out again. *)
Definition demo_hlists : hmem nat nat :=
  mk_hmem (gset_to_gmap (mk_hlist_head LUninit) {[1; 2]})
    (gset_to_gmap (mk_hlist_node LUninit LUninit) {[10; 11; 12; 13]}).
Definition demo_hops : list (hlist_op nat nat) :=
  [HInitHead 1; HInitHead 2; HInitNode 13; HAddHead 10 1; HAddBefore 1 11 10; HAddAfter 1 11 12;
   HAddHead 13 2; HDelInit 1 12; HDelInit 1 12; HDel 1 10].

Lemma hlist_h_refines_sequences_witness :
  ∃ m', hconc_run demo_hlists demo_hops = Some m' ∧
    hlists_ok m' (mk_hlists {[ 1 := [11]; 2 := [13] ]} {[12]}) ∧
    hlist_for_each 4 1 m' = Some [11] ∧ hlist_unhashed (LNode 12) m' = Some true.
Proof.
  destruct (hlist_h_refines_sequences demo_hlists (mk_hlists ∅ ∅)
    (mk_hlists {[ 1 := [11]; 2 := [13] ]} {[12]}) demo_hops)
    as (m' & E & _ & _ & HS & HU & HL).
  - split_and!; simpl; [intros *; by rewrite lookup_empty..|]. intros n Hn. by apply elem_of_empty in Hn.
  - vm_compute. reflexivity.
  - exists m'. split_and!; [exact E|exact HS| |].
    + apply (HL 1 [11] 4); [reflexivity|simpl; lia].
    + apply (HU 12). apply (bool_decide_unpack _). vm_compute. exact I.
Defined.
