(* ===== verification/Kernel.v ===== *)
(** * The kernel facilities the module calls

    The module is written against the Linux kernel API, whose code is not part
    of the repository.  [KernelOps] lists the facilities whose outcome the
    module cannot determine (memory allocation, ID allocation, hash tables,
    procfs, signals, device registration); they are parameters of the whole
    development.  [KernelLaws] states what their documentation promises.
    Containers are opaque types with an abstraction function to a finite map or
    set.  [kenv] is the hidden state of the kernel: every call that may fail
    reads and updates it, so that no assumption is made about when calls fail.

    The list routines of <linux/list.h> are the interface [ListOps]/[ListLaws]
    of [ListSpec]. *)
From S2P Require Import Prelude ListHead ListSpec.
From stdpp Require Import prelude gmap strings.

(** Addresses of kernel objects. *)
Abbreviation addr := positive.

(** The value of a pointer variable: never written, NULL, or an address. *)
Inductive cptr (A : Type) :=
  | PUninit
  | PNull
  | Ptr (a : A).
Arguments PUninit {A}.
Arguments PNull {A}.
Arguments Ptr {A} a.

#[global] Instance cptr_eq_dec {A} `{EqDecision A} : EqDecision (cptr A).
Proof. solve_decision. Defined.

(** What an API function that returns an object or NULL gives. *)
Definition ptr_of {A} (o : option A) : cptr A :=
  match o with Some a => Ptr a | None => PNull end.

(** ** procfs entries *)

Inductive pde_kind :=
  | PdeDir
  | PdeFile (data : addr)
  | PdeLink (target : string).

(** [struct proc_dir_entry]: name, directory it is in ([None] is /proc). *)
Record pde := mk_pde {
  pde_name : string;
  pde_parent : option addr;
  pde_what : pde_kind;
}.

(** [x] is [e] or is below it; [fuel] bounds the depth of the tree. *)
Fixpoint pde_below (fuel : nat) (ents : gmap addr pde) (e x : addr) : bool :=
  if decide (x = e) then true else
  match fuel with
  | O => false
  | S fuel =>
      match ents !! x with
      | Some p =>
          match pde_parent p with Some q => pde_below fuel ents e q | None => false end
      | None => false
      end
  end.

(** ** The operations *)

Class KernelOps := {
  kenv : Type;

  (** <linux/slab.h>: [None] is NULL; the first argument is the set of
      addresses in use. *)
  kmalloc : gset addr → kenv → option addr * kenv;
  (** the content of an integer of a fresh, uninitialised object *)
  k_garbage : Z;

  (** a signal is pending for the current task *)
  signal_pending : kenv → bool * kenv;

  (** <linux/miscdevice.h>, <linux/slab.h> (cache creation) *)
  misc_register : kenv → Z * kenv;
  kmem_cache_create : kenv → bool * kenv;

  (** <linux/idr.h> *)
  idr : Type;
  idr_init : idr;
  idr_alloc : addr → Z → Z → idr → kenv → Z * idr * kenv;
  idr_find : idr → Z → option addr;
  idr_remove : Z → idr → idr;
  idr_seq : idr → list (Z * addr);
  idr_ents : idr → gmap Z addr;

  (** <linux/rhashtable.h>, tables of contexts keyed by pid *)
  rhashtable : Type;
  rhashtable_init : kenv → Z * rhashtable * kenv;
  rhashtable_insert_fast : Z → addr → rhashtable → kenv → Z * rhashtable * kenv;
  rhashtable_lookup_fast : rhashtable → Z → option addr;
  rhashtable_remove_fast : Z → addr → rhashtable → rhashtable;
  rhashtable_seq : rhashtable → list addr;
  rht_objs : rhashtable → gset (Z * addr);

  (** <linux/proc_fs.h>: [proc_mkdir], [proc_create_data] and [proc_symlink]
      all add an entry *)
  procfs : Type;
  proc_add : pde → procfs → kenv → option addr * procfs * kenv;
  k_proc_remove : addr → procfs → procfs;
  proc_ents : procfs → gmap addr pde;
}.

(** ** What their documentation promises *)

Class KernelLaws `{KernelOps} : Prop := {
  (** kmalloc returns memory that is not in use *)
  kmalloc_fresh used e a e' : kmalloc used e = (Some a, e') → a ∉ used;

  (** "Returns zero on success or a negative errno code on failure." *)
  misc_register_ret e r e' : misc_register e = (r, e') → (r ≤ 0)%Z;

  (** idr_alloc: "The newly allocated ID, -ENOMEM if memory allocation failed,
      or -ENOSPC if no free IDs could be found"; the range is [start, end), an
      [end] of zero or less meaning one past INT_MAX *)
  idr_init_ents : idr_ents idr_init = ∅;
  idr_alloc_spec p start stop i e r i' e' :
    (0 < start)%Z → (stop ≤ 0)%Z → idr_alloc p start stop i e = (r, i', e') →
    ((r = - ENOMEM ∨ r = - ENOSPC)%Z ∧ idr_ents i' = idr_ents i) ∨
    ((start ≤ r ≤ 2 ^ 31 - 1)%Z ∧ idr_ents i !! r = None ∧
     idr_ents i' = <[r := p]> (idr_ents i));
  idr_find_spec i id : idr_find i id = idr_ents i !! id;
  idr_remove_spec id i : idr_ents (idr_remove id i) = delete id (idr_ents i);
  idr_seq_spec i : idr_seq i ≡ₚ map_to_list (idr_ents i);

  (** rhashtable_init / rhashtable_insert_fast: zero or a negative error;
      insertion does not look for an object with the same key *)
  rhashtable_init_spec e r t e' :
    rhashtable_init e = (r, t, e') → (r ≤ 0)%Z ∧ rht_objs t = ∅;
  rhashtable_insert_spec k a t e r t' e' :
    rhashtable_insert_fast k a t e = (r, t', e') →
    (r = 0%Z ∧ rht_objs t' = {[ (k, a) ]} ∪ rht_objs t) ∨
    ((r < 0)%Z ∧ rht_objs t' = rht_objs t);
  rhashtable_lookup_Some t k a :
    rhashtable_lookup_fast t k = Some a → (k, a) ∈ rht_objs t;
  rhashtable_lookup_None t k a :
    rhashtable_lookup_fast t k = None → (k, a) ∉ rht_objs t;
  rhashtable_remove_spec k a t :
    rht_objs (rhashtable_remove_fast k a t) = rht_objs t ∖ {[ (k, a) ]};
  rhashtable_seq_spec t a : a ∈ rhashtable_seq t ↔ ∃ k, (k, a) ∈ rht_objs t;

  (** procfs refuses two entries of one name in one directory; removing an
      entry removes everything below it *)
  proc_add_spec d p e r p' e' :
    proc_add d p e = (r, p', e') →
    match r with
    | None => proc_ents p' = proc_ents p
    | Some a =>
        proc_ents p !! a = None ∧ proc_ents p' = <[a := d]> (proc_ents p) ∧
        ∀ b d', proc_ents p !! b = Some d' →
          ¬ (pde_parent d' = pde_parent d ∧ pde_name d' = pde_name d)
    end;
  proc_remove_spec a p b :
    proc_ents (k_proc_remove a p) !! b =
      if pde_below (size (proc_ents p)) (proc_ents p) a b then None else proc_ents p !! b;
}.
