(* ===== verification/Uapi.v ===== *)
(** * The user-space API: [src/src/module/src/uapi/ums/ums_ioctl.h]

    The argument structures of the ioctl calls and their request numbers. *)
From S2P Require Import Prelude.
From stdpp Require Import prelude strings.

Local Open Scope Z_scope.

(** [ums_comp_list_id_t], [pid_t]: 32-bit signed integers. *)
Abbreviation ums_comp_list_id_t := Z.
Abbreviation pid_t := Z.

Definition ENTER_UMS_SCHED : Z := 0x1.
Definition ENTER_UMS_WORK : Z := 0x2.

Record enter_ums_mode_args := mk_enter_args {
  ea_flags : Z;
  ea_ums_complist : ums_comp_list_id_t;
}.

Inductive ums_sched_event_type_t := SCHEDULER_STARTUP | THREAD_YIELD | THREAD_TERMINATED.

#[global] Instance ums_sched_event_type_eq_dec : EqDecision ums_sched_event_type_t.
Proof. solve_decision. Defined.

(** The anonymous union of [struct ums_sched_event]: all zero, or the
    arguments of a yield or of a termination. *)
Inductive ums_event_params :=
  | zero_params
  | yield_params (context : pid_t) (scheduler_params : Z)
  | end_params (context : pid_t).

Record ums_sched_event := mk_event {
  ev_type : ums_sched_event_type_t;
  ev_params : ums_event_params;
}.

#[global] Instance ums_event_params_eq_dec : EqDecision ums_event_params.
Proof. solve_decision. Defined.
#[global] Instance ums_sched_event_eq_dec : EqDecision ums_sched_event.
Proof. solve_decision. Defined.

Record dequeue_ums_complist_args := mk_dequeue_args {
  dq_ums_complist : ums_comp_list_id_t;
  dq_ums_context : pid_t;
}.

Record ums_next_context_list_args := mk_next_args {
  nx_ums_context : pid_t;
  nx_ums_next_context : pid_t;
}.

(** ** Request numbers *)

(** The encoding macros of <linux/ioctl.h>, with the decoding macro
    [_IOC_NR] and its relation to them. *)
Class IoctlNr := {
  IO_ : Z → Z → Z;
  IOR_ : Z → Z → Z → Z;
  IOW_ : Z → Z → Z → Z;
  IOWR_ : Z → Z → Z → Z;
  IOC_NR : Z → Z;
  sizeof_ptr : Z;
  IOC_NR_IO t n : 0 ≤ n < 256 → IOC_NR (IO_ t n) = n;
  IOC_NR_IOR t n s : 0 ≤ n < 256 → IOC_NR (IOR_ t n s) = n;
  IOC_NR_IOW t n s : 0 ≤ n < 256 → IOC_NR (IOW_ t n s) = n;
  IOC_NR_IOWR t n s : 0 ≤ n < 256 → IOC_NR (IOWR_ t n s) = n;
}.

(** The device file is /dev/ums. *)
Definition UMS_DEV_NAME : string := "ums".
Definition UMS_IOC_MAGIC : Z := 0xF0.
Definition sizeof_pid_t : Z := 4.
Definition sizeof_ums_comp_list_id_t : Z := 4.

Section ioctl_numbers.
Context `{IoctlNr}.
Definition IOCTL_CREATE_UMS_CLIST : Z := IOR_ UMS_IOC_MAGIC 1 sizeof_ptr.
Definition IOCTL_ENTER_UMS : Z := IOW_ UMS_IOC_MAGIC 2 sizeof_ptr.
Definition IOCTL_UMS_SCHED_DQEVENT : Z := IOR_ UMS_IOC_MAGIC 3 sizeof_ptr.
Definition IOCTL_DEQUEUE_UMS_CLIST : Z := IOWR_ UMS_IOC_MAGIC 4 sizeof_ptr.
Definition IOCTL_NEXT_UMS_CTX_LIST : Z := IOWR_ UMS_IOC_MAGIC 5 sizeof_ptr.
Definition IOCTL_EXEC_UMS_CTX : Z := IOW_ UMS_IOC_MAGIC 6 sizeof_pid_t.
Definition IOCTL_UMS_YIELD : Z := IOW_ UMS_IOC_MAGIC 7 sizeof_ptr.
Definition IOCTL_EXIT_UMS : Z := IO_ UMS_IOC_MAGIC 8.
Definition IOCTL_DELETE_UMS_CLIST : Z := IOW_ UMS_IOC_MAGIC 9 sizeof_ums_comp_list_id_t.

(** Every request number decodes to its own sequence number. *)
Lemma ioctl_nrs :
  IOC_NR IOCTL_CREATE_UMS_CLIST = 1 ∧ IOC_NR IOCTL_ENTER_UMS = 2 ∧
  IOC_NR IOCTL_UMS_SCHED_DQEVENT = 3 ∧ IOC_NR IOCTL_DEQUEUE_UMS_CLIST = 4 ∧
  IOC_NR IOCTL_NEXT_UMS_CTX_LIST = 5 ∧ IOC_NR IOCTL_EXEC_UMS_CTX = 6 ∧
  IOC_NR IOCTL_UMS_YIELD = 7 ∧ IOC_NR IOCTL_EXIT_UMS = 8 ∧
  IOC_NR IOCTL_DELETE_UMS_CLIST = 9.
Proof.
  split_and!; first [apply IOC_NR_IO | apply IOC_NR_IOR | apply IOC_NR_IOW
                    | apply IOC_NR_IOWR]; lia.
Qed.
End ioctl_numbers.
