(* ===== verification/State.v ===== *)
(** * The state of the module and the effects of its code

    The structures of [src/src/module/src/*.h], the heap they live in, and the
    monad in which the handlers are written: a handler either returns ([Ok]),
    goes to sleep on a wait queue ([Sleep]) or does something a C program must
    not do ([Bug]): dereference a pointer that is uninitialised, NULL or
    dangling, unlock what is not locked, write past the end of a buffer.

    The list links embedded in the structures ([struct list_head] members) are
    cells of [w_lm]; a structure's other embedded nodes ([rhash_head],
    [rcu_head]) are its membership in a table or in the queue of RCU callbacks.
    There is one [struct ums_data], that of the open device file, so the
    [data] pointers of the structures are left out. *)
From S2P Require Import Prelude ListHead ListSpec Kernel Uapi.
From stdpp Require Import prelude gmap strings.

Local Open Scope Z_scope.

(** ** Structures *)

(** A [struct ums_context *]: the context embedded in the scheduler or worker
    at an address. *)
Inductive ctx_ref := SchedCtx (a : addr) | WorkCtx (a : addr).

(** The [struct list_head] cells of the structures. *)
Inductive lnode :=
  | ClHead (a : addr)        (** [ums_complist.head] *)
  | CtxList (c : ctx_ref)    (** [ums_context.list] *)
  | EventQ (a : addr)        (** [ums_scheduler.event_q] *)
  | EventList (a : addr).    (** [ums_event_node.list] *)

#[global] Instance ctx_ref_eq_dec : EqDecision ctx_ref.
Proof. solve_decision. Defined.
#[global] Instance lnode_eq_dec : EqDecision lnode.
Proof. solve_decision. Defined.
#[global] Instance ctx_ref_countable : Countable ctx_ref.
Proof.
  refine (inj_countable' (λ c, match c with SchedCtx a => inl a | WorkCtx a => inr a end)
    (λ s, match s with inl a => SchedCtx a | inr a => WorkCtx a end) _).
  by intros [].
Defined.
#[global] Instance lnode_countable : Countable lnode.
Proof.
  refine (inj_countable'
    (λ n, match n with
          | ClHead a => inl (inl a) | CtxList c => inl (inr c)
          | EventQ a => inr (inl a) | EventList a => inr (inr a) end)
    (λ s, match s with
          | inl (inl a) => ClHead a | inl (inr c) => CtxList c
          | inr (inl a) => EventQ a | inr (inr a) => EventList a end) _).
  by intros [].
Defined.

Definition CONTEXT_RUNNING : Z := 0.
Definition CONTEXT_IDLE : Z := 1.

(** [struct ums_context]; [ctx_task] names the task by its pid. *)
Record ums_context := mk_context {
  ctx_state : Z;
  ctx_task : pid_t;
  ctx_pid : pid_t;
  ctx_parent : cptr ctx_ref;
  ctx_switches : Z;
}.

(** [struct ums_complist] *)
Record ums_complist := mk_complist {
  cl_id : ums_comp_list_id_t;
  cl_lock : bool;
  cl_wait_q : list pid_t;
  cl_refcount : Z;
}.

(** [struct ums_worker_proc_dirs] with its [complist_node.worker_link] *)
Record ums_worker_proc_dirs := mk_worker_dirs {
  wd_worker_dir_path : cptr addr;
  wd_worker_dir_path_size : Z;
  wd_worker_dir : cptr addr;
  wd_worker_info_dir : cptr addr;
  wd_worker_link : cptr addr;
}.

(** [struct ums_worker] *)
Record ums_worker := mk_worker {
  wk_context : ums_context;
  wk_complist : cptr addr;
  wk_dirs : ums_worker_proc_dirs;
}.

(** [struct ums_scheduler_proc_dirs] *)
Record ums_scheduler_proc_dirs := mk_sched_dirs {
  sd_scheduler_dir : cptr addr;
  sd_scheduler_info_dir : cptr addr;
  sd_workers_dir : cptr addr;
  sd_n_workers : Z;
  sd_max_workers : Z;
}.

(** [struct ums_scheduler] *)
Record ums_scheduler := mk_scheduler {
  sc_context : ums_context;
  sc_complist : cptr addr;
  sc_lock : bool;
  sc_wait_q : list pid_t;
  sc_dirs : ums_scheduler_proc_dirs;
}.

(** [struct ums_proc_dirs] *)
Record ums_proc_dirs := mk_proc_dirs {
  pd_pid_dir_path : cptr addr;
  pd_pid_dir_path_size : Z;
  pd_pid_dir : cptr addr;
  pd_sched_dir : cptr addr;
  pd_workers_dir_path : cptr addr;
  pd_workers_dir_path_size : Z;
  pd_workers_dir : cptr addr;
}.

(** A heap object: one of the structures ([struct ums_event_node] is its
    event; the content of the [struct ums_data] is [w_data]), or a character
    buffer of a given capacity. *)
Inductive kobj :=
  | OComplist (c : ums_complist)
  | OSched (s : ums_scheduler)
  | OWorker (k : ums_worker)
  | OEvent (e : ums_sched_event)
  | OData
  | OBuf (cap : nat) (str : string).

Definition TASK_RUNNING : Z := 0.
Definition TASK_INTERRUPTIBLE : Z := 1.

(** [struct task_struct]: run state and reference count. *)
Record task := mk_task { t_state : Z; t_usage : Z }.

(** The callbacks handed to [call_rcu]. *)
Inductive rcu_cb := CbComplist (a : addr) | CbSched (a : addr) | CbWorker (a : addr).

(** Values copied to user space. *)
Inductive uval := UId (id : Z) | UPid (pid : Z) | UEvent (e : ums_sched_event).

(** A user-space pointer to a [T]: what reading it gives ([None]: it faults),
    and the number of bytes a write through it leaves uncopied. *)
Record uptr (T : Type) := mk_uptr { u_val : option T; u_uncopied : Z }.
Arguments mk_uptr {T}.
Arguments u_val {T}.
Arguments u_uncopied {T}.

(** The argument of an ioctl call: its value, and the same value seen as a
    pointer to each of the types it is cast to. *)
Record ioctl_arg := mk_arg {
  arg_val : Z;
  arg_id : uptr Z;
  arg_enter : uptr enter_ums_mode_args;
  arg_event : uptr ums_sched_event;
  arg_dequeue : uptr dequeue_ums_complist_args;
  arg_next : uptr ums_next_context_list_args;
}.

(** What the code must not do.  [NoFuel] is not a behaviour of the code: it
    marks that the bound of a modelled loop was reached. *)
Inductive bug :=
  | UninitPtr | NullPtr | UseAfterFree | BadContainer | ListFault
  | RcuUnbalanced | LockHeld | LockNotHeld | RefcountBug | BufOverflow | NoData | NoFuel.

Section state.
Context `{KO : KernelOps}.

(** [struct ums_data], with its address *)
Record ums_data := mk_data {
  d_addr : addr;
  d_comp_lists : idr;
  d_schedulers : rhashtable;
  d_workers : rhashtable;
  d_dirs : ums_proc_dirs;
}.

(** The static variables of the module: [ums_event_cache] exists,
    [ums_proc_base_dir] and [ums_proc_base_dir_path_len], the device is
    registered. *)
Record mod_state := mk_mod {
  g_event_cache : bool;
  g_proc_base_dir : cptr addr;
  g_proc_base_dir_path_len : Z;
  g_registered : bool;
}.

Record world := mk_world {
  w_env : kenv;                           (** hidden state of the kernel *)
  w_proc : procfs;                        (** procfs *)
  w_heap : gmap addr kobj;                (** kernel objects *)
  w_lm : lmem lnode;                      (** list cells *)
  w_tasks : gmap pid_t task;              (** tasks, by pid *)
  w_cur : pid_t;                          (** [current] *)
  w_rcu : nat;                            (** RCU read-side nesting of [current] *)
  w_cbs : list rcu_cb;                    (** pending RCU callbacks *)
  w_data : option ums_data;               (** [filp->private_data] *)
  w_mod : mod_state;                      (** static variables *)
  w_out : list uval;                      (** values copied to user space *)
  w_blk : list nat;                       (** RCU nesting at each point where the current task gave up the CPU *)
}.

Definition set_env (v : kenv) (w : world) : world :=
  mk_world v (w_proc w) (w_heap w) (w_lm w) (w_tasks w) (w_cur w) (w_rcu w) (w_cbs w)
    (w_data w) (w_mod w) (w_out w) (w_blk w).
Definition set_proc (v : procfs) (w : world) : world :=
  mk_world (w_env w) v (w_heap w) (w_lm w) (w_tasks w) (w_cur w) (w_rcu w) (w_cbs w)
    (w_data w) (w_mod w) (w_out w) (w_blk w).
Definition set_heap (v : gmap addr kobj) (w : world) : world :=
  mk_world (w_env w) (w_proc w) v (w_lm w) (w_tasks w) (w_cur w) (w_rcu w) (w_cbs w)
    (w_data w) (w_mod w) (w_out w) (w_blk w).
Definition set_lm (v : lmem lnode) (w : world) : world :=
  mk_world (w_env w) (w_proc w) (w_heap w) v (w_tasks w) (w_cur w) (w_rcu w) (w_cbs w)
    (w_data w) (w_mod w) (w_out w) (w_blk w).
Definition set_tasks (v : gmap pid_t task) (w : world) : world :=
  mk_world (w_env w) (w_proc w) (w_heap w) (w_lm w) v (w_cur w) (w_rcu w) (w_cbs w)
    (w_data w) (w_mod w) (w_out w) (w_blk w).
Definition set_cur (v : pid_t) (w : world) : world :=
  mk_world (w_env w) (w_proc w) (w_heap w) (w_lm w) (w_tasks w) v (w_rcu w) (w_cbs w)
    (w_data w) (w_mod w) (w_out w) (w_blk w).
Definition set_rcu (v : nat) (w : world) : world :=
  mk_world (w_env w) (w_proc w) (w_heap w) (w_lm w) (w_tasks w) (w_cur w) v (w_cbs w)
    (w_data w) (w_mod w) (w_out w) (w_blk w).
Definition set_cbs (v : list rcu_cb) (w : world) : world :=
  mk_world (w_env w) (w_proc w) (w_heap w) (w_lm w) (w_tasks w) (w_cur w) (w_rcu w) v
    (w_data w) (w_mod w) (w_out w) (w_blk w).
Definition set_data (v : option ums_data) (w : world) : world :=
  mk_world (w_env w) (w_proc w) (w_heap w) (w_lm w) (w_tasks w) (w_cur w) (w_rcu w) (w_cbs
    w) v (w_mod w) (w_out w) (w_blk w).
Definition set_mod (v : mod_state) (w : world) : world :=
  mk_world (w_env w) (w_proc w) (w_heap w) (w_lm w) (w_tasks w) (w_cur w) (w_rcu w) (w_cbs
    w) (w_data w) v (w_out w) (w_blk w).
Definition set_out (v : list uval) (w : world) : world :=
  mk_world (w_env w) (w_proc w) (w_heap w) (w_lm w) (w_tasks w) (w_cur w) (w_rcu w) (w_cbs
    w) (w_data w) (w_mod w) v (w_blk w).
Definition set_blk (v : list nat) (w : world) : world :=
  mk_world (w_env w) (w_proc w) (w_heap w) (w_lm w) (w_tasks w) (w_cur w) (w_rcu w) (w_cbs
    w) (w_data w) (w_mod w) (w_out w) v.

(** ** The monad *)

Inductive outcome (A : Type) :=
  | Ok (a : A) (w : world)
  | Sleep (w : world)
  | Bug (b : bug).

Definition kM (A : Type) : Type := world → outcome A.
End state.
Arguments Ok {KO A}.
Arguments Sleep {KO A}.
Arguments Bug {KO A}.

#[global] Instance kM_ret `{KernelOps} : MRet kM := λ A a w, Ok a w.
#[global] Instance kM_bind `{KernelOps} : MBind kM := λ A B f m w,
  match m w with
  | Ok a w => f a w
  | Sleep w => Sleep w
  | Bug b => Bug b
  end.
