(* ===== verification/Prims.v ===== *)
(** * Kernel primitives in the monad

    The calls the module's code is made of, as operations on the world.  The
    facilities of [KernelOps] and [ListOps] are called with the world's opaque
    state; pointer accesses check that the object is alive and of the expected
    kind; locks, RCU nesting, reference counts and task states are the counters
    and flags their documentation describes. *)
From S2P Require Import Prelude ListHead ListSpec Kernel Uapi State.
From stdpp Require Import prelude gmap strings pretty.

Local Open Scope Z_scope.

Section prims.
Context `{KO : KernelOps, LO : !ListOps lnode}.

Definition raise {A} (b : bug) : kM A := λ _, Bug b.
Definition asleep {A} : kM A := λ w, Sleep w.
Definition gets {A} (f : world → A) : kM A := λ w, Ok (f w) w.
Definition modify (f : world → world) : kM unit := λ w, Ok tt (f w).
Definition call_env {A} (f : kenv → A * kenv) : kM A := λ w,
  let '(a, e) := f (w_env w) in Ok a (set_env e w).

(** ** Pointers and objects *)

Definition deref {A} (p : cptr A) : kM A :=
  match p with
  | PUninit => raise UninitPtr
  | PNull => raise NullPtr
  | Ptr a => mret a
  end.

Definition get_obj (a : addr) : kM kobj := λ w,
  match w_heap w !! a with Some o => Ok o w | None => Bug UseAfterFree end.
Definition put_obj (a : addr) (o : kobj) : kM unit :=
  modify (λ w, set_heap (<[a := o]> (w_heap w)) w).

Definition get_complist (a : addr) : kM ums_complist :=
  o ← get_obj a; match o with OComplist c => mret c | _ => raise BadContainer end.
Definition get_sched (a : addr) : kM ums_scheduler :=
  o ← get_obj a; match o with OSched s => mret s | _ => raise BadContainer end.
Definition get_worker (a : addr) : kM ums_worker :=
  o ← get_obj a; match o with OWorker k => mret k | _ => raise BadContainer end.
Definition get_event (a : addr) : kM ums_sched_event :=
  o ← get_obj a; match o with OEvent e => mret e | _ => raise BadContainer end.

Definition upd_complist (a : addr) (f : ums_complist → ums_complist) : kM unit :=
  c ← get_complist a; put_obj a (OComplist (f c)).
Definition upd_sched (a : addr) (f : ums_scheduler → ums_scheduler) : kM unit :=
  s ← get_sched a; put_obj a (OSched (f s)).
Definition upd_worker (a : addr) (f : ums_worker → ums_worker) : kM unit :=
  k ← get_worker a; put_obj a (OWorker (f k)).

(** ** Allocation *)

(** The list cells that are part of an object. *)
Definition obj_nodes (a : addr) (o : kobj) : list lnode :=
  match o with
  | OComplist _ => [ClHead a]
  | OSched _ => [CtxList (SchedCtx a); EventQ a]
  | OWorker _ => [CtxList (WorkCtx a)]
  | OEvent _ => [EventList a]
  | OData | OBuf _ _ => []
  end.

Definition add_nodes (c : list_head lnode) (ns : list lnode) (m : lmem lnode) : lmem lnode :=
  foldr (λ n, <[n := c]>) m ns.
Definition del_nodes (ns : list lnode) (m : lmem lnode) : lmem lnode :=
  foldr delete m ns.

(** A fresh object [o] whose list cells contain [c]; [None] is NULL. *)
Definition alloc_obj (o : kobj) (c : list_head lnode) : kM (option addr) := λ w,
  match kmalloc (dom (w_heap w)) (w_env w) with
  | (None, e) => Ok None (set_env e w)
  | (Some a, e) =>
      Ok (Some a)
        (set_env e (set_heap (<[a := o]> (w_heap w))
          (set_lm (add_nodes c (obj_nodes a o) (w_lm w)) w)))
  end.

Definition uninit_cell : list_head lnode := mk_list_head LUninit LUninit.
Definition zero_cell : list_head lnode := mk_list_head LNull LNull.

Definition kfree (a : addr) : kM unit := λ w,
  match w_heap w !! a with
  | None => Bug UseAfterFree
  | Some o =>
      Ok tt (set_heap (delete a (w_heap w))
              (set_lm (del_nodes (obj_nodes a o) (w_lm w)) w))
  end.

(** ** Lists *)

Definition lm_run (f : lmem lnode → option (lmem lnode)) : kM unit := λ w,
  match f (w_lm w) with Some m => Ok tt (set_lm m w) | None => Bug ListFault end.
Definition lm_get {A} (f : lmem lnode → option A) : kM A := λ w,
  match f (w_lm w) with Some x => Ok x w | None => Bug ListFault end.

(** [container_of]/[list_entry] on contexts and list cells: a pointer of the
    wrong kind is not the member of such a structure. *)
Definition container_worker (c : ctx_ref) : kM addr :=
  match c with WorkCtx a => mret a | SchedCtx _ => raise BadContainer end.
Definition container_sched (c : ctx_ref) : kM addr :=
  match c with SchedCtx a => mret a | WorkCtx _ => raise BadContainer end.
Definition entry_context (n : lnode) : kM ctx_ref :=
  match n with CtxList c => mret c | _ => raise BadContainer end.
Definition entry_event (n : lnode) : kM addr :=
  match n with EventList a => mret a | _ => raise BadContainer end.

(** ** Tasks *)

Definition upd_task (p : pid_t) (f : task → task) : kM unit := λ w,
  match w_tasks w !! p with
  | Some t => Ok tt (set_tasks (<[p := f t]> (w_tasks w)) w)
  | None => Bug UseAfterFree
  end.
Definition get_task_struct (p : pid_t) : kM unit :=
  upd_task p (λ t, mk_task (t_state t) (t_usage t + 1)).
Definition put_task_struct (p : pid_t) : kM unit :=
  upd_task p (λ t, mk_task (t_state t) (t_usage t - 1)).
Definition set_task_state (p : pid_t) (s : Z) : kM unit :=
  upd_task p (λ t, mk_task s (t_usage t)).
Definition wake_up_process (p : pid_t) : kM unit := set_task_state p TASK_RUNNING.

Definition wake_tasks (ps : list pid_t) (ts : gmap pid_t task) : gmap pid_t task :=
  foldr (alter (λ t, mk_task TASK_RUNNING (t_usage t))) ts ps.

(** The current task gives up the CPU; it goes on when it is woken up. *)
Definition schedule : kM unit := modify (λ w, set_blk (w_blk w ++ [w_rcu w]) w).

(** [wait_event_interruptible]: 0 if the condition holds, -ERESTARTSYS on a
    signal, otherwise the task is queued ([enq]) and sleeps.  A task that is
    woken up runs it again; [deq] takes the task off the queue when the wait
    is over. *)
Definition wait_event_interruptible (enq deq : kM unit) (cond : kM bool) : kM Z :=
  c ← cond;
  if (c : bool) then _ ← deq; mret 0 else
  s ← call_env signal_pending;
  if (s : bool) then _ ← deq; mret (- ERESTARTSYS) else
  _ ← enq;
  p ← gets w_cur;
  _ ← set_task_state p TASK_INTERRUPTIBLE;
  _ ← schedule;
  asleep.

(** the queue entry of a task is added and removed at most once *)
Definition wq_add (p : pid_t) (q : list pid_t) : list pid_t :=
  if decide (p ∈ q) then q else q ++ [p].
Definition wq_del (p : pid_t) (q : list pid_t) : list pid_t := filter (.≠ p) q.
Definition wake_up_all (q : list pid_t) : kM unit :=
  modify (λ w, set_tasks (wake_tasks q (w_tasks w)) w).

(** ** RCU *)

Definition rcu_read_lock : kM unit := modify (λ w, set_rcu (S (w_rcu w)) w).
Definition rcu_read_unlock : kM unit := λ w,
  match w_rcu w with O => Bug RcuUnbalanced | S n => Ok tt (set_rcu n w) end.
Definition call_rcu (cb : rcu_cb) : kM unit := modify (λ w, set_cbs (w_cbs w ++ [cb]) w).

(** ** Reference counts ([struct kref]) and [atomic_t]

    A count is an unbounded integer.  The kernel's [refcount_t] agrees with it
    below the values where it saturates (INT_MAX references, with a warning);
    taking a reference from, or giving one back to, a count of zero, which the
    kernel warns about, is an error here. *)

Definition kref_get (n : Z) : kM Z := if decide (0 < n) then mret (n + 1) else raise RefcountBug.
(** the new count, and whether the release function is to be called *)
Definition kref_put (n : Z) : kM (Z * bool) :=
  if decide (0 < n) then mret (n - 1, bool_decide (n = 1)) else raise RefcountBug.
Definition atomic_inc (n : Z) : Z := s32 (n + 1).

(** ** User space *)

Definition copy_from_user {T} (p : uptr T) : kM (option T) := mret (u_val p).
(** the number of bytes that could not be copied *)
Definition copy_to_user {T} (p : uptr T) (v : uval) : kM Z :=
  if decide (u_uncopied p = 0)
  then _ ← modify (λ w, set_out (w_out w ++ [v]) w); mret 0
  else mret (u_uncopied p).

(** ** [filp->private_data] *)

Definition get_data : kM ums_data := λ w,
  match w_data w with Some d => Ok d w | None => Bug NoData end.
Definition put_data (d : ums_data) : kM unit := modify (set_data (Some d)).

(** ** procfs *)

(** A directory argument: NULL is the root of procfs. *)
Definition pde_arg (p : cptr addr) : kM (option addr) := λ w,
  match p with
  | PUninit => Bug UninitPtr
  | PNull => Ok None w
  | Ptr a =>
      match proc_ents (w_proc w) !! a with
      | Some _ => Ok (Some a) w
      | None => Bug UseAfterFree
      end
  end.
Definition proc_insert (d : pde) : kM (cptr addr) := λ w,
  let '(r, p, e) := proc_add d (w_proc w) (w_env w) in
  Ok (ptr_of r) (set_env e (set_proc p w)).
Definition proc_new (name : string) (parent : cptr addr) (k : pde_kind) : kM (cptr addr) :=
  d ← pde_arg parent; proc_insert (mk_pde name d k).
Definition proc_mkdir (name : string) (parent : cptr addr) : kM (cptr addr) :=
  proc_new name parent PdeDir.
Definition proc_create_data (name : string) (parent : cptr addr) (data : addr) :
    kM (cptr addr) := proc_new name parent (PdeFile data).
Definition proc_symlink (name : string) (parent : cptr addr) (dest : string) :
    kM (cptr addr) := proc_new name parent (PdeLink dest).
Definition proc_remove (p : cptr addr) : kM unit :=
  d ← pde_arg p;
  match d with
  | None => mret tt
  | Some a => modify (λ w, set_proc (k_proc_remove a (w_proc w)) w)
  end.

(** ** Strings *)

(** [snprintf(buf, size, ...)] of a text: what is stored, what is returned *)
Definition snprintf (size : nat) (s : string) : string * Z :=
  (String.substring 0 (size - 1) s, Z.of_nat (String.length s)).
Definition fmt_d (z : Z) : string := pretty z.

Definition kmalloc_buf (size : Z) : kM (cptr addr) :=
  r ← alloc_obj (OBuf (Z.to_nat size) "") uninit_cell; mret (ptr_of r).
Definition get_buf (p : cptr addr) : kM (addr * nat * string) :=
  a ← deref p; o ← get_obj a;
  match o with OBuf cap s => mret (a, cap, s) | _ => raise BadContainer end.
(** a write of [s] and its terminating NUL into the buffer *)
Definition str_store (p : cptr addr) (s : string) : kM unit :=
  b ← get_buf p;
  let '(a, cap, _) := b in
  if decide (String.length s < cap)%nat then put_obj a (OBuf cap s) else raise BufOverflow.
Definition strcpy (dst : cptr addr) (src : string) : kM unit := str_store dst src.
Definition strcat (dst : cptr addr) (src : string) : kM unit :=
  b ← get_buf dst; let '(_, _, s) := b in str_store dst (s +:+ src).
Definition str_of (p : cptr addr) : kM string := b ← get_buf p; mret b.2.
(** kfree of a pointer value: NULL is allowed *)
Definition kfree_ptr (p : cptr addr) : kM unit :=
  match p with PUninit => raise UninitPtr | PNull => mret tt | Ptr a => kfree a end.
End prims.

(** ** Running code *)

Lemma bind_ok `{KernelOps} {A B} (m : kM A) (f : A → kM B) w a w' :
  m w = Ok a w' → (m ≫= f) w = f a w'.
Proof. intros E. unfold mbind, kM_bind. by rewrite E. Qed.
Lemma bind_bug `{KernelOps} {A B} (m : kM A) (f : A → kM B) w b :
  m w = Bug b → (m ≫= f) w = Bug b.
Proof. intros E. unfold mbind, kM_bind. by rewrite E. Qed.
Lemma bind_sleep `{KernelOps} {A B} (m : kM A) (f : A → kM B) w w' :
  m w = Sleep w' → (m ≫= f) w = Sleep w'.
Proof. intros E. unfold mbind, kM_bind. by rewrite E. Qed.
Lemma bind_inv `{KernelOps} {A B} (m : kM A) (f : A → kM B) w b w' :
  (m ≫= f) w = Ok b w' → ∃ a w1, m w = Ok a w1 ∧ f a w1 = Ok b w'.
Proof. unfold mbind, kM_bind. destruct (m w); naive_solver. Qed.

(** Step over the first call of a sequence, given what it does ([krun]) or by
    computing it ([kstep]: the calls of this file unfold to field accesses). *)
Tactic Notation "krun" uconstr(lem) :=
  let E := fresh in
  match goal with
  | |- context [(?m ≫= ?f) ?w] =>
      eassert (m w = Ok _ _) as E;
      [eapply lem | rewrite (bind_ok m f w _ _ E); clear E; cbv beta iota]
  end.

Ltac kproj :=
  cbn [set_env set_proc set_heap set_lm set_tasks set_cur set_rcu set_cbs set_data set_mod
       set_out set_blk
       w_env w_proc w_heap w_lm w_tasks w_cur w_rcu w_cbs w_data w_mod w_out w_blk].
Tactic Notation "kproj_in" hyp(H) :=
  cbn [set_env set_proc set_heap set_lm set_tasks set_cur set_rcu set_cbs set_data set_mod
       set_out set_blk
       w_env w_proc w_heap w_lm w_tasks w_cur w_rcu w_cbs w_data w_mod w_out w_blk] in H.
Ltac kred :=
  cbv beta iota delta [mbind kM_bind mret kM_ret raise gets modify asleep deref get_obj put_obj
    container_worker container_sched entry_context entry_event
    rcu_read_lock rcu_read_unlock call_rcu copy_from_user get_data put_data schedule
    call_env];
  kproj.
Ltac kstep :=
  kred;
  repeat match goal with
         | E : ?x = _ |- context [match ?x with _ => _ end] => rewrite E; kred
         end.

(** Worlds are equal when their fields are. *)
Lemma world_ext `{KO : KernelOps} (w w' : world) :
  w_env w = w_env w' → w_proc w = w_proc w' → w_heap w = w_heap w' → w_lm w = w_lm w' →
  w_tasks w = w_tasks w' → w_cur w = w_cur w' → w_rcu w = w_rcu w' → w_cbs w = w_cbs w' →
  w_data w = w_data w' → w_mod w = w_mod w' → w_out w = w_out w' → w_blk w = w_blk w' → w = w'.
Proof. destruct w, w'; simpl; intros; by subst. Qed.
Ltac kext := apply world_ext; kproj; first [done | congruence].

(** Goes past the test of an error code that is 0. *)
Ltac kzero := rewrite decide_False by (let H := fresh in intros H; by apply H).

Section typed_access.
Context `{KO : KernelOps, LO : !ListOps lnode}.
Implicit Types (w : world).

Lemma get_complist_run w a c :
  w_heap w !! a = Some (OComplist c) → get_complist a w = Ok c w.
Proof. intros E. unfold get_complist, get_obj. kstep. done. Qed.
Lemma get_sched_run w a s :
  w_heap w !! a = Some (OSched s) → get_sched a w = Ok s w.
Proof. intros E. unfold get_sched, get_obj. kstep. done. Qed.
Lemma get_worker_run w a k :
  w_heap w !! a = Some (OWorker k) → get_worker a w = Ok k w.
Proof. intros E. unfold get_worker, get_obj. kstep. done. Qed.
Lemma get_event_run w a e :
  w_heap w !! a = Some (OEvent e) → get_event a w = Ok e w.
Proof. intros E. unfold get_event, get_obj. kstep. done. Qed.

Lemma upd_complist_run w a c f :
  w_heap w !! a = Some (OComplist c) →
  upd_complist a f w = Ok tt (set_heap (<[a := OComplist (f c)]> (w_heap w)) w).
Proof. intros E. unfold upd_complist. by krun (get_complist_run _ _ _ E). Qed.
Lemma upd_sched_run w a s f :
  w_heap w !! a = Some (OSched s) →
  upd_sched a f w = Ok tt (set_heap (<[a := OSched (f s)]> (w_heap w)) w).
Proof. intros E. unfold upd_sched. by krun (get_sched_run _ _ _ E). Qed.
Lemma upd_worker_run w a k f :
  w_heap w !! a = Some (OWorker k) →
  upd_worker a f w = Ok tt (set_heap (<[a := OWorker (f k)]> (w_heap w)) w).
Proof. intros E. unfold upd_worker. by krun (get_worker_run _ _ _ E). Qed.

Lemma call_env_run {A} w (f : kenv → A * kenv) a e :
  f (w_env w) = (a, e) → call_env f w = Ok a (set_env e w).
Proof. intros E. unfold call_env. by rewrite E. Qed.
Lemma rcu_read_unlock_run w n : w_rcu w = S n → rcu_read_unlock w = Ok tt (set_rcu n w).
Proof. intros E. unfold rcu_read_unlock. by rewrite E. Qed.
Lemma lm_run_run w f m : f (w_lm w) = Some m → lm_run f w = Ok tt (set_lm m w).
Proof. intros E. unfold lm_run. by rewrite E. Qed.
Lemma lm_get_run {A} w (f : lmem lnode → option A) x :
  f (w_lm w) = Some x → lm_get f w = Ok x w.
Proof. intros E. unfold lm_get. by rewrite E. Qed.

Lemma upd_task_run w p t f :
  w_tasks w !! p = Some t →
  upd_task p f w = Ok tt (set_tasks (<[p := f t]> (w_tasks w)) w).
Proof. intros E. unfold upd_task. by rewrite E. Qed.

(** The three ways out of [wait_event_interruptible], for operations on the
    queue that only change the world from [w] to [we] or [wd]. *)
Lemma wait_event_true_run w wd enq deq cond :
  cond w = Ok true w → deq w = Ok tt wd →
  wait_event_interruptible enq deq cond w = Ok 0 wd.
Proof.
  intros E1 E2. unfold wait_event_interruptible. rewrite (bind_ok _ _ _ _ _ E1).
  by rewrite (bind_ok _ _ _ _ _ E2).
Qed.
Lemma wait_event_signal_run w wd e enq deq cond :
  cond w = Ok false w → signal_pending (w_env w) = (true, e) →
  deq (set_env e w) = Ok tt wd →
  wait_event_interruptible enq deq cond w = Ok (- ERESTARTSYS) wd.
Proof.
  intros E1 E2 E3. unfold wait_event_interruptible. rewrite (bind_ok _ _ _ _ _ E1).
  assert (call_env signal_pending w = Ok true (set_env e w)) as E
    by (unfold call_env; by rewrite E2).
  rewrite (bind_ok _ _ _ _ _ E). by rewrite (bind_ok _ _ _ _ _ E3).
Qed.
Lemma wait_event_sleep_run w we e t enq deq cond :
  cond w = Ok false w → signal_pending (w_env w) = (false, e) →
  enq (set_env e w) = Ok tt we → w_tasks we !! w_cur we = Some t →
  wait_event_interruptible enq deq cond w =
    Sleep (set_blk (w_blk we ++ [w_rcu we])
      (set_tasks (<[w_cur we := mk_task TASK_INTERRUPTIBLE (t_usage t)]> (w_tasks we)) we)).
Proof.
  intros E1 E2 E3 Ht. unfold wait_event_interruptible. rewrite (bind_ok _ _ _ _ _ E1).
  assert (call_env signal_pending w = Ok false (set_env e w)) as E
    by (unfold call_env; by rewrite E2).
  rewrite (bind_ok _ _ _ _ _ E). rewrite (bind_ok _ _ _ _ _ E3).
  krun (eq_refl : gets w_cur _ = Ok _ _). unfold set_task_state. by krun upd_task_run.
Qed.

(** Waking tasks up changes only the run state of the tasks in the queue. *)
Lemma wake_tasks_lookup (q : list pid_t) (ts : gmap pid_t task) p :
  wake_tasks q ts !! p =
    (λ t, if decide (p ∈ q) then mk_task TASK_RUNNING (t_usage t) else t) <$> ts !! p.
Proof.
  unfold wake_tasks. induction q as [|x q IH]; simpl.
  - by destruct (ts !! p).
  - destruct (decide (x = p)) as [->|Hne].
    + rewrite lookup_alter_eq, IH, <- option_fmap_compose. apply option_fmap_ext. intros t. simpl.
      rewrite (decide_True (P := p ∈ p :: q)) by apply list_elem_of_here. by case_decide.
    + rewrite lookup_alter_ne, IH by done. apply option_fmap_ext. intros t.
      assert (p ∈ x :: q ↔ p ∈ q) as Hiff by (rewrite elem_of_cons; naive_solver).
      destruct (decide (p ∈ q)), (decide (p ∈ x :: q)); tauto.
Qed.
Lemma wake_tasks_usage (q : list pid_t) (ts : gmap pid_t task) p t :
  ts !! p = Some t → ∃ t', wake_tasks q ts !! p = Some t' ∧ t_usage t' = t_usage t.
Proof.
  intros Ht. rewrite wake_tasks_lookup, Ht. simpl. eexists. split; [done|]. by case_decide.
Qed.
End typed_access.
