(* ===== verification/Context.v ===== *)
(** * UMS contexts: [src/src/module/src/context.h], [context.c]

    The context is the part schedulers and workers share: its state, the task
    it belongs to, the context it was switched from and the switch counter.
    The theorems say what a switch does to the two contexts and their tasks. *)
From S2P Require Import Prelude ListHead ListSpec Kernel Uapi State Prims.
From stdpp Require Import prelude gmap.

Local Open Scope Z_scope.

Definition with_state (v : Z) (c : ums_context) : ums_context :=
  mk_context v (ctx_task c) (ctx_pid c) (ctx_parent c) (ctx_switches c).
Definition with_task (v : pid_t) (c : ums_context) : ums_context :=
  mk_context (ctx_state c) v (ctx_pid c) (ctx_parent c) (ctx_switches c).
Definition with_pid (v : pid_t) (c : ums_context) : ums_context :=
  mk_context (ctx_state c) (ctx_task c) v (ctx_parent c) (ctx_switches c).
Definition with_parent (v : cptr ctx_ref) (c : ums_context) : ums_context :=
  mk_context (ctx_state c) (ctx_task c) (ctx_pid c) v (ctx_switches c).
Definition with_switches (v : Z) (c : ums_context) : ums_context :=
  mk_context (ctx_state c) (ctx_task c) (ctx_pid c) (ctx_parent c) v.

Definition sc_with_context (v : ums_context) (s : ums_scheduler) : ums_scheduler :=
  mk_scheduler v (sc_complist s) (sc_lock s) (sc_wait_q s) (sc_dirs s).
Definition wk_with_context (v : ums_context) (k : ums_worker) : ums_worker :=
  mk_worker v (wk_complist k) (wk_dirs k).

Section context.
Context `{KO : KernelOps, LO : !ListOps lnode}.

(** The context a [struct ums_context *] points to. *)
Definition get_ctx (c : ctx_ref) : kM ums_context :=
  match c with
  | SchedCtx a => s ← get_sched a; mret (sc_context s)
  | WorkCtx a => k ← get_worker a; mret (wk_context k)
  end.
Definition upd_ctx (c : ctx_ref) (f : ums_context → ums_context) : kM unit :=
  match c with
  | SchedCtx a => upd_sched a (λ s, sc_with_context (f (sc_context s)) s)
  | WorkCtx a => upd_worker a (λ k, wk_with_context (f (wk_context k)) k)
  end.

Definition current_context_pid : kM pid_t := gets w_cur.

Definition __set_context_state (c : ctx_ref) (v : Z) : kM unit := upd_ctx c (with_state v).
(** the same store, followed by a memory barrier *)
Definition set_context_state (c : ctx_ref) (v : Z) : kM unit := upd_ctx c (with_state v).

Definition ums_context_init (c : ctx_ref) : kM unit :=
  cur ← gets w_cur;
  _ ← get_task_struct cur;
  _ ← upd_ctx c (with_task cur);
  pid ← current_context_pid;
  _ ← upd_ctx c (with_pid pid);
  _ ← set_context_state c CONTEXT_RUNNING;
  upd_ctx c (with_switches 0).

Definition ums_context_deinit (c : ctx_ref) : kM unit :=
  x ← get_ctx c; put_task_struct (ctx_task x).

Definition prepare_suspend_context (c : ctx_ref) : kM unit :=
  _ ← __set_context_state c CONTEXT_IDLE;
  x ← get_ctx c;
  set_task_state (ctx_task x) TASK_INTERRUPTIBLE.

Definition wake_up_context (c : ctx_ref) : kM unit :=
  _ ← set_context_state c CONTEXT_RUNNING;
  x ← get_ctx c;
  wake_up_process (ctx_task x).

Definition prepare_switch_context (from to : ctx_ref) : kM unit :=
  _ ← upd_ctx to (with_parent (Ptr from));
  _ ← upd_ctx from (λ x, with_switches (atomic_inc (ctx_switches x)) x);
  _ ← prepare_suspend_context from;
  wake_up_context to.

(** ** Reading and writing contexts of a heap *)

Definition ctx_at (h : gmap addr kobj) (c : ctx_ref) : option ums_context :=
  match c with
  | SchedCtx a => match h !! a with Some (OSched s) => Some (sc_context s) | _ => None end
  | WorkCtx a => match h !! a with Some (OWorker k) => Some (wk_context k) | _ => None end
  end.
Definition ctx_set (c : ctx_ref) (x : ums_context) (h : gmap addr kobj) : gmap addr kobj :=
  match c with
  | SchedCtx a =>
      match h !! a with
      | Some (OSched s) => <[a := OSched (sc_with_context x s)]> h
      | _ => h
      end
  | WorkCtx a =>
      match h !! a with
      | Some (OWorker k) => <[a := OWorker (wk_with_context x k)]> h
      | _ => h
      end
  end.

Lemma get_ctx_run w c x : ctx_at (w_heap w) c = Some x → get_ctx c w = Ok x w.
Proof.
  destruct c; simpl; intros Hx; repeat case_match; simplify_eq.
  - by krun get_sched_run.
  - by krun get_worker_run.
Qed.

Lemma upd_ctx_run w c x f :
  ctx_at (w_heap w) c = Some x →
  upd_ctx c f w = Ok tt (set_heap (ctx_set c (f x) (w_heap w)) w).
Proof.
  destruct c; simpl; intros Hx; repeat case_match; simplify_eq.
  - by erewrite upd_sched_run.
  - by erewrite upd_worker_run.
Qed.

Lemma ctx_at_set h c x c' :
  is_Some (ctx_at h c) →
  ctx_at (ctx_set c x h) c' = if decide (c = c') then Some x else ctx_at h c'.
Proof.
  intros [y Hy]. destruct c as [a|a], c' as [b|b]; simpl in *;
    destruct (h !! a) as [[]|] eqn:Ha; simplify_eq; rewrite lookup_insert;
    repeat case_decide; simplify_eq; try done; by rewrite Ha.
Qed.

Lemma ctx_set_live h c x c' :
  is_Some (ctx_at h c') → is_Some (ctx_at (ctx_set c x h) c').
Proof.
  intros Hc. destruct c as [a|a]; simpl; destruct (h !! a) as [[]|] eqn:Ha; try done;
    destruct c' as [b|b]; simpl in *; rewrite lookup_insert; case_decide; simplify_eq;
    rewrite ?Ha in Hc; try done; by eexists.
Qed.

(** Everything but the context [c] is as before. *)
Lemma ctx_set_other h c x a :
  a ≠ (match c with SchedCtx b | WorkCtx b => b end) → ctx_set c x h !! a = h !! a.
Proof. destruct c; simpl; intros; repeat case_match; by rewrite ?lookup_insert_ne. Qed.

(** ** Initialisation and the two halves of a switch *)

Definition fresh_context (pid : pid_t) (c : ums_context) : ums_context :=
  mk_context CONTEXT_RUNNING pid pid (ctx_parent c) 0.
Definition idle_context (c : ums_context) : ums_context := with_state CONTEXT_IDLE c.
Definition running_context (c : ums_context) : ums_context := with_state CONTEXT_RUNNING c.

Lemma ctx_set_set h c x y : is_Some (ctx_at h c) → ctx_set c y (ctx_set c x h) = ctx_set c y h.
Proof.
  intros [z Hz]. destruct c; simpl in *; repeat case_match; simplify_map_eq;
    by rewrite insert_insert_eq.
Qed.

Lemma ums_context_init_run w c x t :
  ctx_at (w_heap w) c = Some x → w_tasks w !! w_cur w = Some t →
  ums_context_init c w =
    Ok tt (set_heap (ctx_set c (fresh_context (w_cur w) x) (w_heap w))
      (set_tasks (<[w_cur w := mk_task (t_state t) (t_usage t + 1)]> (w_tasks w)) w)).
Proof.
  intros Hx Ht. assert (is_Some (ctx_at (w_heap w) c)) as Hl by eauto.
  unfold ums_context_init, get_task_struct, current_context_pid, set_context_state.
  krun (eq_refl : gets w_cur w = Ok _ _). krun upd_task_run; [done|].
  krun upd_ctx_run; [done|]. krun (eq_refl : gets w_cur _ = Ok _ _).
  krun upd_ctx_run; [kproj; rewrite ctx_at_set, decide_True by eauto using ctx_set_live; done|].
  krun upd_ctx_run; [kproj; rewrite ctx_set_set, ctx_at_set, decide_True by eauto using ctx_set_live; done|].
  erewrite upd_ctx_run; [|kproj; rewrite !ctx_set_set, ctx_at_set, decide_True by eauto using ctx_set_live; done].
  kproj. rewrite !ctx_set_set by eauto using ctx_set_live. reflexivity.
Qed.

Lemma ums_context_deinit_run w c x t :
  ctx_at (w_heap w) c = Some x → w_tasks w !! ctx_task x = Some t →
  ums_context_deinit c w =
    Ok tt (set_tasks (<[ctx_task x := mk_task (t_state t) (t_usage t - 1)]> (w_tasks w)) w).
Proof.
  intros Hx Ht. unfold ums_context_deinit, put_task_struct. krun get_ctx_run; [done|].
  by erewrite upd_task_run.
Qed.

Lemma prepare_suspend_context_run w c x t :
  ctx_at (w_heap w) c = Some x → w_tasks w !! ctx_task x = Some t →
  prepare_suspend_context c w =
    Ok tt (set_heap (ctx_set c (idle_context x) (w_heap w))
      (set_tasks (<[ctx_task x := mk_task TASK_INTERRUPTIBLE (t_usage t)]> (w_tasks w)) w)).
Proof.
  intros Hx Ht. unfold prepare_suspend_context, __set_context_state, set_task_state.
  krun upd_ctx_run; [done|].
  krun get_ctx_run; [kproj; rewrite ctx_at_set, decide_True by eauto; done|].
  by erewrite upd_task_run.
Qed.

Lemma wake_up_context_run w c x t :
  ctx_at (w_heap w) c = Some x → w_tasks w !! ctx_task x = Some t →
  wake_up_context c w =
    Ok tt (set_heap (ctx_set c (running_context x) (w_heap w))
      (set_tasks (<[ctx_task x := mk_task TASK_RUNNING (t_usage t)]> (w_tasks w)) w)).
Proof.
  intros Hx Ht. unfold wake_up_context, set_context_state, wake_up_process, set_task_state.
  krun upd_ctx_run; [done|].
  krun get_ctx_run; [kproj; rewrite ctx_at_set, decide_True by eauto; done|].
  by erewrite upd_task_run.
Qed.

(** The two contexts and the two tasks after a switch. *)
Definition switched_from (x : ums_context) : ums_context :=
  with_state CONTEXT_IDLE (with_switches (atomic_inc (ctx_switches x)) x).
Definition switched_to (from : ctx_ref) (y : ums_context) : ums_context :=
  with_state CONTEXT_RUNNING (with_parent (Ptr from) y).
Definition switch_heap (from to : ctx_ref) (x y : ums_context) (h : gmap addr kobj) :=
  ctx_set to (switched_to from y) (ctx_set from (switched_from x) h).
Definition switch_tasks (x y : ums_context) (tx ty : task) (ts : gmap pid_t task) :=
  <[ctx_task y := mk_task TASK_RUNNING (t_usage ty)]>
    (<[ctx_task x := mk_task TASK_INTERRUPTIBLE (t_usage tx)]> ts).

Lemma ctx_set_comm h c c' x y :
  c ≠ c' → is_Some (ctx_at h c) → is_Some (ctx_at h c') →
  ctx_set c x (ctx_set c' y h) = ctx_set c' y (ctx_set c x h).
Proof.
  intros Hne [u Hu] [v Hv]. destruct c as [a|a], c' as [b|b]; simpl in *;
    destruct (h !! a) as [[]|] eqn:Ha; simplify_eq;
    destruct (h !! b) as [[]|] eqn:Hb; simplify_eq;
    rewrite !lookup_insert; repeat case_decide; simplify_eq;
    rewrite ?Ha, ?Hb; by rewrite insert_insert_ne.
Qed.

Lemma prepare_switch_context_run w from to x y tx ty :
  from ≠ to → ctx_at (w_heap w) from = Some x → ctx_at (w_heap w) to = Some y →
  ctx_task x ≠ ctx_task y →
  w_tasks w !! ctx_task x = Some tx → w_tasks w !! ctx_task y = Some ty →
  prepare_switch_context from to w =
    Ok tt (set_heap (switch_heap from to x y (w_heap w))
            (set_tasks (switch_tasks x y tx ty (w_tasks w)) w)).
Proof.
  intros Hne Hx Hy Hneq Htx Hty. unfold prepare_switch_context.
  assert (is_Some (ctx_at (w_heap w) from)) by eauto.
  assert (is_Some (ctx_at (w_heap w) to)) by eauto.
  assert (∀ z, ctx_at (ctx_set to z (w_heap w)) from = Some x) as Hx'.
  { intros z. by rewrite ctx_at_set, decide_False. }
  krun upd_ctx_run; [done|]. krun upd_ctx_run; [apply Hx'|].
  krun prepare_suspend_context_run;
    [kproj; rewrite ctx_at_set, decide_True by eauto; done|done|].
  erewrite wake_up_context_run; [|kproj..].
  2:{ rewrite !ctx_at_set by eauto using ctx_set_live.
      rewrite !decide_False, decide_True by done. done. }
  2:{ simpl. rewrite lookup_insert_ne; done. }
  f_equal. kproj. unfold switch_heap, switch_tasks.
  rewrite (ctx_set_set _ from) by eauto using ctx_set_live.
  rewrite (ctx_set_comm _ from to), ctx_set_set by eauto using ctx_set_live.
  reflexivity.
Qed.
End context.
