(* ===== verification/Proc.v ===== *)
(** * procfs: [src/src/module/src/proc/]

    The entries under /proc/ums: registration of the process directory, of the
    schedulers and workers, of the symbolic links from a scheduler to the
    workers it dequeued, and the text of the info files, with the buffers on the
    stack of the two read functions.  [link_refused] says when the kernel does not
    create a link. *)
From S2P Require Import Prelude ListHead ListSpec Kernel Uapi State Prims Context.
From stdpp Require Import prelude gmap strings pretty.

Local Open Scope Z_scope.

Definition is_null {A} (p : cptr A) : bool := match p with PNull => true | _ => false end.

(** ** proc/base.h, proc/base.c *)

Definition PROC_PID_BUFLEN : nat := 12.
Definition UMS_PROC_BASEDIR_NAME : string := "ums".
Definition UMS_PROC_BASEDIR_PATH : string := "/proc/ums".
Definition UMS_PROC_SCHED_DIR_NAME : string := "schedulers".
Definition UMS_PROC_WORKERS_DIR_NAME : string := "workers".

Definition pd_with_pid_dir v d := mk_proc_dirs (pd_pid_dir_path d) (pd_pid_dir_path_size d) v
  (pd_sched_dir d) (pd_workers_dir_path d) (pd_workers_dir_path_size d) (pd_workers_dir d).
Definition pd_with_pid_dir_path v n d := mk_proc_dirs v n (pd_pid_dir d)
  (pd_sched_dir d) (pd_workers_dir_path d) (pd_workers_dir_path_size d) (pd_workers_dir d).
Definition pd_with_sched_dir v d := mk_proc_dirs (pd_pid_dir_path d) (pd_pid_dir_path_size d)
  (pd_pid_dir d) v (pd_workers_dir_path d) (pd_workers_dir_path_size d) (pd_workers_dir d).
Definition pd_with_workers_dir v d := mk_proc_dirs (pd_pid_dir_path d) (pd_pid_dir_path_size d)
  (pd_pid_dir d) (pd_sched_dir d) (pd_workers_dir_path d) (pd_workers_dir_path_size d) v.
Definition pd_with_workers_dir_path v n d := mk_proc_dirs (pd_pid_dir_path d)
  (pd_pid_dir_path_size d) (pd_pid_dir d) (pd_sched_dir d) v n (pd_workers_dir d).

(** The zeroed structure of [kzalloc]. *)
Definition zero_proc_dirs : ums_proc_dirs := mk_proc_dirs PNull 0 PNull PNull PNull 0 PNull.

Section proc_base.
Context `{KO : KernelOps, LO : !ListOps lnode}.

Definition ums_proc_init : kM Z :=
  _ ← modify (λ w, set_mod (mk_mod (g_event_cache (w_mod w)) (g_proc_base_dir (w_mod w))
        (Z.of_nat (String.length UMS_PROC_BASEDIR_PATH)) (g_registered (w_mod w))) w);
  e ← proc_mkdir UMS_PROC_BASEDIR_NAME PNull;
  _ ← modify (λ w, set_mod (mk_mod (g_event_cache (w_mod w)) e
        (g_proc_base_dir_path_len (w_mod w)) (g_registered (w_mod w))) w);
  mret (if is_null e then - ENOMEM else 0).

Definition ums_proc_destroy : kM unit :=
  m ← gets w_mod; proc_remove (g_proc_base_dir m).

(** Both return the structure [dirs] points to, with the fields assigned. *)
Definition ums_proc_dirs_init (dirs : ums_proc_dirs) : kM (Z * ums_proc_dirs) :=
  proc_pid ← gets w_cur;
  let '(proc_pid_name, r) := snprintf PROC_PID_BUFLEN (fmt_d proc_pid) in
  if decide (r = 0) then mret (- ENOMEM, dirs) else
  let proc_pid_name_len := Z.of_nat (String.length proc_pid_name) in
  g ← gets w_mod;
  e ← proc_mkdir proc_pid_name (g_proc_base_dir g);
  let dirs := pd_with_pid_dir e dirs in
  if is_null e then mret (- ENOMEM, dirs) else
  let n := u64 (g_proc_base_dir_path_len g + proc_pid_name_len + 1) in
  b ← kmalloc_buf (u64 (n + 1));
  let dirs := pd_with_pid_dir_path b n dirs in
  if is_null b then
    _ ← proc_remove (pd_pid_dir dirs); mret (- ENOMEM, dirs)
  else
  _ ← strcpy b UMS_PROC_BASEDIR_PATH;
  _ ← strcat b "/";
  _ ← strcat b proc_pid_name;
  e ← proc_mkdir UMS_PROC_SCHED_DIR_NAME (pd_pid_dir dirs);
  let dirs := pd_with_sched_dir e dirs in
  if is_null e then
    _ ← kfree_ptr (pd_pid_dir_path dirs);
    _ ← proc_remove (pd_pid_dir dirs); mret (- ENOMEM, dirs)
  else
  e ← proc_mkdir UMS_PROC_WORKERS_DIR_NAME (pd_pid_dir dirs);
  let dirs := pd_with_workers_dir e dirs in
  if is_null e then
    _ ← proc_remove (pd_sched_dir dirs);
    _ ← kfree_ptr (pd_pid_dir_path dirs);
    _ ← proc_remove (pd_pid_dir dirs); mret (- ENOMEM, dirs)
  else
  let n := u64 (pd_pid_dir_path_size dirs
                + Z.of_nat (String.length UMS_PROC_WORKERS_DIR_NAME) + 1) in
  b ← kmalloc_buf (u64 (n + 1));
  let dirs := pd_with_workers_dir_path b n dirs in
  if is_null b then
    _ ← proc_remove (pd_workers_dir dirs);
    _ ← proc_remove (pd_sched_dir dirs);
    _ ← kfree_ptr (pd_pid_dir_path dirs);
    _ ← proc_remove (pd_pid_dir dirs); mret (- ENOMEM, dirs)
  else
  s ← str_of (pd_pid_dir_path dirs);
  _ ← strcpy b s;
  _ ← strcat b "/";
  _ ← strcat b UMS_PROC_WORKERS_DIR_NAME;
  mret (0, dirs).

Definition ums_proc_dirs_destroy (dirs : ums_proc_dirs) : kM unit :=
  _ ← proc_remove (pd_pid_dir dirs);
  _ ← proc_remove (pd_sched_dir dirs);
  _ ← proc_remove (pd_workers_dir dirs);
  _ ← kfree_ptr (pd_pid_dir_path dirs);
  kfree_ptr (pd_workers_dir_path dirs).
End proc_base.

(** ** proc/context.h, proc/context.c *)

(** [fls]: the position of the most significant set bit, from 1; 0 for 0. *)
Definition fls (x : Z) : Z := if decide (x = 0) then 0 else Z.log2 x + 1.

Definition context_state_array : list string := ["R (running)"; "I (idle)"].

(** [None]: read past the end of the array. *)
Definition get_context_state (c : ums_context) : option string :=
  context_state_array !! Z.to_nat (fls (ctx_state c)).

Definition tab : string := String (Ascii.ascii_of_nat 9) "".

Definition context_text (c : ums_context) (state : string) : string :=
  "Pid:" +:+ tab +:+ fmt_d (ctx_pid c) +:+ newline +:+
  "State:" +:+ tab +:+ state +:+ newline +:+
  "Switches:" +:+ tab +:+ fmt_d (ctx_switches c) +:+ newline.

(** what is stored in the buffer, and the value returned *)
Definition context_snprintf (size : nat) (c : ums_context) : option (string * Z) :=
  s ← get_context_state c; Some (snprintf size (context_text c s)).

(** ** Reading an info file *)

(** The result of a read: the value returned, the new file position, and the
    bytes that reached the user buffer. *)
Record read_result := mk_read { rd_ret : Z; rd_pos : Z; rd_bytes : string }.

(** A buffer of [buflen] bytes on the stack in which [s] and its terminating
    NUL have been stored; the bytes behind were never written. *)
Definition stack_buf (buflen : nat) (s : string) : list (option Ascii.ascii) :=
  resize buflen None ((Some <$> String.list_ascii_of_string s) ++ [Some Ascii.zero]).
(** The [n] bytes from [off] on; [None] when some of them are outside of the
    buffer or were never written. *)
Definition read_buf (buf : list (option Ascii.ascii)) (off n : Z) : option string :=
  if decide (0 ≤ off ∧ off + n ≤ Z.of_nat (length buf)) then
    String.string_of_list_ascii <$> mapM id (take (Z.to_nat n) (drop (Z.to_nat off) buf))
  else None.

(** The common text of the two read functions; [ubuf n] is the number of bytes
    a copy of [n] bytes to the user buffer leaves uncopied.  [None] is undefined
    behaviour: a state without a name, or a copy of bytes that are not in the
    buffer. *)
Definition proc_read_info (buflen : nat) (c : ums_context) (ubuf : Z → Z)
    (count pos : Z) : option read_result :=
  if decide (pos < 0) then Some (mk_read (- EINVAL) pos "") else
  '(text, len) ← context_snprintf buflen c;
  let info_buf := stack_buf buflen text in
  if decide (len ≤ pos ∨ count = 0) then Some (mk_read 0 pos "") else
  let count := if decide (u64 len < u64 (pos + count)) then u64 (len - pos) else count in
  bytes ← read_buf info_buf pos count;
  let retval := s32 (ubuf count) in
  if decide (u64 retval = count) then Some (mk_read (- EACCES) pos "") else
  let done_ := u64 (count - retval) in
  Some (mk_read (s64 done_) (s64 (pos + done_)) (String.substring 0 (Z.to_nat done_) bytes)).

Definition UMS_PROC_SCHED_INFO_BUFLEN : nat := 512.
Definition UMS_PROC_WORKER_INFO_BUFLEN : nat := 512.

Definition proc_read_scheduler_info (s : ums_scheduler) (ubuf : Z → Z) (count pos : Z) :=
  proc_read_info UMS_PROC_SCHED_INFO_BUFLEN (sc_context s) ubuf count pos.
Definition proc_read_worker_info (k : ums_worker) (ubuf : Z → Z) (count pos : Z) :=
  proc_read_info UMS_PROC_WORKER_INFO_BUFLEN (wk_context k) ubuf count pos.

(** ** proc/scheduler.c *)

Definition UMS_PROC_SCHED_SYMLINK_BUFLEN : nat := 12.
Definition UMS_PROC_SCHED_INFO_NAME : string := "info".
Definition UMS_PROC_SCHED_WORKERS_NAME : string := "workers".

Definition sc_with_dirs (v : ums_scheduler_proc_dirs) (s : ums_scheduler) : ums_scheduler :=
  mk_scheduler (sc_context s) (sc_complist s) (sc_lock s) (sc_wait_q s) v.
Definition sd_with_scheduler_dir v d := mk_sched_dirs v (sd_scheduler_info_dir d)
  (sd_workers_dir d) (sd_n_workers d) (sd_max_workers d).
Definition sd_with_info_dir v d := mk_sched_dirs (sd_scheduler_dir d) v
  (sd_workers_dir d) (sd_n_workers d) (sd_max_workers d).
Definition sd_with_workers_dir v d := mk_sched_dirs (sd_scheduler_dir d)
  (sd_scheduler_info_dir d) v (sd_n_workers d) (sd_max_workers d).
Definition sd_with_counts n m d := mk_sched_dirs (sd_scheduler_dir d)
  (sd_scheduler_info_dir d) (sd_workers_dir d) n m.

Definition wk_with_dirs (v : ums_worker_proc_dirs) (k : ums_worker) : ums_worker :=
  mk_worker (wk_context k) (wk_complist k) v.
Definition wd_with_path v n d := mk_worker_dirs v n (wd_worker_dir d)
  (wd_worker_info_dir d) (wd_worker_link d).
Definition wd_with_dir v d := mk_worker_dirs (wd_worker_dir_path d)
  (wd_worker_dir_path_size d) v (wd_worker_info_dir d) (wd_worker_link d).
Definition wd_with_info_dir v d := mk_worker_dirs (wd_worker_dir_path d)
  (wd_worker_dir_path_size d) (wd_worker_dir d) v (wd_worker_link d).
Definition wd_with_link v d := mk_worker_dirs (wd_worker_dir_path d)
  (wd_worker_dir_path_size d) (wd_worker_dir d) (wd_worker_info_dir d) v.

Section proc_objects.
Context `{KO : KernelOps, LO : !ListOps lnode}.

Definition upd_sched_dirs (s : addr) f : kM unit :=
  upd_sched s (λ x, sc_with_dirs (f (sc_dirs x)) x).
Definition upd_worker_dirs (k : addr) f : kM unit :=
  upd_worker k (λ x, wk_with_dirs (f (wk_dirs x)) x).

Definition ums_scheduler_proc_register (dirs : ums_proc_dirs) (s : addr) : kM Z :=
  x ← get_sched s;
  let '(sched_pid_name, r) := snprintf PROC_PID_BUFLEN (fmt_d (ctx_pid (sc_context x))) in
  if decide (r = 0) then mret (- ENOMEM) else
  e ← proc_mkdir sched_pid_name (pd_sched_dir dirs);
  _ ← upd_sched_dirs s (sd_with_scheduler_dir e);
  if is_null e then mret (- ENOMEM) else
  i ← proc_create_data UMS_PROC_SCHED_INFO_NAME e s;
  _ ← upd_sched_dirs s (sd_with_info_dir i);
  if is_null i then _ ← proc_remove e; mret (- ENOMEM) else
  k ← proc_mkdir UMS_PROC_SCHED_WORKERS_NAME e;
  _ ← upd_sched_dirs s (sd_with_workers_dir k);
  if is_null k then
    _ ← proc_remove i; _ ← proc_remove e; mret (- ENOMEM)
  else
  _ ← upd_sched_dirs s (sd_with_counts 0 0);
  mret 0.

Definition ums_scheduler_proc_unregister (s : addr) : kM unit :=
  x ← get_sched s; _ ← proc_remove (sd_workers_dir (sc_dirs x));
  x ← get_sched s; _ ← proc_remove (sd_scheduler_info_dir (sc_dirs x));
  x ← get_sched s; proc_remove (sd_scheduler_dir (sc_dirs x)).

(** [&scheduler->dirs] and [&worker->dirs] are passed as the addresses of the
    two structures. *)
Definition ums_scheduler_proc_register_worker (s k : addr) : kM Z :=
  x ← get_sched s;
  let '(symlink_name, r) :=
    snprintf UMS_PROC_SCHED_SYMLINK_BUFLEN (fmt_d (u64 (sd_max_workers (sc_dirs x) + 1))) in
  if decide (r = 0) then mret (- ENOMEM) else
  y ← get_worker k;
  path ← str_of (wd_worker_dir_path (wk_dirs y));
  l ← proc_symlink symlink_name (sd_workers_dir (sc_dirs x)) path;
  _ ← upd_worker_dirs k (wd_with_link l);
  if is_null l then mret (- ENOMEM) else
  _ ← upd_sched_dirs s (λ d,
        sd_with_counts (u64 (sd_n_workers d + 1)) (u64 (sd_max_workers d + 1)) d);
  mret 0.

Definition ums_scheduler_proc_unregister_worker (s k : addr) : kM unit :=
  y ← get_worker k;
  _ ← proc_remove (wd_worker_link (wk_dirs y));
  _ ← upd_sched_dirs s (λ d, sd_with_counts (u64 (sd_n_workers d - 1)) (sd_max_workers d) d);
  x ← get_sched s;
  if decide (sd_n_workers (sc_dirs x) = 0)
  then upd_sched_dirs s (λ d, sd_with_counts (sd_n_workers d) 0 d)
  else mret tt.

(** ** proc/worker.c *)

Definition UMS_PROC_WORKER_INFO_NAME : string := "info".

Definition ums_worker_proc_register (dirs : ums_proc_dirs) (k : addr) : kM Z :=
  x ← get_worker k;
  let '(worker_pid_name, r) := snprintf PROC_PID_BUFLEN (fmt_d (ctx_pid (wk_context x))) in
  if decide (r = 0) then mret (- ENOMEM) else
  let worker_pid_name_len := Z.of_nat (String.length worker_pid_name) in
  e ← proc_mkdir worker_pid_name (pd_workers_dir dirs);
  _ ← upd_worker_dirs k (wd_with_dir e);
  if is_null e then mret (- ENOMEM) else
  let n := u64 (pd_workers_dir_path_size dirs + worker_pid_name_len + 1) in
  b ← kmalloc_buf (u64 (n + 1));
  _ ← upd_worker_dirs k (wd_with_path b n);
  if is_null b then _ ← proc_remove e; mret (- ENOMEM) else
  s ← str_of (pd_workers_dir_path dirs);
  _ ← strcpy b s;
  _ ← strcat b "/";
  _ ← strcat b worker_pid_name;
  i ← proc_create_data UMS_PROC_WORKER_INFO_NAME e k;
  _ ← upd_worker_dirs k (wd_with_info_dir i);
  if is_null i then
    _ ← kfree_ptr b; _ ← proc_remove e; mret (- ENOMEM)
  else mret 0.

Definition ums_worker_proc_unregister (k : addr) : kM unit :=
  x ← get_worker k; _ ← proc_remove (wd_worker_info_dir (wk_dirs x));
  x ← get_worker k; _ ← proc_remove (wd_worker_dir (wk_dirs x));
  x ← get_worker k; kfree_ptr (wd_worker_dir_path (wk_dirs x)).
End proc_objects.

(** ** What the primitives do *)

Section proc_prims.
Context `{KO : KernelOps, LO : !ListOps lnode, KL : !KernelLaws}.
Implicit Types (w : world) (p : procfs).

(** A directory that can be passed to procfs, and the parent it stands for. *)
Definition dir_live p (d : cptr addr) : Prop :=
  match d with
  | PUninit => False
  | PNull => True
  | Ptr a => is_Some (proc_ents p !! a)
  end.
Definition dir_of (d : cptr addr) : option addr :=
  match d with Ptr a => Some a | _ => None end.

(** What adding an entry gives: nothing, or a new entry. *)
Definition proc_added (e : pde) (r : option addr) p p' : Prop :=
  match r with
  | None => proc_ents p' = proc_ents p
  | Some a => proc_ents p !! a = None ∧ proc_ents p' = <[a := e]> (proc_ents p)
  end.

Lemma proc_add_added d p e r p' e' : proc_add d p e = (r, p', e') → proc_added d r p p'.
Proof. intros Ha%proc_add_spec. unfold proc_added. destruct r; naive_solver. Qed.

Lemma proc_new_exact w name parent k r p' e' :
  dir_live (w_proc w) parent →
  proc_add (mk_pde name (dir_of parent) k) (w_proc w) (w_env w) = (r, p', e') →
  proc_new name parent k w = Ok (ptr_of r) (set_env e' (set_proc p' w)).
Proof.
  intros Hd Ha. unfold proc_new.
  assert (pde_arg parent w = Ok (dir_of parent) w) as E.
  { destruct parent as [| |a]; simpl in *; [done..|]. by destruct Hd as [? ->]. }
  rewrite (bind_ok _ _ _ _ _ E). unfold proc_insert. by rewrite Ha.
Qed.
Lemma proc_new_run w name parent k :
  dir_live (w_proc w) parent →
  ∃ r p' e', proc_new name parent k w = Ok (ptr_of r) (set_env e' (set_proc p' w)) ∧
    proc_added (mk_pde name (dir_of parent) k) r (w_proc w) p'.
Proof.
  intros Hd. destruct (proc_add (mk_pde name (dir_of parent) k) (w_proc w) (w_env w))
    as [[r p'] e'] eqn:Ha. exists r, p', e'.
  split; [by apply proc_new_exact|by eapply proc_add_added].
Qed.

(** The kernel refuses to create some entry. *)
Definition procfs_refuses : Prop := ∃ d p e, (proc_add d p e).1.1 = None.
Lemma proc_new_run_refused w name parent k :
  dir_live (w_proc w) parent →
  ∃ r p' e', proc_new name parent k w = Ok (ptr_of r) (set_env e' (set_proc p' w)) ∧
    proc_added (mk_pde name (dir_of parent) k) r (w_proc w) p' ∧ (r = None → procfs_refuses).
Proof.
  intros Hd. destruct (proc_add (mk_pde name (dir_of parent) k) (w_proc w) (w_env w))
    as [[r p'] e'] eqn:Ha. exists r, p', e'.
  split; [by apply proc_new_exact|]. split; [by eapply proc_add_added|].
  intros ->. eexists _, _, _. by rewrite Ha.
Qed.

Lemma proc_added_mono e r p p' : proc_added e r p p' → proc_ents p ⊆ proc_ents p'.
Proof.
  destruct r; simpl; [|intros ->; done]. intros [? ->]. by apply insert_subseteq.
Qed.
Lemma dir_live_mono p p' d : dir_live p d → proc_ents p ⊆ proc_ents p' → dir_live p' d.
Proof. destruct d; simpl; [done..|]. intros [? ?] ?. eauto using lookup_weaken. Qed.

Lemma proc_remove_run w a :
  is_Some (proc_ents (w_proc w) !! a) →
  proc_remove (Ptr a) w = Ok tt (set_proc (k_proc_remove a (w_proc w)) w).
Proof. intros [? E]. unfold proc_remove, pde_arg. kred. by rewrite E. Qed.
Lemma proc_remove_dangling w a :
  proc_ents (w_proc w) !! a = None → proc_remove (Ptr a) w = Bug UseAfterFree.
Proof. intros E. unfold proc_remove, pde_arg. kred. by rewrite E. Qed.

(** Only procfs, the heap and the kernel's hidden state change. *)
Definition proc_frame w w' : Prop :=
  w' = set_env (w_env w') (set_proc (w_proc w') (set_heap (w_heap w') w)).

Lemma proc_frame_fields w w' :
  proc_frame w w' → w_lm w' = w_lm w ∧ w_tasks w' = w_tasks w ∧ w_cur w' = w_cur w ∧
    w_rcu w' = w_rcu w ∧ w_cbs w' = w_cbs w ∧ w_data w' = w_data w ∧ w_mod w' = w_mod w ∧
    w_out w' = w_out w ∧ w_blk w' = w_blk w.
Proof. intros ->. done. Qed.
#[global] Instance proc_frame_preorder : PreOrder proc_frame.
Proof.
  split.
  - intros w. by destruct w.
  - intros w1 w2 w3 E1 E2. unfold proc_frame in *. rewrite E2 at 1. rewrite E1. done.
Qed.

(** [pde_path ents l]: [l] leads from its first entry up to one in /proc.
    Removal spares the paths the removed entry is not on. *)
Fixpoint pde_path (ents : gmap addr pde) (l : list addr) : Prop :=
  match l with
  | [] => False
  | x :: l' =>
      (∃ d, ents !! x = Some d ∧ pde_parent d = head l') ∧
      match l' with [] => True | _ => pde_path ents l' end
  end.
#[global] Instance pde_path_dec ents l : Decision (pde_path ents l).
Proof.
  induction l as [|x l IH]; simpl; [apply _|]. apply and_dec; [|destruct l; apply _].
  destruct (ents !! x) as [d|]; [|right; by intros (? & ? & _)].
  destruct (decide (pde_parent d = head l)) as [E|E]; [left; by exists d|right].
  by intros (? & [= <-] & ?).
Defined.
Lemma pde_below_self fuel ents a : pde_below fuel ents a a = true.
Proof. destruct fuel; simpl; by rewrite decide_True. Qed.
Lemma pde_path_not_below fuel ents e x l :
  pde_path ents (x :: l) → e ∉ x :: l → pde_below fuel ents e x = false.
Proof.
  revert fuel x. induction l as [|y l IH]; intros fuel x [(d & E & Hp) Hl] Hin;
    (destruct fuel; [simpl; rewrite decide_False; set_solver|]);
    simpl in *; rewrite decide_False, E, Hp by set_solver; [done|].
  apply IH; [done|set_solver].
Qed.
Lemma pde_path_tail ents x y l : pde_path ents (x :: y :: l) → pde_path ents (y :: l).
Proof. by intros [_ ?]. Qed.
Lemma pde_path_live ents x l : pde_path ents (x :: l) → is_Some (ents !! x).
Proof. intros [(d & ? & _) _]. by exists d. Qed.
Lemma pde_path_mono ents ents' l : ents ⊆ ents' → pde_path ents l → pde_path ents' l.
Proof.
  intros Hs. induction l as [|x l IH]; [done|]. intros [(d & E & Hp) Hl]. split.
  - exists d. split; [by eapply lookup_weaken|done].
  - destruct l; [done|]. by apply IH.
Qed.
Lemma pde_path_cons ents x y l d :
  ents !! x = Some d → pde_parent d = Some y → pde_path ents (y :: l) →
  pde_path ents (x :: y :: l).
Proof. intros E Hp Hl. split; [by exists d|done]. Qed.
Lemma pde_path_remove p e l :
  pde_path (proc_ents p) l → e ∉ l → pde_path (proc_ents (k_proc_remove e p)) l.
Proof.
  induction l as [|x l IH]; [done|]. intros Hl Hin. pose proof Hl as [(d & E & Hp) Hl'].
  split.
  - exists d. split; [|done]. rewrite proc_remove_spec.
    by rewrite (pde_path_not_below _ _ e x l).
  - destruct l; [done|]. apply IH; [done|set_solver].
Qed.
(** A directory, and everything below it, is gone after its removal. *)
Lemma proc_remove_gone p e x l :
  pde_path (proc_ents p) (x :: l) → e ∈ x :: l →
  (length (x :: l) ≤ size (proc_ents p))%nat →
  proc_ents (k_proc_remove e p) !! x = None.
Proof.
  intros Hl Hin Hlen. rewrite proc_remove_spec.
  assert (∀ fuel, (length (x :: l) ≤ fuel)%nat → pde_below fuel (proc_ents p) e x = true)
    as ->; [|done..].
  clear Hlen. intros fuel. revert x l Hl Hin.
  induction fuel as [|fuel IH]; intros x l Hl Hin Hlen; simpl in Hlen; [lia|].
  destruct (decide (x = e)) as [->|Hne]; [apply pde_below_self|].
  destruct l as [|y l]; [set_solver|]. destruct Hl as [(d & E & Hp) Hl].
  simpl. rewrite decide_False, E, Hp by done. apply (IH y l); [done|set_solver|].
  simpl in *. lia.
Qed.

(** The kernel refuses some request for memory. *)
Definition kmalloc_refuses : Prop := ∃ used e, (kmalloc used e).1 = None.
Lemma kmalloc_buf_run w n :
  (kmalloc_refuses ∧ ∃ e', kmalloc_buf n w = Ok PNull (set_env e' w)) ∨
  (∃ a e', w_heap w !! a = None ∧
     kmalloc_buf n w = Ok (Ptr a)
       (set_env e' (set_heap (<[a := OBuf (Z.to_nat n) ""]> (w_heap w)) w))).
Proof.
  unfold kmalloc_buf, alloc_obj. kred.
  destruct (kmalloc _ _) as [[a|] e'] eqn:E; [right|left].
  2:{ split; [|by exists e']. eexists _, _. by rewrite E. }
  exists a, e'. split; [|done]. apply kmalloc_fresh in E. by apply not_elem_of_dom.
Qed.
Lemma get_buf_run w a cap s :
  w_heap w !! a = Some (OBuf cap s) → get_buf (Ptr a) w = Ok (a, cap, s) w.
Proof. intros E. unfold get_buf, get_obj. kstep. done. Qed.
Lemma str_of_run w a cap s : w_heap w !! a = Some (OBuf cap s) → str_of (Ptr a) w = Ok s w.
Proof. intros E. unfold str_of. by krun get_buf_run. Qed.
Lemma strcpy_run w a cap s t :
  w_heap w !! a = Some (OBuf cap s) → (String.length t < cap)%nat →
  strcpy (Ptr a) t w = Ok tt (set_heap (<[a := OBuf cap t]> (w_heap w)) w).
Proof.
  intros E Hl. unfold strcpy, str_store. krun get_buf_run; [done|]. by rewrite decide_True.
Qed.
Lemma strcat_run w a cap s t :
  w_heap w !! a = Some (OBuf cap s) → (String.length s + String.length t < cap)%nat →
  strcat (Ptr a) t w = Ok tt (set_heap (<[a := OBuf cap (s +:+ t)]> (w_heap w)) w).
Proof.
  intros E Hl. unfold strcat. krun get_buf_run; [done|].
  apply (strcpy_run _ _ _ s); [done|]. by rewrite string_length_app.
Qed.
Lemma kfree_buf_run w a cap s :
  w_heap w !! a = Some (OBuf cap s) →
  kfree_ptr (Ptr a) w = Ok tt (set_heap (delete a (w_heap w)) w).
Proof. intros E. unfold kfree_ptr, kfree. by rewrite E. Qed.

(** The three calls that build a path in a fresh buffer. *)
Definition build_path (b : cptr addr) (base name : string) : kM unit :=
  _ ← strcpy b base; _ ← strcat b "/"; strcat b name.
Lemma build_path_run w a cap s base name :
  w_heap w !! a = Some (OBuf cap s) →
  (String.length base + 1 + String.length name < cap)%nat →
  build_path (Ptr a) base name w =
    Ok tt (set_heap (<[a := OBuf cap (base +:+ "/" +:+ name)]> (w_heap w)) w).
Proof.
  intros E Hl. unfold build_path. krun strcpy_run; [done|lia|].
  krun strcat_run; [kproj; apply lookup_insert_eq|simpl; lia|].
  erewrite strcat_run; [|kproj; apply lookup_insert_eq|].
  - kproj. by rewrite !insert_insert_eq, string_app_assoc.
  - rewrite string_length_app. simpl. lia.
Qed.
Lemma build_path_then {A} (k : kM A) w a cap s base name :
  w_heap w !! a = Some (OBuf cap s) →
  (String.length base + 1 + String.length name < cap)%nat →
  (_ ← strcpy (Ptr a) base; _ ← strcat (Ptr a) "/"; _ ← strcat (Ptr a) name; k) w =
    k (set_heap (<[a := OBuf cap (base +:+ "/" +:+ name)]> (w_heap w)) w).
Proof.
  intros E Hl. pose proof (build_path_run w a cap s base name E Hl) as R.
  unfold build_path in R. unfold mbind, kM_bind in *.
  destruct (strcpy _ _ w) as [? w1| |]; [|done..].
  destruct (strcat _ _ w1) as [? w2| |]; [|done..]. by rewrite R.
Qed.

(** A buffer that holds a string and its terminator, and nothing more. *)
Definition exact_buf (s : string) : kobj := OBuf (S (String.length s)) s.
Definition path_join (base name : string) : string := base +:+ "/" +:+ name.
Lemma path_join_length base name :
  String.length (path_join base name) = (String.length base + 1 + String.length name)%nat.
Proof. unfold path_join. rewrite !string_length_app. simpl. lia. Qed.

(** Allocation of a buffer for a path, and the path built in it. *)
Lemma kmalloc_path_run w s :
  Z.of_nat (String.length s) < 2 ^ 40 →
  (kmalloc_refuses ∧
   ∃ e', kmalloc_buf (u64 (Z.of_nat (String.length s) + 1)) w = Ok PNull (set_env e' w)) ∨
  (∃ a e', w_heap w !! a = None ∧
     kmalloc_buf (u64 (Z.of_nat (String.length s) + 1)) w = Ok (Ptr a)
       (set_env e' (set_heap (<[a := OBuf (S (String.length s)) ""]> (w_heap w)) w))).
Proof.
  intros Hs. rewrite wrap_u_id by lia.
  destruct (kmalloc_buf_run w (Z.of_nat (String.length s) + 1)) as [?|(a & e' & ? & E)];
    [by left|right]. exists a, e'. split; [done|].
  rewrite E. repeat f_equal. lia.
Qed.
Lemma build_exact_then {A} (k : kM A) w a s base name :
  w_heap w !! a = Some (OBuf (S (String.length (path_join base name))) s) →
  (_ ← strcpy (Ptr a) base; _ ← strcat (Ptr a) "/"; _ ← strcat (Ptr a) name; k) w =
    k (set_heap (<[a := exact_buf (path_join base name)]> (w_heap w)) w).
Proof. intros E. eapply build_path_then; [done|]. rewrite path_join_length. lia. Qed.
End proc_prims.

(** ** Names of processes *)

(** A 32-bit [pid] printed with "%d" fits the buffers of the module. *)
Lemma snprintf_pid z :
  - 2 ^ 31 ≤ z < 2 ^ 31 →
  snprintf PROC_PID_BUFLEN (fmt_d z) = (fmt_d z, Z.of_nat (String.length (fmt_d z))) ∧
  (1 ≤ String.length (fmt_d z) ≤ 11)%nat.
Proof.
  intros Hz. pose proof (pretty_Z_length 9 z) as Hl.
  assert (Z.abs z < 10 ^ Z.of_nat 10) as Hlt by (cbn; lia). specialize (Hl Hlt).
  assert (1 ≤ String.length (fmt_d z) ≤ 11)%nat as Hb by (unfold fmt_d; case_decide; lia).
  split; [|done]. unfold snprintf, PROC_PID_BUFLEN. by rewrite substring_all by lia.
Qed.

Section proc_dirs.
Context `{KO : KernelOps, LO : !ListOps lnode, KL : !KernelLaws}.
Implicit Types (w : world).

(** procfs is initialised: /proc/ums exists and its path length is known. *)
Definition base_ready w (b : addr) : Prop :=
  g_proc_base_dir (w_mod w) = Ptr b ∧
  g_proc_base_dir_path_len (w_mod w) = Z.of_nat (String.length UMS_PROC_BASEDIR_PATH) ∧
  pde_path (proc_ents (w_proc w)) [b].

Definition pid_path (pid : pid_t) : string := path_join UMS_PROC_BASEDIR_PATH (fmt_d pid).
Definition workers_path (pid : pid_t) : string := path_join (pid_path pid) UMS_PROC_WORKERS_DIR_NAME.

(** The directories of a process: entries and paths. *)
Record dirs_ok w (b : addr) (dirs : ums_proc_dirs) : Prop := {
  dk_dirs : ∃ e s k, pd_pid_dir dirs = Ptr e ∧ pd_sched_dir dirs = Ptr s ∧
    pd_workers_dir dirs = Ptr k ∧ pde_path (proc_ents (w_proc w)) [s; e; b] ∧
    pde_path (proc_ents (w_proc w)) [k; e; b] ∧ NoDup [k; s; e; b];
  dk_pid_path : ∃ a s, pd_pid_dir_path dirs = Ptr a ∧ w_heap w !! a = Some (exact_buf s) ∧
    pd_pid_dir_path_size dirs = Z.of_nat (String.length s);
  dk_workers_path : ∃ a s, pd_workers_dir_path dirs = Ptr a ∧
    w_heap w !! a = Some (exact_buf s) ∧
    pd_workers_dir_path_size dirs = Z.of_nat (String.length s);
}.

Lemma dirs_ok_same w w' b dirs :
  dirs_ok w b dirs → w_proc w' = w_proc w → w_heap w' = w_heap w → dirs_ok w' b dirs.
Proof. intros [H1 H2 H3] E1 E2. split; by rewrite ?E1, ?E2. Qed.

(** A new directory [x] in the last one of a path. *)
Lemma new_dir_path p p' name k x y l :
  proc_added (mk_pde name (Some y) k) (Some x) p p' →
  pde_path (proc_ents p) (y :: l) →
  pde_path (proc_ents p') (x :: y :: l) ∧ (x ∉ y :: l) ∧ proc_ents p !! x = None.
Proof.
  intros [F ->] Hp. split_and!; [| |done].
  - eapply pde_path_cons; [by rewrite lookup_insert_eq|done|].
    eapply pde_path_mono; [by apply insert_subseteq|done].
  - clear -F Hp. revert y Hp. induction l as [|z l IH]; intros y Hp Hin.
    + apply list_elem_of_singleton in Hin as ->. apply pde_path_live in Hp.
      rewrite F in Hp. by destruct Hp.
    + apply elem_of_cons in Hin as [->|Hin].
      * apply pde_path_live in Hp. rewrite F in Hp. by destruct Hp.
      * apply pde_path_tail in Hp. by eapply IH.
Qed.

(** The clean-up of a failed initialisation. *)
Lemma remove_path_run w x l :
  pde_path (proc_ents (w_proc w)) (x :: l) →
  proc_remove (Ptr x) w = Ok tt (set_proc (k_proc_remove x (w_proc w)) w).
Proof. intros Hp. by eapply proc_remove_run, pde_path_live. Qed.

Lemma pid_path_small pid :
  - 2 ^ 31 ≤ pid < 2 ^ 31 →
  Z.of_nat (String.length (pid_path pid)) < 2 ^ 32 ∧
  Z.of_nat (String.length (workers_path pid)) < 2 ^ 32.
Proof.
  intros Hp. destruct (snprintf_pid _ Hp) as [_ ?]. unfold workers_path, pid_path.
  rewrite !path_join_length. simpl. lia.
Qed.
Lemma pid_path_size pid :
  - 2 ^ 31 ≤ pid < 2 ^ 31 →
  u64 (Z.of_nat (String.length UMS_PROC_BASEDIR_PATH) +
       Z.of_nat (String.length (fmt_d pid)) + 1) = Z.of_nat (String.length (pid_path pid)).
Proof.
  intros Hp. destruct (pid_path_small _ Hp) as [Hs _]. unfold pid_path in *.
  rewrite path_join_length in *. rewrite wrap_u_id; lia.
Qed.
Lemma workers_path_size pid :
  - 2 ^ 31 ≤ pid < 2 ^ 31 →
  u64 (Z.of_nat (String.length (pid_path pid)) +
       Z.of_nat (String.length UMS_PROC_WORKERS_DIR_NAME) + 1) =
    Z.of_nat (String.length (workers_path pid)).
Proof.
  intros Hp. destruct (pid_path_small _ Hp) as [_ Hs]. unfold workers_path in *.
  rewrite path_join_length in *. rewrite wrap_u_id; lia.
Qed.

End proc_dirs.

(** Steps over a call that adds an entry to the directory at the head of a
    path: the two outcomes, the second with the path of the new entry. *)
Tactic Notation "pnew" constr(w) constr(name) constr(d) constr(k) constr(Hp) "as"
    simple_intropattern(x) simple_intropattern(P) :=
  let r := fresh "r" in let p := fresh "p" in let e := fresh "e" in
  let E := fresh "E" in let A := fresh "A" in
  let R := fresh "R" in
  destruct (proc_new_run_refused w name (Ptr d) k (pde_path_live _ _ _ Hp)) as (r & p & e & E & A & R);
  rewrite (bind_ok _ _ _ _ _ E); clear E;
  destruct r as [x|]; cbn [ptr_of is_null];
  [clear R; pose proof (new_dir_path _ _ _ _ _ _ _ A Hp) as P; apply proc_added_mono in A
  |specialize (R eq_refl)].

Section proc_dirs_init.
Context `{KO : KernelOps, LO : !ListOps lnode, KL : !KernelLaws}.
Implicit Types (w : world).

Ltac pdred := cbn [pd_with_pid_dir pd_with_pid_dir_path pd_with_sched_dir pd_with_workers_dir
  pd_with_workers_dir_path pd_pid_dir_path pd_pid_dir_path_size pd_pid_dir pd_sched_dir
  pd_workers_dir_path pd_workers_dir_path_size pd_workers_dir].

(** The clean-up paths of a failed initialisation give back what was made
    since [w0]. *)
Definition cleaned (m : kM (Z * ums_proc_dirs)) w0 w : Prop :=
  ∃ dirs w', m w = Ok (- ENOMEM, dirs) w' ∧ proc_frame w0 w' ∧ w_heap w' = w_heap w0.

Lemma clean_pid dirs w0 w d1 b a1 str :
  proc_frame w0 w → w_heap w0 !! a1 = None → w_heap w = <[a1 := exact_buf str]> (w_heap w0) →
  pde_path (proc_ents (w_proc w)) [d1; b] →
  cleaned (_ ← kfree_ptr (Ptr a1); _ ← proc_remove (Ptr d1); mret (- ENOMEM, dirs)) w0 w.
Proof.
  intros HF Fa Hh Hp. unfold cleaned. krun kfree_buf_run; [rewrite Hh; apply lookup_insert_eq|].
  krun remove_path_run; [exact Hp|]. eexists _, _. split; [done|].
  split; [etrans; [exact HF|done]|]. kproj. rewrite Hh. by apply delete_insert_id.
Qed.
Lemma clean_sched dirs w0 w d2 d1 b a1 str :
  proc_frame w0 w → w_heap w0 !! a1 = None → w_heap w = <[a1 := exact_buf str]> (w_heap w0) →
  pde_path (proc_ents (w_proc w)) [d2; d1; b] → d2 ∉ [d1; b] →
  cleaned (_ ← proc_remove (Ptr d2); _ ← kfree_ptr (Ptr a1); _ ← proc_remove (Ptr d1);
           mret (- ENOMEM, dirs)) w0 w.
Proof.
  intros HF Fa Hh Hp Hn. unfold cleaned. krun remove_path_run; [exact Hp|].
  eapply clean_pid; [etrans; [exact HF|done]|done|done|].
  kproj. apply pde_path_remove; [by eapply pde_path_tail|done].
Qed.
Lemma clean_workers dirs w0 w d3 d2 d1 b a1 str :
  proc_frame w0 w → w_heap w0 !! a1 = None → w_heap w = <[a1 := exact_buf str]> (w_heap w0) →
  pde_path (proc_ents (w_proc w)) [d3; d1; b] → pde_path (proc_ents (w_proc w)) [d2; d1; b] →
  d2 ∉ [d1; b] → d3 ∉ [d2; d1; b] →
  cleaned (_ ← proc_remove (Ptr d3); _ ← proc_remove (Ptr d2); _ ← kfree_ptr (Ptr a1);
           _ ← proc_remove (Ptr d1); mret (- ENOMEM, dirs)) w0 w.
Proof.
  intros HF Fa Hh Hp3 Hp2 Hn2 Hn3. unfold cleaned. krun remove_path_run; [exact Hp3|].
  eapply clean_sched; [etrans; [exact HF|done]|done|done| |done].
  kproj. by apply pde_path_remove.
Qed.
Lemma cleaned_case m w0 w (R : Prop) (Q : Z → ums_proc_dirs → world → Prop) :
  R → cleaned m w0 w →
  ∃ r dirs w', m w = Ok (r, dirs) w' ∧ proc_frame w0 w' ∧
    ((r = - ENOMEM ∧ R ∧ w_heap w' = w_heap w0) ∨ Q r dirs w').
Proof. intros HR (dirs & w' & E & HF & Hh). exists (- ENOMEM), dirs, w'. naive_solver. Qed.

Lemma ums_proc_dirs_init_run w b :
  base_ready w b → - 2 ^ 31 ≤ w_cur w < 2 ^ 31 →
  ∃ r dirs w', ums_proc_dirs_init zero_proc_dirs w = Ok (r, dirs) w' ∧ proc_frame w w' ∧
    ((r = - ENOMEM ∧ (kmalloc_refuses ∨ procfs_refuses) ∧ w_heap w' = w_heap w) ∨
     (r = 0 ∧ dirs_ok w' b dirs ∧
      ∃ a1 a2, pd_pid_dir_path dirs = Ptr a1 ∧ pd_workers_dir_path dirs = Ptr a2 ∧
        w_heap w !! a1 = None ∧ w_heap w !! a2 = None ∧ a1 ≠ a2 ∧
        w_heap w' = <[a2 := exact_buf (workers_path (w_cur w))]>
                      (<[a1 := exact_buf (pid_path (w_cur w))]> (w_heap w)))).
Proof.
  intros (Hbase & Hlen & Hb) Hpid. unfold ums_proc_dirs_init, proc_mkdir.
  destruct (snprintf_pid _ Hpid) as [Hsn Hsl]. destruct (pid_path_small _ Hpid) as [S1 S2].
  krun (eq_refl : gets w_cur w = Ok _ _). rewrite Hsn, decide_False by lia.
  krun (eq_refl : gets w_mod w = Ok _ _). rewrite Hbase, Hlen, pid_path_size by done.
  pnew w (fmt_d (w_cur w)) b PdeDir Hb as d1 (P1 & N1 & _); [|eexists _, _, _; split; [done|split; [done|by eauto]]].
  set (w1 := set_env _ _).
  destruct (kmalloc_path_run w1 (pid_path (w_cur w))) as [(R & e2 & E)|(a1 & e2 & Fa1 & E)];
    [lia|rewrite (bind_ok _ _ _ _ _ E); clear E; cbn [is_null]..].
  { pdred. krun remove_path_run; [exact P1|]. eexists _, _, _; split; [done|split; [done|by eauto]]. }
  pdred. erewrite (build_exact_then _ _ a1 _ UMS_PROC_BASEDIR_PATH) by (kproj; apply lookup_insert_eq).
  fold (pid_path (w_cur w)). set (w2 := set_heap _ _).
  assert (w_heap w2 = <[a1 := exact_buf (pid_path (w_cur w))]> (w_heap w)) as H2
    by (unfold w2; kproj; by rewrite insert_insert_eq).
  change (pde_path (proc_ents (w_proc w2)) [d1; b]) in P1.
  assert (w_heap w !! a1 = None) as F1 by exact Fa1.
  assert (proc_frame w w2) as HF by done. clearbody w2. clear w1 Fa1 A.
  pnew w2 UMS_PROC_SCHED_DIR_NAME d1 PdeDir P1 as d2 (P2 & N2 & _); pdred.
  2:{ eapply cleaned_case, clean_pid; [by right|..];
        [etrans; [exact HF|done]|exact F1|exact H2|kproj; rewrite A; exact P1]. }
  set (w3 := set_env _ _). change (w_heap w3 = <[a1 := exact_buf (pid_path (w_cur w))]> (w_heap w)) in H2.
  pose proof (pde_path_mono _ _ _ A P1) as P1'.
  change (pde_path (proc_ents (w_proc w3)) [d1; b]) in P1'.
  change (pde_path (proc_ents (w_proc w3)) [d2; d1; b]) in P2.
  assert (proc_frame w w3) as HF3 by (etrans; [exact HF|done]). clearbody w3. clear P1 A HF. rename HF3 into HF.
  pnew w3 UMS_PROC_WORKERS_DIR_NAME d1 PdeDir P1' as d3 (P3 & N3 & F3); pdred.
  2:{ eapply cleaned_case, clean_sched; [by right|..];
        [etrans; [exact HF|done]|exact F1|exact H2|kproj; rewrite A; exact P2|exact N2]. }
  set (w4 := set_env _ _). change (w_heap w4 = <[a1 := exact_buf (pid_path (w_cur w))]> (w_heap w)) in H2.
  assert (d3 ≠ d2) as N23 by (intros ->; apply pde_path_live in P2; rewrite F3 in P2; by destruct P2).
  pose proof (pde_path_mono _ _ _ A P1') as P1. pose proof (pde_path_mono _ _ _ A P2) as P2'.
  change (pde_path (proc_ents (w_proc w4)) [d1; b]) in P1.
  change (pde_path (proc_ents (w_proc w4)) [d2; d1; b]) in P2'.
  change (pde_path (proc_ents (w_proc w4)) [d3; d1; b]) in P3.
  assert (proc_frame w w4) as HF4 by (etrans; [exact HF|done]). clearbody w4. clear HF. rename HF4 into HF.
  rewrite workers_path_size by done.
  destruct (kmalloc_path_run w4 (workers_path (w_cur w))) as [(R & e5 & E)|(a2 & e5 & Fa2 & E)];
    [lia|rewrite (bind_ok _ _ _ _ _ E); clear E; cbn [is_null]; pdred..].
  { eapply cleaned_case, clean_workers; [by left|..];
      [etrans; [exact HF|done]|exact F1|exact H2|exact P3|exact P2'|exact N2|set_solver]. }
  rewrite H2 in Fa2. apply lookup_insert_None in Fa2 as [Fa2 Hne].
  krun str_of_run; [kproj; rewrite H2, lookup_insert_ne by done; apply lookup_insert_eq|].
  erewrite build_exact_then by (kproj; apply lookup_insert_eq). fold (workers_path (w_cur w)).
  eexists _, _, _. split; [done|split; [etrans; [exact HF|done]|right]]. kproj. rewrite insert_insert_eq, H2.
  split; [done|]. split; [|by exists a1, a2].
  split.
  - exists d1, d2, d3. do 5 (split; [done|]).
    rewrite !NoDup_cons. split_and!; [set_solver..|apply NoDup_nil_2].
  - exists a1, (pid_path (w_cur w)). kproj.
    by rewrite ?insert_insert_eq, ?H2, lookup_insert_ne, lookup_insert_eq by done.
  - exists a2, (workers_path (w_cur w)). kproj. by rewrite ?insert_insert_eq, lookup_insert_eq.
Qed.

Lemma pde_path_size ents l : pde_path ents l → NoDup l → (length l ≤ size ents)%nat.
Proof.
  intros Hp Hn. rewrite <- (size_dom (D := gset addr)).
  rewrite <- (size_list_to_set (C := gset addr) l) by done. apply subseteq_size.
  intros x Hx%elem_of_list_to_set. apply elem_of_dom. clear Hn.
  induction l as [|y l IH]; [set_solver|]. apply elem_of_cons in Hx as [->|Hx].
  - by eapply pde_path_live.
  - destruct l as [|z l]; [set_solver|]. apply IH; [by eapply pde_path_tail|done].
Qed.

Lemma ums_proc_dirs_destroy_bug w b dirs :
  dirs_ok w b dirs → ums_proc_dirs_destroy dirs w = Bug UseAfterFree.
Proof.
  intros [(e & s & k & Ee & Es & _ & Ps & _ & Hn) _ _].
  unfold ums_proc_dirs_destroy. rewrite Ee, Es.
  krun remove_path_run; [by eapply pde_path_tail|]. apply bind_bug, proc_remove_dangling. kproj.
  assert (NoDup [s; e; b]) by (by rewrite NoDup_cons in Hn; destruct Hn).
  eapply proc_remove_gone; [done|set_solver|by apply pde_path_size].
Qed.

(** The link of a worker and the counters of a scheduler. *)
Definition linked_worker (l : cptr addr) (y : ums_worker) : ums_worker :=
  wk_with_dirs (wd_with_link l (wk_dirs y)) y.
Definition counted_sched (x : ums_scheduler) : ums_scheduler :=
  sc_with_dirs (sd_with_counts (u64 (sd_n_workers (sc_dirs x) + 1))
    (u64 (sd_max_workers (sc_dirs x) + 1)) (sc_dirs x)) x.
Definition link_name (n : Z) : string :=
  (snprintf UMS_PROC_SCHED_SYMLINK_BUFLEN (fmt_d n)).1.
(** The entry of the next link of the scheduler [x], to the directory [path]. *)
Definition link_pde (x : ums_scheduler) (path : string) : pde :=
  mk_pde (link_name (u64 (sd_max_workers (sc_dirs x) + 1)))
    (dir_of (sd_workers_dir (sc_dirs x))) (PdeLink path).

Lemma register_worker_run w s k x y a cap path :
  w_heap w !! s = Some (OSched x) → w_heap w !! k = Some (OWorker y) →
  wd_worker_dir_path (wk_dirs y) = Ptr a → w_heap w !! a = Some (OBuf cap path) →
  dir_live (w_proc w) (sd_workers_dir (sc_dirs x)) →
  ∃ r p' e', proc_add (link_pde x path) (w_proc w) (w_env w) = (r, p', e') ∧
    ums_scheduler_proc_register_worker s k w =
      match r with
      | None => Ok (- ENOMEM) (set_env e' (set_proc p'
                  (set_heap (<[k := OWorker (linked_worker PNull y)]> (w_heap w)) w)))
      | Some l => Ok 0 (set_env e' (set_proc p'
                    (set_heap (<[s := OSched (counted_sched x)]>
                       (<[k := OWorker (linked_worker (Ptr l) y)]> (w_heap w))) w)))
      end.
Proof.
  intros Hs Hk Hp Ha Hd. unfold ums_scheduler_proc_register_worker.
  assert (s ≠ k) by congruence.
  krun get_sched_run; [done|]. unfold link_name.
  destruct (snprintf _ _) as [name n] eqn:Hsn. unfold snprintf in Hsn. simplify_eq.
  rewrite decide_False.
  2:{ unfold fmt_d. pose proof (pretty_Z_nonempty (u64 (sd_max_workers (sc_dirs x) + 1))). lia. }
  krun get_worker_run; [done|]. rewrite Hp. krun str_of_run; [done|].
  unfold proc_symlink.
  destruct (proc_add (link_pde x path) (w_proc w) (w_env w)) as [[r p'] e'] eqn:A.
  rewrite (bind_ok _ _ _ _ _ (proc_new_exact w _ _ _ _ _ _ Hd A)).
  exists r, p', e'. split; [done|].
  unfold upd_worker_dirs, upd_sched_dirs. krun upd_worker_run; [done|].
  destruct r as [l|]; cbn [ptr_of is_null]; [|done].
  krun upd_sched_run; [kproj; by rewrite lookup_insert_ne|]. done.
Qed.
End proc_dirs_init.

Section proc_init.
Context `{KO : KernelOps, LO : !ListOps lnode, KL : !KernelLaws}.
Implicit Types (w : world).

Lemma ums_proc_init_run w :
  ∃ r w', ums_proc_init w = Ok r w' ∧
    g_event_cache (w_mod w') = g_event_cache (w_mod w) ∧
    g_registered (w_mod w') = g_registered (w_mod w) ∧ w_cbs w' = w_cbs w ∧
    ((r = 0 ∧ ∃ b, base_ready w' b) ∨
     (r = - ENOMEM ∧ proc_ents (w_proc w') = proc_ents (w_proc w))).
Proof.
  unfold ums_proc_init, proc_mkdir. krun (eq_refl : modify _ w = Ok _ _).
  set (w1 := set_mod _ w).
  destruct (proc_new_run w1 UMS_PROC_BASEDIR_NAME PNull PdeDir I) as (r & p & e & E & A).
  rewrite (bind_ok _ _ _ _ _ E). krun (eq_refl : modify _ _ = Ok _ _).
  eexists _, _. split; [done|]. split; [done|]. split; [done|]. split; [done|].
  destruct r as [b|]; cbn [ptr_of is_null]; [left|by right; split; [|exact A]]. split; [done|]. exists b.
  split; [done|]. split; [done|]. split; [|done]. destruct A as [_ A]. kproj.
  eexists. by rewrite A, lookup_insert_eq.
Qed.
End proc_init.

Section unlink.
Context `{KO : KernelOps, LO : !ListOps lnode}.
Implicit Types (w : world).

(** What [proc_remove] does to procfs: nothing for NULL. *)
Definition proc_removed (d : cptr addr) (p : procfs) : procfs :=
  match d with Ptr a => k_proc_remove a p | _ => p end.
Lemma proc_remove_live_run w d :
  dir_live (w_proc w) d → proc_remove d w = Ok tt (set_proc (proc_removed d (w_proc w)) w).
Proof.
  destruct d as [| |a]; simpl; intros Hd; [done|by destruct w|].
  destruct Hd as [? E]. unfold proc_remove, pde_arg. kred. by rewrite E.
Qed.

(** The counters after a worker left: names start again when none is left. *)
Definition uncounted_sched (x : ums_scheduler) : ums_scheduler :=
  let n := u64 (sd_n_workers (sc_dirs x) - 1) in
  sc_with_dirs (sd_with_counts n (if decide (n = 0) then 0 else sd_max_workers (sc_dirs x))
    (sc_dirs x)) x.

Lemma unregister_worker_run w s k x y :
  w_heap w !! s = Some (OSched x) → w_heap w !! k = Some (OWorker y) →
  dir_live (w_proc w) (wd_worker_link (wk_dirs y)) →
  ums_scheduler_proc_unregister_worker s k w =
    Ok tt (set_proc (proc_removed (wd_worker_link (wk_dirs y)) (w_proc w))
      (set_heap (<[s := OSched (uncounted_sched x)]> (w_heap w)) w)).
Proof.
  intros Hs Hk Hd. unfold ums_scheduler_proc_unregister_worker, upd_sched_dirs.
  krun get_worker_run; [done|]. krun proc_remove_live_run; [done|].
  krun upd_sched_run; [exact Hs|]. krun get_sched_run; [kproj; apply lookup_insert_eq|].
  unfold uncounted_sched. destruct x as [? ? ? ? []]; simpl. case_decide as Hn.
  - erewrite upd_sched_run by (kproj; apply lookup_insert_eq). kproj. by rewrite insert_insert_eq.
  - done.
Qed.
End unlink.

(** ** Workers *)

Section worker_dirs.
Context `{KO : KernelOps, LO : !ListOps lnode, KL : !KernelLaws}.
Implicit Types (w : world).

(** The entries and the path of a registered worker: [b] is the buffer. *)
Definition worker_dirs_ok w (y : ums_worker) (b : addr) : Prop :=
  ∃ i f l cap s, wd_worker_info_dir (wk_dirs y) = Ptr i ∧ wd_worker_dir (wk_dirs y) = Ptr f ∧
    wd_worker_dir_path (wk_dirs y) = Ptr b ∧ w_heap w !! b = Some (OBuf cap s) ∧
    pde_path (proc_ents (w_proc w)) (i :: f :: l) ∧ i ∉ f :: l.

Definition worker_unregistered (y : ums_worker) (p : procfs) : procfs :=
  proc_removed (wd_worker_dir (wk_dirs y)) (proc_removed (wd_worker_info_dir (wk_dirs y)) p).

Lemma worker_proc_unregister_run w k y b :
  w_heap w !! k = Some (OWorker y) → worker_dirs_ok w y b →
  ums_worker_proc_unregister k w =
    Ok tt (set_heap (delete b (w_heap w)) (set_proc (worker_unregistered y (w_proc w)) w)).
Proof.
  intros Hk (i & f & l & cap & s & Ei & Ef & Eb & Hb & Hp & Hi).
  unfold ums_worker_proc_unregister, worker_unregistered. rewrite Ei, Ef. cbn [proc_removed].
  krun get_worker_run; [done|]. rewrite Ei. krun remove_path_run; [exact Hp|].
  krun get_worker_run; [done|]. rewrite Ef.
  krun remove_path_run; [kproj; apply pde_path_remove; [by eapply pde_path_tail|done]|].
  krun get_worker_run; [done|]. rewrite Eb. by erewrite kfree_buf_run.
Qed.

(** The directories of the registered worker of [pid]. *)
Definition registered_dirs (i f b : addr) (path : string) (y : ums_worker) : ums_worker :=
  wk_with_dirs (mk_worker_dirs (Ptr b) (Z.of_nat (String.length path)) (Ptr f) (Ptr i)
    (wd_worker_link (wk_dirs y))) y.

Lemma worker_proc_register_run w dirs k y wd l base wpath :
  w_heap w !! k = Some (OWorker y) → - 2 ^ 31 ≤ ctx_pid (wk_context y) < 2 ^ 31 →
  pd_workers_dir dirs = Ptr wd → pde_path (proc_ents (w_proc w)) (wd :: l) →
  pd_workers_dir_path dirs = Ptr base → w_heap w !! base = Some (exact_buf wpath) →
  pd_workers_dir_path_size dirs = Z.of_nat (String.length wpath) →
  Z.of_nat (String.length wpath) < 2 ^ 32 →
  let path := path_join wpath (fmt_d (ctx_pid (wk_context y))) in
  ∃ r w', ums_worker_proc_register dirs k w = Ok r w' ∧ proc_frame w w' ∧
    ((r = - ENOMEM ∧ ∃ ds, w_heap w' = <[k := OWorker (wk_with_dirs ds y)]> (w_heap w)) ∨
     (r = 0 ∧ ∃ i f b, w_heap w !! b = None ∧
        w_heap w' = <[b := exact_buf path]>
                      (<[k := OWorker (registered_dirs i f b path y)]> (w_heap w)) ∧
        pde_path (proc_ents (w_proc w')) (i :: f :: wd :: l) ∧ i ∉ f :: wd :: l)).
Proof.
  intros Hk Hpid Ewd Hp Ebase Hbase Hsz Hsmall path.
  destruct (snprintf_pid _ Hpid) as [Hsn Hsl].
  unfold ums_worker_proc_register, proc_mkdir, proc_create_data, upd_worker_dirs.
  krun get_worker_run; [done|]. rewrite Hsn, decide_False, Ewd, Hsz, Ebase by lia.
  destruct (proc_new_run w (fmt_d (ctx_pid (wk_context y))) (Ptr wd) PdeDir
    (pde_path_live _ _ _ Hp)) as (r1 & p1 & e1 & E & A1).
  rewrite (bind_ok _ _ _ _ _ E). clear E. krun upd_worker_run; [done|].
  destruct r1 as [f|]; cbn [ptr_of is_null].
  2:{ eexists _, _. split_and!; [done..|left]. eauto. }
  destruct (new_dir_path _ _ _ _ _ _ _ A1 Hp) as (P1 & N1 & F1). kproj.
  replace (u64 (Z.of_nat (String.length wpath) +
    Z.of_nat (String.length (fmt_d (ctx_pid (wk_context y)))) + 1))
    with (Z.of_nat (String.length path))
    by (unfold path; rewrite path_join_length, wrap_u_id; lia).
  set (w1 := set_heap _ _). assert (base ≠ k) as Hbk by (intros ->; by rewrite Hk in Hbase).
  destruct (kmalloc_path_run w1 path) as [(_ & e2 & E)|(b & e2 & Fb & E)];
    [unfold path; rewrite path_join_length; lia|rewrite (bind_ok _ _ _ _ _ E); clear E..];
    subst w1.
  { krun upd_worker_run; [kproj; apply lookup_insert_eq|]. cbn [is_null].
    krun remove_path_run; [exact P1|]. eexists _, _. split_and!; [done..|left].
    kproj. rewrite insert_insert_eq. eauto. }
  kproj_in Fb. apply lookup_insert_None in Fb as [Fb Hbk'].
  assert (b ≠ base) as Hbb by congruence.
  krun upd_worker_run; [kproj; rewrite lookup_insert_ne by done; apply lookup_insert_eq|].
  cbn [is_null]. krun str_of_run; [kproj; by rewrite !lookup_insert_ne|].
  kproj. rewrite (insert_insert_ne _ k b), insert_insert_eq by done.
  erewrite (build_exact_then _ _ b) by (kproj; apply lookup_insert_eq). fold path.
  kproj. rewrite insert_insert_eq.
  set (w2 := set_heap _ _). assert (w_proc w2 = p1) as Ew2 by done.
  destruct (proc_new_run w2 UMS_PROC_WORKER_INFO_NAME (Ptr f) (PdeFile k)
    (pde_path_live _ _ _ P1)) as (r3 & p3 & e3 & E & A3).
  rewrite (bind_ok _ _ _ _ _ E), Ew2 in *. clear E Ew2. subst w2.
  krun upd_worker_run; [kproj; rewrite lookup_insert_ne by done; apply lookup_insert_eq|].
  kproj. rewrite (insert_insert_ne _ k b), insert_insert_eq by done.
  destruct r3 as [i|]; cbn [ptr_of is_null].
  - destruct (new_dir_path _ _ _ _ _ _ _ A3 P1) as (P3 & N3 & _).
    eexists _, _. split; [done|]. split; [done|]. right. split; [done|].
    exists i, f, b. kproj. by destruct y as [? ? []].
  - krun kfree_buf_run; [kproj; apply lookup_insert_eq|].
    krun remove_path_run; [kproj; rewrite A3; exact P1|].
    eexists _, _. split; [done|]. split; [done|]. left. split; [done|]. kproj.
    rewrite delete_insert_id by (by rewrite lookup_insert_ne). eauto.
Qed.
End worker_dirs.

(** ** Schedulers *)

Section sched_dirs.
Context `{KO : KernelOps, LO : !ListOps lnode, KL : !KernelLaws}.
Implicit Types (w : world).

Definition registered_sched (f i k : addr) (x : ums_scheduler) : ums_scheduler :=
  sc_with_dirs (mk_sched_dirs (Ptr f) (Ptr i) (Ptr k) 0 0) x.

Lemma sched_proc_register_run w dirs s x sd l :
  w_heap w !! s = Some (OSched x) → - 2 ^ 31 ≤ ctx_pid (sc_context x) < 2 ^ 31 →
  pd_sched_dir dirs = Ptr sd → pde_path (proc_ents (w_proc w)) (sd :: l) →
  ∃ r w', ums_scheduler_proc_register dirs s w = Ok r w' ∧ proc_frame w w' ∧
    ((r = - ENOMEM ∧ procfs_refuses ∧
        ∃ ds, w_heap w' = <[s := OSched (sc_with_dirs ds x)]> (w_heap w)) ∨
     (r = 0 ∧ ∃ f i k,
        w_heap w' = <[s := OSched (registered_sched f i k x)]> (w_heap w) ∧
        pde_path (proc_ents (w_proc w')) (i :: f :: sd :: l) ∧
        pde_path (proc_ents (w_proc w')) (k :: f :: sd :: l))).
Proof.
  intros Hs Hpid Esd Hp. destruct (snprintf_pid _ Hpid) as [Hsn Hsl].
  unfold ums_scheduler_proc_register, proc_mkdir, proc_create_data, upd_sched_dirs.
  krun get_sched_run; [done|]. rewrite Hsn, decide_False, Esd by lia.
  pnew w (fmt_d (ctx_pid (sc_context x))) sd PdeDir Hp as f (P1 & _ & _);
    (krun upd_sched_run; [done|]).
  2:{ eexists _, _. split_and!; [done..|left]. eauto. }
  set (w1 := set_heap _ _). change (pde_path (proc_ents (w_proc w1)) (f :: sd :: l)) in P1.
  pnew w1 UMS_PROC_SCHED_INFO_NAME f (PdeFile s) P1 as i (P2 & N2 & _);
    (krun upd_sched_run; [kproj; apply lookup_insert_eq|]); subst w1; kproj.
  2:{ krun remove_path_run; [kproj; rewrite A0; exact P1|].
      eexists _, _. split_and!; [done..|left]. kproj. rewrite insert_insert_eq. eauto. }
  rewrite insert_insert_eq. set (w2 := set_heap _ _).
  change (pde_path (proc_ents (w_proc w2)) (i :: f :: sd :: l)) in P2.
  pose proof (pde_path_tail _ _ _ _ P2) as P1'.
  pnew w2 UMS_PROC_SCHED_WORKERS_NAME f PdeDir P1' as k (P3 & _ & _);
    (krun upd_sched_run; [kproj; apply lookup_insert_eq|]).
  - krun upd_sched_run; [kproj; apply lookup_insert_eq|].
    eexists _, _. split; [done|]. split; [done|]. right. split; [done|]. exists f, i, k. kproj.
    pose proof (pde_path_mono _ _ _ A1 P2) as P2'.
    split_and!; [|exact P2'|exact P3]. subst w2. kproj. rewrite !insert_insert_eq.
    by destruct x as [? ? ? ? []].
  - krun remove_path_run; [kproj; rewrite A1; exact P2|].
    krun remove_path_run; [kproj; apply pde_path_remove; [rewrite A1; exact P1'|done]|].
    eexists _, _. split; [done|]. split; [done|]. left. split; [done|]. subst w2. kproj.
    rewrite insert_insert_eq. eauto.
Qed.
End sched_dirs.

(** ** Worlds up to the links

    Registering workers changes nothing but procfs, the [worker_link] fields
    and the counters that name the links: [link_step] is the relation between
    the worlds before and after, and what the code needs to register one more
    worker ([linkable]) is stable under it. *)

Definition strip_links (o : kobj) : kobj :=
  match o with
  | OSched x => OSched (sc_with_dirs (sd_with_counts 0 0 (sc_dirs x)) x)
  | OWorker y => OWorker (linked_worker PNull y)
  | _ => o
  end.
Definition up_to_links (h h' : gmap addr kobj) : Prop := strip_links <$> h = strip_links <$> h'.

#[global] Instance up_to_links_equiv : Equivalence up_to_links.
Proof. split; unfold up_to_links; repeat intro; congruence. Qed.

Lemma up_to_links_lookup h h' a o :
  up_to_links h h' → h !! a = Some o →
  ∃ o', h' !! a = Some o' ∧ strip_links o' = strip_links o.
Proof.
  intros Hu Ha. assert (strip_links <$> h' !! a = Some (strip_links o)) as E.
  { rewrite <- lookup_fmap, <- Hu, lookup_fmap, Ha. done. }
  apply fmap_Some in E as (o' & ? & ?). eauto.
Qed.
Lemma up_to_links_insert h a o o' :
  h !! a = Some o → strip_links o' = strip_links o → up_to_links h (<[a := o']> h).
Proof.
  intros Ha E. unfold up_to_links. rewrite fmap_insert, E, insert_id; [done|].
  by rewrite lookup_fmap, Ha.
Qed.

(** The parts of a structure that links do not touch. *)
Lemma strip_sched o x :
  strip_links o = strip_links (OSched x) →
  ∃ x', o = OSched x' ∧ sd_workers_dir (sc_dirs x') = sd_workers_dir (sc_dirs x).
Proof. destruct o; intros E; simplify_eq/=. by eexists. Qed.
Lemma strip_worker o y :
  strip_links o = strip_links (OWorker y) →
  ∃ y', o = OWorker y' ∧ wk_context y' = wk_context y ∧
    wd_worker_dir_path (wk_dirs y') = wd_worker_dir_path (wk_dirs y).
Proof. destruct o; intros E; simplify_eq/=. by eexists. Qed.

Section links.
Context `{KO : KernelOps, LO : !ListOps lnode, KL : !KernelLaws}.
Implicit Types (w : world).

Definition link_step w w' : Prop :=
  up_to_links (w_heap w) (w_heap w') ∧ proc_ents (w_proc w) ⊆ proc_ents (w_proc w') ∧
  w' = set_env (w_env w') (set_proc (w_proc w') (set_heap (w_heap w') w)).

#[global] Instance link_step_preorder : PreOrder link_step.
Proof.
  split.
  - intros w. split_and!; [done..|by destruct w].
  - intros w1 w2 w3 (U1 & P1 & E1) (U2 & P2 & E2). split_and!; [by etrans..|].
    rewrite E2 at 1. rewrite E1. done.
Qed.

Definition linkable w (s k : addr) : Prop :=
  ∃ x y a cap path, w_heap w !! s = Some (OSched x) ∧ w_heap w !! k = Some (OWorker y) ∧
    wd_worker_dir_path (wk_dirs y) = Ptr a ∧ w_heap w !! a = Some (OBuf cap path) ∧
    dir_live (w_proc w) (sd_workers_dir (sc_dirs x)).

Lemma linkable_step w w' s k : linkable w s k → link_step w w' → linkable w' s k.
Proof.
  intros (x & y & a & cap & path & Hs & Hk & Ey & Ha & Hd) (U & P & _).
  destruct (up_to_links_lookup _ _ _ _ U Hs) as (os & Hs' & (x' & -> & Ex)%strip_sched).
  destruct (up_to_links_lookup _ _ _ _ U Hk) as (ok & Hk' & (y' & -> & _ & Ey')%strip_worker).
  destruct (up_to_links_lookup _ _ _ _ U Ha) as ([] & Ha' & Ea); simplify_eq/=.
  exists x', y', a, cap, path. split_and!; [done|done|congruence|done|].
  rewrite Ex. by eapply dir_live_mono.
Qed.

(** procfs refuses the link of the worker [k] below the scheduler [s]. *)
Definition link_refused w (s k : addr) : bool :=
  match w_heap w !! s, w_heap w !! k with
  | Some (OSched x), Some (OWorker y) =>
      match wd_worker_dir_path (wk_dirs y) with
      | Ptr a => match w_heap w !! a with
                 | Some (OBuf _ path) =>
                     match (proc_add (link_pde x path) (w_proc w) (w_env w)).1.1 with
                     | None => true
                     | Some _ => false
                     end
                 | _ => false
                 end
      | _ => false
      end
  | _, _ => false
  end.

Lemma register_worker_step w s k :
  linkable w s k →
  ∃ r w', ums_scheduler_proc_register_worker s k w = Ok r w' ∧
    r = (if link_refused w s k then - ENOMEM else 0) ∧ link_step w w'.
Proof.
  intros (x & y & a & cap & path & Hs & Hk & Ey & Ha & Hd).
  destruct (register_worker_run w s k x y a cap path Hs Hk Ey Ha Hd) as (r & p' & e' & A & E).
  assert (s ≠ k) by congruence. unfold link_refused. rewrite Hs, Hk, Ey, Ha, A.
  apply proc_add_added, proc_added_mono in A.
  destruct r as [l|]; eexists _, _; (split; [exact E|split; [done|]]);
    (split_and!; [kproj|done|done]).
  - etrans; [by apply (up_to_links_insert _ k (OWorker y) (OWorker (linked_worker (Ptr l) y)))|].
    apply (up_to_links_insert _ s (OSched x)); [by rewrite lookup_insert_ne|done].
  - by apply (up_to_links_insert _ k (OWorker y)).
Qed.
End links.

(** ** Info files *)

(** The integers of a context are those of the C structure. *)
Definition context_ints (c : ums_context) : Prop :=
  (ctx_state c = CONTEXT_RUNNING ∨ ctx_state c = CONTEXT_IDLE) ∧
  - 2 ^ 31 ≤ ctx_pid c < 2 ^ 31 ∧ - 2 ^ 31 ≤ ctx_switches c < 2 ^ 31.

Lemma get_context_state_run c :
  (ctx_state c = CONTEXT_RUNNING ∨ ctx_state c = CONTEXT_IDLE) →
  get_context_state c =
    Some (if decide (ctx_state c = CONTEXT_RUNNING) then "R (running)" else "I (idle)").
Proof. unfold get_context_state. by intros [-> | ->]. Qed.

Definition info_text (c : ums_context) : string :=
  context_text c (if decide (ctx_state c = CONTEXT_RUNNING) then "R (running)" else "I (idle)").

Lemma info_text_length c :
  context_ints c → (1 ≤ String.length (info_text c) ≤ 58)%nat.
Proof.
  intros (Hst & Hp & Hs). destruct (snprintf_pid _ Hp) as [_ ?].
  destruct (snprintf_pid _ Hs) as [_ ?]. unfold info_text, context_text.
  rewrite !string_length_app. case_decide; cbn [String.length tab newline]; lia.
Qed.

Lemma context_snprintf_run c n :
  context_ints c → (58 < n)%nat →
  context_snprintf n c = Some (info_text c, Z.of_nat (String.length (info_text c))).
Proof.
  intros Hc Hn. pose proof (info_text_length c Hc). unfold context_snprintf.
  rewrite get_context_state_run by apply Hc. cbn [mbind option_bind]. fold (info_text c).
  unfold snprintf. by rewrite substring_all by lia.
Qed.

(** The bytes of a text that fits its buffer. *)
Lemma read_buf_run buflen s off n :
  (String.length s < buflen)%nat → 0 ≤ off → 0 ≤ n → off + n ≤ Z.of_nat (String.length s) →
  read_buf (stack_buf buflen s) off n = Some (String.substring (Z.to_nat off) (Z.to_nat n) s).
Proof.
  intros Hs Hoff Hn Hle. unfold read_buf, stack_buf. set (l := String.list_ascii_of_string s).
  assert (length l = String.length s) as El.
  { unfold l. clear. by induction s as [|c s IH]; simpl; [|rewrite IH]. }
  rewrite length_resize, decide_True by lia.
  rewrite resize_ge by (rewrite length_app, length_fmap, El; simpl; lia).
  rewrite <- (assoc_L (++)), drop_app_le, take_app_le
    by (rewrite ?length_drop, length_fmap, El; lia).
  rewrite <- fmap_drop, <- fmap_take, mapM_fmap_Some by done. unfold l. cbn [fmap option_fmap option_map].
  by rewrite substring_bytes.
Qed.

(** What a read of an info file gives: the VFS caps the count of a read below
    2^31, and a copy to user space leaves between none and all of the bytes
    uncopied. *)
Lemma proc_read_info_run buflen c ubuf count pos :
  context_ints c → (58 < buflen)%nat → 0 ≤ pos < 2 ^ 62 → 0 ≤ count < 2 ^ 31 →
  (∀ n, 0 ≤ n → 0 ≤ ubuf n ≤ n) →
  let len := Z.of_nat (String.length (info_text c)) in
  let n := Z.min count (len - pos) in
  proc_read_info buflen c ubuf count pos = Some
    (if decide (len ≤ pos ∨ count = 0) then mk_read 0 pos ""
     else if decide (ubuf n = n) then mk_read (- EACCES) pos ""
     else mk_read (n - ubuf n) (pos + (n - ubuf n))
            (String.substring (Z.to_nat pos) (Z.to_nat (n - ubuf n)) (info_text c))).
Proof.
  intros Hc Hb Hpos Hcount Hubuf len n. pose proof (info_text_length c Hc) as Hlen.
  unfold proc_read_info. rewrite decide_False by lia.
  rewrite context_snprintf_run by (done || lia). cbn [mbind option_bind]. fold len.
  destruct (decide (len ≤ pos ∨ count = 0)) as [|Hne]; [done|].
  rewrite (wrap_u_id 64 (pos + count)), (wrap_u_id 64 len), (wrap_u_id 64 (len - pos)) by lia.
  replace (if decide (len < pos + count) then len - pos else count) with n
    by (unfold n; case_decide; lia).
  assert (0 < n < 2 ^ 31) as Hn by lia. pose proof (Hubuf n).
  rewrite read_buf_run by lia. cbn [mbind option_bind]. cbv zeta.
  rewrite (wrap_s_id 32), !(wrap_u_id 64) by lia. rewrite !(wrap_s_id 64) by lia.
  case_decide; [done|]. do 2 f_equal. apply substring_prefix. lia.
Qed.

(** A user program that reads a file to its end: calls of [read], each with the
    position the last one left, until one returns 0. *)
Fixpoint read_file (read : Z → option read_result) (fuel : nat) (pos : Z) : option string :=
  match fuel with
  | O => None
  | S fuel =>
      rd ← read pos;
      if decide (rd_ret rd < 0) then None
      else if decide (rd_ret rd = 0) then Some ""
      else rest ← read_file read fuel (rd_pos rd); Some (rd_bytes rd +:+ rest)
  end.

Lemma read_file_run buflen fuel c count pos :
  context_ints c → (58 < buflen)%nat → 0 < count < 2 ^ 31 → 0 ≤ pos →
  Z.of_nat (String.length (info_text c)) - pos < Z.of_nat fuel →
  pos ≤ Z.of_nat (String.length (info_text c)) →
  read_file (proc_read_info buflen c (λ _, 0) count) fuel pos =
    Some (String.substring (Z.to_nat pos) (String.length (info_text c)) (info_text c)).
Proof.
  intros Hc Hb Hcount. pose proof (info_text_length c Hc) as Hlen.
  revert pos. induction fuel as [|fuel IH]; intros pos Hpos Hfuel Hle; [lia|].
  cbn [read_file]. rewrite proc_read_info_run by (done || lia). cbv zeta.
  set (len := Z.of_nat (String.length (info_text c))) in *.
  destruct (decide (len ≤ pos ∨ count = 0)) as [Hend|Hne].
  - cbn. by rewrite substring_past by lia.
  - set (n := Z.min count (len - pos)) in *. rewrite decide_False by lia. cbn [mbind option_bind rd_ret rd_pos rd_bytes].
    rewrite !decide_False by lia. rewrite Z.sub_0_r.
    rewrite IH by lia. cbn [mbind option_bind]. f_equal.
    replace (Z.to_nat (pos + n)) with (Z.to_nat pos + Z.to_nat n)%nat by lia.
    rewrite substring_split. apply substring_long; lia.
Qed.
