(* ===== verification/Complist.v ===== *)
(** * Completion lists: [src/src/module/src/complist.c], [idr_l.h]

    A completion list is a queue of worker contexts, found by its id in the
    pool of the device data.  Dequeuing takes the whole list: its first context
    becomes the head of the others. *)
From S2P Require Import Prelude ListHead ListSpec Kernel Uapi State Prims Context Proc.
From stdpp Require Import prelude gmap.

Local Open Scope Z_scope.

Definition COMPLIST_ADD_HEAD : Z := 1.
Definition COMPLIST_ADD_TAIL : Z := 2.

Definition cl_with_id v c := mk_complist v (cl_lock c) (cl_wait_q c) (cl_refcount c).
Definition cl_with_lock v c := mk_complist (cl_id c) v (cl_wait_q c) (cl_refcount c).
Definition cl_with_wait_q v c := mk_complist (cl_id c) (cl_lock c) v (cl_refcount c).
Definition cl_with_refcount v c := mk_complist (cl_id c) (cl_lock c) (cl_wait_q c) v.

(** The zeroed structure of [kzalloc]. *)
Definition zero_complist : ums_complist := mk_complist 0 false [] 0.

Section complist.
Context `{KO : KernelOps, LO : !ListOps lnode}.

Definition d_with_comp_lists (v : idr) (d : ums_data) : ums_data :=
  mk_data (d_addr d) v (d_schedulers d) (d_workers d) (d_dirs d).

(** ** idr_l.h *)

Definition IDR_L_ALLOC (ptr : addr) : kM Z :=
  d ← get_data;
  r ← call_env (λ e, idr_alloc ptr 1 (-1) (d_comp_lists d) e);
  _ ← put_data (d_with_comp_lists r.2 d);
  mret r.1.
Definition IDR_L_FIND (id : Z) : kM (option addr) :=
  d ← get_data; mret (idr_find (d_comp_lists d) id).
Definition IDR_L_REMOVE (id : Z) : kM unit :=
  d ← get_data; put_data (d_with_comp_lists (idr_remove id (d_comp_lists d)) d).

(** ** complist.c, complist.h *)

Definition complist_spin_lock (a : addr) : kM unit :=
  c ← get_complist a;
  if cl_lock c then raise LockHeld else upd_complist a (cl_with_lock true).
Definition complist_spin_unlock (a : addr) : kM unit :=
  c ← get_complist a;
  if cl_lock c then upd_complist a (cl_with_lock false) else raise LockNotHeld.
Definition complist_wake_up_all (a : addr) : kM unit :=
  c ← get_complist a;
  _ ← wake_up_all (cl_wait_q c);
  upd_complist a (cl_with_wait_q []).
(** [wait_event_interruptible(complist->wait_q, !list_empty(&complist->head))] *)
Definition complist_wait (a : addr) : kM Z :=
  p ← gets w_cur;
  wait_event_interruptible
    (upd_complist a (λ c, cl_with_wait_q (wq_add p (cl_wait_q c)) c))
    (upd_complist a (λ c, cl_with_wait_q (wq_del p (cl_wait_q c)) c))
    (e ← lm_get (k_list_empty (ClHead a)); mret (negb e)).

Definition alloc_ums_complist : kM (option addr) :=
  alloc_obj (OComplist zero_complist) zero_cell.
Definition free_ums_complist (a : addr) : kM unit := kfree a.

Definition ums_complist_init (a : addr) : kM Z :=
  retval ← IDR_L_ALLOC a;
  if decide (retval = 0) then mret retval else
  _ ← upd_complist a (cl_with_id retval);
  _ ← upd_complist a (cl_with_lock false);
  _ ← lm_run (k_INIT_LIST_HEAD (ClHead a));
  _ ← upd_complist a (cl_with_wait_q []);
  _ ← upd_complist a (cl_with_refcount 1);
  mret 0.

Definition ums_complist_deinit (a : addr) : kM unit :=
  c ← get_complist a; IDR_L_REMOVE (cl_id c).

Definition create_ums_complist (id : uptr Z) : kM Z :=
  r ← alloc_ums_complist;
  match r with
  | None => mret (- ENOMEM)
  | Some a =>
      retval ← ums_complist_init a;
      if decide (retval ≠ 0) then _ ← free_ums_complist a; mret retval else
      c ← get_complist a;
      n ← copy_to_user id (UId (cl_id c));
      if decide (n ≠ 0) then
        _ ← ums_complist_deinit a; _ ← free_ums_complist a; mret (- EACCES)
      else mret 0
  end.

Definition ums_complist_call_rcu (a : addr) : kM unit := free_ums_complist a.

Definition ums_complist_destroy (a : addr) : kM Z :=
  _ ← complist_wake_up_all a;
  _ ← ums_complist_deinit a;
  _ ← call_rcu (CbComplist a);
  mret 0.

Definition ums_complist_release (a : addr) : kM unit :=
  _ ← ums_complist_destroy a; mret tt.

Definition get_ums_complist (a : addr) : kM addr :=
  c ← get_complist a;
  n ← kref_get (cl_refcount c);
  _ ← upd_complist a (cl_with_refcount n);
  mret a.

Definition put_ums_complist (a : addr) : kM Z :=
  c ← get_complist a;
  r ← kref_put (cl_refcount c);
  _ ← upd_complist a (cl_with_refcount r.1);
  if (r.2 : bool) then _ ← ums_complist_release a; mret 1 else mret 0.

Definition ums_completion_list_add (a : addr) (context : ctx_ref) (flags : Z) : kM unit :=
  _ ← complist_spin_lock a;
  _ ← (if decide (Z.land flags COMPLIST_ADD_HEAD ≠ 0) then
         lm_run (k_list_add (CtxList context) (ClHead a))
       else if decide (Z.land flags COMPLIST_ADD_TAIL ≠ 0) then
         lm_run (k_list_add_tail (CtxList context) (ClHead a))
       else mret tt);
  _ ← complist_spin_unlock a;
  complist_wake_up_all a.

(** The loop and what follows it; an error is [inl] (an [ERR_PTR]). *)
Fixpoint dequeue_complist_loop (fuel : nat) (a : addr) : kM (Z + ctx_ref) :=
  match fuel with
  | O => raise NoFuel
  | S fuel =>
      e ← lm_get (k_list_empty (ClHead a));
      if (e : bool) then
        _ ← complist_spin_unlock a;
        r ← complist_wait a;
        if decide (r ≠ 0) then mret (inl (- ERESTARTSYS)) else
        _ ← complist_spin_lock a;
        dequeue_complist_loop fuel a
      else
        n ← lm_get (k_list_first (ClHead a));
        context ← entry_context n;
        _ ← lm_run (k_list_del (CtxList context));
        _ ← lm_run (k_list_replace_init (ClHead a) (CtxList context));
        _ ← complist_spin_unlock a;
        mret (inr context)
  end.

Definition do_dequeue_ums_complist_context (a : addr) : kM (Z + ctx_ref) :=
  _ ← complist_spin_lock a; dequeue_complist_loop 2 a.
(** the same call, from the point where the task sleeps *)
Definition resume_dequeue_ums_complist_context (a : addr) : kM (Z + ctx_ref) :=
  r ← complist_wait a;
  if decide (r ≠ 0) then mret (inl (- ERESTARTSYS)) else
  _ ← complist_spin_lock a; dequeue_complist_loop 2 a.

(** [list_for_each_entry(curr, ...)] of [ums_complist_dqcontext] *)
Fixpoint register_workers (s : addr) (ns : list lnode) : kM unit :=
  match ns with
  | [] => mret tt
  | n :: ns =>
      curr ← entry_context n;
      worker ← container_worker curr;
      _ ← ums_scheduler_proc_register_worker s worker;
      register_workers s ns
  end.

(** The code after the call of [do_dequeue_ums_complist_context]. *)
Definition dqcontext_return (args : uptr dequeue_ums_complist_args) (complist scheduler : addr)
    (r : Z + ctx_ref) : kM Z :=
  match r with
  | inl retval => _ ← rcu_read_unlock; mret retval
  | inr context =>
      let fail retval :=
        _ ← ums_completion_list_add complist context COMPLIST_ADD_HEAD;
        _ ← rcu_read_unlock; mret retval in
      worker ← container_worker context;
      retval ← ums_scheduler_proc_register_worker scheduler worker;
      if decide (retval ≠ 0) then fail retval else
      ns ← lm_get (k_list_nodes (CtxList context));
      _ ← register_workers scheduler ns;
      x ← get_ctx context;
      n ← copy_to_user args (UPid (ctx_pid x));
      if decide (n ≠ 0) then fail (- EACCES) else
      _ ← rcu_read_unlock; mret 0
  end.

Definition ums_complist_dqcontext (args : uptr dequeue_ums_complist_args) : kM Z :=
  v ← copy_from_user args;
  match v with
  | None => mret (- EACCES)
  | Some v =>
      _ ← rcu_read_lock;
      complist ← IDR_L_FIND (dq_ums_complist v);
      match complist with
      | None => _ ← rcu_read_unlock; mret (- EINVAL)
      | Some complist =>
          scheduler_pid ← current_context_pid;
          d ← get_data;
          match rhashtable_lookup_fast (d_schedulers d) scheduler_pid with
          | None => _ ← rcu_read_unlock; mret (- ESRCH)
          | Some scheduler =>
              r ← do_dequeue_ums_complist_context complist;
              dqcontext_return args complist scheduler r
          end
      end
  end.
(** the same call, from the point where the task sleeps *)
Definition resume_dqcontext (args : uptr dequeue_ums_complist_args)
    (complist scheduler : addr) : kM Z :=
  r ← resume_dequeue_ums_complist_context complist;
  dqcontext_return args complist scheduler r.

Definition ums_complist_next_context (args : uptr ums_next_context_list_args) : kM Z :=
  v ← copy_from_user args;
  match v with
  | None => mret (- EACCES)
  | Some v =>
      _ ← rcu_read_lock;
      d ← get_data;
      match rhashtable_lookup_fast (d_workers d) (nx_ums_context v) with
      | None => _ ← rcu_read_unlock; mret (- ESRCH)
      | Some k =>
          let context_list := CtxList (WorkCtx k) in
          e ← lm_get (k_list_empty context_list);
          if (e : bool) then
            retval ← copy_to_user args (UPid (-1));
            _ ← rcu_read_unlock;
            mret (if decide (retval ≠ 0) then - EACCES else retval)
          else
            n ← lm_get (k_list_first context_list);
            context ← entry_context n;
            _ ← lm_run (k_list_del (CtxList context));
            _ ← lm_run (k_list_replace_init context_list (CtxList context));
            x ← get_ctx context;
            retval ← copy_to_user args (UPid (ctx_pid x));
            _ ← rcu_read_unlock;
            mret (if decide (retval ≠ 0) then - EACCES else retval)
      end
  end.

Definition ums_complist_delete (complist_id : Z) : kM Z :=
  _ ← rcu_read_lock;
  complist ← IDR_L_FIND complist_id;
  match complist with
  | None => _ ← rcu_read_unlock; mret (- EINVAL)
  | Some a => _ ← put_ums_complist a; _ ← rcu_read_unlock; mret 0
  end.
End complist.

(** ** Behaviour of the operations *)

(** The sequences after a context is added with given flags. *)
Definition list_add_flags (flags head tail : Z) (n h : lnode) (l : list lnode)
    (L : forest lnode) : forest lnode :=
  if decide (Z.land flags head ≠ 0) then <[h := n :: l]> (delete n L)
  else if decide (Z.land flags tail ≠ 0) then <[h := l ++ [n]]> (delete n L)
  else L.

Lemma list_add_flags_head n h l L : list_add_flags 1 1 2 n h l L = <[h := n :: l]> (delete n L).
Proof. reflexivity. Qed.
Lemma list_add_flags_tail n h l L : list_add_flags 2 1 2 n h l L = <[h := l ++ [n]]> (delete n L).
Proof. reflexivity. Qed.

(** Ends a run: both sides are worlds that differ in the form of the heap. *)
Ltac kdone := kproj; rewrite ?insert_insert_eq; try reflexivity.

Section complist_runs.
Context `{KO : KernelOps, LO : !ListOps lnode}.
Implicit Types (w : world) (c : ums_complist).

Lemma complist_spin_lock_run w a c :
  w_heap w !! a = Some (OComplist c) → cl_lock c = false →
  complist_spin_lock a w =
    Ok tt (set_heap (<[a := OComplist (cl_with_lock true c)]> (w_heap w)) w).
Proof.
  intros Ha Hl. unfold complist_spin_lock. krun get_complist_run; [done|].
  rewrite Hl. by apply upd_complist_run.
Qed.
Lemma complist_spin_unlock_run w a c :
  w_heap w !! a = Some (OComplist c) → cl_lock c = true →
  complist_spin_unlock a w =
    Ok tt (set_heap (<[a := OComplist (cl_with_lock false c)]> (w_heap w)) w).
Proof.
  intros Ha Hl. unfold complist_spin_unlock. krun get_complist_run; [done|].
  rewrite Hl. by apply upd_complist_run.
Qed.
Lemma complist_wake_up_all_run w a c :
  w_heap w !! a = Some (OComplist c) →
  complist_wake_up_all a w =
    Ok tt (set_tasks (wake_tasks (cl_wait_q c) (w_tasks w))
      (set_heap (<[a := OComplist (cl_with_wait_q [] c)]> (w_heap w)) w)).
Proof.
  intros Ha. unfold complist_wake_up_all, wake_up_all. krun get_complist_run; [done|].
  krun (eq_refl : modify _ _ = Ok _ _). by erewrite upd_complist_run.
Qed.

Lemma get_data_run w d : w_data w = Some d → get_data w = Ok d w.
Proof. intros E. unfold get_data. by rewrite E. Qed.
Lemma idr_l_find_run w d id :
  w_data w = Some d → IDR_L_FIND id w = Ok (idr_find (d_comp_lists d) id) w.
Proof. intros E. unfold IDR_L_FIND. kstep. done. Qed.
End complist_runs.

Section complist_specs.
Context `{KO : KernelOps, LO : !ListOps lnode, LL : !ListLaws lnode}.
Implicit Types (w : world) (c : ums_complist) (L : forest lnode).

(** The list operation chosen by flags, on sequences. *)
Lemma add_flags_run w L flags hd tl n h l :
  forest_ok (w_lm w) L → L !! h = Some l → free_node L n → n ≠ h →
  is_Some (w_lm w !! n) →
  ∃ m', (if decide (Z.land flags hd ≠ 0) then lm_run (k_list_add n h)
         else if decide (Z.land flags tl ≠ 0) then lm_run (k_list_add_tail n h)
         else mret tt) w = Ok tt (set_lm m' w) ∧
    dom m' = dom (w_lm w) ∧ forest_ok m' (list_add_flags flags hd tl n h l L).
Proof.
  intros HL Hh Hn Hne Hlive. unfold list_add_flags. repeat case_decide.
  - destruct (f_add _ L h l n HL Hh Hn Hne Hlive) as (m' & E & ? & ?).
    exists m'. split; [by apply lm_run_run|done].
  - destruct (f_add_tail _ L h l n HL Hh Hn Hne Hlive) as (m' & E & ? & ?).
    exists m'. split; [by apply lm_run_run|done].
  - exists (w_lm w). by destruct w.
Qed.

Lemma ums_completion_list_add_run w L a c l ctx flags :
  w_heap w !! a = Some (OComplist c) → cl_lock c = false →
  forest_ok (w_lm w) L → L !! ClHead a = Some l →
  free_node L (CtxList ctx) → is_Some (w_lm w !! CtxList ctx) →
  ∃ m', ums_completion_list_add a ctx flags w =
      Ok tt (set_lm m' (set_tasks (wake_tasks (cl_wait_q c) (w_tasks w))
        (set_heap (<[a := OComplist (cl_with_wait_q [] c)]> (w_heap w)) w))) ∧
    dom m' = dom (w_lm w) ∧
    forest_ok m'
      (list_add_flags flags COMPLIST_ADD_HEAD COMPLIST_ADD_TAIL (CtxList ctx) (ClHead a) l L).
Proof.
  intros Ha Hl HL Hh Hn Hlive. unfold ums_completion_list_add.
  krun complist_spin_lock_run; [done..|].
  edestruct (add_flags_run (set_heap (<[a := OComplist (cl_with_lock true c)]> (w_heap w)) w)
    L flags COMPLIST_ADD_HEAD COMPLIST_ADD_TAIL (CtxList ctx) (ClHead a))
    as (m' & E & Hd & HL'); [done..|].
  exists m'. split; [|done]. rewrite (bind_ok _ _ _ _ _ E).
  krun complist_spin_unlock_run; [kproj; apply lookup_insert_eq|done|].
  erewrite complist_wake_up_all_run by (kproj; apply lookup_insert_eq).
  destruct c; simpl in *; subst. kdone.
Qed.

(** The first member of a list becomes the head of the others. *)
Lemma pop_replace m L h n rest :
  forest_ok m L → L !! h = Some (n :: rest) →
  ∃ m1 m2, k_list_empty h m = Some false ∧ k_list_first h m = Some n ∧
    k_list_del n m = Some m1 ∧ k_list_replace_init h n m1 = Some m2 ∧ dom m2 = dom m ∧
    forest_ok m2 (<[h := []]> (<[n := rest]> L)).
Proof.
  intros HL Hh. pose proof (forest_nodup _ _ _ _ HL Hh) as [Hn _]%NoDup_cons.
  destruct (f_del m L h [] n rest HL Hh) as (m1 & E1 & D1 & HL1).
  destruct (f_replace_init m1 (<[h := rest]> L) h rest n) as (m2 & E2 & D2 & HL2).
  - done.
  - apply lookup_insert_eq.
  - exact (free_after_del m L h [] n rest HL Hh).
  - set_solver.
  - rewrite <- elem_of_dom, D1, elem_of_dom. eapply forest_live; [done..|]. set_solver.
  - exists m1, m2. split_and!; [|by eapply f_first|done..|congruence|].
    + by rewrite (f_empty _ _ _ _ HL Hh).
    + rewrite (insert_insert_ne _ n h), insert_insert_eq in HL2 by set_solver. done.
Qed.

Lemma dequeue_complist_run w L a c ctx rest :
  w_heap w !! a = Some (OComplist c) → cl_lock c = false →
  forest_ok (w_lm w) L → L !! ClHead a = Some (CtxList ctx :: rest) →
  ∃ m', do_dequeue_ums_complist_context a w = Ok (inr ctx) (set_lm m' w) ∧
    dom m' = dom (w_lm w) ∧
    forest_ok m' (<[ClHead a := []]> (<[CtxList ctx := rest]> L)).
Proof.
  intros Ha Hl HL Hh. destruct (pop_replace _ _ _ _ _ HL Hh) as (m1 & m2 & E0 & E1 & E2 & E3 & ?).
  exists m2. split; [|done]. unfold do_dequeue_ums_complist_context.
  krun complist_spin_lock_run; [done..|]. cbn [dequeue_complist_loop].
  krun lm_get_run; [exact E0|]. cbv iota.
  krun lm_get_run; [exact E1|].
  krun (eq_refl : entry_context (CtxList ctx) _ = Ok _ _).
  krun lm_run_run; [exact E2|]. krun lm_run_run; [exact E3|].
  krun complist_spin_unlock_run; [kproj; apply lookup_insert_eq|done|].
  kproj. rewrite insert_insert_eq, insert_id; [by destruct w|].
  rewrite Ha. destruct c; simpl in *; by subst.
Qed.

(** An empty list: the task is interrupted or goes to sleep on the queue. *)
Definition complist_waiting (a : addr) c w : world :=
  set_blk (w_blk w ++ [w_rcu w])
    (set_heap (<[a := OComplist (cl_with_wait_q (wq_add (w_cur w) (cl_wait_q c)) c)]> (w_heap w)) w).
Definition complist_interrupted (a : addr) c w : world :=
  set_heap (<[a := OComplist (cl_with_wait_q (wq_del (w_cur w) (cl_wait_q c)) c)]> (w_heap w)) w.

Lemma complist_wait_empty_run w L a c t :
  w_heap w !! a = Some (OComplist c) →
  forest_ok (w_lm w) L → L !! ClHead a = Some [] → w_tasks w !! w_cur w = Some t →
  complist_wait a w =
    match signal_pending (w_env w) with
    | (true, e) => Ok (- ERESTARTSYS) (set_env e (complist_interrupted a c w))
    | (false, e) => Sleep (set_env e (set_tasks
        (<[w_cur w := mk_task TASK_INTERRUPTIBLE (t_usage t)]> (w_tasks w))
        (complist_waiting a c w)))
    end.
Proof.
  intros Ha HL Hh Ht. pose proof (f_empty _ _ _ _ HL Hh) as E.
  assert ((e ← lm_get (k_list_empty (ClHead a)); mret (negb e)) w = Ok false w) as Ec.
  { krun lm_get_run; [exact E|]. done. }
  unfold complist_wait. krun (eq_refl : gets w_cur w = Ok _ _).
  destruct (signal_pending (w_env w)) as [[] e] eqn:Es.
  - by erewrite wait_event_signal_run; [|exact Ec|exact Es|by apply upd_complist_run].
  - by erewrite wait_event_sleep_run; [|exact Ec|exact Es|by apply upd_complist_run|].
Qed.

(** The list is empty: an error if a signal is pending, sleep otherwise. *)
Lemma dequeue_complist_empty_run w L a c t :
  w_heap w !! a = Some (OComplist c) → cl_lock c = false →
  forest_ok (w_lm w) L → L !! ClHead a = Some [] → w_tasks w !! w_cur w = Some t →
  do_dequeue_ums_complist_context a w =
    match signal_pending (w_env w) with
    | (true, e) => Ok (inl (- ERESTARTSYS)) (set_env e (complist_interrupted a c w))
    | (false, e) => Sleep (set_env e (set_tasks
        (<[w_cur w := mk_task TASK_INTERRUPTIBLE (t_usage t)]> (w_tasks w))
        (complist_waiting a c w)))
    end.
Proof.
  intros Ha Hl HL Hh Ht. unfold do_dequeue_ums_complist_context.
  krun complist_spin_lock_run; [done..|]. cbn [dequeue_complist_loop].
  pose proof (f_empty _ _ _ _ HL Hh) as E. krun lm_get_run; [exact E|].
  rewrite bool_decide_true by done.
  krun complist_spin_unlock_run; [kproj; apply lookup_insert_eq|done|]. kproj.
  rewrite insert_insert_eq, insert_id by (rewrite Ha; destruct c; simpl in *; by subst).
  replace (set_heap (w_heap w) (set_heap _ w)) with w by (by destruct w).
  pose proof (complist_wait_empty_run w L a c t Ha HL Hh Ht) as Ew.
  destruct (signal_pending (w_env w)) as [[] e] eqn:Es.
  - by rewrite (bind_ok _ _ _ _ _ Ew).
  - by apply bind_sleep.
Qed.
End complist_specs.

Section resume.
Context `{KO : KernelOps, LO : !ListOps lnode, LL : !ListLaws lnode}.
Implicit Types (w : world) (c : ums_complist) (L : forest lnode).

(** A task that is woken up and finds a context dequeues it, and its entry
    leaves the wait queue. *)
Lemma resume_dequeue_run w L a c ctx rest :
  w_heap w !! a = Some (OComplist c) → cl_lock c = false →
  forest_ok (w_lm w) L → L !! ClHead a = Some (CtxList ctx :: rest) →
  ∃ m', resume_dequeue_ums_complist_context a w =
      Ok (inr ctx) (set_lm m' (set_heap
        (<[a := OComplist (cl_with_wait_q (wq_del (w_cur w) (cl_wait_q c)) c)]> (w_heap w)) w)) ∧
    dom m' = dom (w_lm w) ∧
    forest_ok m' (<[ClHead a := []]> (<[CtxList ctx := rest]> L)).
Proof.
  intros Ha Hl HL Hh. unfold resume_dequeue_ums_complist_context, complist_wait.
  set (w1 := set_heap (<[a := OComplist (cl_with_wait_q (wq_del (w_cur w) (cl_wait_q c)) c)]>
    (w_heap w)) w).
  assert (complist_wait a w = Ok 0 w1) as E.
  { unfold complist_wait. krun (eq_refl : gets w_cur w = Ok _ _). apply wait_event_true_run.
    - krun lm_get_run; [exact (f_empty _ _ _ _ HL Hh)|]. by rewrite bool_decide_false.
    - by rewrite (upd_complist_run w a c _ Ha). }
  unfold complist_wait in E. rewrite (bind_ok _ _ _ _ _ E). kzero.
  destruct (dequeue_complist_run w1 L a (cl_with_wait_q (wq_del (w_cur w) (cl_wait_q c)) c) ctx rest)
    as (m' & E' & D & HL'); [apply lookup_insert_eq|done..|].
  exists m'. split; [exact E'|done].
Qed.
End resume.

(** ** Dequeuing *)

(** The list cell of a worker's context. *)
Definition wnode (k : addr) : lnode := CtxList (WorkCtx k).

Section dequeue.
Context `{KO : KernelOps, LO : !ListOps lnode, LL : !ListLaws lnode, KL : !KernelLaws}.
Implicit Types (w : world) (c : ums_complist) (L : forest lnode).

Lemma register_workers_run w s ks :
  (∀ k, k ∈ ks → linkable w s k) →
  ∃ w', register_workers s (wnode <$> ks) w = Ok tt w' ∧ link_step w w'.
Proof.
  revert w. induction ks as [|k ks IH]; intros w Hk; [by exists w|]. cbn.
  krun (eq_refl : entry_context (wnode k) w = Ok _ _).
  krun (eq_refl : container_worker (WorkCtx k) w = Ok _ _).
  destruct (register_worker_step w s k) as (r & w1 & E & _ & S1); [set_solver|].
  rewrite (bind_ok _ _ _ _ _ E).
  destruct (IH w1) as (w2 & E2 & S2).
  { intros k' Hk'. eapply linkable_step; [|done]. set_solver. }
  exists w2. split; [done|by etrans].
Qed.

(** The part of [ums_complist_dqcontext] after the label [register_worker]:
    the context goes back alone. *)
Lemma dqcontext_fail_run w L a c k l n (retval : Z) :
  w_heap w !! a = Some (OComplist c) → cl_lock c = false →
  forest_ok (w_lm w) L → L !! ClHead a = Some [] → L !! wnode k = Some l → w_rcu w = S n →
  ∃ m', (_ ← ums_completion_list_add a (WorkCtx k) COMPLIST_ADD_HEAD;
         _ ← rcu_read_unlock; mret retval : kM Z) w =
      Ok retval (set_rcu n (set_lm m' (set_tasks (wake_tasks (cl_wait_q c) (w_tasks w))
        (set_heap (<[a := OComplist (cl_with_wait_q [] c)]> (w_heap w)) w)))) ∧
    dom m' = dom (w_lm w) ∧
    forest_ok m' (<[ClHead a := [wnode k]]> (delete (wnode k) L)).
Proof.
  intros Ha Hl HL Hh Hk Hn.
  destruct (ums_completion_list_add_run w (delete (wnode k) L) a c [] (WorkCtx k) COMPLIST_ADD_HEAD)
    as (m' & E & D & HL').
  - done.
  - done.
  - by apply forest_delete.
  - by rewrite lookup_delete_ne.
  - intros h r [Hne Hr]%lookup_delete_Some Hin. exfalso.
    refine (proj2 HL (wnode k) l h r (wnode k) Hk Hr Hne _ Hin). set_solver.
  - eapply forest_live; [done|exact Hk|]. set_solver.
  - exists m'. split; [|split; [done|]].
    + rewrite (bind_ok _ _ _ _ _ E). unfold rcu_read_unlock. kred. by rewrite Hn.
    + unfold list_add_flags in HL'. rewrite decide_True in HL' by done.
      by rewrite delete_delete_eq in HL'.
Qed.

(** A context's list cell and pid are those of the world before the links
    were made. *)
Lemma link_step_ctx w w' k y :
  link_step w w' → w_heap w !! k = Some (OWorker y) →
  ctx_at (w_heap w') (WorkCtx k) = Some (wk_context y).
Proof.
  intros (U & _ & _) Hk. destruct (up_to_links_lookup _ _ _ _ U Hk) as (o & Ho & Es).
  apply strip_worker in Es as (y' & -> & Ec & _). simpl. rewrite Ho. by rewrite Ec.
Qed.
Lemma link_step_complist w w' a c :
  link_step w w' → w_heap w !! a = Some (OComplist c) → w_heap w' !! a = Some (OComplist c).
Proof.
  intros (U & _ & _) Ha. destruct (up_to_links_lookup _ _ _ _ U Ha) as (o & Ho & Es).
  destruct o; by simplify_eq/=.
Qed.
Lemma link_step_frame w w' :
  link_step w w' → w_lm w' = w_lm w ∧ w_tasks w' = w_tasks w ∧ w_rcu w' = w_rcu w ∧
    w_out w' = w_out w ∧ w_data w' = w_data w ∧ w_cur w' = w_cur w ∧ w_blk w' = w_blk w ∧
    w_cbs w' = w_cbs w ∧ w_mod w' = w_mod w.
Proof. intros (_ & _ & ->). done. Qed.

(** What a call that dequeued [k] and the contexts after it ends in. *)
Record dq_done w w' (a k : addr) (n : nat) : Prop := {
  dd_lm : w_lm w' = w_lm w;
  dd_heap : up_to_links (w_heap w) (w_heap w');
  dd_rcu : w_rcu w' = n;
  dd_tasks : w_tasks w' = w_tasks w;
  dd_data : w_data w' = w_data w;
  dd_out : ∃ y, w_heap w !! k = Some (OWorker y) ∧
    w_out w' = w_out w ++ [UPid (ctx_pid (wk_context y))];
}.
(** ... and a call that failed after the dequeue. *)
Record dq_failed w w' (L : forest lnode) (a k : addr) c (n : nat) : Prop := {
  df_lm : forest_ok (w_lm w') (<[ClHead a := [wnode k]]> (delete (wnode k) L));
  df_heap : up_to_links (<[a := OComplist (cl_with_wait_q [] c)]> (w_heap w)) (w_heap w');
  df_rcu : w_rcu w' = n;
  df_tasks : w_tasks w' = wake_tasks (cl_wait_q c) (w_tasks w);
  df_data : w_data w' = w_data w;
  df_out : w_out w' = w_out w;
}.

Lemma dq_fail_step w w1 L a c k l n (retval : Z) :
  link_step w w1 →
  w_heap w !! a = Some (OComplist c) → cl_lock c = false →
  forest_ok (w_lm w) L → L !! ClHead a = Some [] → L !! wnode k = Some l → w_rcu w = S n →
  ∃ w', (_ ← ums_completion_list_add a (WorkCtx k) COMPLIST_ADD_HEAD;
         _ ← rcu_read_unlock; mret retval : kM Z) w1 = Ok retval w' ∧ dq_failed w w' L a k c n.
Proof.
  intros S1 Ha Hl HL Hh Hk Hn.
  destruct (link_step_frame _ _ S1) as (Elm & Et & Er & Eo & Ed & _).
  destruct (dqcontext_fail_run w1 L a c k l n retval) as (m' & E & D & HL');
    [by eapply link_step_complist|done|by rewrite Elm|done..|congruence|].
  eexists. split; [exact E|]. split; kproj; try done; [|congruence].
  destruct S1 as (U & _ & _). unfold up_to_links in *. by rewrite !fmap_insert, U.
Qed.

Lemma dqcontext_return_run w L args a s c k ks n :
  w_heap w !! a = Some (OComplist c) → cl_lock c = false →
  forest_ok (w_lm w) L → L !! ClHead a = Some [] → L !! wnode k = Some (wnode <$> ks) →
  (∀ j, j ∈ k :: ks → linkable w s j) → w_rcu w = S n →
  ∃ r w', dqcontext_return args a s (inr (WorkCtx k)) w = Ok r w' ∧
    ((r = 0 ∧ link_refused w s k = false ∧ u_uncopied args = 0 ∧ dq_done w w' a k n) ∨
     ((r = (if link_refused w s k then - ENOMEM else - EACCES) ∧
       (link_refused w s k = true ∨ u_uncopied args ≠ 0)) ∧ dq_failed w w' L a k c n)).
Proof.
  intros Ha Hl HL Hh Hk Hlink Hn. unfold dqcontext_return. cbv zeta.
  krun (eq_refl : container_worker (WorkCtx k) w = Ok _ _).
  destruct (register_worker_step w s k) as (r & w1 & E1 & Hr & S1); [apply Hlink; set_solver|].
  rewrite (bind_ok _ _ _ _ _ E1).
  assert (∃ y, w_heap w !! k = Some (OWorker y)) as [y Hy].
  { destruct (Hlink k) as (x & y & ? & ? & ? & ? & ? & ?); [set_solver|]. eauto. }
  destruct (link_refused w s k); subst r.
  { rewrite decide_True by done.
    destruct (dq_fail_step w w1 L a c k (wnode <$> ks) n (- ENOMEM)) as (w' & E & Hf); [done..|].
    exists (- ENOMEM), w'. split; [exact E|right; auto]. }
  rewrite decide_False by (by intros []).
  destruct (link_step_frame _ _ S1) as (Elm & _ & Er & _).
  krun lm_get_run; [rewrite Elm; eapply f_nodes; [exact HL|exact Hk]|].
  destruct (register_workers_run w1 s ks) as (w2 & E2 & S2).
  { intros j Hj. eapply linkable_step; [apply Hlink; set_solver|done]. }
  rewrite (bind_ok _ _ _ _ _ E2). assert (link_step w w2) as S3 by by etrans.
  krun get_ctx_run; [by eapply link_step_ctx|]. unfold copy_to_user.
  destruct (decide (u_uncopied args = 0)) as [Hc|Hc].
  - kred. destruct (link_step_frame _ _ S3) as (Elm3 & Et & Er3 & Eo & Ed & _).
    kzero. kproj. rewrite Er3, Hn.
    eexists _, _. split; [done|left; split_and!; [done..|]].
    split; kproj; try done; [by apply S3|]. rewrite Eo. eauto.
  - krun (eq_refl : (mret (u_uncopied args) : kM Z) w2 = Ok _ _). rewrite decide_True by done.
    destruct (dq_fail_step w w2 L a c k (wnode <$> ks) n (- EACCES)) as (w' & E & Hf); [done..|].
    exists (- EACCES), w'. split; [exact E|right; auto].
Qed.

(** The calling scheduler [s] can dequeue the contexts of [k :: ks] from the
    completion list [a] that [args] names. *)
Record dq_ready w L (args : uptr dequeue_ums_complist_args) (a s : addr) c (ks : list addr) :
    Prop := {
  dr_args : ∃ v d, u_val args = Some v ∧ w_data w = Some d ∧
    idr_find (d_comp_lists d) (dq_ums_complist v) = Some a ∧
    rhashtable_lookup_fast (d_schedulers d) (w_cur w) = Some s;
  dr_complist : w_heap w !! a = Some (OComplist c);
  dr_unlocked : cl_lock c = false;
  dr_lists : forest_ok (w_lm w) L;
  dr_queue : L !! ClHead a = Some (wnode <$> ks);
  dr_links : ∀ j, j ∈ ks → linkable w s j;
}.

(** The prefix of the call, up to the dequeue. *)
Lemma dqcontext_prefix w L args a s c ks :
  dq_ready w L args a s c ks →
  ums_complist_dqcontext args w =
    (r ← do_dequeue_ums_complist_context a; dqcontext_return args a s r)
      (set_rcu (S (w_rcu w)) w).
Proof.
  intros [(v & d & Hv & Hd & Ha & Hs) _ _ _ _ _]. unfold ums_complist_dqcontext.
  krun (eq_refl : copy_from_user args w = Ok _ _). rewrite Hv.
  krun (eq_refl : rcu_read_lock w = Ok _ _).
  krun (idr_l_find_run (set_rcu (S (w_rcu w)) w) d _ Hd). rewrite Ha. unfold current_context_pid.
  krun (eq_refl : gets w_cur (set_rcu (S (w_rcu w)) w) = Ok _ _).
  krun (get_data_run (set_rcu (S (w_rcu w)) w) d Hd). kproj. by rewrite Hs.
Qed.

Lemma dqcontext_run w L args a s c k ks :
  dq_ready w L args a s c (k :: ks) →
  ∃ r w', ums_complist_dqcontext args w = Ok r w' ∧ w_rcu w' = w_rcu w ∧
    w_data w' = w_data w ∧
    ((r = 0 ∧ link_refused w s k = false ∧ u_uncopied args = 0 ∧
      forest_ok (w_lm w') (<[ClHead a := []]> (<[wnode k := wnode <$> ks]> L)) ∧
      up_to_links (w_heap w) (w_heap w') ∧ w_tasks w' = w_tasks w ∧
      ∃ y, w_heap w !! k = Some (OWorker y) ∧
        w_out w' = w_out w ++ [UPid (ctx_pid (wk_context y))]) ∨
     ((r = (if link_refused w s k then - ENOMEM else - EACCES) ∧
       (link_refused w s k = true ∨ u_uncopied args ≠ 0)) ∧
      forest_ok (w_lm w') (<[ClHead a := [wnode k]]> (delete (wnode k) L)) ∧
      up_to_links (<[a := OComplist (cl_with_wait_q [] c)]> (w_heap w)) (w_heap w') ∧
      w_tasks w' = wake_tasks (cl_wait_q c) (w_tasks w) ∧ w_out w' = w_out w)).
Proof.
  intros HR. rewrite (dqcontext_prefix _ _ _ _ _ _ _ HR). destruct HR as [_ Ha Hl HL Hq Hlk].
  destruct (dequeue_complist_run (set_rcu (S (w_rcu w)) w) L a c (WorkCtx k) (wnode <$> ks))
    as (m' & E & D & HL'); [done..|]. rewrite (bind_ok _ _ _ _ _ E).
  destruct (dqcontext_return_run (set_lm m' (set_rcu (S (w_rcu w)) w))
    (<[ClHead a := []]> (<[wnode k := wnode <$> ks]> L)) args a s c k ks (w_rcu w))
    as (r & w' & E' & Hcase); [done|done|exact HL'|apply lookup_insert_eq| |exact Hlk|done|].
  { rewrite lookup_insert_ne by done. apply lookup_insert_eq. }
  exists r, w'. rewrite E'. split; [done|].
  change (link_refused (set_lm m' (set_rcu (S (w_rcu w)) w)) s k) with (link_refused w s k) in Hcase.
  destruct Hcase as [(? & ? & ? & [? ? ? ? ? ?])|(? & [Hf ? ? ? ? ?])].
  - split_and!; [done..|]. left. rewrite dd_lm0. done.
  - split_and!; [done..|]. right. split; [done|].
    rewrite delete_insert_ne, delete_insert_eq, insert_insert_eq in Hf by done. done.
Qed.

(** [ums_complist_next_context] on a non-empty and on an empty list. *)
Lemma next_context_run w L d (args : uptr ums_next_context_list_args) v k j js y :
  u_val args = Some v → w_data w = Some d →
  rhashtable_lookup_fast (d_workers d) (nx_ums_context v) = Some k →
  forest_ok (w_lm w) L → L !! wnode k = Some (wnode <$> j :: js) →
  w_heap w !! j = Some (OWorker y) → u_uncopied args = 0 →
  ∃ m', ums_complist_next_context args w =
      Ok 0 (set_out (w_out w ++ [UPid (ctx_pid (wk_context y))]) (set_lm m' w)) ∧
    dom m' = dom (w_lm w) ∧
    forest_ok m' (<[wnode k := []]> (<[wnode j := wnode <$> js]> L)).
Proof.
  intros Hv Hd Hk HL Hh Hy Hc.
  destruct (pop_replace _ _ _ _ _ HL Hh) as (m1 & m2 & E0 & E1 & E2 & E3 & ?).
  exists m2. split; [|done]. unfold ums_complist_next_context.
  krun (eq_refl : copy_from_user args w = Ok _ _). rewrite Hv.
  krun (eq_refl : rcu_read_lock w = Ok _ _).
  krun (get_data_run (set_rcu (S (w_rcu w)) w) d Hd). rewrite Hk. fold (wnode k).
  krun lm_get_run; [exact E0|]. cbv iota. krun lm_get_run; [exact E1|].
  krun (eq_refl : entry_context (wnode j) _ = Ok _ _).
  krun lm_run_run; [exact E2|]. krun lm_run_run; [exact E3|].
  krun get_ctx_run; [kproj; simpl; by rewrite Hy|]. unfold copy_to_user. rewrite decide_True by done.
  kred. kzero. by destruct w.
Qed.

Lemma next_context_empty_run w L d (args : uptr ums_next_context_list_args) v k :
  u_val args = Some v → w_data w = Some d →
  rhashtable_lookup_fast (d_workers d) (nx_ums_context v) = Some k →
  forest_ok (w_lm w) L → L !! wnode k = Some [] → u_uncopied args = 0 →
  ums_complist_next_context args w = Ok 0 (set_out (w_out w ++ [UPid (-1)]) w).
Proof.
  intros Hv Hd Hk HL Hh Hc. pose proof (f_empty _ _ _ _ HL Hh) as E0.
  unfold ums_complist_next_context.
  krun (eq_refl : copy_from_user args w = Ok _ _). rewrite Hv.
  krun (eq_refl : rcu_read_lock w = Ok _ _).
  krun (get_data_run (set_rcu (S (w_rcu w)) w) d Hd). rewrite Hk. fold (wnode k).
  krun lm_get_run; [exact E0|]. rewrite bool_decide_true by done.
  unfold copy_to_user. rewrite decide_True by done. kred.
  kzero. by destruct w.
Qed.
End dequeue.

(** ** Draining a dequeued list *)

Section drain.
Context `{KO : KernelOps, LO : !ListOps lnode, LL : !ListLaws lnode, KL : !KernelLaws}.
Implicit Types (w : world) (L : forest lnode).

(** The calls a scheduler makes after a dequeue: the next context of each
    context it was given. *)
Fixpoint next_calls (pids : list pid_t) : kM unit :=
  match pids with
  | [] => mret tt
  | p :: pids =>
      _ ← ums_complist_next_context (mk_uptr (Some (mk_next_args p 0)) 0); next_calls pids
  end.

(** [pid] gives the pids of the workers [ks], and the table finds them. *)
Definition pids_ok (pid : addr → pid_t) (h : gmap addr kobj) (d : ums_data) (ks : list addr) :
    Prop :=
  ∀ j, j ∈ ks → rhashtable_lookup_fast (d_workers d) (pid j) = Some j ∧
    ∃ y, h !! j = Some (OWorker y) ∧ ctx_pid (wk_context y) = pid j.

Definition emptied (ks : list addr) L : forest lnode :=
  foldr (λ j, <[wnode j := []]>) L ks.

Lemma emptied_insert ks k l L :
  k ∉ ks → <[wnode k := l]> (emptied ks L) = emptied ks (<[wnode k := l]> L).
Proof.
  induction ks as [|j ks IH]; simpl; intros Hn; [done|].
  rewrite <- IH by set_solver. apply insert_insert_ne. intros [= ->]. set_solver.
Qed.
Lemma emptied_shadow ks k l L : k ∈ ks → emptied ks (<[wnode k := l]> L) = emptied ks L.
Proof.
  induction ks as [|j ks IH]; simpl; intros Hin; [set_solver|].
  destruct (decide (k ∈ ks)) as [Hk|Hk]; [by rewrite IH|].
  assert (k = j) as -> by set_solver. by rewrite <- emptied_insert, insert_insert_eq.
Qed.

Lemma next_calls_run pid d ks k w L :
  w_data w = Some d → forest_ok (w_lm w) L → L !! wnode k = Some (wnode <$> ks) →
  NoDup (k :: ks) → pids_ok pid (w_heap w) d (k :: ks) →
  ∃ m', forest_ok m' (emptied (k :: ks) L) ∧
    next_calls (pid <$> k :: ks) w =
      Ok tt (set_out (w_out w ++ (UPid <$> (pid <$> ks) ++ [-1])) (set_lm m' w)).
Proof.
  revert k w L. induction ks as [|j ks IH]; intros k w L Hd HL Hk Hnd Hp.
  - destruct (Hp k) as [Hlk _]; [set_solver|]. cbn [fmap list_fmap next_calls emptied foldr].
    krun (next_context_empty_run w L d (mk_uptr (Some (mk_next_args (pid k) 0)) 0)); [done..|].
    exists (w_lm w). split; [by rewrite insert_id|by destruct w].
  - destruct (Hp k) as [Hlk _]; [set_solver|]. destruct (Hp j) as [_ (y & Hy & Ey)]; [set_solver|].
    cbn [fmap list_fmap next_calls].
    destruct (next_context_run w L d (mk_uptr (Some (mk_next_args (pid k) 0)) 0)
      (mk_next_args (pid k) 0) k j ks y) as (m1 & E1 & _ & HL1); [done..|].
    rewrite (bind_ok _ _ _ _ _ E1). apply NoDup_cons in Hnd as [Hkn Hnd].
    destruct (IH j (set_out (w_out w ++ [UPid (ctx_pid (wk_context y))]) (set_lm m1 w))
      (<[wnode k := []]> (<[wnode j := wnode <$> ks]> L))) as (m2 & HL2 & E2); [done|done| |done| |].
    { rewrite lookup_insert_ne by (intros [= ->]; set_solver). apply lookup_insert_eq. }
    { intros z Hz. apply Hp. set_solver. }
    exists m2. split.
    + rewrite <- emptied_insert, emptied_shadow in HL2 by set_solver. done.
    + etrans; [exact E2|]. kproj. rewrite Ey, <- (assoc_L (++)). by destruct w.
Qed.
End drain.

(** ** Creation *)

(** The address of the object a list cell is part of. *)
Definition node_addr (n : lnode) : addr :=
  match n with
  | ClHead a | EventQ a | EventList a => a
  | CtxList (SchedCtx a) | CtxList (WorkCtx a) => a
  end.

Section create.
Context `{KO : KernelOps, LO : !ListOps lnode, LL : !ListLaws lnode, KL : !KernelLaws}.
Implicit Types (w : world) (c : ums_complist) (L : forest lnode).

(** List cells are parts of live objects. *)
Definition cells_owned w : Prop :=
  ∀ n, is_Some (w_lm w !! n) → is_Some (w_heap w !! node_addr n).

(** A new cell is in no list. *)
Lemma fresh_cell_free w L n :
  cells_owned w → forest_ok (w_lm w) L → w_heap w !! node_addr n = None →
  w_lm w !! n = None ∧ ∀ h l, L !! h = Some l → n ∉ h :: l.
Proof.
  intros Ho HL Hn. assert (w_lm w !! n = None) as E.
  { destruct (w_lm w !! n) eqn:E; [|done]. destruct (Ho n); [eauto|congruence]. }
  split; [done|]. intros h l Hh Hin. destruct (forest_live _ _ _ _ _ HL Hh Hin). congruence.
Qed.

(** ... and writing it changes no list. *)
Lemma forest_other_cell m m' L n :
  forest_ok m L → (∀ h l, L !! h = Some l → n ∉ h :: l) →
  (∀ y, y ≠ n → m' !! y = m !! y) → forest_ok m' L.
Proof.
  intros HL Hn Ha. eapply forest_agree; [done|]. intros h l y Hh Hy. apply Ha.
  intros ->. by apply (Hn h l).
Qed.

Lemma idr_l_alloc_run w d a r i e :
  w_data w = Some d → idr_alloc a 1 (-1) (d_comp_lists d) (w_env w) = (r, i, e) →
  IDR_L_ALLOC a w = Ok r (set_env e (set_data (Some (d_with_comp_lists i d)) w)).
Proof.
  intros Hd Hi. unfold IDR_L_ALLOC. krun (get_data_run w d Hd). unfold call_env. kred.
  by rewrite Hi.
Qed.

Lemma complist_init_run w d a c m r i e :
  w_data w = Some d → w_heap w !! a = Some (OComplist c) →
  idr_alloc a 1 (-1) (d_comp_lists d) (w_env w) = (r, i, e) → r ≠ 0 →
  k_INIT_LIST_HEAD (ClHead a) (w_lm w) = Some m →
  ums_complist_init a w = Ok 0 (set_env e (set_lm m
    (set_data (Some (d_with_comp_lists i d))
      (set_heap (<[a := OComplist (mk_complist r false [] 1)]> (w_heap w)) w)))).
Proof.
  intros Hd Ha Hi Hr Hm. unfold ums_complist_init. krun (idr_l_alloc_run w d a r i e Hd Hi).
  rewrite decide_False by done. krun upd_complist_run; [exact Ha|].
  krun upd_complist_run; [kproj; apply lookup_insert_eq|].
  krun lm_run_run; [exact Hm|]. krun upd_complist_run; [kproj; apply lookup_insert_eq|].
  krun upd_complist_run; [kproj; apply lookup_insert_eq|]. kdone.
Qed.

(** The two outcomes of [create_ums_complist] after a successful
    allocation, for the value [r] that [idr_alloc] returned. *)
Lemma create_run w L d (id : uptr Z) a e1 r i e2 :
  w_data w = Some d → cells_owned w → forest_ok (w_lm w) L →
  kmalloc (dom (w_heap w)) (w_env w) = (Some a, e1) →
  idr_alloc a 1 (-1) (d_comp_lists d) e1 = (r, i, e2) → r ≠ 0 →
  ∃ m, forest_ok m (<[ClHead a := []]> L) ∧ dom m = {[ClHead a]} ∪ dom (w_lm w) ∧
    create_ums_complist id w =
      if decide (u_uncopied id = 0) then
        Ok 0 (set_out (w_out w ++ [UId r]) (set_env e2 (set_lm m
          (set_data (Some (d_with_comp_lists i d))
            (set_heap (<[a := OComplist (mk_complist r false [] 1)]> (w_heap w)) w)))))
      else
        Ok (- EACCES) (set_env e2
          (set_data (Some (d_with_comp_lists (idr_remove r i) d)) w)).
Proof.
  intros Hd Ho HL Hk Hi Hr. apply kmalloc_fresh in Hk as Hf. apply not_elem_of_dom in Hf.
  destruct (fresh_cell_free w L (ClHead a) Ho HL Hf) as [Hc Hn].
  set (m0 := <[ClHead a := zero_cell]> (w_lm w)).
  destruct (law_init m0 (ClHead a)) as (m & Em & [Dm Hm] & Hl).
  { unfold m0. rewrite lookup_insert_eq. by eexists. }
  assert (∀ y, y ≠ ClHead a → m !! y = w_lm w !! y) as Hy.
  { intros y Hne. rewrite Hm by set_solver. unfold m0. by rewrite lookup_insert_ne. }
  exists m. split_and!.
  - apply forest_add_list; [by eapply forest_other_cell|done|].
    intros k l y Hk' _ Hin Hy'. apply (Hn k l Hk'). set_solver.
  - rewrite Dm. unfold m0. apply dom_insert_L.
  - unfold create_ums_complist, alloc_ums_complist.
    assert (alloc_obj (OComplist zero_complist) zero_cell w = Ok (Some a) (set_env e1 (set_heap
      (<[a := OComplist zero_complist]> (w_heap w)) (set_lm m0 w)))) as E
      by (unfold alloc_obj; by rewrite Hk).
    rewrite (bind_ok _ _ _ _ _ E). cbv iota.
    krun complist_init_run; [exact Hd|apply lookup_insert_eq|exact Hi|exact Hr|exact Em|].
    kzero. kproj. rewrite insert_insert_eq.
    krun get_complist_run; [kproj; apply lookup_insert_eq|]. unfold copy_to_user.
    case_decide as Hu; kred; [done|]. rewrite decide_True by done.
    unfold ums_complist_deinit, IDR_L_REMOVE, free_ums_complist, kfree. kred.
    rewrite (get_complist_run _ _ _ (lookup_insert_eq _ _ _)). kred. rewrite lookup_insert_eq. kproj.
    cbn [obj_nodes del_nodes foldr cl_id]. rewrite delete_insert_id by done.
    replace (delete (ClHead a) m) with (w_lm w); [done|].
    apply map_eq. intros y. destruct (decide (y = ClHead a)) as [->|Hne].
    + by rewrite lookup_delete_eq.
    + rewrite lookup_delete_ne by done. symmetry. by apply Hy.
Qed.
End create.

(** ** References *)

Section references.
Context `{KO : KernelOps, LO : !ListOps lnode}.
Implicit Types (w : world) (c : ums_complist).

Lemma get_ums_complist_run w a c :
  w_heap w !! a = Some (OComplist c) → 0 < cl_refcount c →
  get_ums_complist a w = Ok a (set_heap
    (<[a := OComplist (cl_with_refcount (cl_refcount c + 1) c)]> (w_heap w)) w).
Proof.
  intros Ha Hr. unfold get_ums_complist, kref_get. krun get_complist_run; [done|].
  rewrite decide_True by done. krun (eq_refl : (mret _ : kM Z) w = Ok _ _).
  by krun upd_complist_run.
Qed.

(** The world after the last reference is dropped. *)
Definition complist_destroyed (a : addr) c d w : world :=
  set_cbs (w_cbs w ++ [CbComplist a])
    (set_data (Some (d_with_comp_lists (idr_remove (cl_id c) (d_comp_lists d)) d))
      (set_tasks (wake_tasks (cl_wait_q c) (w_tasks w))
        (set_heap (<[a := OComplist (mk_complist (cl_id c) (cl_lock c) [] 0)]> (w_heap w)) w))).

Lemma put_ums_complist_run w a c d :
  w_heap w !! a = Some (OComplist c) → 0 < cl_refcount c → w_data w = Some d →
  put_ums_complist a w =
    if decide (cl_refcount c = 1) then Ok 1 (complist_destroyed a c d w)
    else Ok 0 (set_heap
      (<[a := OComplist (cl_with_refcount (cl_refcount c - 1) c)]> (w_heap w)) w).
Proof.
  intros Ha Hr Hd. unfold put_ums_complist, kref_put. krun get_complist_run; [done|].
  rewrite decide_True by done. krun (eq_refl : (mret _ : kM (Z * bool)) w = Ok _ _).
  krun upd_complist_run; [done|]. cbn [fst snd]. destruct (decide (cl_refcount c = 1)) as [E|E].
  - rewrite bool_decide_true by done. unfold ums_complist_release, ums_complist_destroy.
    unfold ums_complist_deinit, IDR_L_REMOVE.
    unfold mbind at 1, kM_bind at 1. unfold mbind at 1, kM_bind at 1. unfold mbind at 1, kM_bind at 1.
    erewrite complist_wake_up_all_run by (kproj; apply lookup_insert_eq). kred.
    erewrite get_complist_run by (kproj; apply lookup_insert_eq). kred. rewrite Hd. kred.
    rewrite insert_insert_eq. unfold complist_destroyed. kproj. rewrite E. done.
  - by rewrite bool_decide_false.
Qed.

(** The world after a reference is dropped, the last one or not. *)
Definition released_list c : ums_complist :=
  if decide (cl_refcount c = 1) then mk_complist (cl_id c) (cl_lock c) [] 0
  else cl_with_refcount (cl_refcount c - 1) c.
Definition released_data c d : ums_data :=
  if decide (cl_refcount c = 1)
  then d_with_comp_lists (idr_remove (cl_id c) (d_comp_lists d)) d else d.
Definition released_tasks c (ts : gmap pid_t task) : gmap pid_t task :=
  if decide (cl_refcount c = 1) then wake_tasks (cl_wait_q c) ts else ts.
Definition released_cbs (a : addr) c (cbs : list rcu_cb) : list rcu_cb :=
  if decide (cl_refcount c = 1) then cbs ++ [CbComplist a] else cbs.

Lemma put_released w a c d :
  w_heap w !! a = Some (OComplist c) → 0 < cl_refcount c → w_data w = Some d →
  ∃ r, put_ums_complist a w = Ok r (set_cbs (released_cbs a c (w_cbs w))
    (set_data (Some (released_data c d)) (set_tasks (released_tasks c (w_tasks w))
      (set_heap (<[a := OComplist (released_list c)]> (w_heap w)) w)))).
Proof.
  intros Ha Hr Hd. rewrite (put_ums_complist_run w a c d) by done.
  unfold released_cbs, released_data, released_tasks, released_list, complist_destroyed.
  destruct (decide _); eexists; [done|]. destruct w; simpl in *. by rewrite Hd.
Qed.
Lemma released_tasks_lookup c ts p t :
  ts !! p = Some t → ∃ t', released_tasks c ts !! p = Some t' ∧ t_usage t' = t_usage t ∧
    (t_state t = TASK_RUNNING → t_state t' = TASK_RUNNING).
Proof.
  intros Hp. unfold released_tasks. case_decide; [|by exists t].
  rewrite wake_tasks_lookup, Hp. simpl. eexists. split; [done|]. by case_decide.
Qed.

Lemma ums_complist_delete_run w d id :
  w_data w = Some d →
  ums_complist_delete id w =
    match idr_find (d_comp_lists d) id with
    | None => Ok (- EINVAL) w
    | Some a => (_ ← put_ums_complist a; _ ← rcu_read_unlock; mret 0) (set_rcu (S (w_rcu w)) w)
    end.
Proof.
  intros Hd. unfold ums_complist_delete. krun (eq_refl : rcu_read_lock w = Ok _ _).
  krun (idr_l_find_run (set_rcu (S (w_rcu w)) w) d id Hd).
  destruct (idr_find _ _); [done|]. by destruct w.
Qed.
End references.
