(* ===== verification/IdrOld.v ===== *)
(** * Identifiers before Linux 3.9: the second branch of [idr_l.h]

    [IDR_L_ALLOC] is written for two interfaces of the kernel's idr.  [Complist]
    has the current one ([idr_alloc]); this is the older one, where memory is
    preloaded by [idr_pre_get], outside of the lock, and [idr_get_new] fails
    with -EAGAIN if other tasks have used it up, upon which the macro tries
    again.

    [fuel] bounds the attempts.  The theorem gives an amount that is enough:
    the number of times others still get in between. *)
From S2P Require Import Prelude ListHead Kernel Uapi State Prims Context Complist.
From stdpp Require Import prelude gmap.

Local Open Scope Z_scope.

(** The old interface, and its documentation: "idr_pre_get: returns 0 if out of
    memory; 1 otherwise", "idr_get_new: if allocation from IDR's private
    freelist fails, -EAGAIN; if the idr is full -ENOSPC; @id: 0 ..
    0x7fffffff".  [rivals] is how often preloaded memory will be taken away. *)
Class OldIdrOps `{KO : KernelOps} := {
  idr_pre_get : kenv → bool * kenv;
  idr_get_new : addr → idr → kenv → Z * Z * idr * kenv;
}.
Class OldIdrLaws `{OI : OldIdrOps} := {
  rivals : kenv → nat;
  idr_pre_get_rivals e r e' : idr_pre_get e = (r, e') → (rivals e' ≤ rivals e)%nat;
  idr_get_new_spec p i e r id i' e' :
    idr_get_new p i e = (r, id, i', e') →
    r = - EAGAIN ∧ idr_ents i' = idr_ents i ∧ (rivals e' < rivals e)%nat ∨
    r = - ENOSPC ∧ idr_ents i' = idr_ents i ∨
    r = 0 ∧ 0 ≤ id ≤ 2 ^ 31 - 1 ∧ idr_ents i !! id = None ∧ idr_ents i' = <[id := p]> (idr_ents i);
}.

Section old.
Context `{KO : KernelOps, OI : !OldIdrOps, LO : !ListOps lnode}.

Fixpoint IDR_L_ALLOC_old (fuel : nat) (ptr : addr) : kM Z :=
  match fuel with
  | O => raise NoFuel
  | S fuel =>
      d ← get_data;
      loaded ← call_env idr_pre_get;
      if negb loaded then mret (- ENOMEM) else
      r ← call_env (λ e, let '(r, id, i, e) := idr_get_new ptr (d_comp_lists d) e in ((r, id, i), e));
      let '(retval, id, i) := r in
      _ ← put_data (d_with_comp_lists i d);
      if decide (retval = - EAGAIN) then IDR_L_ALLOC_old fuel ptr else
      mret (if decide (retval ≠ 0) then retval else id)
  end.

(** The old branch keeps the promise of the current one, for as many attempts as
    the other tasks force: an error and an unchanged table, or a fresh id; but
    ids start at 0, where the current one starts at 1. *)
Theorem old_alloc_spec `{OL : !OldIdrLaws} fuel ptr d w :
  w_data w = Some d → (rivals (w_env w) < fuel)%nat →
  ∃ r i e, IDR_L_ALLOC_old fuel ptr w = Ok r (set_env e (set_data (Some (d_with_comp_lists i d)) w)) ∧
    ((r = - ENOMEM ∨ r = - ENOSPC) ∧ idr_ents i = idr_ents (d_comp_lists d) ∨
     0 ≤ r ≤ 2 ^ 31 - 1 ∧ idr_ents (d_comp_lists d) !! r = None ∧
       idr_ents i = <[r := ptr]> (idr_ents (d_comp_lists d))).
Proof.
  revert w d. induction fuel as [|fuel IH]; intros w d Hd Hf; [lia|].
  cbn [IDR_L_ALLOC_old]. krun (get_data_run w d Hd). unfold call_env. kred.
  destruct (idr_pre_get (w_env w)) as [loaded e1] eqn:E1. apply idr_pre_get_rivals in E1. kred.
  destruct loaded; cbn [negb].
  2: { exists (- ENOMEM), (d_comp_lists d), e1. split; [|left; auto].
       destruct w, d. cbn in *. by subst. }
  kred. destruct (idr_get_new ptr (d_comp_lists d) e1) as [[[r id] i] e2] eqn:E2.
  apply idr_get_new_spec in E2. unfold put_data. kred.
  destruct E2 as [(-> & Ei & Hr)|[(-> & Ei)|(-> & Hid & Hn & Ei)]].
  - rewrite decide_True by done.
    destruct (IH (set_data (Some (d_with_comp_lists i d)) (set_env e2 (set_env e1 w)))
      (d_with_comp_lists i d)) as (r' & i' & e' & E & Hc); [done|cbn; lia|].
    exists r', i', e'. split; [rewrite E; by destruct w, d|].
    cbn in Hc. by rewrite Ei in Hc.
  - exists (- ENOSPC), i, e2. split; [by destruct w, d|]. auto.
  - exists id, i, e2. split; [by destruct w, d|]. auto.
Qed.
End old.

(** The laws can hold: the old interface on top of the current one, without
    rivals. *)
Section instance.
Context `{KO : KernelOps, KL : !KernelLaws}.

Definition old_of_new : OldIdrOps := {|
  idr_pre_get e := (true, e);
  idr_get_new p i e :=
    let '(r, i', e') := idr_alloc p 1 (-1) i e in
    if decide (r < 0) then (- ENOSPC, 0, i', e') else (0, r, i', e');
|}.
#[local] Existing Instance old_of_new.
Definition old_of_new_laws : OldIdrLaws.
Proof.
  refine {| rivals := λ _, 0%nat |}.
  - by intros e r e' [= _ <-].
  - intros p i e r id i' e' E. cbn in E.
    destruct (idr_alloc p 1 (-1) i e) as [[r0 i0] e0] eqn:Ea.
    apply idr_alloc_spec in Ea; [|lia|lia].
    case_decide; injection E as <- <- <- <-; right; [left|right].
    + split; [done|]. destruct Ea as [[_ ?]|[? _]]; [done|lia].
    + destruct Ea as [[[-> | ->] _]|(? & ? & ?)]; [done|done|]. split_and!; [done|lia|lia|done|done].
Defined.
End instance.
