(* ===== verification/Scheduler.v ===== *)
(** * Schedulers: [src/src/module/src/scheduler.c]

    A scheduler is a context with a queue of scheduling events; the task that
    entered scheduling mode dequeues the events and runs the contexts of its
    completion list. *)
From S2P Require Import Prelude ListHead ListSpec Kernel Uapi State Prims Context Proc Complist.
From stdpp Require Import prelude gmap.

Local Open Scope Z_scope.

Definition EVENT_ADD_HEAD : Z := 1.
Definition EVENT_ADD_TAIL : Z := 2.

Definition sc_with_complist v s :=
  mk_scheduler (sc_context s) v (sc_lock s) (sc_wait_q s) (sc_dirs s).
Definition sc_with_lock v s :=
  mk_scheduler (sc_context s) (sc_complist s) v (sc_wait_q s) (sc_dirs s).
Definition sc_with_wait_q v s :=
  mk_scheduler (sc_context s) (sc_complist s) (sc_lock s) v (sc_dirs s).

Section scheduler.
Context `{KO : KernelOps, LO : !ListOps lnode}.

Definition d_with_schedulers (v : rhashtable) (d : ums_data) : ums_data :=
  mk_data (d_addr d) (d_comp_lists d) v (d_workers d) (d_dirs d).

Definition sched_spin_lock (a : addr) : kM unit :=
  s ← get_sched a;
  if sc_lock s then raise LockHeld else upd_sched a (sc_with_lock true).
Definition sched_spin_unlock (a : addr) : kM unit :=
  s ← get_sched a;
  if sc_lock s then upd_sched a (sc_with_lock false) else raise LockNotHeld.
Definition sched_wake_up_all (a : addr) : kM unit :=
  s ← get_sched a;
  _ ← wake_up_all (sc_wait_q s);
  upd_sched a (sc_with_wait_q []).
(** [wait_event_interruptible(scheduler->sched_wait_q, !list_empty(&scheduler->event_q))] *)
Definition sched_wait (a : addr) : kM Z :=
  p ← gets w_cur;
  wait_event_interruptible
    (upd_sched a (λ s, sc_with_wait_q (wq_add p (sc_wait_q s)) s))
    (upd_sched a (λ s, sc_with_wait_q (wq_del p (sc_wait_q s)) s))
    (e ← lm_get (k_list_empty (EventQ a)); mret (negb e)).

(** ** The cache of events *)

Definition set_event_cache (v : bool) : kM unit :=
  modify (λ w, set_mod (mk_mod v (g_proc_base_dir (w_mod w))
    (g_proc_base_dir_path_len (w_mod w)) (g_registered (w_mod w))) w).
Definition ums_scheduling_cache_create : kM Z :=
  c ← call_env kmem_cache_create;
  _ ← set_event_cache c;
  mret (if (c : bool) then 0 else - ENOMEM).
Definition ums_scheduling_cache_destroy : kM unit := set_event_cache false.

(** [zero_event]: the zeroed event of [kmem_cache_zalloc] *)
Definition zero_event : ums_sched_event := mk_event SCHEDULER_STARTUP zero_params.
Definition with_event_cache {A} (f : kM A) : kM A :=
  g ← gets w_mod; if g_event_cache g then f else raise NullPtr.
Definition alloc_ums_event : kM (option addr) :=
  with_event_cache (alloc_obj (OEvent zero_event) zero_cell).
(** [kmem_cache_free] takes an object of the cache. *)
Definition free_ums_event (e : addr) : kM unit :=
  with_event_cache (_ ← get_event e; kfree e).

(** ** Creation *)

(** The content of memory obtained from [kmalloc]. *)
Definition uninit_context : ums_context :=
  mk_context k_garbage k_garbage k_garbage PUninit k_garbage.
Definition uninit_scheduler : ums_scheduler :=
  mk_scheduler uninit_context PUninit true []
    (mk_sched_dirs PUninit PUninit PUninit k_garbage k_garbage).

Definition alloc_ums_scheduler : kM (option addr) :=
  alloc_obj (OSched uninit_scheduler) uninit_cell.
Definition free_ums_scheduler (a : addr) : kM unit := kfree a.

Definition schedulers_insert (a : addr) : kM Z :=
  s ← get_sched a;
  d ← get_data;
  r ← call_env (λ e, rhashtable_insert_fast (ctx_pid (sc_context s)) a (d_schedulers d) e);
  _ ← put_data (d_with_schedulers r.2 d);
  mret r.1.
Definition schedulers_remove (a : addr) : kM unit :=
  s ← get_sched a;
  d ← get_data;
  put_data (d_with_schedulers
    (rhashtable_remove_fast (ctx_pid (sc_context s)) a (d_schedulers d)) d).

Definition ums_scheduler_init (a : addr) : kM Z :=
  _ ← ums_context_init (SchedCtx a);
  _ ← upd_sched a (sc_with_lock false);
  _ ← lm_run (k_INIT_LIST_HEAD (EventQ a));
  _ ← upd_sched a (sc_with_wait_q []);
  d ← get_data;
  retval ← ums_scheduler_proc_register (d_dirs d) a;
  if decide (retval ≠ 0) then mret retval else
  schedulers_insert a.

Definition ums_scheduler_create : kM (Z + addr) :=
  r ← alloc_ums_scheduler;
  match r with
  | None => mret (inl (- ENOMEM))
  | Some a =>
      retval ← ums_scheduler_init a;
      if decide (retval ≠ 0) then _ ← free_ums_scheduler a; mret (inl retval)
      else mret (inr a)
  end.

(** ** Destruction *)

Definition ums_scheduler_call_rcu (a : addr) : kM unit :=
  _ ← ums_context_deinit (SchedCtx a); free_ums_scheduler a.

(** [list_for_each_entry_safe] of [ums_scheduler_destroy] *)
Fixpoint free_events (ns : list lnode) : kM unit :=
  match ns with
  | [] => mret tt
  | n :: ns =>
      event ← entry_event n;
      _ ← lm_run (k_list_del (EventList event));
      _ ← free_ums_event event;
      free_events ns
  end.

Definition ums_scheduler_destroy (a : addr) : kM unit :=
  _ ← sched_spin_lock a;
  ns ← lm_get (k_list_nodes (EventQ a));
  _ ← free_events ns;
  _ ← sched_spin_unlock a;
  s ← get_sched a;
  complist ← deref (sc_complist s);
  _ ← put_ums_complist complist;
  _ ← ums_scheduler_proc_unregister a;
  _ ← schedulers_remove a;
  call_rcu (CbSched a).

(** ** Events *)

Definition enqueue_ums_sched_event (a : addr) (event : addr) (flags : Z) : kM unit :=
  _ ← sched_spin_lock a;
  _ ← (if decide (Z.land flags EVENT_ADD_HEAD ≠ 0) then
         lm_run (k_list_add (EventList event) (EventQ a))
       else if decide (Z.land flags EVENT_ADD_TAIL ≠ 0) then
         lm_run (k_list_add_tail (EventList event) (EventQ a))
       else mret tt);
  _ ← sched_spin_unlock a;
  sched_wake_up_all a.

Definition enter_ums_scheduler_mode (args : enter_ums_mode_args) : kM Z :=
  r ← ums_scheduler_create;
  match r with
  | inl retval => mret retval
  | inr scheduler =>
      let complist_find retval :=
        _ ← rcu_read_unlock; _ ← ums_scheduler_destroy scheduler; mret retval in
      _ ← rcu_read_lock;
      complist ← IDR_L_FIND (ea_ums_complist args);
      match complist with
      | None => complist_find (- EINVAL)
      | Some complist =>
          _ ← get_ums_complist complist;
          _ ← rcu_read_unlock;
          _ ← upd_sched scheduler (sc_with_complist (Ptr complist));
          startup_event ← alloc_ums_event;
          match startup_event with
          | None => complist_find (- ENOMEM)
          | Some e =>
              ev ← get_event e;
              _ ← put_obj e (OEvent (mk_event SCHEDULER_STARTUP (ev_params ev)));
              _ ← enqueue_ums_sched_event scheduler e EVENT_ADD_TAIL;
              mret 0
          end
      end
  end.

(** The loop and what follows it; an error is [inl] (an [ERR_PTR]). *)
Fixpoint dequeue_event_loop (fuel : nat) (a : addr) : kM (Z + addr) :=
  match fuel with
  | O => raise NoFuel
  | S fuel =>
      e ← lm_get (k_list_empty (EventQ a));
      if (e : bool) then
        _ ← sched_spin_unlock a;
        r ← sched_wait a;
        if decide (r ≠ 0) then mret (inl (- ERESTARTSYS)) else
        _ ← sched_spin_lock a;
        dequeue_event_loop fuel a
      else
        n ← lm_get (k_list_first (EventQ a));
        event ← entry_event n;
        _ ← lm_run (k_list_del (EventList event));
        _ ← sched_spin_unlock a;
        mret (inr event)
  end.

Definition do_dequeue_ums_sched_event (a : addr) : kM (Z + addr) :=
  _ ← sched_spin_lock a; dequeue_event_loop 2 a.
(** the same call, from the point where the task sleeps *)
Definition resume_dequeue_ums_sched_event (a : addr) : kM (Z + addr) :=
  r ← sched_wait a;
  if decide (r ≠ 0) then mret (inl (- ERESTARTSYS)) else
  _ ← sched_spin_lock a; dequeue_event_loop 2 a.

(** The code after the call of [do_dequeue_ums_sched_event]. *)
Definition dqevent_return (args : uptr ums_sched_event) (scheduler : addr) (r : Z + addr) :
    kM Z :=
  match r with
  | inl retval => _ ← rcu_read_unlock; mret retval
  | inr e =>
      ev ← get_event e;
      retval ← copy_to_user args (UEvent ev);
      if decide (retval ≠ 0) then
        _ ← enqueue_ums_sched_event scheduler e EVENT_ADD_HEAD;
        _ ← rcu_read_unlock;
        mret (- EACCES)
      else
        _ ← rcu_read_unlock;
        _ ← free_ums_event e;
        mret 0
  end.

Definition ums_sched_dqevent (args : uptr ums_sched_event) : kM Z :=
  context_pid ← current_context_pid;
  _ ← rcu_read_lock;
  d ← get_data;
  match rhashtable_lookup_fast (d_schedulers d) context_pid with
  | None => _ ← rcu_read_unlock; mret (- ESRCH)
  | Some scheduler =>
      r ← do_dequeue_ums_sched_event scheduler;
      dqevent_return args scheduler r
  end.
(** the same call, from the point where the task sleeps *)
Definition resume_dqevent (args : uptr ums_sched_event) (scheduler : addr) : kM Z :=
  r ← resume_dequeue_ums_sched_event scheduler;
  dqevent_return args scheduler r.

(** ** Running a worker *)

Definition exec_ums_context (worker_pid : pid_t) : kM Z :=
  _ ← rcu_read_lock;
  d ← get_data;
  match rhashtable_lookup_fast (d_workers d) worker_pid with
  | None => _ ← rcu_read_unlock; mret (- ESRCH)
  | Some worker =>
      context_pid ← current_context_pid;
      match rhashtable_lookup_fast (d_schedulers d) context_pid with
      | None => _ ← rcu_read_unlock; mret (- ESRCH)
      | Some scheduler =>
          _ ← ums_scheduler_proc_unregister_worker scheduler worker;
          _ ← prepare_switch_context (SchedCtx scheduler) (WorkCtx worker);
          _ ← rcu_read_unlock;
          _ ← schedule;
          mret 0
      end
  end.
End scheduler.

(** ** Behaviour of the operations *)

Section sched_runs.
Context `{KO : KernelOps, LO : !ListOps lnode}.
Implicit Types (w : world) (s : ums_scheduler).

Lemma sched_spin_lock_run w a s :
  w_heap w !! a = Some (OSched s) → sc_lock s = false →
  sched_spin_lock a w = Ok tt (set_heap (<[a := OSched (sc_with_lock true s)]> (w_heap w)) w).
Proof.
  intros Ha Hl. unfold sched_spin_lock. krun get_sched_run; [done|].
  rewrite Hl. by apply upd_sched_run.
Qed.
Lemma sched_spin_unlock_run w a s :
  w_heap w !! a = Some (OSched s) → sc_lock s = true →
  sched_spin_unlock a w = Ok tt (set_heap (<[a := OSched (sc_with_lock false s)]> (w_heap w)) w).
Proof.
  intros Ha Hl. unfold sched_spin_unlock. krun get_sched_run; [done|].
  rewrite Hl. by apply upd_sched_run.
Qed.
Lemma sched_wake_up_all_run w a s :
  w_heap w !! a = Some (OSched s) →
  sched_wake_up_all a w =
    Ok tt (set_tasks (wake_tasks (sc_wait_q s) (w_tasks w))
      (set_heap (<[a := OSched (sc_with_wait_q [] s)]> (w_heap w)) w)).
Proof.
  intros Ha. unfold sched_wake_up_all, wake_up_all. krun get_sched_run; [done|].
  krun (eq_refl : modify _ _ = Ok _ _). by erewrite upd_sched_run.
Qed.

(** Taking and releasing the lock leaves the structure as it was. *)
Lemma sched_relock s : sc_lock s = false → sc_with_lock false (sc_with_lock true s) = s.
Proof. destruct s; simpl. by intros ->. Qed.

Lemma free_ums_event_run w e ev :
  g_event_cache (w_mod w) = true → w_heap w !! e = Some (OEvent ev) →
  free_ums_event e w =
    Ok tt (set_heap (delete e (w_heap w)) (set_lm (delete (EventList e) (w_lm w)) w)).
Proof.
  intros Hg He. unfold free_ums_event, with_event_cache.
  krun (eq_refl : gets w_mod w = Ok _ _). rewrite Hg.
  krun get_event_run; [done|]. unfold kfree. by rewrite He.
Qed.
End sched_runs.

Section sched_specs.
Context `{KO : KernelOps, LO : !ListOps lnode, LL : !ListLaws lnode}.
Implicit Types (w : world) (s : ums_scheduler) (L : forest lnode).

Lemma enqueue_event_run w L a s l e flags :
  w_heap w !! a = Some (OSched s) → sc_lock s = false →
  forest_ok (w_lm w) L → L !! EventQ a = Some l →
  free_node L (EventList e) → is_Some (w_lm w !! EventList e) →
  ∃ m', enqueue_ums_sched_event a e flags w =
      Ok tt (set_lm m' (set_tasks (wake_tasks (sc_wait_q s) (w_tasks w))
        (set_heap (<[a := OSched (sc_with_wait_q [] s)]> (w_heap w)) w))) ∧
    dom m' = dom (w_lm w) ∧
    forest_ok m'
      (list_add_flags flags EVENT_ADD_HEAD EVENT_ADD_TAIL (EventList e) (EventQ a) l L).
Proof.
  intros Ha Hl HL Hh Hn Hlive. unfold enqueue_ums_sched_event.
  krun sched_spin_lock_run; [done..|].
  destruct (add_flags_run (set_heap (<[a := OSched (sc_with_lock true s)]> (w_heap w)) w)
    L flags EVENT_ADD_HEAD EVENT_ADD_TAIL (EventList e) (EventQ a) l)
    as (m' & E & Hd & HL'); [done..|].
  exists m'. split; [|done]. rewrite (bind_ok _ _ _ _ _ E).
  krun sched_spin_unlock_run; [kproj; apply lookup_insert_eq|done|]. rewrite sched_relock by done.
  erewrite sched_wake_up_all_run by (kproj; apply lookup_insert_eq). kdone.
Qed.

Lemma dequeue_event_run w L a s e rest :
  w_heap w !! a = Some (OSched s) → sc_lock s = false →
  forest_ok (w_lm w) L → L !! EventQ a = Some (EventList e :: rest) →
  ∃ m', do_dequeue_ums_sched_event a w = Ok (inr e) (set_lm m' w) ∧
    dom m' = dom (w_lm w) ∧ forest_ok m' (<[EventQ a := rest]> L) ∧
    free_node (<[EventQ a := rest]> L) (EventList e).
Proof.
  intros Ha Hl HL Hh. destruct (f_del _ L (EventQ a) [] (EventList e) rest HL Hh) as (m1 & E2 & D & HL1).
  exists m1. split; [|split_and!; [done..|]].
  2:{ refine (free_after_del _ L _ [] _ rest HL Hh). }
  unfold do_dequeue_ums_sched_event. krun sched_spin_lock_run; [done..|]. cbn [dequeue_event_loop].
  krun lm_get_run; [exact (f_empty _ _ _ _ HL Hh)|]. rewrite bool_decide_false by done.
  krun lm_get_run; [exact (f_first _ _ _ _ _ HL Hh)|].
  krun (eq_refl : entry_event (EventList e) _ = Ok _ _).
  krun lm_run_run; [exact E2|].
  krun sched_spin_unlock_run; [kproj; apply lookup_insert_eq|done|].
  kproj. rewrite sched_relock, insert_insert_eq, insert_id by done. by destruct w.
Qed.

Definition sched_waiting (a : addr) s w : world :=
  set_blk (w_blk w ++ [w_rcu w])
    (set_heap (<[a := OSched (sc_with_wait_q (wq_add (w_cur w) (sc_wait_q s)) s)]> (w_heap w)) w).
Definition sched_interrupted (a : addr) s w : world :=
  set_heap (<[a := OSched (sc_with_wait_q (wq_del (w_cur w) (sc_wait_q s)) s)]> (w_heap w)) w.

Lemma sched_wait_empty_run w L a s t :
  w_heap w !! a = Some (OSched s) →
  forest_ok (w_lm w) L → L !! EventQ a = Some [] → w_tasks w !! w_cur w = Some t →
  sched_wait a w =
    match signal_pending (w_env w) with
    | (true, e) => Ok (- ERESTARTSYS) (set_env e (sched_interrupted a s w))
    | (false, e) => Sleep (set_env e (set_tasks
        (<[w_cur w := mk_task TASK_INTERRUPTIBLE (t_usage t)]> (w_tasks w))
        (sched_waiting a s w)))
    end.
Proof.
  intros Ha HL Hh Ht. pose proof (f_empty _ _ _ _ HL Hh) as E.
  assert ((e ← lm_get (k_list_empty (EventQ a)); mret (negb e)) w = Ok false w) as Ec.
  { krun lm_get_run; [exact E|]. done. }
  unfold sched_wait. krun (eq_refl : gets w_cur w = Ok _ _).
  destruct (signal_pending (w_env w)) as [[] e] eqn:Es.
  - by erewrite wait_event_signal_run; [|exact Ec|exact Es|by apply upd_sched_run].
  - by erewrite wait_event_sleep_run; [|exact Ec|exact Es|by apply upd_sched_run|].
Qed.

Lemma dequeue_event_empty_run w L a s t :
  w_heap w !! a = Some (OSched s) → sc_lock s = false →
  forest_ok (w_lm w) L → L !! EventQ a = Some [] → w_tasks w !! w_cur w = Some t →
  do_dequeue_ums_sched_event a w =
    match signal_pending (w_env w) with
    | (true, e) => Ok (inl (- ERESTARTSYS)) (set_env e (sched_interrupted a s w))
    | (false, e) => Sleep (set_env e (set_tasks
        (<[w_cur w := mk_task TASK_INTERRUPTIBLE (t_usage t)]> (w_tasks w))
        (sched_waiting a s w)))
    end.
Proof.
  intros Ha Hl HL Hh Ht. unfold do_dequeue_ums_sched_event.
  krun sched_spin_lock_run; [done..|]. cbn [dequeue_event_loop].
  krun lm_get_run; [exact (f_empty _ _ _ _ HL Hh)|]. rewrite bool_decide_true by done.
  krun sched_spin_unlock_run; [kproj; apply lookup_insert_eq|done|]. kproj.
  rewrite sched_relock, insert_insert_eq, insert_id by done.
  replace (set_heap (w_heap w) (set_heap _ w)) with w by (by destruct w).
  pose proof (sched_wait_empty_run w L a s t Ha HL Hh Ht) as Ew.
  destruct (signal_pending (w_env w)) as [[] e] eqn:Es.
  - by rewrite (bind_ok _ _ _ _ _ Ew).
  - by apply bind_sleep.
Qed.

(** A task that is woken up and finds an event dequeues it, and its entry
    leaves the wait queue. *)
Lemma resume_dequeue_event_run w L a s e rest :
  w_heap w !! a = Some (OSched s) → sc_lock s = false →
  forest_ok (w_lm w) L → L !! EventQ a = Some (EventList e :: rest) →
  ∃ m', resume_dequeue_ums_sched_event a w = Ok (inr e) (set_lm m' (sched_interrupted a s w)) ∧
    dom m' = dom (w_lm w) ∧ forest_ok m' (<[EventQ a := rest]> L).
Proof.
  intros Ha Hl HL Hh. unfold resume_dequeue_ums_sched_event.
  assert (sched_wait a w = Ok 0 (sched_interrupted a s w)) as E.
  { unfold sched_wait. krun (eq_refl : gets w_cur w = Ok _ _). apply wait_event_true_run.
    - krun lm_get_run; [exact (f_empty _ _ _ _ HL Hh)|]. by rewrite bool_decide_false.
    - by rewrite (upd_sched_run w a s _ Ha). }
  rewrite (bind_ok _ _ _ _ _ E). kzero.
  destruct (dequeue_event_run (sched_interrupted a s w) L a
    (sc_with_wait_q (wq_del (w_cur w) (sc_wait_q s)) s) e rest) as (m' & E' & D & HL' & _);
    [apply lookup_insert_eq|done..|].
  exists m'. split; [exact E'|done].
Qed.

(** ** [ums_sched_dqevent] *)

Lemma dqevent_prefix w d args :
  w_data w = Some d →
  ums_sched_dqevent args w =
    match rhashtable_lookup_fast (d_schedulers d) (w_cur w) with
    | None => Ok (- ESRCH) w
    | Some a => (r ← do_dequeue_ums_sched_event a; dqevent_return args a r)
                  (set_rcu (S (w_rcu w)) w)
    end.
Proof.
  intros Hd. unfold ums_sched_dqevent, current_context_pid.
  krun (eq_refl : gets w_cur w = Ok _ _). krun (eq_refl : rcu_read_lock w = Ok _ _).
  krun (get_data_run (set_rcu (S (w_rcu w)) w) d Hd).
  destruct (rhashtable_lookup_fast _ _); [done|]. by destruct w.
Qed.

Lemma dqevent_run w L d a s e ev rest args :
  w_data w = Some d → rhashtable_lookup_fast (d_schedulers d) (w_cur w) = Some a →
  g_event_cache (w_mod w) = true →
  w_heap w !! a = Some (OSched s) → sc_lock s = false → w_heap w !! e = Some (OEvent ev) →
  forest_ok (w_lm w) L → L !! EventQ a = Some (EventList e :: rest) →
  ∃ m', dom m' = dom (w_lm w) ∧
    if decide (u_uncopied args = 0) then
      forest_ok m' (<[EventQ a := rest]> L) ∧
      ums_sched_dqevent args w = Ok 0 (set_out (w_out w ++ [UEvent ev])
        (set_heap (delete e (w_heap w)) (set_lm (delete (EventList e) m') w)))
    else
      forest_ok m' L ∧
      ums_sched_dqevent args w = Ok (- EACCES)
        (set_lm m' (set_tasks (wake_tasks (sc_wait_q s) (w_tasks w))
          (set_heap (<[a := OSched (sc_with_wait_q [] s)]> (w_heap w)) w))).
Proof.
  intros Hd Hs Hg Ha Hl He HL Hq. rewrite (dqevent_prefix _ _ _ Hd), Hs.
  destruct (dequeue_event_run (set_rcu (S (w_rcu w)) w) L a s e rest)
    as (m1 & E & D & HL1 & Hfree); [done..|].
  rewrite (bind_ok _ _ _ _ _ E). unfold dqevent_return.
  erewrite (bind_ok (get_event e)) by (by apply get_event_run). unfold copy_to_user.
  destruct (decide (u_uncopied args = 0)) as [Hu|Hu].
  - exists m1. split_and!; [done..|]. kred. kzero. kred.
    erewrite free_ums_event_run by done. by destruct w.
  - destruct (enqueue_event_run (set_lm m1 (set_rcu (S (w_rcu w)) w)) (<[EventQ a := rest]> L)
      a s rest e EVENT_ADD_HEAD) as (m2 & E2 & D2 & HL2).
    { done. } { done. } { done. } { apply lookup_insert_eq. } { done. }
    { rewrite <- elem_of_dom. kproj. rewrite D. apply elem_of_dom.
      eapply forest_live; [done|exact Hq|set_solver]. }
    exists m2. split_and!; [exact (eq_trans D2 D)| |].
    + unfold list_add_flags in HL2. rewrite decide_True in HL2 by done.
      assert (L !! EventList e = None) as Hnone.
      { destruct (L !! EventList e) as [r|] eqn:Er; [|done]. exfalso.
        refine (proj2 HL (EventList e) r (EventQ a) _ (EventList e) Er Hq _ _ _); [done|set_solver..]. }
      rewrite delete_id in HL2 by (by rewrite lookup_insert_ne).
      by rewrite insert_insert_eq, insert_id in HL2.
    + krun (eq_refl : (mret (u_uncopied args) : kM Z) _ = Ok _ _). rewrite decide_True by done.
      rewrite (bind_ok _ _ _ _ _ E2). kred. by destruct w.
Qed.
End sched_specs.

(** ** Execution of a worker *)

Section exec.
Context `{KO : KernelOps, LO : !ListOps lnode}.
Implicit Types (w : world).

Lemma exec_run w d s k x y tx ty pid :
  w_data w = Some d → rhashtable_lookup_fast (d_workers d) pid = Some k →
  rhashtable_lookup_fast (d_schedulers d) (w_cur w) = Some s →
  w_heap w !! s = Some (OSched x) → w_heap w !! k = Some (OWorker y) →
  dir_live (w_proc w) (wd_worker_link (wk_dirs y)) →
  ctx_task (sc_context x) ≠ ctx_task (wk_context y) →
  w_tasks w !! ctx_task (sc_context x) = Some tx →
  w_tasks w !! ctx_task (wk_context y) = Some ty →
  exec_ums_context pid w =
    Ok 0 (set_blk (w_blk w ++ [w_rcu w])
      (set_heap (switch_heap (SchedCtx s) (WorkCtx k) (sc_context x) (wk_context y)
                   (<[s := OSched (uncounted_sched x)]> (w_heap w)))
        (set_tasks (switch_tasks (sc_context x) (wk_context y) tx ty (w_tasks w))
          (set_proc (proc_removed (wd_worker_link (wk_dirs y)) (w_proc w)) w)))).
Proof.
  intros Hd Hk Hs Hhs Hhk Hlink Hne Htx Hty. assert (s ≠ k) as Hsk by congruence.
  unfold exec_ums_context, current_context_pid. krun (eq_refl : rcu_read_lock w = Ok _ _).
  krun (get_data_run (set_rcu (S (w_rcu w)) w) d Hd). rewrite Hk.
  krun (eq_refl : gets w_cur _ = Ok _ _). kproj. rewrite Hs.
  krun unregister_worker_run; [done..|].
  krun (prepare_switch_context_run _ (SchedCtx s) (WorkCtx k) (sc_context x) (wk_context y)); [done| | |done..|].
  { kproj. simpl. by rewrite lookup_insert_eq. }
  { kproj. simpl. by rewrite lookup_insert_ne, Hhk. }
  kred. done.
Qed.

(** Bad arguments: nothing happens. *)
Lemma exec_esrch_run w d pid :
  w_data w = Some d →
  rhashtable_lookup_fast (d_workers d) pid = None ∨
  rhashtable_lookup_fast (d_schedulers d) (w_cur w) = None →
  exec_ums_context pid w = Ok (- ESRCH) w.
Proof.
  intros Hd Hn. unfold exec_ums_context, current_context_pid.
  krun (eq_refl : rcu_read_lock w = Ok _ _).
  krun (get_data_run (set_rcu (S (w_rcu w)) w) d Hd).
  destruct (rhashtable_lookup_fast (d_workers d) pid); [|by destruct w].
  destruct Hn as [?|Hn]; [done|]. krun (eq_refl : gets w_cur _ = Ok _ _).
  kproj. rewrite Hn. by destruct w.
Qed.
End exec.

(** ** New events and new schedulers *)

Section sched_create.
Context `{KO : KernelOps, LO : !ListOps lnode, LL : !ListLaws lnode, KL : !KernelLaws}.
Implicit Types (w : world) (x : ums_scheduler) (L : forest lnode).

(** A new event: its object and its list cell. *)
Definition with_event (e : addr) e1 w : world :=
  set_env e1 (set_heap (<[e := OEvent zero_event]> (w_heap w))
    (set_lm (<[EventList e := zero_cell]> (w_lm w)) w)).

Lemma alloc_event_run w L e e1 :
  g_event_cache (w_mod w) = true → cells_owned w → forest_ok (w_lm w) L →
  kmalloc (dom (w_heap w)) (w_env w) = (Some e, e1) →
  alloc_ums_event w = Ok (Some e) (with_event e e1 w) ∧
  forest_ok (w_lm (with_event e e1 w)) L ∧ free_node L (EventList e) ∧
  w_heap w !! e = None ∧ L !! EventList e = None.
Proof.
  intros Hg Ho HL Hk. apply kmalloc_fresh in Hk as Hf. apply not_elem_of_dom in Hf.
  destruct (fresh_cell_free w L (EventList e) Ho HL Hf) as [Hc Hn]. split_and!.
  - unfold alloc_ums_event, with_event_cache, alloc_obj. kred. by rewrite Hg, Hk.
  - eapply forest_other_cell; [done..|]. intros y Hy. by apply lookup_insert_ne.
  - by apply free_unused.
  - done.
  - destruct (L !! EventList e) eqn:E; [|done]. destruct (Hn _ _ E). set_solver.
Qed.

Lemma with_event_fill e e1 w o :
  set_heap (<[e := o]> (w_heap (with_event e e1 w))) (with_event e e1 w) =
    set_heap (<[e := o]> (w_heap w)) (with_event e e1 w).
Proof. unfold with_event. kproj. by rewrite insert_insert_eq. Qed.

(** The new event, filled in and added to the queue of a scheduler. *)
Lemma enqueue_new_event_run w L s x q e e1 ev :
  cells_owned w → forest_ok (w_lm w) L → w_heap w !! e = None →
  w_heap w !! s = Some (OSched x) → sc_lock x = false → L !! EventQ s = Some q →
  ∃ m', enqueue_ums_sched_event s e EVENT_ADD_TAIL
      (set_heap (<[e := OEvent ev]> (w_heap w)) (with_event e e1 w)) =
    Ok tt (set_env e1 (set_lm m' (set_tasks (wake_tasks (sc_wait_q x) (w_tasks w))
      (set_heap (<[s := OSched (sc_with_wait_q [] x)]> (<[e := OEvent ev]> (w_heap w))) w)))) ∧
    dom m' = {[EventList e]} ∪ dom (w_lm w) ∧
    forest_ok m' (<[EventQ s := q ++ [EventList e]]> L).
Proof.
  intros Ho HL He Hs Hsl Hq.
  destruct (fresh_cell_free w L (EventList e) Ho HL He) as [Hc Hn].
  assert (e ≠ s) by congruence.
  destruct (enqueue_event_run (set_heap (<[e := OEvent ev]> (w_heap w)) (with_event e e1 w))
    L s x q e EVENT_ADD_TAIL) as (m' & E & D & HL').
  - kproj. by rewrite lookup_insert_ne.
  - done.
  - eapply forest_other_cell; [done..|]. intros y Hy. by apply lookup_insert_ne.
  - done.
  - by apply free_unused.
  - unfold with_event. kproj. rewrite lookup_insert_eq. by eexists.
  - exists m'. rewrite E. split_and!; [done| |].
    + rewrite D. apply dom_insert_L.
    + rewrite list_add_flags_tail, delete_id in HL'; [done|].
      destruct (L !! EventList e) eqn:El; [|done]. destruct (Hn _ _ El). set_solver.
Qed.

Definition one_more_ref (t : task) : task := mk_task (t_state t) (t_usage t + 1).

Lemma schedulers_insert_run w d s x r tb e :
  w_data w = Some d → w_heap w !! s = Some (OSched x) →
  rhashtable_insert_fast (ctx_pid (sc_context x)) s (d_schedulers d) (w_env w) = (r, tb, e) →
  schedulers_insert s w = Ok r (set_env e (set_data (Some (d_with_schedulers tb d)) w)).
Proof.
  intros Hd Hs Hi. unfold schedulers_insert. krun get_sched_run; [done|].
  krun (get_data_run w d Hd). unfold call_env. kred. by rewrite Hi.
Qed.

(** The procfs directory of the schedulers of the process. *)
Definition sched_dir_ok w (dirs : ums_proc_dirs) : Prop :=
  ∃ sd l, pd_sched_dir dirs = Ptr sd ∧ pde_path (proc_ents (w_proc w)) (sd :: l).

Definition new_sched (pid : pid_t) : ums_scheduler :=
  mk_scheduler (fresh_context pid uninit_context) PUninit false []
    (mk_sched_dirs PUninit PUninit PUninit k_garbage k_garbage).

(** The kernel refuses to insert some object under the key, with the error [r]. *)
Definition table_refuses (key r : Z) : Prop :=
  ∃ a t e, (rhashtable_insert_fast key a t e).1.1 = r ∧ r < 0.

Lemma sched_init_run w d t s m :
  w_data w = Some d → sched_dir_ok w (d_dirs d) →
  w_heap w !! s = Some (OSched uninit_scheduler) →
  w_tasks w !! w_cur w = Some t → - 2 ^ 31 ≤ w_cur w < 2 ^ 31 →
  k_INIT_LIST_HEAD (EventQ s) (w_lm w) = Some m →
  ∃ r w' tb, ums_scheduler_init s w = Ok r w' ∧
    w' = set_env (w_env w') (set_proc (w_proc w') (set_heap (w_heap w')
      (set_data (Some (d_with_schedulers tb d))
        (set_tasks (<[w_cur w := one_more_ref t]> (w_tasks w)) (set_lm m w))))) ∧
    ((r < 0 ∧ (r = - ENOMEM ∧ procfs_refuses ∨ table_refuses (w_cur w) r) ∧
       rht_objs tb = rht_objs (d_schedulers d) ∧
       ∃ x, w_heap w' = <[s := OSched x]> (w_heap w)) ∨
     (r = 0 ∧ rht_objs tb = {[ (w_cur w, s) ]} ∪ rht_objs (d_schedulers d) ∧
      ∃ f i k, w_heap w' =
        <[s := OSched (registered_sched f i k (new_sched (w_cur w)))]> (w_heap w))).
Proof.
  intros Hd (sd & l & Esd & Hp) Hs Ht Hpid Hm. unfold ums_scheduler_init.
  krun (ums_context_init_run w (SchedCtx s) uninit_context t); [simpl; by rewrite Hs|done|].
  cbn [ctx_set]. rewrite Hs. krun upd_sched_run; [kproj; apply lookup_insert_eq|].
  krun lm_run_run; [exact Hm|]. krun upd_sched_run; [kproj; apply lookup_insert_eq|].
  kproj. rewrite !insert_insert_eq. fold (one_more_ref t).
  change (sc_with_wait_q [] _) with (new_sched (w_cur w)).
  set (w1 := set_heap _ _). krun (get_data_run w1 d Hd).
  destruct (sched_proc_register_run w1 (d_dirs d) s (new_sched (w_cur w)) sd l)
    as (r & w2 & E & Hfr & Hcase); [apply lookup_insert_eq|done..|].
  rewrite (bind_ok _ _ _ _ _ E). clear E.
  destruct (proc_frame_fields _ _ Hfr) as (? & ? & ? & ? & ? & Ed & ? & ? & ?).
  change (w_data w2 = w_data w) in Ed. unfold w1 in *. clear w1 Hfr. kproj_in Hcase.
  destruct Hcase as [(-> & Hno & ds & Hh)|(-> & f & i & k & Hh & _)]; rewrite insert_insert_eq in Hh.
  - rewrite decide_True by done. eexists _, w2, (d_schedulers d). split; [done|]. split.
    + apply world_ext; kproj; try done. rewrite Ed, Hd. by destruct d.
    + left. split_and!; [done|by left|done|]. eauto.
  - kzero. destruct (rhashtable_insert_fast (w_cur w) s (d_schedulers d) (w_env w2))
      as [[r tb] e] eqn:Hi.
    eassert (w_heap w2 !! s = Some (OSched _)) as Hs2 by (rewrite Hh; apply lookup_insert_eq).
    rewrite (schedulers_insert_run w2 d s _ r tb e (eq_trans Ed Hd) Hs2 Hi).
    eexists r, _, tb. split; [done|]. split; [by apply world_ext|].
    apply rhashtable_insert_spec in Hi as Hi'. destruct Hi' as [[-> Hobj]|[Hr Hobj]]; kproj.
    + right. split_and!; [done..|]. eauto.
    + left. split_and!; [done| |done|eauto]. right. eexists _, _, _. by rewrite Hi.
Qed.

(** Failed creation: the structure is freed; the reference to the task that
    [ums_context_init] took, if the structure could be allocated at all, is
    not given back. *)
Definition leaked_ref w t : gmap pid_t task :=
  match (kmalloc (dom (w_heap w)) (w_env w)).1 with
  | None => w_tasks w
  | Some _ => <[w_cur w := one_more_ref t]> (w_tasks w)
  end.
Lemma leaked_ref_none w t e :
  kmalloc (dom (w_heap w)) (w_env w) = (None, e) → leaked_ref w t = w_tasks w.
Proof. unfold leaked_ref. by intros ->. Qed.
Lemma leaked_ref_some w t a e :
  kmalloc (dom (w_heap w)) (w_env w) = (Some a, e) →
  leaked_ref w t = <[w_cur w := one_more_ref t]> (w_tasks w).
Proof. unfold leaked_ref. by intros ->. Qed.

(** Why a creation fails with [r]: there is no memory, procfs refuses an entry, or
    the table refuses the scheduler. *)
Definition sched_create_refused w r : Prop :=
  r = - ENOMEM ∧ ((kmalloc (dom (w_heap w)) (w_env w)).1 = None ∨ procfs_refuses) ∨
  table_refuses (w_cur w) r.
Definition sched_create_failed w d t w' : Prop :=
  w_heap w' = w_heap w ∧ w_lm w' = w_lm w ∧ w_rcu w' = w_rcu w ∧ w_blk w' = w_blk w ∧
  w_tasks w' = leaked_ref w t ∧
  ∃ d', w_data w' = Some d' ∧ d_comp_lists d' = d_comp_lists d ∧
    rht_objs (d_schedulers d') = rht_objs (d_schedulers d) ∧ d_workers d' = d_workers d.
Record sched_created w L d t s w' : Prop := {
  sn_fresh : w_heap w !! s = None;
  sn_heap : ∃ f i k, w_heap w' =
    <[s := OSched (registered_sched f i k (new_sched (w_cur w)))]> (w_heap w);
  sn_lists : forest_ok (w_lm w') (<[EventQ s := []]> L);
  sn_cells : dom (w_lm w') = {[EventQ s; CtxList (SchedCtx s)]} ∪ dom (w_lm w);
  sn_frame : ∃ tb, rht_objs tb = {[ (w_cur w, s) ]} ∪ rht_objs (d_schedulers d) ∧
    w' = set_env (w_env w') (set_proc (w_proc w') (set_heap (w_heap w')
      (set_data (Some (d_with_schedulers tb d))
        (set_tasks (<[w_cur w := one_more_ref t]> (w_tasks w)) (set_lm (w_lm w') w)))));
}.

Lemma sched_create_run w L d t :
  w_data w = Some d → sched_dir_ok w (d_dirs d) → cells_owned w → forest_ok (w_lm w) L →
  w_tasks w !! w_cur w = Some t → - 2 ^ 31 ≤ w_cur w < 2 ^ 31 →
  ∃ r w', ums_scheduler_create w = Ok r w' ∧
    match r with
    | inl err => err < 0 ∧ sched_create_refused w err ∧ sched_create_failed w d t w'
    | inr s => sched_created w L d t s w'
    end.
Proof.
  intros Hd Hdirs Ho HL Ht Hpid.
  unfold ums_scheduler_create, alloc_ums_scheduler, alloc_obj. unfold mbind at 1, kM_bind at 1.
  destruct (kmalloc _ _) as [[s|] e1] eqn:Hk.
  2:{ eexists (inl _), _. split; [done|]. split; [done|].
      split; [left; split; [done|]; left; by rewrite Hk|]. split_and!; try done; [by rewrite (leaked_ref_none w t e1 Hk)|].
      by exists d. }
  apply kmalloc_fresh in Hk as Hf. apply not_elem_of_dom in Hf.
  destruct (fresh_cell_free w L (EventQ s) Ho HL Hf) as [Hc1 Hn1].
  destruct (fresh_cell_free w L (CtxList (SchedCtx s)) Ho HL Hf) as [Hc2 Hn2].
  cbn [obj_nodes add_nodes foldr].
  set (m0 := <[CtxList (SchedCtx s) := uninit_cell]> (<[EventQ s := uninit_cell]> (w_lm w))).
  destruct (law_init m0 (EventQ s)) as (m & Em & [Dm Hm] & Hl).
  { unfold m0. rewrite lookup_insert_ne, lookup_insert_eq by done. by eexists. }
  assert (∀ z, z ≠ EventQ s → z ≠ CtxList (SchedCtx s) → m !! z = w_lm w !! z) as Hz.
  { intros z Hz1 Hz2. rewrite Hm by set_solver. unfold m0. by rewrite !lookup_insert_ne. }
  set (w1 := set_env _ _).
  destruct (sched_init_run w1 d t s m) as (r & w2 & tb & E & Hfr & Hcase); try done.
  { apply lookup_insert_eq. }
  rewrite (bind_ok _ _ _ _ _ E). clear E. unfold w1 in *. clear w1. kproj_in Hfr. kproj_in Hcase.
  destruct Hcase as [(Hr & Hno & Hobj & x & Hh)|(-> & Hobj & f & i & k & Hh)];
    rewrite insert_insert_eq in Hh.
  - rewrite decide_True by lia. unfold free_ums_scheduler, kfree. kred.
    rewrite Hh, lookup_insert_eq, delete_insert_id by done. eexists (inl _), _. split; [done|].
    split; [done|]. split; [destruct Hno as [[-> Hno]|Hno]; [left; by split; [|right]|by right]|].
    rewrite Hfr. unfold sched_create_failed. kproj. cbn [obj_nodes del_nodes foldr].
    rewrite (leaked_ref_some w t s e1 Hk). split_and!; try done; [|by eexists].
    apply map_eq. intros z. rewrite !lookup_delete. repeat case_decide; subst; try done.
    by apply Hz.
  - kzero. eexists (inr s), w2. split; [done|]. assert (w_lm w2 = m) as Elm by (by rewrite Hfr).
    split; [done|by exists f, i, k|rewrite Elm..|].
    + apply forest_add_list; [eapply forest_agree; [done|]|done|].
      * intros h l z Hh' Hin. apply Hz; intros ->; [by apply (Hn1 h l)|by apply (Hn2 h l)].
      * intros h l z Hh' _ Hin Hin'. apply (Hn1 h l Hh'). set_solver.
    + rewrite Dm. unfold m0. rewrite !dom_insert_L. set_solver.
    + exists tb. split; [done|]. rewrite Elm. by rewrite Hfr at 1.
Qed.
End sched_create.

(** ** Entering scheduler mode *)

Section enter_sched.
Context `{KO : KernelOps, LO : !ListOps lnode, LL : !ListLaws lnode, KL : !KernelLaws}.
Implicit Types (w : world) (x : ums_scheduler) (c : ums_complist) (L : forest lnode).

Record sched_entered w w' L d t (s e a : addr) c : Prop := {
  se_fresh : w_heap w !! s = None ∧ w_heap w !! e = None;
  se_sched : ∃ f i k, w_heap w' !! s = Some (OSched
    (sc_with_complist (Ptr a) (registered_sched f i k (new_sched (w_cur w)))));
  se_event : w_heap w' !! e = Some (OEvent (mk_event SCHEDULER_STARTUP zero_params));
  se_complist : w_heap w' !! a = Some (OComplist (cl_with_refcount (cl_refcount c + 1) c));
  se_others : ∀ z, z ≠ a → is_Some (w_heap w !! z) → w_heap w' !! z = w_heap w !! z;
  se_lists : forest_ok (w_lm w') (<[EventQ s := [EventList e]]> L);
  se_table : ∃ tb, w_data w' = Some (d_with_schedulers tb d) ∧
    rht_objs tb = {[ (w_cur w, s) ]} ∪ rht_objs (d_schedulers d);
  se_tasks : w_tasks w' = <[w_cur w := one_more_ref t]> (w_tasks w);
  se_rcu : w_rcu w' = w_rcu w;
  se_blk : w_blk w' = w_blk w;
}.

(** The new scheduler's cells are owned. *)
Lemma sched_created_owned w L d t s w' :
  cells_owned w → sched_created w L d t s w' → cells_owned w'.
Proof.
  intros Ho [_ (f & i & k & Hh) _ Hdom _] n Hn. apply elem_of_dom in Hn. rewrite Hdom in Hn.
  rewrite Hh. apply elem_of_union in Hn as [Hn|Hn].
  - assert (node_addr n = s) as -> by (apply elem_of_union in Hn as [->%elem_of_singleton| ->%elem_of_singleton]; done).
    rewrite lookup_insert_eq. by eexists.
  - apply elem_of_dom in Hn. apply lookup_insert_is_Some'. auto.
Qed.

(** The call after the scheduler was tied to its completion list. *)
Definition enter_sched_rest (s : addr) : kM Z :=
  startup_event ← alloc_ums_event;
  match startup_event with
  | None => _ ← rcu_read_unlock; _ ← ums_scheduler_destroy s; mret (- ENOMEM)
  | Some e =>
      ev ← get_event e;
      _ ← put_obj e (OEvent (mk_event SCHEDULER_STARTUP (ev_params ev)));
      _ ← enqueue_ums_sched_event s e EVENT_ADD_TAIL;
      mret 0
  end.

(** The world at this point. *)
Record sched_tied w w2 L d t (s a : addr) c x : Prop := {
  st_fresh : w_heap w !! s = None;
  st_new : ∃ f i k, x = sc_with_complist (Ptr a) (registered_sched f i k (new_sched (w_cur w)));
  st_sched : w_heap w2 !! s = Some (OSched x);
  st_cl : w_heap w2 !! a = Some (OComplist (cl_with_refcount (cl_refcount c + 1) c));
  st_others : ∀ z, z ≠ a → z ≠ s → w_heap w2 !! z = w_heap w !! z;
  st_cells : cells_owned w2;
  st_lists : forest_ok (w_lm w2) (<[EventQ s := []]> L);
  st_fields : w_mod w2 = w_mod w ∧ w_rcu w2 = w_rcu w ∧ w_blk w2 = w_blk w ∧
    w_tasks w2 = <[w_cur w := one_more_ref t]> (w_tasks w);
  st_table : ∃ tb, w_data w2 = Some (d_with_schedulers tb d) ∧
    rht_objs tb = {[ (w_cur w, s) ]} ∪ rht_objs (d_schedulers d);
}.

Lemma enter_sched_tie w L d t args a c s w1 :
  cells_owned w → ums_scheduler_create w = Ok (inr s) w1 → sched_created w L d t s w1 →
  idr_find (d_comp_lists d) (ea_ums_complist args) = Some a →
  w_heap w !! a = Some (OComplist c) → 0 < cl_refcount c →
  ∃ w2 x, enter_ums_scheduler_mode args w = enter_sched_rest s w2 ∧ sched_tied w w2 L d t s a c x ∧
    dom (w_heap w2) = dom (w_heap w1) ∧ w_env w2 = w_env w1.
Proof.
  intros Ho E Hcr Ha Hac Hr. unfold enter_ums_scheduler_mode. rewrite (bind_ok _ _ _ _ _ E).
  clear E. cbv zeta. pose proof (sched_created_owned _ _ _ _ _ _ Ho Hcr) as Ho1.
  destruct Hcr as [Fs (f & i & k & Hh) HL1 _ (tb & Hobj & Hfr)].
  set (x := registered_sched f i k (new_sched (w_cur w))) in *.
  assert (a ≠ s) as Has by congruence.
  krun (eq_refl : rcu_read_lock w1 = Ok _ _).
  krun (idr_l_find_run (set_rcu (S (w_rcu w1)) w1) (d_with_schedulers tb d)); [by rewrite Hfr|].
  cbn [d_comp_lists d_with_schedulers]. rewrite Ha.
  krun (get_ums_complist_run _ a c); [kproj; by rewrite Hh, lookup_insert_ne|done|].
  krun (rcu_read_unlock_run _ (w_rcu w1)); [done|]. kproj.
  krun (upd_sched_run _ s x); [kproj; rewrite lookup_insert_ne, Hh by done; apply lookup_insert_eq|].
  eexists _, (sc_with_complist (Ptr a) x). split; [done|]. kproj. rewrite Hh. split; [split; kproj|].
  - done.
  - by exists f, i, k.
  - apply lookup_insert_eq.
  - rewrite lookup_insert_ne by done. apply lookup_insert_eq.
  - intros z Hza Hzs. by rewrite !lookup_insert_ne.
  - intros n Hn. kproj. do 2 (apply lookup_insert_is_Some'; right). rewrite <- Hh. by apply Ho1.
  - exact HL1.
  - by rewrite Hfr.
  - exists tb. by rewrite Hfr.
  - split; [|done]. apply elem_of_dom_2 in Hac. rewrite !dom_insert_L. set_solver.
Qed.

(** There is memory for the startup event: the scheduler is ready. *)
Lemma enter_sched_event w w2 L d t s a c x e e1 :
  sched_tied w w2 L d t s a c x → g_event_cache (w_mod w) = true →
  kmalloc (dom (w_heap w2)) (w_env w2) = (Some e, e1) →
  ∃ w', enter_sched_rest s w2 = Ok 0 w' ∧ sched_entered w w' L d t s e a c.
Proof.
  intros [Fs (f & i & k & ->) H2s H2a H2z Ho HL (Em & Er & Eb & Et) (tb & Ed & Hobj)] Hg Hk.
  unfold enter_sched_rest.
  destruct (alloc_event_run w2 (<[EventQ s := []]> L) e e1) as (E & _ & _ & Fe & _);
    [by rewrite Em|done..|].
  rewrite (bind_ok _ _ _ _ _ E). cbv iota. clear E.
  krun get_event_run; [kproj; apply lookup_insert_eq|]. krun (eq_refl : put_obj _ _ _ = Ok _ _).
  rewrite with_event_fill. cbn [ev_params zero_event].
  destruct (enqueue_new_event_run w2 (<[EventQ s := []]> L) s _ [] e e1
    (mk_event SCHEDULER_STARTUP zero_params) Ho HL Fe H2s) as (m & E & _ & HLm);
    [done|apply lookup_insert_eq|].
  rewrite (bind_ok _ _ _ _ _ E). eexists. split; [done|].
  assert (e ≠ s ∧ e ≠ a) as [Hes Hea] by (split; intros ->; congruence).
  assert (a ≠ s) as Has by congruence.
  rewrite insert_insert_eq in HLm. split; kproj; try done; try congruence.
  - split; [done|]. by rewrite <- H2z.
  - exists f, i, k. by rewrite lookup_insert_eq.
  - rewrite lookup_insert_ne by done. by rewrite lookup_insert_eq.
  - by rewrite !lookup_insert_ne.
  - intros z Hza [o Hz]. assert (z ≠ s) by congruence.
    assert (z ≠ e) by (intros ->; rewrite H2z in Fe by done; congruence).
    by rewrite !lookup_insert_ne, H2z.
  - by exists tb.
Qed.

Lemma enter_sched_run w L d t args a c :
  w_data w = Some d → sched_dir_ok w (d_dirs d) → cells_owned w → forest_ok (w_lm w) L →
  w_tasks w !! w_cur w = Some t → - 2 ^ 31 ≤ w_cur w < 2 ^ 31 →
  g_event_cache (w_mod w) = true → w_rcu w = O →
  idr_find (d_comp_lists d) (ea_ums_complist args) = Some a →
  w_heap w !! a = Some (OComplist c) → 0 < cl_refcount c →
  match ums_scheduler_create w with
  | Ok (inl r) w' =>
      enter_ums_scheduler_mode args w = Ok r w' ∧ r < 0 ∧ sched_create_refused w r ∧
      sched_create_failed w d t w'
  | Ok (inr s) w1 =>
      match kmalloc (dom (w_heap w1)) (w_env w1) with
      | (Some e, _) => ∃ w', enter_ums_scheduler_mode args w = Ok 0 w' ∧ sched_entered w w' L d t s e a c
      | (None, _) => enter_ums_scheduler_mode args w = Bug RcuUnbalanced
      end
  | _ => False
  end.
Proof.
  intros Hd Hdirs Ho HL Ht Hpid Hg Hrcu Ha Hac Hr.
  destruct (sched_create_run w L d t Hd Hdirs Ho HL Ht Hpid) as (r & w1 & E & Hcase).
  rewrite E. destruct r as [err|s].
  { destruct Hcase as (? & ? & ?). unfold enter_ums_scheduler_mode. by rewrite (bind_ok _ _ _ _ _ E). }
  destruct (enter_sched_tie w L d t args a c s w1 Ho E Hcase Ha Hac Hr)
    as (w2 & x & -> & Htie & <- & <-).
  destruct (kmalloc (dom (w_heap w2)) (w_env w2)) as [[e|] e1] eqn:Hk.
  - exact (enter_sched_event _ _ _ _ _ _ _ _ _ _ _ Htie Hg Hk).
  - destruct Htie as [_ _ _ _ _ _ _ (Em & Er & _ & _) _].
    assert (alloc_ums_event w2 = Ok None (set_env e1 w2)) as Ea.
    { unfold alloc_ums_event, with_event_cache, alloc_obj. kred. by rewrite Em, Hg, Hk. }
    unfold enter_sched_rest. rewrite (bind_ok _ _ _ _ _ Ea). apply bind_bug.
    unfold rcu_read_unlock. kproj. by rewrite Er, Hrcu.
Qed.
End enter_sched.

(** ** The error paths of [enter_ums_scheduler_mode] *)

Section enter_sched_errors.
Context `{KO : KernelOps, LO : !ListOps lnode, LL : !ListLaws lnode}.
Implicit Types (w : world) (x : ums_scheduler) (c : ums_complist) (L : forest lnode).

(** The startup event cannot be allocated: the label [complist_find] leaves
    an RCU section that was left before. *)
Lemma enter_sched_no_event_run w w1 s x d args a c e :
  ums_scheduler_create w = Ok (inr s) w1 → w_rcu w1 = O → w_data w1 = Some d →
  idr_find (d_comp_lists d) (ea_ums_complist args) = Some a →
  w_heap w1 !! a = Some (OComplist c) → 0 < cl_refcount c →
  w_heap w1 !! s = Some (OSched x) → g_event_cache (w_mod w1) = true →
  kmalloc (dom (w_heap w1)) (w_env w1) = (None, e) →
  enter_ums_scheduler_mode args w = Bug RcuUnbalanced.
Proof.
  intros E Hrcu Hd Ha Hac Hr Hs Hg Hk. unfold enter_ums_scheduler_mode.
  rewrite (bind_ok _ _ _ _ _ E). cbv zeta. assert (a ≠ s) as Has by congruence.
  krun (eq_refl : rcu_read_lock w1 = Ok _ _).
  krun (idr_l_find_run (set_rcu (S (w_rcu w1)) w1) d _ Hd). rewrite Ha.
  krun (get_ums_complist_run _ a c); [done|done|].
  krun (rcu_read_unlock_run _ (w_rcu w1)); [done|]. kproj.
  krun (upd_sched_run _ s x); [kproj; by rewrite lookup_insert_ne|]. kproj.
  set (w2 := set_heap _ _).
  assert (alloc_ums_event w2 = Ok None (set_env e w2)) as E2.
  { unfold alloc_ums_event, with_event_cache, alloc_obj. kred. unfold w2. kproj. rewrite Hg. kproj.
    rewrite !dom_insert_lookup_L by (rewrite ?lookup_insert_ne by done; eauto). by rewrite Hk. }
  rewrite (bind_ok _ _ _ _ _ E2). apply bind_bug. unfold rcu_read_unlock, w2. kproj. by rewrite Hrcu.
Qed.

(** The completion list does not exist: the scheduler is destroyed through
    its [complist] field, which nothing has written yet. *)
Lemma enter_sched_no_complist_run w w1 L s x d args :
  ums_scheduler_create w = Ok (inr s) w1 → w_data w1 = Some d →
  idr_find (d_comp_lists d) (ea_ums_complist args) = None →
  w_heap w1 !! s = Some (OSched x) → sc_lock x = false → sc_complist x = PUninit →
  forest_ok (w_lm w1) L → L !! EventQ s = Some [] →
  enter_ums_scheduler_mode args w = Bug UninitPtr.
Proof.
  intros E Hd Ha Hs Hl Hc HL Hq. unfold enter_ums_scheduler_mode.
  rewrite (bind_ok _ _ _ _ _ E). cbv zeta.
  krun (eq_refl : rcu_read_lock w1 = Ok _ _).
  krun (idr_l_find_run (set_rcu (S (w_rcu w1)) w1) d _ Hd). rewrite Ha.
  krun (rcu_read_unlock_run _ (w_rcu w1)); [done|]. apply bind_bug. unfold ums_scheduler_destroy.
  krun sched_spin_lock_run; [done..|]. krun lm_get_run; [exact (f_nodes _ _ _ _ HL Hq)|].
  krun (eq_refl : free_events [] _ = Ok _ _).
  krun sched_spin_unlock_run; [kproj; apply lookup_insert_eq|done|].
  krun get_sched_run; [kproj; apply lookup_insert_eq|]. cbn [sc_complist sc_with_lock].
  by rewrite Hc.
Qed.
End enter_sched_errors.
