(* ===== verification/Worker.v ===== *)
(** * Workers: [src/src/module/src/worker.c], [enter_ums.c]

    A worker is a context that waits in a completion list, runs when a
    scheduler executes it, and goes back to its scheduler when it yields or
    ends. *)
From S2P Require Import Prelude ListHead ListSpec Kernel Uapi State Prims Context Proc Complist Scheduler.
From stdpp Require Import prelude gmap.

Local Open Scope Z_scope.

Definition wk_with_complist v k := mk_worker (wk_context k) v (wk_dirs k).

Section worker.
Context `{KO : KernelOps, LO : !ListOps lnode}.

Definition d_with_workers (v : rhashtable) (d : ums_data) : ums_data :=
  mk_data (d_addr d) (d_comp_lists d) (d_schedulers d) v (d_dirs d).

(** The content of memory obtained from [kmalloc]. *)
Definition uninit_worker : ums_worker :=
  mk_worker uninit_context PUninit (mk_worker_dirs PUninit k_garbage PUninit PUninit PUninit).

Definition alloc_ums_worker : kM (option addr) := alloc_obj (OWorker uninit_worker) uninit_cell.
Definition free_ums_worker (k : addr) : kM unit := kfree k.

Definition workers_insert (k : addr) : kM Z :=
  x ← get_worker k;
  d ← get_data;
  r ← call_env (λ e, rhashtable_insert_fast (ctx_pid (wk_context x)) k (d_workers d) e);
  _ ← put_data (d_with_workers r.2 d);
  mret r.1.
Definition workers_remove (k : addr) : kM unit :=
  x ← get_worker k;
  d ← get_data;
  put_data (d_with_workers
    (rhashtable_remove_fast (ctx_pid (wk_context x)) k (d_workers d)) d).

Definition ums_worker_init (k : addr) : kM Z :=
  _ ← ums_context_init (WorkCtx k);
  d ← get_data;
  retval ← ums_worker_proc_register (d_dirs d) k;
  if decide (retval ≠ 0) then mret retval else
  workers_insert k.

Definition ums_worker_create : kM (Z + addr) :=
  r ← alloc_ums_worker;
  match r with
  | None => mret (inl (- ENOMEM))
  | Some k =>
      retval ← ums_worker_init k;
      if decide (retval ≠ 0) then _ ← free_ums_worker k; mret (inl retval)
      else mret (inr k)
  end.

Definition ums_worker_call_rcu (k : addr) : kM unit :=
  _ ← ums_context_deinit (WorkCtx k); free_ums_worker k.

Definition ums_worker_destroy (k : addr) : kM unit :=
  x ← get_worker k;
  complist ← deref (wk_complist x);
  _ ← put_ums_complist complist;
  _ ← ums_worker_proc_unregister k;
  _ ← workers_remove k;
  call_rcu (CbWorker k).

Definition enter_ums_worker_mode (args : enter_ums_mode_args) : kM Z :=
  r ← ums_worker_create;
  match r with
  | inl retval => mret retval
  | inr worker =>
      _ ← rcu_read_lock;
      complist ← IDR_L_FIND (ea_ums_complist args);
      match complist with
      | None => _ ← rcu_read_unlock; _ ← ums_worker_destroy worker; mret (- EINVAL)
      | Some complist =>
          _ ← get_ums_complist complist;
          _ ← rcu_read_unlock;
          _ ← upd_worker worker (wk_with_complist (Ptr complist));
          _ ← prepare_suspend_context (WorkCtx worker);
          _ ← ums_completion_list_add complist (WorkCtx worker) COMPLIST_ADD_TAIL;
          _ ← schedule;
          mret 0
      end
  end.

Definition ums_worker_yield (args : Z) : kM Z :=
  context_pid ← current_context_pid;
  _ ← rcu_read_lock;
  d ← get_data;
  match rhashtable_lookup_fast (d_workers d) context_pid with
  | None => _ ← rcu_read_unlock; mret (- ESRCH)
  | Some worker =>
      kevent ← alloc_ums_event;
      match kevent with
      | None => _ ← rcu_read_unlock; mret (- ENOMEM)
      | Some kevent =>
          _ ← get_event kevent;
          _ ← put_obj kevent (OEvent (mk_event THREAD_YIELD (yield_params context_pid args)));
          x ← get_ctx (WorkCtx worker);
          sched_context ← deref (ctx_parent x);
          scheduler ← container_sched sched_context;
          _ ← enqueue_ums_sched_event scheduler kevent EVENT_ADD_TAIL;
          _ ← prepare_switch_context (WorkCtx worker) sched_context;
          y ← get_worker worker;
          complist ← deref (wk_complist y);
          _ ← ums_completion_list_add complist (WorkCtx worker) COMPLIST_ADD_TAIL;
          _ ← rcu_read_unlock;
          _ ← schedule;
          mret 0
      end
  end.

Definition ums_worker_end : kM Z :=
  context_pid ← current_context_pid;
  _ ← rcu_read_lock;
  d ← get_data;
  match rhashtable_lookup_fast (d_workers d) context_pid with
  | None => _ ← rcu_read_unlock; mret (- ESRCH)
  | Some worker =>
      kevent ← alloc_ums_event;
      match kevent with
      | None => _ ← rcu_read_unlock; mret (- ENOMEM)
      | Some kevent =>
          x ← get_ctx (WorkCtx worker);
          if is_null (ctx_parent x) then
            _ ← rcu_read_unlock; _ ← free_ums_event kevent; mret (- ESRCH)
          else
          sched_context ← deref (ctx_parent x);
          scheduler ← container_sched sched_context;
          _ ← get_event kevent;
          _ ← put_obj kevent (OEvent (mk_event THREAD_TERMINATED (end_params context_pid)));
          _ ← enqueue_ums_sched_event scheduler kevent EVENT_ADD_TAIL;
          _ ← wake_up_context sched_context;
          _ ← ums_worker_destroy worker;
          _ ← rcu_read_unlock;
          mret 0
      end
  end.

(** ** enter_ums.c *)

Definition enter_ums_mode (args : uptr enter_ums_mode_args) : kM Z :=
  kargs ← copy_from_user args;
  match kargs with
  | None => mret (- EACCES)
  | Some kargs =>
      if decide (Z.land (ea_flags kargs) ENTER_UMS_SCHED ≠ 0) then
        enter_ums_scheduler_mode kargs
      else if decide (Z.land (ea_flags kargs) ENTER_UMS_WORK ≠ 0) then
        enter_ums_worker_mode kargs
      else mret (- EINVAL)
  end.
End worker.

(** ** Behaviour of the operations *)

Section worker_runs.
Context `{KO : KernelOps, LO : !ListOps lnode, LL : !ListLaws lnode, KL : !KernelLaws}.
Implicit Types (w : world) (x : ums_scheduler) (y : ums_worker) (c : ums_complist)
  (L : forest lnode).

(** The running worker [k] of the scheduler [s] and the completion list [a]. *)
Record worker_at w L d (k s a : addr) y x c (q l : list lnode) : Prop := {
  wa_data : w_data w = Some d;
  wa_lookup : rhashtable_lookup_fast (d_workers d) (w_cur w) = Some k;
  wa_worker : w_heap w !! k = Some (OWorker y);
  wa_parent : ctx_parent (wk_context y) = Ptr (SchedCtx s);
  wa_sched : w_heap w !! s = Some (OSched x);
  wa_sched_unlocked : sc_lock x = false;
  wa_complist : wk_complist y = Ptr a;
  wa_cl : w_heap w !! a = Some (OComplist c);
  wa_cl_unlocked : cl_lock c = false;
  wa_cache : g_event_cache (w_mod w) = true;
  wa_cells : cells_owned w;
  wa_lists : forest_ok (w_lm w) L;
  wa_events : L !! EventQ s = Some q;
  wa_queue : L !! ClHead a = Some l;
}.

Definition yield_heap (e k s a : addr) ev y x c (h : gmap addr kobj) : gmap addr kobj :=
  <[a := OComplist (cl_with_wait_q [] c)]>
    (switch_heap (WorkCtx k) (SchedCtx s) (wk_context y) (sc_context x)
      (<[s := OSched (sc_with_wait_q [] x)]> (<[e := OEvent ev]> h))).
Definition yield_tasks y x c ty tx (ts : gmap pid_t task) : gmap pid_t task :=
  wake_tasks (cl_wait_q c)
    (switch_tasks (wk_context y) (sc_context x) ty tx (wake_tasks (sc_wait_q x) ts)).

Lemma yield_run w L d k s a y x c q l e e1 args ty tx :
  worker_at w L d k s a y x c q l →
  free_node L (wnode k) → is_Some (w_lm w !! wnode k) →
  kmalloc (dom (w_heap w)) (w_env w) = (Some e, e1) →
  ctx_task (wk_context y) ≠ ctx_task (sc_context x) →
  w_tasks w !! ctx_task (wk_context y) = Some ty →
  w_tasks w !! ctx_task (sc_context x) = Some tx →
  ∃ m', forest_ok m' (<[ClHead a := l ++ [wnode k]]>
      (delete (wnode k) (<[EventQ s := q ++ [EventList e]]> L))) ∧
    ums_worker_yield args w = Ok 0 (set_blk (w_blk w ++ [w_rcu w]) (set_env e1 (set_lm m'
      (set_tasks (yield_tasks y x c ty tx (w_tasks w))
        (set_heap (yield_heap e k s a
           (mk_event THREAD_YIELD (yield_params (w_cur w) args)) y x c (w_heap w)) w))))).
Proof.
  intros [Hd Hlk Hk Hp Hs Hsl Hc Ha Hal Hg Ho HL Hq Hl] Hfree Hlive Hkm Hne Hty Htx.
  unfold ums_worker_yield, current_context_pid.
  krun (eq_refl : gets w_cur w = Ok _ _). krun (eq_refl : rcu_read_lock w = Ok _ _).
  krun (get_data_run (set_rcu (S (w_rcu w)) w) d Hd). rewrite Hlk.
  destruct (alloc_event_run (set_rcu (S (w_rcu w)) w) L e e1) as (E & HL1 & Hfe & Hfh & HLe); [done..|].
  rewrite (bind_ok _ _ _ _ _ E). cbv iota.
  change (w_heap w !! e = None) in Hfh.
  assert (e ≠ k ∧ e ≠ s ∧ e ≠ a) as (Hek & Hes & Hea) by (split_and!; intros ->; congruence).
  krun get_event_run; [kproj; apply lookup_insert_eq|]. krun (eq_refl : put_obj _ _ _ = Ok _ _).
  krun get_ctx_run; [kproj; simpl; rewrite !lookup_insert_ne by done; by rewrite Hk|].
  rewrite Hp. krun (eq_refl : deref (Ptr (SchedCtx s)) _ = Ok _ _).
  krun (eq_refl : container_sched (SchedCtx s) _ = Ok _ _).
  rewrite with_event_fill. set (ev := mk_event _ _) in *.
  destruct (enqueue_new_event_run (set_rcu (S (w_rcu w)) w) L s x q e e1 ev)
    as (m2 & E2 & D2 & HL2); [done..|].
  rewrite (bind_ok _ _ _ _ _ E2). clear E E2.
  destruct (wake_tasks_usage (sc_wait_q x) (w_tasks w) _ _ Hty) as (ty' & Hty' & Uy).
  destruct (wake_tasks_usage (sc_wait_q x) (w_tasks w) _ _ Htx) as (tx' & Htx' & Ux).
  assert (k ≠ s) as Hks by congruence. assert (a ≠ s) as Has by congruence.
  assert (a ≠ k) as Hak by congruence.
  krun (prepare_switch_context_run _ (WorkCtx k) (SchedCtx s) (wk_context y) (sc_context x)); [done| | |done..|].
  { kproj. simpl. by rewrite !lookup_insert_ne, Hk by done. }
  { kproj. simpl. by rewrite lookup_insert_eq. }
  kproj. set (h3 := switch_heap _ _ _ _ _).
  assert (h3 !! k = Some (OWorker (wk_with_context (switched_from (wk_context y)) y))) as H3k.
  { unfold h3, switch_heap. rewrite ctx_set_other by done. simpl.
    rewrite !(lookup_insert_ne _ s k), (lookup_insert_ne _ e k), Hk by done. by rewrite lookup_insert_eq. }
  assert (h3 !! a = Some (OComplist c)) as H3a.
  { unfold h3, switch_heap. rewrite !ctx_set_other by done. by rewrite !lookup_insert_ne. }
  krun get_worker_run; [exact H3k|]. cbn [wk_complist wk_with_context]. rewrite Hc.
  krun (eq_refl : deref (Ptr a) _ = Ok _ _).
  set (w4 := set_heap h3 _).
  destruct (ums_completion_list_add_run w4 (<[EventQ s := q ++ [EventList e]]> L) a c l (WorkCtx k)
    COMPLIST_ADD_TAIL) as (m5 & E5 & D5 & HL5).
  { exact H3a. } { done. } { exact HL2. } { by rewrite lookup_insert_ne. }
  { eapply free_add_other; [done|exact Hq|done..]. }
  { apply elem_of_dom. unfold w4. kproj. rewrite D2.
    by apply elem_of_union_r, elem_of_dom. }
  rewrite (bind_ok _ _ _ _ _ E5). exists m5. split; [done|].
  unfold w4. kred. unfold yield_tasks, yield_heap, switch_tasks. by rewrite Uy, Ux.
Qed.

Lemma workers_remove_run w d k y :
  w_data w = Some d → w_heap w !! k = Some (OWorker y) →
  workers_remove k w = Ok tt (set_data (Some (d_with_workers
    (rhashtable_remove_fast (ctx_pid (wk_context y)) k (d_workers d)) d)) w).
Proof.
  intros Hd Hk. unfold workers_remove. krun get_worker_run; [done|].
  by krun (get_data_run w d Hd).
Qed.

(** Destruction of a worker that holds a reference of its completion list. *)
Lemma worker_destroy_run w d k y a c b :
  w_data w = Some d → w_heap w !! k = Some (OWorker y) → wk_complist y = Ptr a →
  w_heap w !! a = Some (OComplist c) → 0 < cl_refcount c → worker_dirs_ok w y b →
  ums_worker_destroy k w = Ok tt (set_cbs (released_cbs a c (w_cbs w) ++ [CbWorker k])
    (set_data (Some (d_with_workers
      (rhashtable_remove_fast (ctx_pid (wk_context y)) k (d_workers d)) (released_data c d)))
    (set_heap (delete b (<[a := OComplist (released_list c)]> (w_heap w)))
    (set_tasks (released_tasks c (w_tasks w))
    (set_proc (worker_unregistered y (w_proc w)) w))))).
Proof.
  intros Hd Hk Hc Ha Hr Hdirs. assert (a ≠ k) as Hak by congruence.
  pose proof Hdirs as (i & f & l & cap & s & _ & _ & _ & Hb & _).
  assert (b ≠ k) as Hbk by congruence. assert (b ≠ a) as Hba by congruence.
  unfold ums_worker_destroy. krun get_worker_run; [done|]. rewrite Hc.
  krun (eq_refl : deref (Ptr a) w = Ok _ _).
  destruct (put_released w a c d Ha Hr Hd) as (r & E).
  rewrite (bind_ok _ _ _ _ _ E).
  krun (worker_proc_unregister_run _ k y b); [kproj; by rewrite lookup_insert_ne| |].
  { destruct Hdirs as (i' & f' & l' & cap' & s' & H1 & H2 & H3 & H4 & H5).
    exists i', f', l', cap', s'. split_and!; try done; try apply H5. kproj.
    by rewrite lookup_insert_ne. }
  krun (workers_remove_run _ (released_data c d) k y);
    [done|kproj; by rewrite lookup_delete_ne, lookup_insert_ne|].
  unfold released_data. by case_decide.
Qed.

Lemma end_run w L d k s a y x c q l e e1 tx b :
  worker_at w L d k s a y x c q l →
  kmalloc (dom (w_heap w)) (w_env w) = (Some e, e1) →
  w_tasks w !! ctx_task (sc_context x) = Some tx →
  0 < cl_refcount c → worker_dirs_ok w y b →
  ∃ m', forest_ok m' (<[EventQ s := q ++ [EventList e]]> L) ∧
    ums_worker_end w = Ok 0 (set_cbs (released_cbs a c (w_cbs w) ++ [CbWorker k])
      (set_env e1 (set_lm m'
      (set_data (Some (d_with_workers
        (rhashtable_remove_fast (ctx_pid (wk_context y)) k (d_workers d)) (released_data c d)))
      (set_tasks (released_tasks c
                    (<[ctx_task (sc_context x) := mk_task TASK_RUNNING (t_usage tx)]>
                      (wake_tasks (sc_wait_q x) (w_tasks w))))
      (set_proc (worker_unregistered y (w_proc w))
      (set_heap (delete b (<[a := OComplist (released_list c)]>
        (ctx_set (SchedCtx s) (running_context (sc_context x))
          (<[s := OSched (sc_with_wait_q [] x)]>
            (<[e := OEvent (mk_event THREAD_TERMINATED (end_params (w_cur w)))]>
              (w_heap w)))))) w))))))).
Proof.
  intros [Hd Hlk Hk Hp Hs Hsl Hc Ha Hal Hg Ho HL Hq Hl] Hkm Htx Hr Hdirs.
  unfold ums_worker_end, current_context_pid.
  krun (eq_refl : gets w_cur w = Ok _ _). krun (eq_refl : rcu_read_lock w = Ok _ _).
  krun (get_data_run (set_rcu (S (w_rcu w)) w) d Hd). rewrite Hlk.
  destruct (alloc_event_run (set_rcu (S (w_rcu w)) w) L e e1) as (E & HL1 & Hfe & Hfh & HLe); [done..|].
  rewrite (bind_ok _ _ _ _ _ E). cbv iota. change (w_heap w !! e = None) in Hfh.
  pose proof Hdirs as (? & ? & ? & cap & str & _ & _ & Eb & Hb & _).
  assert (e ≠ k ∧ e ≠ s ∧ e ≠ a ∧ e ≠ b) as (Hek & Hes & Hea & Heb)
    by (split_and!; intros ->; congruence).
  krun get_ctx_run; [kproj; simpl; rewrite !lookup_insert_ne by done; by rewrite Hk|].
  rewrite Hp. cbn [is_null]. krun (eq_refl : deref (Ptr (SchedCtx s)) _ = Ok _ _).
  krun (eq_refl : container_sched (SchedCtx s) _ = Ok _ _).
  krun get_event_run; [kproj; apply lookup_insert_eq|]. krun (eq_refl : put_obj _ _ _ = Ok _ _).
  rewrite with_event_fill. set (ev := mk_event _ _) in *.
  destruct (enqueue_new_event_run (set_rcu (S (w_rcu w)) w) L s x q e e1 ev)
    as (m2 & E2 & D2 & HL2); [done..|].
  rewrite (bind_ok _ _ _ _ _ E2). clear E E2.
  destruct (wake_tasks_usage (sc_wait_q x) (w_tasks w) _ _ Htx) as (tx' & Htx' & Ux).
  assert (k ≠ s ∧ a ≠ s ∧ b ≠ s) as (Hks & Has & Hbs) by (split_and!; congruence).
  krun (wake_up_context_run _ (SchedCtx s) (sc_context x) tx'); [|done|].
  { kproj. simpl. by rewrite lookup_insert_eq. }
  kproj. set (h3 := ctx_set _ _ _).
  assert (∀ z, z ≠ s → z ≠ e → h3 !! z = w_heap w !! z) as H3.
  { intros z Hzs Hze. unfold h3. rewrite ctx_set_other by done. by rewrite !lookup_insert_ne. }
  krun (worker_destroy_run _ d k y a c b); [done|kproj; by rewrite H3|done|kproj; by rewrite H3|done| |].
  { destruct Hdirs as (i' & f' & l' & cap' & s' & K1 & K2 & K3 & K4 & K5).
    exists i', f', l', cap', s'. split_and!; try done; try apply K5. kproj. by rewrite H3. }
  exists m2. split; [done|]. kred. by rewrite Ux.
Qed.

(** Without memory for the event the worker goes on. *)
Lemma end_no_memory w d k e1 :
  w_data w = Some d → rhashtable_lookup_fast (d_workers d) (w_cur w) = Some k →
  g_event_cache (w_mod w) = true → kmalloc (dom (w_heap w)) (w_env w) = (None, e1) →
  ums_worker_end w = Ok (- ENOMEM) (set_env e1 w).
Proof.
  intros Hd Hk Hg Hm. unfold ums_worker_end, current_context_pid.
  krun (eq_refl : gets w_cur w = Ok _ _). krun (eq_refl : rcu_read_lock w = Ok _ _).
  krun (get_data_run (set_rcu (S (w_rcu w)) w) d Hd). rewrite Hk.
  unfold alloc_ums_event, with_event_cache, alloc_obj, mbind, kM_bind. kred. rewrite Hg. kred.
  rewrite Hm. by destruct w.
Qed.
End worker_runs.

(** ** Entering worker mode *)

Section enter_worker.
Context `{KO : KernelOps, LO : !ListOps lnode, LL : !ListLaws lnode, KL : !KernelLaws}.
Implicit Types (w : world) (y : ums_worker) (c : ums_complist) (L : forest lnode).

(** The procfs directory of the workers of the process. *)
Definition workers_dir_ok w (dirs : ums_proc_dirs) : Prop :=
  ∃ wd l base wpath, pd_workers_dir dirs = Ptr wd ∧
    pde_path (proc_ents (w_proc w)) (wd :: l) ∧
    pd_workers_dir_path dirs = Ptr base ∧ w_heap w !! base = Some (exact_buf wpath) ∧
    pd_workers_dir_path_size dirs = Z.of_nat (String.length wpath) ∧
    Z.of_nat (String.length wpath) < 2 ^ 32.

Definition new_worker (pid : pid_t) : ums_worker :=
  wk_with_context (fresh_context pid uninit_context) uninit_worker.

Lemma workers_insert_run w d k y r tb e :
  w_data w = Some d → w_heap w !! k = Some (OWorker y) →
  rhashtable_insert_fast (ctx_pid (wk_context y)) k (d_workers d) (w_env w) = (r, tb, e) →
  workers_insert k w = Ok r (set_env e (set_data (Some (d_with_workers tb d)) w)).
Proof.
  intros Hd Hk Hi. unfold workers_insert. krun get_worker_run; [done|].
  krun (get_data_run w d Hd). unfold call_env. kred. by rewrite Hi.
Qed.

(** Failed creation: the structure is freed, but the reference to the task
    that [ums_context_init] took is not given back, and when the insertion
    into the table fails the path of the worker stays allocated. *)
Definition create_failed w d t w' : Prop :=
  (w_heap w' = w_heap w ∨
   ∃ b path, w_heap w !! b = None ∧ w_heap w' = <[b := exact_buf path]> (w_heap w)) ∧
  w_lm w' = w_lm w ∧ w_rcu w' = w_rcu w ∧ w_blk w' = w_blk w ∧ w_cur w' = w_cur w ∧
  w_tasks w' = leaked_ref w t ∧
  ∃ d', w_data w' = Some d' ∧ d_comp_lists d' = d_comp_lists d ∧
    rht_objs (d_workers d') = rht_objs (d_workers d) ∧ d_schedulers d' = d_schedulers d.
Record worker_created w d t k b w' : Prop := {
  wc_fresh : w_heap w !! k = None ∧ w_heap w !! b = None ∧ k ≠ b;
  wc_heap : ∃ i f path, w_heap w' = <[b := exact_buf path]>
    (<[k := OWorker (registered_dirs i f b path (new_worker (w_cur w)))]> (w_heap w));
  wc_frame : ∃ tb, rht_objs tb = {[ (w_cur w, k) ]} ∪ rht_objs (d_workers d) ∧
    w' = set_env (w_env w') (set_proc (w_proc w') (set_heap (w_heap w')
      (set_data (Some (d_with_workers tb d))
        (set_tasks (<[w_cur w := one_more_ref t]> (w_tasks w))
          (set_lm (<[wnode k := uninit_cell]> (w_lm w)) w)))));
}.

Lemma worker_init_run w d t k :
  w_data w = Some d → workers_dir_ok w (d_dirs d) →
  w_heap w !! k = Some (OWorker uninit_worker) →
  w_tasks w !! w_cur w = Some t → - 2 ^ 31 ≤ w_cur w < 2 ^ 31 →
  ∃ r w' tb, ums_worker_init k w = Ok r w' ∧
    w' = set_env (w_env w') (set_proc (w_proc w') (set_heap (w_heap w')
      (set_data (Some (d_with_workers tb d))
        (set_tasks (<[w_cur w := one_more_ref t]> (w_tasks w)) w)))) ∧
    ((r < 0 ∧ rht_objs tb = rht_objs (d_workers d) ∧ ∃ y,
       (w_heap w' = <[k := OWorker y]> (w_heap w) ∨ ∃ b path, w_heap w !! b = None ∧
          w_heap w' = <[b := exact_buf path]> (<[k := OWorker y]> (w_heap w)))) ∨
     (r = 0 ∧ rht_objs tb = {[ (w_cur w, k) ]} ∪ rht_objs (d_workers d) ∧
      ∃ i f b path, w_heap w !! b = None ∧ w_heap w' = <[b := exact_buf path]>
        (<[k := OWorker (registered_dirs i f b path (new_worker (w_cur w)))]> (w_heap w)))).
Proof.
  intros Hd (wd & l & base & wpath & E1 & E2 & E3 & E4 & E5 & E6) Hk Ht Hpid.
  unfold ums_worker_init.
  krun (ums_context_init_run w (WorkCtx k) uninit_context t); [simpl; by rewrite Hk|done|].
  assert (ctx_set (WorkCtx k) (fresh_context (w_cur w) uninit_context) (w_heap w) =
    <[k := OWorker (new_worker (w_cur w))]> (w_heap w)) as -> by (simpl; by rewrite Hk).
  set (w1 := set_heap _ _). krun (get_data_run w1 d Hd).
  assert (k ≠ base) as Hkb by (intros ->; by rewrite E4 in Hk).
  destruct (worker_proc_register_run w1 (d_dirs d) k (new_worker (w_cur w)) wd l base wpath)
    as (r & w2 & E & Hfr & Hcase); [apply lookup_insert_eq|done..| |done|done|].
  { unfold w1. kproj. by rewrite lookup_insert_ne. }
  rewrite (bind_ok _ _ _ _ _ E). unfold w1 in *. clear E w1. kproj_in Hcase.
  destruct Hcase as [(-> & ds & Hh)|(-> & i & f & b & Fb & Hh & _)].
  - rewrite decide_True by done. eexists _, w2, (d_workers d). split; [done|]. split.
    + etrans; [exact Hfr|]. unfold set_env, set_proc, set_data, set_tasks. kproj. rewrite Hd. by destruct d.
    + left. split_and!; [done..|]. eexists. left. rewrite Hh. kproj. by rewrite insert_insert_eq.
  - kzero. destruct (rhashtable_insert_fast (w_cur w) k (d_workers d) (w_env w2))
      as [[r tb] e] eqn:Hi.
    assert (w_heap w !! b = None ∧ k ≠ b) as [Fb' Hkb'].
    { kproj_in Fb. apply lookup_insert_None in Fb as [??]. done. }
    rewrite insert_insert_eq in Hh. assert (w_data w2 = Some d) as Hd2 by (by rewrite Hfr).
    eassert (w_heap w2 !! k = Some (OWorker _)) as Hk2
      by (rewrite Hh, lookup_insert_ne by done; apply lookup_insert_eq).
    rewrite (workers_insert_run w2 d k _ r tb e Hd2 Hk2 Hi).
    eexists r, _, tb. split; [done|]. kproj. rewrite Hh.
    split; [destruct (proc_frame_fields _ _ Hfr) as (? & ? & ? & ? & ? & ? & ? & ? & ?); kext|].
    apply rhashtable_insert_spec in Hi as [[-> Hobj]|[Hr Hobj]].
    + right. split_and!; [done..|]. by eexists i, f, b, _.
    + left. split_and!; [done..|]. eexists. right. by eexists b, _.
Qed.

Lemma worker_create_run w d t :
  w_data w = Some d → workers_dir_ok w (d_dirs d) → cells_owned w →
  w_tasks w !! w_cur w = Some t → - 2 ^ 31 ≤ w_cur w < 2 ^ 31 →
  ∃ r w', ums_worker_create w = Ok r w' ∧
    match r with
    | inl err => err < 0 ∧ create_failed w d t w'
    | inr k => ∃ b, worker_created w d t k b w'
    end.
Proof.
  intros Hd Hdirs Ho Ht Hpid.
  unfold ums_worker_create, alloc_ums_worker, alloc_obj. unfold mbind at 1, kM_bind at 1.
  destruct (kmalloc _ _) as [[k|] e1] eqn:Hk.
  2:{ eexists (inl _), _. split; [done|]. split; [done|]. split_and!; try done; [by left|by rewrite (leaked_ref_none w t e1 Hk)|]. by exists d. }
  apply kmalloc_fresh in Hk as Hf. apply not_elem_of_dom in Hf.
  assert (w_lm w !! wnode k = None) as Hc.
  { destruct (w_lm w !! wnode k) eqn:E; [|done]. destruct (Ho (wnode k)); [eauto|].
    simpl in *. congruence. }
  cbn [obj_nodes add_nodes foldr]. fold (wnode k). set (w1 := set_env _ _).
  destruct (worker_init_run w1 d t k) as (r & w2 & tb & E & Hfr & Hcase).
  { done. }
  { destruct Hdirs as (wd & l & base & wpath & ? & ? & ? & Hb & ? & ?).
    exists wd, l, base, wpath. split_and!; try done. unfold w1. kproj.
    rewrite lookup_insert_ne; [done|congruence]. }
  { apply lookup_insert_eq. } { done. } { done. }
  rewrite (bind_ok _ _ _ _ _ E). clear E.
  unfold w1 in *. clear w1. kproj_in Hfr. kproj_in Hcase.
  destruct Hcase as [(Hr & Hobj & y & Hh)|(-> & Hobj & i & f & b & path & Fb & Hh)].
  - rewrite decide_True by lia.
    assert (w_heap w2 !! k = Some (OWorker y) ∧
      (delete k (w_heap w2) = w_heap w ∨ ∃ b path, w_heap w !! b = None ∧
         delete k (w_heap w2) = <[b := exact_buf path]> (w_heap w))) as [Hk2 Hdel].
    { destruct Hh as [->|(b & path & Fb & ->)].
      - rewrite lookup_insert_eq, insert_insert_eq. split; [done|left]. by apply delete_insert_id.
      - apply lookup_insert_None in Fb as [Fb Hkb]. rewrite insert_insert_eq.
        rewrite lookup_insert_ne, lookup_insert_eq by done. split; [done|right]. exists b, path.
        split; [done|]. rewrite delete_insert_ne by done. by rewrite delete_insert_id. }
    unfold free_ums_worker, kfree. kred. rewrite Hk2. eexists (inl _), _. split; [done|].
    split; [done|]. rewrite Hfr. unfold create_failed. kproj.
    cbn [obj_nodes del_nodes foldr]. rewrite delete_insert_id by done.
    rewrite (leaked_ref_some w t k e1 Hk). split_and!; try done. by eexists.
  - kzero. eexists (inr k), w2. split; [done|]. exists b.
    apply lookup_insert_None in Fb as [Fb Hkb]. rewrite insert_insert_eq in Hh.
    split; [done|by exists i, f, path|]. exists tb. split; [done|]. rewrite Hfr at 1. done.
Qed.

(** The new worker of the current task, suspended on the completion list. *)
Definition suspended_worker (pid : pid_t) (a : addr) i f b path : ums_worker :=
  let y := wk_with_complist (Ptr a) (registered_dirs i f b path (new_worker pid)) in
  wk_with_context (idle_context (wk_context y)) y.

Record worker_entered w w' L d t (k a : addr) c (l : list lnode) : Prop := {
  we_worker : ∃ i f b path, w_heap w' !! k = Some (OWorker (suspended_worker (w_cur w) a i f b path));
  we_fresh : w_heap w !! k = None;
  we_complist : w_heap w' !! a =
    Some (OComplist (mk_complist (cl_id c) false [] (cl_refcount c + 1)));
  we_others : ∀ z, z ≠ k → z ≠ a → is_Some (w_heap w !! z) → w_heap w' !! z = w_heap w !! z;
  we_lists : forest_ok (w_lm w') (<[ClHead a := l ++ [wnode k]]> L);
  we_table : ∃ tb, w_data w' = Some (d_with_workers tb d) ∧
    rht_objs tb = {[ (w_cur w, k) ]} ∪ rht_objs (d_workers d);
  we_tasks : w_tasks w' = wake_tasks (cl_wait_q c)
    (<[w_cur w := mk_task TASK_INTERRUPTIBLE (t_usage t + 1)]> (w_tasks w));
  we_rcu : w_rcu w' = w_rcu w;
  we_blk : w_blk w' = w_blk w ++ [w_rcu w];
}.

Lemma enter_worker_run w L d t args a c l :
  w_data w = Some d → workers_dir_ok w (d_dirs d) → cells_owned w →
  w_tasks w !! w_cur w = Some t → - 2 ^ 31 ≤ w_cur w < 2 ^ 31 →
  idr_find (d_comp_lists d) (ea_ums_complist args) = Some a →
  w_heap w !! a = Some (OComplist c) → cl_lock c = false → 0 < cl_refcount c →
  forest_ok (w_lm w) L → L !! ClHead a = Some l →
  ∃ r w', enter_ums_worker_mode args w = Ok r w' ∧
    ((r < 0 ∧ create_failed w d t w') ∨
     (r = 0 ∧ ∃ k, worker_entered w w' L d t k a c l)).
Proof.
  intros Hd Hdirs Ho Ht Hpid Ha Hac Hl Hr HL Hq. unfold enter_ums_worker_mode.
  destruct (worker_create_run w d t Hd Hdirs Ho Ht Hpid) as (r & w1 & E & Hcase).
  rewrite (bind_ok _ _ _ _ _ E). clear E.
  destruct r as [err|k]; [destruct Hcase; eexists _, w1; by split; [|left]|].
  destruct Hcase as (b & [(Fk & Fb & Hkb) (i & f & path & Hh) (tb & Hobj & Hfr)]).
  set (y := registered_dirs i f b path (new_worker (w_cur w))) in *.
  assert (a ≠ k ∧ a ≠ b) as [Hak Hab] by (split; congruence).
  krun (eq_refl : rcu_read_lock w1 = Ok _ _).
  krun (idr_l_find_run (set_rcu (S (w_rcu w1)) w1) (d_with_workers tb d)); [by rewrite Hfr|].
  cbn [d_comp_lists d_with_workers]. rewrite Ha.
  krun (get_ums_complist_run _ a c); [kproj; rewrite Hh, !lookup_insert_ne by done; done|done|].
  krun (rcu_read_unlock_run _ (w_rcu w1)); [done|]. kproj.
  assert (w_lm w1 = <[wnode k := uninit_cell]> (w_lm w) ∧
    w_tasks w1 = <[w_cur w := one_more_ref t]> (w_tasks w) ∧ w_rcu w1 = w_rcu w ∧
    w_blk w1 = w_blk w ∧ w_data w1 = Some (d_with_workers tb d)) as (Elm & Et & Er & Eb & Ed)
    by (rewrite Hfr; done). clear Hfr. rewrite Hh.
  krun (upd_worker_run _ k y); [kproj; rewrite !(lookup_insert_ne _ _ k) by done; apply lookup_insert_eq|].
  set (y1 := wk_with_complist (Ptr a) y).
  krun (prepare_suspend_context_run _ (WorkCtx k) (wk_context y1) (one_more_ref t)).
  { kproj. simpl. by rewrite lookup_insert_eq. } { kproj. rewrite Et. apply lookup_insert_eq. }
  kproj. cbn [ctx_set]. rewrite lookup_insert_eq, insert_insert_eq. set (w2 := set_heap _ _).
  destruct (fresh_cell_free w L (wnode k) Ho HL Fk) as [_ Hn].
  destruct (ums_completion_list_add_run w2 L a (cl_with_refcount (cl_refcount c + 1) c) l
    (WorkCtx k) COMPLIST_ADD_TAIL) as (m & E & D & HL2).
  { unfold w2. kproj. rewrite lookup_insert_ne by done. apply lookup_insert_eq. }
  { done. }
  { unfold w2. kproj. rewrite Elm. eapply forest_other_cell; [done..|].
    intros z Hz. by apply lookup_insert_ne. }
  { done. } { by apply free_unused. }
  { unfold w2. kproj. rewrite Elm, lookup_insert_eq. by eexists. }
  rewrite (bind_ok _ _ _ _ _ E). unfold w2. clear E D w2. kred.
  rewrite list_add_flags_tail, delete_id in HL2.
  2:{ destruct (L !! wnode k) eqn:El; [|done]. destruct (Hn _ _ El). set_solver. }
  eexists _, _. split; [done|right; split; [done|]]. exists k.
  assert (b ≠ k) as Hbk by done.
  split; kproj; try done.
  - exists i, f, b, path. by rewrite lookup_insert_ne, lookup_insert_eq.
  - rewrite lookup_insert_eq. destruct c; simpl in *; by subst.
  - intros z Hzk Hza [o Hz]. assert (z ≠ b) by congruence. by rewrite !lookup_insert_ne.
  - by exists tb.
  - rewrite Et. simpl. by rewrite insert_insert_eq.
  - by rewrite Er, Eb.
Qed.

(** The completion list does not exist: the worker is destroyed through its
    [complist] field, which nothing has written yet. *)
Lemma enter_worker_no_complist_run w d t args :
  w_data w = Some d → workers_dir_ok w (d_dirs d) → cells_owned w →
  w_tasks w !! w_cur w = Some t → - 2 ^ 31 ≤ w_cur w < 2 ^ 31 →
  idr_find (d_comp_lists d) (ea_ums_complist args) = None →
  match ums_worker_create w with
  | Ok (inr _) _ => enter_ums_worker_mode args w = Bug UninitPtr
  | Ok (inl r) w' => enter_ums_worker_mode args w = Ok r w' ∧ r < 0 ∧ create_failed w d t w'
  | _ => False
  end.
Proof.
  intros Hd Hdirs Ho Ht Hpid Ha. unfold enter_ums_worker_mode.
  destruct (worker_create_run w d t Hd Hdirs Ho Ht Hpid) as (r & w1 & E & Hcase).
  rewrite E, (bind_ok _ _ _ _ _ E). clear E. destruct r as [err|k]; [done|].
  destruct Hcase as (b & [(Fk & Fb & Hkb) (i & f & path & Hh) (tb & Hobj & Hfr)]).
  krun (eq_refl : rcu_read_lock w1 = Ok _ _).
  krun (idr_l_find_run (set_rcu (S (w_rcu w1)) w1) (d_with_workers tb d)); [by rewrite Hfr|].
  cbn [d_comp_lists d_with_workers]. rewrite Ha.
  krun (rcu_read_unlock_run _ (w_rcu w1)); [done|]. apply bind_bug. unfold ums_worker_destroy.
  krun get_worker_run; [kproj; rewrite Hh, lookup_insert_ne by done; apply lookup_insert_eq|]. done.
Qed.
End enter_worker.
