(* ===== verification/Device.v ===== *)
(** * The device: [src/src/module/src/device.c], [ums_mod.c]

    Opening and closing the device file, the dispatch of its ioctl calls, the
    RCU callbacks, and loading and unloading the module. *)
From S2P Require Import Prelude ListHead ListSpec Kernel Uapi State Prims Context Proc Complist Scheduler Worker.
From stdpp Require Import prelude gmap strings.

Local Open Scope Z_scope.

Section device.
Context `{KO : KernelOps, LO : !ListOps lnode, IO : IoctlNr}.

Definition ums_caches_init : kM Z := ums_scheduling_cache_create.
Definition ums_caches_destroy : kM unit := ums_scheduling_cache_destroy.

(** ** Open and release *)

(** [IDR_L_INIT] of a new pool, [IDR_L_DESTROY] of the pool of the device:
    all entries are dropped. *)
Definition IDR_L_INIT : idr := idr_init.
Definition IDR_L_DESTROY : kM unit :=
  d ← get_data; put_data (d_with_comp_lists idr_init d).

Definition ums_dev_open (f_flags : Z) : kM Z :=
  if decide (Z.land f_flags O_ACCMODE ≠ O_RDONLY) then mret (- EACCES) else
  r ← alloc_obj OData zero_cell;
  match r with
  | None => mret (- ENOMEM)
  | Some a =>
      i ← ums_proc_dirs_init zero_proc_dirs;
      let '(retval, dirs) := i : Z * ums_proc_dirs in
      if decide (retval ≠ 0) then _ ← kfree a; mret retval else
      let comp_lists := IDR_L_INIT in
      r ← call_env rhashtable_init;
      if decide (r.1 ≠ 0) then
        _ ← ums_proc_dirs_destroy dirs; _ ← kfree a; mret r.1
      else
      let schedulers := r.2 in
      r ← call_env rhashtable_init;
      if decide (r.1 ≠ 0) then
        _ ← ums_proc_dirs_destroy dirs; _ ← kfree a; mret r.1
      else
      _ ← put_data (mk_data a comp_lists schedulers r.2 dirs);
      mret 0
  end.

Definition release_worker (k : addr) : kM unit := ums_worker_destroy k.
Definition release_scheduler (s : addr) : kM unit := ums_scheduler_destroy s.
Definition release_complist (id : Z) (a : addr) : kM Z := _ ← put_ums_complist a; mret 0.

(** [rhashtable_free_and_destroy]: the callback is called on each object *)
Fixpoint free_each (f : addr → kM unit) (l : list addr) : kM unit :=
  match l with [] => mret tt | a :: l => _ ← f a; free_each f l end.
(** [IDR_L_FOR_EACH], as its comment in [idr_l.h] says: the callback is called on
    each entry, and the first value other than 0 ends the iteration.  The macro
    hands this to the kernel's [idr_for_each]. *)
Fixpoint IDR_L_FOR_EACH (f : Z → addr → kM Z) (l : list (Z * addr)) : kM Z :=
  match l with
  | [] => mret 0
  | (id, a) :: l => r ← f id a; if decide (r ≠ 0) then mret r else IDR_L_FOR_EACH f l
  end.

Definition release_objects : kM unit :=
  d ← get_data;
  _ ← free_each release_worker (rhashtable_seq (d_workers d));
  d ← get_data;
  _ ← free_each release_scheduler (rhashtable_seq (d_schedulers d));
  _ ← rcu_read_lock;
  d ← get_data;
  _ ← IDR_L_FOR_EACH release_complist (idr_seq (d_comp_lists d));
  _ ← rcu_read_unlock;
  IDR_L_DESTROY.

Definition ums_dev_release : kM Z :=
  _ ← release_objects;
  d ← get_data;
  _ ← ums_proc_dirs_destroy (d_dirs d);
  d ← get_data;
  _ ← kfree (d_addr d);
  _ ← modify (set_data None);
  mret 0.

(** ** ioctl *)

Definition ums_dev_ioctl (cmd : Z) (arg : ioctl_arg) : kM Z :=
  if decide (cmd = IOCTL_CREATE_UMS_CLIST) then create_ums_complist (arg_id arg)
  else if decide (cmd = IOCTL_ENTER_UMS) then enter_ums_mode (arg_enter arg)
  else if decide (cmd = IOCTL_UMS_SCHED_DQEVENT) then ums_sched_dqevent (arg_event arg)
  else if decide (cmd = IOCTL_DEQUEUE_UMS_CLIST) then ums_complist_dqcontext (arg_dequeue arg)
  else if decide (cmd = IOCTL_NEXT_UMS_CTX_LIST) then ums_complist_next_context (arg_next arg)
  else if decide (cmd = IOCTL_DELETE_UMS_CLIST) then ums_complist_delete (s32 (arg_val arg))
  else if decide (cmd = IOCTL_EXEC_UMS_CTX) then exec_ums_context (s32 (arg_val arg))
  else if decide (cmd = IOCTL_UMS_YIELD) then ums_worker_yield (arg_val arg)
  else if decide (cmd = IOCTL_EXIT_UMS) then ums_worker_end
  else mret (- ENOTSUPP).

(** The tables the device is registered with: 32-bit processes call the same
    handler. *)
Record file_operations := mk_fops {
  fo_open : Z → kM Z;
  fo_release : kM Z;
  fo_unlocked_ioctl : Z → ioctl_arg → kM Z;
  fo_compat_ioctl : Z → ioctl_arg → kM Z;
}.
Definition ums_fops : file_operations :=
  mk_fops ums_dev_open ums_dev_release ums_dev_ioctl ums_dev_ioctl.

(** MISC_DYNAMIC_MINOR and S_IALLUGO *)
Record miscdevice := mk_miscdevice {
  md_minor : Z;
  md_name : string;
  md_fops : file_operations;
  md_mode : Z;
}.
Definition ums_dev : miscdevice := mk_miscdevice 255 UMS_DEV_NAME ums_fops 0xFFF.

(** ** RCU callbacks *)

Definition run_rcu_cb (cb : rcu_cb) : kM unit :=
  match cb with
  | CbComplist a => ums_complist_call_rcu a
  | CbSched a => ums_scheduler_call_rcu a
  | CbWorker a => ums_worker_call_rcu a
  end.
Fixpoint run_rcu_cbs (cbs : list rcu_cb) : kM unit :=
  match cbs with
  | [] => mret tt
  | cb :: cbs => _ ← run_rcu_cb cb; run_rcu_cbs cbs
  end.
Definition rcu_barrier : kM unit :=
  cbs ← gets w_cbs; _ ← modify (set_cbs []); run_rcu_cbs cbs.

(** ** ums_mod.c *)

Definition set_registered (v : bool) : kM unit :=
  modify (λ w, set_mod (mk_mod (g_event_cache (w_mod w)) (g_proc_base_dir (w_mod w))
    (g_proc_base_dir_path_len (w_mod w)) v) w).
Definition register_ums_device : kM Z :=
  r ← call_env misc_register; _ ← set_registered (bool_decide (r = 0)); mret r.
Definition unregister_ums_device : kM unit := set_registered false.

Definition ums_init : kM Z :=
  retval ← ums_caches_init;
  if decide (retval ≠ 0) then mret retval else
  retval ← register_ums_device;
  if decide (retval ≠ 0) then _ ← ums_caches_destroy; mret retval else
  retval ← ums_proc_init;
  if decide (retval ≠ 0) then
    _ ← unregister_ums_device; _ ← ums_caches_destroy; mret retval
  else mret 0.

Definition ums_exit : kM unit :=
  _ ← rcu_barrier;
  _ ← unregister_ums_device;
  _ ← ums_caches_destroy;
  ums_proc_destroy.
End device.

(** ** Behaviour of the operations *)

Section device_runs.
Context `{KO : KernelOps, LO : !ListOps lnode, IO : IoctlNr, KL : !KernelLaws}.
Implicit Types (w : world).

(** Loading the module: all of it, or nothing. *)
Lemma ums_init_run w :
  g_registered (w_mod w) = false →
  ∃ r w', ums_init w = Ok r w' ∧ w_cbs w' = w_cbs w ∧
    ((r = 0 ∧ g_event_cache (w_mod w') = true ∧ g_registered (w_mod w') = true ∧
      ∃ b, base_ready w' b) ∨
     (r < 0 ∧ g_event_cache (w_mod w') = false ∧ g_registered (w_mod w') = false ∧
      proc_ents (w_proc w') = proc_ents (w_proc w))).
Proof.
  intros Hreg. unfold ums_init, ums_caches_init, ums_scheduling_cache_create.
  unfold set_event_cache, register_ums_device, set_registered. kred.
  destruct (kmem_cache_create (w_env w)) as [[] e1]; kproj; cbn [g_registered g_event_cache].
  2:{ rewrite decide_True by done. eexists _, _. split; [done|]. split; [done|right].
      kproj. by split_and!. }
  kzero. kred. destruct (misc_register e1) as [r e2] eqn:Hm. apply misc_register_ret in Hm.
  kproj. destruct (decide (r = 0)) as [->|Hr].
  - kzero. set (w1 := set_mod _ _). destruct (ums_proc_init_run w1) as (r & w' & E & Ec & Eg & Eb & Hcase).
    unfold mbind, kM_bind. rewrite E. destruct Hcase as [[-> [b Hb]]|[-> Hp]].
    + kzero. eexists _, w'. split; [done|]. split; [done|left]. rewrite Ec, Eg. eauto.
    + rewrite decide_True by done. unfold unregister_ums_device, set_registered.
      unfold ums_caches_destroy, ums_scheduling_cache_destroy, set_event_cache. kred.
      eexists _, _. split; [done|]. split; [done|right]. by split_and!.
  - rewrite decide_True by done. unfold ums_caches_destroy, ums_scheduling_cache_destroy.
    unfold set_event_cache. kred. eexists _, _. split; [done|]. split; [done|right]. kproj.
    split_and!; [lia|done| |done]. cbn. by rewrite bool_decide_false.
Qed.

(** The call up to the procfs directories, and the failure of one of the two
    table initialisations behind it. *)
Definition open_prepare : kM (option (addr * (Z * ums_proc_dirs))) :=
  r ← alloc_obj OData zero_cell;
  match r with
  | None => mret None
  | Some a => i ← ums_proc_dirs_init zero_proc_dirs; mret (Some (a, i))
  end.
Definition table_fails (e : kenv) : bool :=
  let i := rhashtable_init e in
  bool_decide (i.1.1 ≠ 0) || bool_decide ((rhashtable_init i.2).1.1 ≠ 0).

(** An open for reading: the device is set up, or what was allocated before is
    given back, or, when a table cannot be initialised, the defective clean-up
    of the procfs directories is reached. *)
Lemma ums_dev_open_run w b flags :
  base_ready w b → - 2 ^ 31 ≤ w_cur w < 2 ^ 31 → Z.land flags O_ACCMODE = O_RDONLY →
  match open_prepare w with
  | Ok None w' => ums_dev_open flags w = Ok (- ENOMEM) w' ∧ kmalloc_refuses ∧
      w_heap w' = w_heap w ∧ w_data w' = w_data w
  | Ok (Some (a, (retval, dirs))) w1 =>
      if decide (retval ≠ 0) then
        ∃ w', ums_dev_open flags w = Ok retval w' ∧
          retval = - ENOMEM ∧ (kmalloc_refuses ∨ procfs_refuses) ∧
          w_heap w' = w_heap w ∧ w_data w' = w_data w
      else if table_fails (w_env w1) then ums_dev_open flags w = Bug UseAfterFree
      else ∃ w' t1 t2, ums_dev_open flags w = Ok 0 w' ∧
        w_heap w !! a = None ∧ w_heap w' !! a = Some OData ∧
        w_data w' = Some (mk_data a idr_init t1 t2 dirs) ∧
        rht_objs t1 = ∅ ∧ rht_objs t2 = ∅ ∧ dirs_ok w' b dirs
  | _ => False
  end.
Proof.
  intros Hb Hpid Hfl. unfold ums_dev_open. rewrite decide_False by congruence.
  destruct (kmalloc (dom (w_heap w)) (w_env w)) as [[a|] e1] eqn:Hk.
  2:{ assert (alloc_obj OData zero_cell w = Ok None (set_env e1 w)) as E
        by (unfold alloc_obj; by rewrite Hk).
      assert (open_prepare w = Ok None (set_env e1 w)) as ->
        by (unfold open_prepare; by rewrite (bind_ok _ _ _ _ _ E)).
      rewrite (bind_ok _ _ _ _ _ E). split; [done|]. split; [|done]. eexists _, _. by rewrite Hk. }
  apply kmalloc_fresh in Hk as Hf. apply not_elem_of_dom in Hf.
  assert (alloc_obj OData zero_cell w =
    Ok (Some a) (set_env e1 (set_heap (<[a := OData]> (w_heap w)) w))) as E
    by (unfold alloc_obj; by rewrite Hk).
  rewrite (bind_ok _ _ _ _ _ E). cbv iota. set (w1 := set_env _ _) in *.
  destruct (ums_proc_dirs_init_run w1 b) as (r & dirs & w2 & E' & HF & Hcase); [exact Hb|exact Hpid|].
  assert (open_prepare w = Ok (Some (a, (r, dirs))) w2) as ->
    by (unfold open_prepare; rewrite (bind_ok _ _ _ _ _ E); by rewrite (bind_ok _ _ _ _ _ E')).
  rewrite (bind_ok _ _ _ _ _ E'). clear E E'. cbv iota beta.
  destruct (proc_frame_fields _ _ HF) as (_ & _ & _ & _ & _ & Ed & _).
  destruct Hcase as [(-> & Hno & Hh)|(-> & Hok & a1 & a2 & _ & _ & F1 & F2 & _ & Hh)].
  { change (w_heap w2 = <[a := OData]> (w_heap w)) in Hh. rewrite !decide_True by done.
    assert (kfree a w2 = Ok tt (set_heap (w_heap w) (set_lm (w_lm w2) w2))) as E.
    { unfold kfree. by rewrite Hh, lookup_insert_eq, delete_insert_id by done. }
    eexists. split; [by rewrite (bind_ok _ _ _ _ _ E)|]. kproj. split_and!; [done..|exact Ed]. }
  assert (w_heap w2 !! a = Some OData) as Ha.
  { rewrite Hh. unfold w1 in *. kproj_in F1. kproj_in F2. kproj.
    apply lookup_insert_None in F1 as [_ ?]. apply lookup_insert_None in F2 as [_ ?].
    rewrite (lookup_insert_ne _ a2), (lookup_insert_ne _ a1) by done. apply lookup_insert_eq. }
  rewrite !(decide_False (P := 0 ≠ 0)) by (by intros []). unfold table_fails.
  destruct (rhashtable_init (w_env w2)) as [[r1 t1] e2] eqn:H1.
  pose proof (call_env_run w2 rhashtable_init _ _ H1) as E1. rewrite (bind_ok _ _ _ _ _ E1).
  cbn [fst snd]. apply rhashtable_init_spec in H1 as [_ Ht1].
  destruct (decide (r1 ≠ 0)) as [Hr1|Hr1].
  { rewrite bool_decide_true by done.
    apply bind_bug, (ums_proc_dirs_destroy_bug _ b). by eapply dirs_ok_same. }
  rewrite bool_decide_false by done.
  destruct (rhashtable_init e2) as [[r2 t2] e3] eqn:H2.
  pose proof (call_env_run (set_env e2 w2) rhashtable_init _ _ H2) as E2.
  rewrite (bind_ok _ _ _ _ _ E2). cbn [fst snd orb]. apply rhashtable_init_spec in H2 as [_ Ht2].
  destruct (decide (r2 ≠ 0)) as [Hr2|Hr2].
  { rewrite bool_decide_true by done.
    apply bind_bug, (ums_proc_dirs_destroy_bug _ b). by eapply dirs_ok_same. }
  rewrite bool_decide_false by done. eexists _, t1, t2. split; [done|].
  split_and!; [done..|by eapply dirs_ok_same].
Qed.

(** Closing the device: the clean-up of the procfs directories is reached
    whenever the objects could be destroyed, and uses freed entries. *)
Lemma ums_dev_release_bug w w1 d b :
  release_objects w = Ok tt w1 → w_data w1 = Some d → dirs_ok w1 b (d_dirs d) →
  ums_dev_release w = Bug UseAfterFree.
Proof.
  intros E Hd Hok. unfold ums_dev_release. rewrite (bind_ok _ _ _ _ _ E).
  krun (get_data_run w1 d Hd). by apply bind_bug, (ums_proc_dirs_destroy_bug _ b).
Qed.

(** ** The dispatch of ioctl calls *)

Definition ioctl_commands : list Z :=
  [IOCTL_CREATE_UMS_CLIST; IOCTL_ENTER_UMS; IOCTL_UMS_SCHED_DQEVENT; IOCTL_DEQUEUE_UMS_CLIST;
   IOCTL_NEXT_UMS_CTX_LIST; IOCTL_DELETE_UMS_CLIST; IOCTL_EXEC_UMS_CTX; IOCTL_UMS_YIELD;
   IOCTL_EXIT_UMS].
Definition ioctl_handlers (arg : ioctl_arg) : list (kM Z) :=
  [create_ums_complist (arg_id arg); enter_ums_mode (arg_enter arg);
   ums_sched_dqevent (arg_event arg); ums_complist_dqcontext (arg_dequeue arg);
   ums_complist_next_context (arg_next arg); ums_complist_delete (s32 (arg_val arg));
   exec_ums_context (s32 (arg_val arg)); ums_worker_yield (arg_val arg); ums_worker_end].

Lemma ioctl_commands_nrs : IOC_NR <$> ioctl_commands = [1; 2; 3; 4; 5; 9; 6; 7; 8].
Proof.
  pose proof ioctl_nrs as (E1 & E2 & E3 & E4 & E5 & E6 & E7 & E8 & E9).
  unfold ioctl_commands. simpl. by rewrite E1, E2, E3, E4, E5, E6, E7, E8, E9.
Qed.
Lemma ioctl_commands_nodup : NoDup ioctl_commands.
Proof.
  apply (NoDup_fmap_1 IOC_NR). rewrite ioctl_commands_nrs.
  apply (bool_decide_unpack _). by vm_compute.
Qed.

Lemma ioctl_commands_ne i j c c' :
  ioctl_commands !! i = Some c → ioctl_commands !! j = Some c' → i ≠ j → c ≠ c'.
Proof. intros Hi Hj Hne ->. by apply Hne, (NoDup_lookup _ _ _ _ ioctl_commands_nodup Hi). Qed.

Lemma ioctl_dispatch_run cmd arg :
  ums_dev_ioctl cmd arg =
    match list_find (λ c, cmd = c) ioctl_commands with
    | Some (i, _) => default (mret (- ENOTSUPP)) (ioctl_handlers arg !! i)
    | None => mret (- ENOTSUPP)
    end.
Proof. unfold ums_dev_ioctl, ioctl_commands. simpl. by repeat case_decide. Qed.

(** Each command runs its own handler. *)
Lemma ioctl_nth arg i cmd :
  ioctl_commands !! i = Some cmd → ioctl_handlers arg !! i = Some (ums_dev_ioctl cmd arg).
Proof.
  intros Hi. pose proof ioctl_commands_nodup as Hnd. rewrite ioctl_dispatch_run.
  destruct (list_find _ _) as [[j c]|] eqn:Ef.
  - apply list_find_Some in Ef as (Hj & <- & _). rewrite (NoDup_lookup _ _ _ _ Hnd Hi Hj).
    destruct (lookup_lt_is_Some_2 (ioctl_handlers arg) j) as [m ->]; [|done].
    by apply lookup_lt_Some in Hj.
  - apply list_find_None in Ef. rewrite Forall_lookup in Ef. by destruct (Ef i cmd).
Qed.
Lemma ioctl_dequeue arg :
  ums_dev_ioctl IOCTL_DEQUEUE_UMS_CLIST arg = ums_complist_dqcontext (arg_dequeue arg).
Proof. by pose proof (ioctl_nth arg 3 _ eq_refl) as [= ->]. Qed.
Lemma ioctl_next arg :
  ums_dev_ioctl IOCTL_NEXT_UMS_CTX_LIST arg = ums_complist_next_context (arg_next arg).
Proof. by pose proof (ioctl_nth arg 4 _ eq_refl) as [= ->]. Qed.
Lemma ioctl_dqevent arg :
  ums_dev_ioctl IOCTL_UMS_SCHED_DQEVENT arg = ums_sched_dqevent (arg_event arg).
Proof. by pose proof (ioctl_nth arg 2 _ eq_refl) as [= ->]. Qed.
End device_runs.
