(* ===== verification/Rcu.v ===== *)
(** * RCU read-side sections

    A small program logic for one question: how deep is the current task in
    RCU read-side critical sections when a call returns, and does it ever give
    up the CPU inside one?  [triple u i m j] says of a run of [m] from nesting
    [i]: if it returns, it ends at nesting [j] and every call of [schedule] on
    the way was made at nesting 0; if it goes to sleep, it sleeps at nesting 1;
    and it does not leave a section it has not entered, unless [u].  The
    handlers are verified by walking through their text: calls that neither
    enter nor leave a section nor sleep are [balanced] (hint database [rcu]). *)
From S2P Require Import Prelude ListHead ListSpec Kernel Uapi State Prims Context Proc.
From S2P Require Import Complist Scheduler Worker Device.
From stdpp Require Import prelude gmap.

Create HintDb rcu.
Create HintDb rcu_text.

Section logic.
Context `{KO : KernelOps, LO : !ListOps lnode}.
Implicit Types (w : world) (u : bool) (i j k : nat).

(** The points where the CPU was given up between [w] and [w']. *)
Definition quiet (w w' : world) : Prop :=
  ∃ l, w_blk w' = w_blk w ++ l ∧ Forall (eq 0) l.
Definition triple {A} u i (m : kM A) j : Prop :=
  ∀ w, w_rcu w = i →
    match m w with
    | Ok _ w' => w_rcu w' = j ∧ quiet w w'
    | Sleep w' => w_rcu w' = 1
    | Bug b => b = RcuUnbalanced → u = true
    end.
Definition balanced {A} (m : kM A) : Prop :=
  ∀ w, match m w with
       | Ok _ w' => w_rcu w' = w_rcu w ∧ w_blk w' = w_blk w
       | Sleep _ => False
       | Bug b => b ≠ RcuUnbalanced
       end.

Lemma quiet_eq w w' : w_blk w' = w_blk w → quiet w w'.
Proof. intros E. exists []. by rewrite app_nil_r. Qed.
Lemma quiet_trans w1 w2 w3 : quiet w1 w2 → quiet w2 w3 → quiet w1 w3.
Proof.
  intros (l1 & E1 & F1) (l2 & E2 & F2). exists (l1 ++ l2).
  split; [by rewrite E2, E1, (assoc (++))|by apply Forall_app].
Qed.

Lemma triple_bind {A B} u i j k (m : kM A) (f : A → kM B) :
  triple u i m j → (∀ a, triple u j (f a) k) → triple u i (m ≫= f) k.
Proof.
  intros Hm Hf w Hi. specialize (Hm w Hi). unfold mbind, kM_bind.
  destruct (m w) as [a w1|w1|b]; [|done..]. destruct Hm as [Hj Q1].
  specialize (Hf a w1 Hj). destruct (f a w1); [|done..].
  destruct Hf as [? Q2]. split; [done|by eapply quiet_trans].
Qed.
Lemma triple_balanced {A} u i (m : kM A) : balanced m → triple u i m i.
Proof.
  intros Hm w Hi. specialize (Hm w). destruct (m w); [|done..].
  destruct Hm as [-> ?]. split; [done|by apply quiet_eq].
Qed.
Lemma triple_bal {A B} u i k (m : kM A) (f : A → kM B) :
  balanced m → (∀ a, triple u i (f a) k) → triple u i (m ≫= f) k.
Proof. intros Hm. apply triple_bind. by apply triple_balanced. Qed.
Lemma triple_lock {B} u i k (f : unit → kM B) :
  (∀ a, triple u (S i) (f a) k) → triple u i (rcu_read_lock ≫= f) k.
Proof. apply triple_bind. intros w Hi. split; [by kproj; rewrite Hi|by apply quiet_eq]. Qed.
Lemma triple_unlock {B} u i k (f : unit → kM B) :
  (∀ a, triple u i (f a) k) → triple u (S i) (rcu_read_unlock ≫= f) k.
Proof.
  apply triple_bind. intros w Hi. unfold rcu_read_unlock. rewrite Hi.
  split; [done|by apply quiet_eq].
Qed.
(** Leaving a section that was not entered. *)
Lemma triple_unlock_0 {B} k (f : unit → kM B) : triple true 0 (rcu_read_unlock ≫= f) k.
Proof. intros w Hi. unfold mbind, kM_bind, rcu_read_unlock. by rewrite Hi. Qed.
Lemma triple_schedule {B} u k (f : unit → kM B) :
  (∀ a, triple u 0 (f a) k) → triple u 0 (schedule ≫= f) k.
Proof.
  apply triple_bind. intros w Hi. split; [done|].
  exists [0]. kproj. rewrite Hi. split; [done|by constructor].
Qed.
Lemma triple_ret {A} u i (a : A) : triple u i (mret a) i.
Proof. intros w Hi. split; [done|by apply quiet_eq]. Qed.

(** ** Calls that stay where they are *)

Lemma balanced_bind {A B} (m : kM A) (f : A → kM B) :
  balanced m → (∀ a, balanced (f a)) → balanced (m ≫= f).
Proof.
  intros Hm Hf w. specialize (Hm w). unfold mbind, kM_bind.
  destruct (m w) as [a w1|w1|b]; [|done..]. destruct Hm as [Hr Hb].
  specialize (Hf a w1). destruct (f a w1); [|done..]. by rewrite <- Hr, <- Hb.
Qed.
Lemma balanced_ret {A} (a : A) : balanced (mret a).
Proof. by intros w. Qed.
Lemma balanced_raise {A} b : b ≠ RcuUnbalanced → balanced (raise b : kM A).
Proof. by intros Hb w. Qed.
Lemma balanced_modify f :
  (∀ w, w_rcu (f w) = w_rcu w ∧ w_blk (f w) = w_blk w) → balanced (modify f).
Proof. by intros Hf w; apply Hf. Qed.
Lemma balanced_gets {A} (f : world → A) : balanced (gets f).
Proof. by intros w. Qed.
Lemma balanced_call_env {A} (f : kenv → A * kenv) : balanced (call_env f).
Proof. intros w. unfold call_env. by destruct (f _). Qed.
Lemma balanced_get_obj a : balanced (get_obj a).
Proof. intros w. unfold get_obj. by destruct (w_heap w !! a). Qed.
Lemma balanced_lm_run f : balanced (lm_run f).
Proof. intros w. unfold lm_run. by destruct (f (w_lm w)). Qed.
Lemma balanced_lm_get {A} (f : lmem lnode → option A) : balanced (lm_get f).
Proof. intros w. unfold lm_get. by destruct (f (w_lm w)). Qed.
Lemma balanced_alloc o c : balanced (alloc_obj o c).
Proof. intros w. unfold alloc_obj. by destruct (kmalloc _ _) as [[]]. Qed.
Lemma balanced_kfree a : balanced (kfree a).
Proof. intros w. unfold kfree. by destruct (w_heap w !! a). Qed.
Lemma balanced_upd_task p f : balanced (upd_task p f).
Proof. intros w. unfold upd_task. by destruct (w_tasks w !! p). Qed.
Lemma balanced_get_data : balanced get_data.
Proof. intros w. unfold get_data. by destruct (w_data w). Qed.
Lemma balanced_put_data d : balanced (put_data d).
Proof. by intros w. Qed.
Lemma balanced_pde_arg p : balanced (pde_arg p).
Proof. intros w. unfold pde_arg. destruct p as [| |a]; [done..|]. by destruct (proc_ents _ !! a). Qed.
Lemma balanced_proc_insert d : balanced (proc_insert d).
Proof. intros w. unfold proc_insert. by destruct (proc_add _ _ _) as [[]]. Qed.
Lemma balanced_put_obj a o : balanced (put_obj a o).
Proof. by intros w. Qed.
Lemma balanced_call_rcu cb : balanced (call_rcu cb).
Proof. by intros w. Qed.
Lemma balanced_wake_up_all q : balanced (wake_up_all q).
Proof. by intros w. Qed.
End logic.

#[export] Hint Resolve balanced_ret balanced_gets balanced_call_env
  balanced_get_obj balanced_lm_run balanced_lm_get balanced_alloc balanced_kfree
  balanced_upd_task balanced_get_data balanced_put_data balanced_pde_arg
  balanced_proc_insert balanced_put_obj balanced_call_rcu balanced_wake_up_all : rcu.
#[export] Hint Extern 2 (balanced (modify _)) => (by apply balanced_modify) : rcu.
#[export] Hint Extern 2 (balanced (raise _)) => (by apply balanced_raise) : rcu.

(** The functions whose text is walked through at each call. *)
#[export] Hint Unfold get_complist get_sched get_worker get_event upd_complist upd_sched
  upd_worker deref container_worker container_sched entry_context entry_event
  get_task_struct put_task_struct set_task_state wake_up_process kref_get kref_put
  copy_from_user copy_to_user proc_new proc_mkdir proc_create_data proc_symlink proc_remove
  kmalloc_buf get_buf str_store strcpy strcat str_of kfree_ptr
  get_ctx upd_ctx current_context_pid set_context_state __set_context_state
  prepare_suspend_context wake_up_context prepare_switch_context
  ums_context_init ums_context_deinit upd_sched_dirs upd_worker_dirs
  IDR_L_ALLOC IDR_L_FIND IDR_L_REMOVE complist_spin_lock complist_spin_unlock
  complist_wake_up_all alloc_ums_complist free_ums_complist ums_complist_init
  ums_complist_deinit ums_complist_destroy ums_complist_release get_ums_complist
  sched_spin_lock sched_spin_unlock sched_wake_up_all with_event_cache alloc_ums_event
  free_ums_event alloc_ums_scheduler free_ums_scheduler schedulers_insert schedulers_remove
  alloc_ums_worker free_ums_worker workers_insert workers_remove : rcu_text.

(** Walks through the text of a balanced function. *)
Ltac balance :=
  repeat first
    [ solve [auto with rcu nocore]
    | apply balanced_bind; [|intros ?]
    | match goal with
      | |- balanced (match ?x with _ => _ end) => destruct x
      | |- balanced (let _ := ?x in _) => cbv zeta
      end
    | progress autounfold with rcu_text ].

(** Walks through the text of a handler: sections are entered and left, the
    CPU is given up outside of them, everything else is balanced. *)
Ltac rcu_walk :=
  repeat first
    [ apply triple_ret
    | apply triple_unlock_0
    | apply triple_lock; intros ?
    | apply triple_unlock; intros ?
    | apply triple_schedule; intros ?
    | apply triple_bal; [solve [balance]|intros ?]
    | apply triple_bind with (j := 1); [solve [auto with rcu nocore]|intros ?]
    | solve [apply triple_balanced; balance]
    | solve [auto with rcu nocore]
    | match goal with
      | |- triple _ _ (match ?x with _ => _ end) _ => destruct x
      | |- triple _ _ (let _ := ?x in _) _ => cbv zeta
      end ].

Section handlers.
Context `{KO : KernelOps, LO : !ListOps lnode, IO : IoctlNr}.

(** A wait goes to sleep at the nesting it is called at. *)
Lemma wait_triple u enq deq cond :
  balanced enq → balanced deq → balanced cond →
  triple u 1 (wait_event_interruptible enq deq cond) 1.
Proof.
  intros He Hd Hc. unfold wait_event_interruptible. rcu_walk.
  by intros w Hi.
Qed.
Lemma complist_wait_triple u a : triple u 1 (complist_wait a) 1.
Proof. apply triple_bal; [balance|intros p]. apply wait_triple; balance. Qed.
Lemma sched_wait_triple u a : triple u 1 (sched_wait a) 1.
Proof. apply triple_bal; [balance|intros p]. apply wait_triple; balance. Qed.
#[local] Hint Resolve complist_wait_triple sched_wait_triple : rcu.

Lemma bal_put_complist a : balanced (put_ums_complist a).
Proof. unfold put_ums_complist. balance. Qed.
Lemma bal_list_add a c f : balanced (ums_completion_list_add a c f).
Proof. unfold ums_completion_list_add. balance. Qed.
Lemma bal_enqueue a e f : balanced (enqueue_ums_sched_event a e f).
Proof. unfold enqueue_ums_sched_event. balance. Qed.
Lemma bal_register_worker s k : balanced (ums_scheduler_proc_register_worker s k).
Proof. unfold ums_scheduler_proc_register_worker. balance. Qed.
Lemma bal_unregister_worker s k : balanced (ums_scheduler_proc_unregister_worker s k).
Proof. unfold ums_scheduler_proc_unregister_worker. balance. Qed.
#[local] Hint Resolve bal_put_complist bal_list_add bal_enqueue bal_register_worker
  bal_unregister_worker : rcu.

Lemma bal_register_workers s ns : balanced (register_workers s ns).
Proof. induction ns; simpl; balance. Qed.
Lemma bal_free_events ns : balanced (free_events ns).
Proof. induction ns; simpl; balance. Qed.
Lemma bal_sched_register d s : balanced (ums_scheduler_proc_register d s).
Proof. unfold ums_scheduler_proc_register. balance. Qed.
Lemma bal_sched_unregister s : balanced (ums_scheduler_proc_unregister s).
Proof. unfold ums_scheduler_proc_unregister. balance. Qed.
Lemma bal_worker_register d k : balanced (ums_worker_proc_register d k).
Proof. unfold ums_worker_proc_register. balance. Qed.
Lemma bal_worker_unregister k : balanced (ums_worker_proc_unregister k).
Proof. unfold ums_worker_proc_unregister. balance. Qed.
#[local] Hint Resolve bal_register_workers bal_free_events bal_sched_register bal_sched_unregister bal_worker_register
  bal_worker_unregister : rcu.

Lemma bal_sched_create : balanced ums_scheduler_create.
Proof. unfold ums_scheduler_create, ums_scheduler_init. balance. Qed.
Lemma bal_worker_create : balanced ums_worker_create.
Proof. unfold ums_worker_create, ums_worker_init. balance. Qed.
Lemma bal_sched_destroy s : balanced (ums_scheduler_destroy s).
Proof. unfold ums_scheduler_destroy. balance. Qed.
Lemma bal_worker_destroy k : balanced (ums_worker_destroy k).
Proof. unfold ums_worker_destroy. balance. Qed.
#[local] Hint Resolve bal_sched_create bal_worker_create bal_sched_destroy
  bal_worker_destroy : rcu.

(** ** The waiting loops *)

Lemma rcu_dequeue_complist_loop u fuel a : triple u 1 (dequeue_complist_loop fuel a) 1.
Proof. induction fuel; simpl; rcu_walk. Qed.
Lemma rcu_dequeue_event_loop u fuel a : triple u 1 (dequeue_event_loop fuel a) 1.
Proof. induction fuel; simpl; rcu_walk. Qed.
#[local] Hint Resolve rcu_dequeue_complist_loop rcu_dequeue_event_loop : rcu.
Lemma rcu_do_dequeue_complist u a : triple u 1 (do_dequeue_ums_complist_context a) 1.
Proof. unfold do_dequeue_ums_complist_context. rcu_walk. Qed.
Lemma rcu_do_dequeue_event u a : triple u 1 (do_dequeue_ums_sched_event a) 1.
Proof. unfold do_dequeue_ums_sched_event. rcu_walk. Qed.
Lemma rcu_resume_dequeue_complist u a : triple u 1 (resume_dequeue_ums_complist_context a) 1.
Proof. unfold resume_dequeue_ums_complist_context. rcu_walk. Qed.
Lemma rcu_resume_dequeue_event u a : triple u 1 (resume_dequeue_ums_sched_event a) 1.
Proof. unfold resume_dequeue_ums_sched_event. rcu_walk. Qed.
#[local] Hint Resolve rcu_do_dequeue_complist rcu_do_dequeue_event
  rcu_resume_dequeue_complist rcu_resume_dequeue_event : rcu.

(** ** The handlers *)

Lemma rcu_create u id : triple u 0 (create_ums_complist id) 0.
Proof. unfold create_ums_complist. rcu_walk. Qed.
Lemma rcu_dqcontext_return u args a s r : triple u 1 (dqcontext_return args a s r) 0.
Proof. unfold dqcontext_return. rcu_walk. Qed.
Lemma rcu_dqevent_return u args s r : triple u 1 (dqevent_return args s r) 0.
Proof. unfold dqevent_return. rcu_walk. Qed.
#[local] Hint Resolve rcu_dqcontext_return rcu_dqevent_return : rcu.
Lemma rcu_dqcontext u args : triple u 0 (ums_complist_dqcontext args) 0.
Proof. unfold ums_complist_dqcontext. rcu_walk. Qed.
Lemma rcu_dqevent u args : triple u 0 (ums_sched_dqevent args) 0.
Proof. unfold ums_sched_dqevent. rcu_walk. Qed.
Lemma rcu_resume_dqcontext u args a s : triple u 1 (resume_dqcontext args a s) 0.
Proof. unfold resume_dqcontext. rcu_walk. Qed.
Lemma rcu_resume_dqevent u args s : triple u 1 (resume_dqevent args s) 0.
Proof. unfold resume_dqevent. rcu_walk. Qed.
Lemma rcu_next u args : triple u 0 (ums_complist_next_context args) 0.
Proof. unfold ums_complist_next_context. rcu_walk. Qed.
Lemma rcu_delete u id : triple u 0 (ums_complist_delete id) 0.
Proof. unfold ums_complist_delete. rcu_walk. Qed.
Lemma rcu_exec u pid : triple u 0 (exec_ums_context pid) 0.
Proof. unfold exec_ums_context. rcu_walk. Qed.
Lemma rcu_enter_worker u args : triple u 0 (enter_ums_worker_mode args) 0.
Proof. unfold enter_ums_worker_mode. rcu_walk. Qed.
(** the error path of a scheduler may leave a section it has left before *)
Lemma rcu_enter_sched args : triple true 0 (enter_ums_scheduler_mode args) 0.
Proof. unfold enter_ums_scheduler_mode. rcu_walk. Qed.
Lemma rcu_yield u args : triple u 0 (ums_worker_yield args) 0.
Proof. unfold ums_worker_yield. rcu_walk. Qed.
Lemma rcu_end u : triple u 0 ums_worker_end 0.
Proof. unfold ums_worker_end. rcu_walk. Qed.
#[local] Hint Resolve rcu_enter_worker rcu_enter_sched : rcu.
Lemma rcu_enter args : triple true 0 (enter_ums_mode args) 0.
Proof. unfold enter_ums_mode. rcu_walk. Qed.
End handlers.

Section callbacks.
Context `{KO : KernelOps, LO : !ListOps lnode}.

Lemma bal_rcu_cb cb : balanced (run_rcu_cb cb).
Proof.
  destruct cb; unfold run_rcu_cb, ums_complist_call_rcu, ums_scheduler_call_rcu,
    ums_worker_call_rcu; balance.
Qed.
Lemma bal_proc_dirs_init d : balanced (ums_proc_dirs_init d).
Proof. unfold ums_proc_dirs_init. balance. Qed.
Lemma bal_proc_dirs_destroy d : balanced (ums_proc_dirs_destroy d).
Proof. unfold ums_proc_dirs_destroy. balance. Qed.
#[local] Hint Resolve bal_proc_dirs_init bal_proc_dirs_destroy : rcu.
Lemma bal_open flags : balanced (ums_dev_open flags).
Proof. unfold ums_dev_open. balance. Qed.
End callbacks.

#[export] Hint Resolve bal_rcu_cb bal_open : rcu.
#[export] Hint Resolve rcu_create rcu_dqcontext rcu_next rcu_delete rcu_dqevent rcu_exec
  rcu_enter rcu_yield rcu_end rcu_resume_dqcontext rcu_resume_dqevent triple_ret : rcu.

Section device_rcu.
Context `{KO : KernelOps, LO : !ListOps lnode, IO : IoctlNr}.

Lemma rcu_ioctl cmd arg :
  triple (bool_decide (cmd = IOCTL_ENTER_UMS)) 0 (ums_dev_ioctl cmd arg) 0.
Proof.
  unfold ums_dev_ioctl. repeat case_decide; auto with rcu.
  rewrite bool_decide_true by done. auto with rcu.
Qed.
End device_rcu.
