(* ===== verification/Locks.v ===== *)
(** * Spinlocks and list cells

    A second small program logic, in the style of [Rcu]: which spinlocks may be
    held, and whether the list cells are exactly those of the live objects.
    [held X m Y] says that [m], started with no lock held outside [X], returns
    with none held outside [Y], sleeps only with none held at all, and never
    takes a lock that is held; code that does neither take nor release a lock
    nor sleep [keeps] every such set (hint database [locks]). *)
From S2P Require Import Prelude ListHead ListSpec Kernel Uapi State Prims Context Proc Complist.
From S2P Require Import Scheduler Worker Device.
From stdpp Require Import prelude gmap.

Create HintDb locks.
Create HintDb locks_text.

Definition obj_locked (o : kobj) : bool :=
  match o with OComplist c => cl_lock c | OSched s => sc_lock s | _ => false end.

(** The cells of an object are at its address. *)
Lemma obj_nodes_addr a o n : n ∈ obj_nodes a o → node_addr n = a.
Proof. destruct o; set_solver. Qed.

Lemma add_nodes_lookup c ns (m : lmem lnode) n :
  add_nodes c ns m !! n = if decide (n ∈ ns) then Some c else m !! n.
Proof.
  induction ns as [|x ns IH]; simpl; [done|].
  rewrite lookup_insert, IH. repeat case_decide; set_solver.
Qed.
Lemma del_nodes_lookup ns (m : lmem lnode) n :
  del_nodes ns m !! n = if decide (n ∈ ns) then None else m !! n.
Proof.
  induction ns as [|x ns IH]; simpl; [done|].
  rewrite lookup_delete, IH. repeat case_decide; set_solver.
Qed.

Section logic.
Context `{KO : KernelOps}.
Implicit Types (w : world) (X Y : gset addr).

Definition locked_in X w : Prop :=
  ∀ a o, w_heap w !! a = Some o → obj_locked o = true → a ∈ X.
Definition cells_exact w : Prop :=
  ∀ n, is_Some (w_lm w !! n) ↔
    ∃ o, w_heap w !! node_addr n = Some o ∧ n ∈ obj_nodes (node_addr n) o.
Definition sound X w : Prop := locked_in X w ∧ cells_exact w.

Definition held {A} X (m : kM A) Y : Prop :=
  ∀ w, sound X w →
    match m w with
    | Ok _ w' => sound Y w'
    | Sleep w' => sound ∅ w'
    | Bug b => b ≠ LockHeld
    end.
Definition keeps {A} (m : kM A) : Prop :=
  ∀ X w, sound X w →
    match m w with
    | Ok _ w' => sound X w'
    | Sleep _ => False
    | Bug b => b ≠ LockHeld
    end.

Lemma sound_ext X w w' : w_heap w' = w_heap w → w_lm w' = w_lm w → sound X w → sound X w'.
Proof. intros E1 E2 [H1 H2]. split; unfold locked_in, cells_exact; by rewrite ?E1, ?E2. Qed.

(** An object is replaced by one of its kind. *)
Lemma sound_put X Y w a o o' :
  sound X w → w_heap w !! a = Some o → obj_nodes a o' = obj_nodes a o →
  (∀ b, b ∈ X → b ≠ a → b ∈ Y) → (obj_locked o' = true → a ∈ Y) →
  sound Y (set_heap (<[a := o']> (w_heap w)) w).
Proof.
  intros [H1 H2] Ha En HX HY. red in H2. split; [intros b ob|intros n]; kproj.
  - rewrite lookup_insert. case_decide; [intros [= <-]; by subst|]. intros Hb Hl.
    apply HX; [by eapply H1|done].
  - rewrite H2, lookup_insert. case_decide as Hna; [|done]. rewrite <- Hna, Ha. split.
    + intros (? & [= <-] & Hn). exists o'. by rewrite En.
    + intros (? & [= <-] & Hn). exists o. by rewrite <- En.
Qed.

(** ** Rules *)

Lemma held_bind {A B} X Y Z (m : kM A) (f : A → kM B) :
  held X m Y → (∀ a, held Y (f a) Z) → held X (m ≫= f) Z.
Proof.
  intros Hm Hf w Hw. specialize (Hm w Hw). unfold mbind, kM_bind.
  destruct (m w) as [a w1|w1|b]; [|done..]. by apply Hf.
Qed.
Lemma held_keeps {A} X (m : kM A) : keeps m → held X m X.
Proof. intros Hm w Hw. specialize (Hm X w Hw). by destruct (m w). Qed.
Lemma held_keep {A B} X Y (m : kM A) (f : A → kM B) :
  keeps m → (∀ a, held X (f a) Y) → held X (m ≫= f) Y.
Proof. intros Hm. apply held_bind. by apply held_keeps. Qed.
Lemma keeps_bind {A B} (m : kM A) (f : A → kM B) :
  keeps m → (∀ a, keeps (f a)) → keeps (m ≫= f).
Proof.
  intros Hm Hf X w Hw. specialize (Hm X w Hw). unfold mbind, kM_bind.
  destruct (m w) as [a w1|w1|b]; [|done..]. by apply Hf.
Qed.
Lemma keeps_modify f :
  (∀ w, w_heap (f w) = w_heap w ∧ w_lm (f w) = w_lm w) → keeps (modify f).
Proof. intros Hf X w Hw. destruct (Hf w). by eapply sound_ext. Qed.
Lemma keeps_ret {A} (a : A) : keeps (mret a).
Proof. by intros X w. Qed.
Lemma keeps_raise {A} b : b ≠ LockHeld → keeps (raise b : kM A).
Proof. by intros Hb X w. Qed.
Lemma held_raise {A} X Y b : b ≠ LockHeld → held X (raise b : kM A) Y.
Proof. by intros Hb w. Qed.
Lemma keeps_gets {A} (f : world → A) : keeps (gets f).
Proof. by intros X w. Qed.
Lemma keeps_call_env {A} (f : kenv → A * kenv) : keeps (call_env f).
Proof. intros X w. unfold call_env. destruct (f _). by apply sound_ext. Qed.
Lemma keeps_get_obj a : keeps (get_obj a).
Proof. intros X w Hw. unfold get_obj. by destruct (w_heap w !! a). Qed.
Lemma keeps_get_data : keeps get_data.
Proof. intros X w Hw. unfold get_data. by destruct (w_data w). Qed.
Lemma keeps_lm_get {A} (f : lmem lnode → option A) : keeps (lm_get f).
Proof. intros X w Hw. unfold lm_get. by destruct (f (w_lm w)). Qed.
Lemma keeps_upd_task p f : keeps (upd_task p f).
Proof. intros X w. unfold upd_task. destruct (w_tasks w !! p); [by apply sound_ext|done]. Qed.
Lemma keeps_pde_arg p : keeps (pde_arg p).
Proof.
  intros X w Hw. unfold pde_arg. destruct p as [| |a]; [done..|]. by destruct (proc_ents _ !! a).
Qed.
Lemma keeps_proc_insert d : keeps (proc_insert d).
Proof.
  intros X w. unfold proc_insert. destruct (proc_add _ _ _) as [[]]. by apply sound_ext.
Qed.
Lemma keeps_unlock : keeps rcu_read_unlock.
Proof. intros X w. unfold rcu_read_unlock. destruct (w_rcu w); [done|]. by apply sound_ext. Qed.

(** The list routines write to existing cells. *)
Lemma keeps_lm_run (f : lmem lnode → option (lmem lnode)) :
  (∀ m m', f m = Some m' → dom m' = dom m) → keeps (lm_run f).
Proof.
  intros Hf X w [H1 H2]. red in H2. unfold lm_run. destruct (f (w_lm w)) as [m|] eqn:E; [|done].
  split; [exact H1|]. intros n. kproj. rewrite <- H2, <- !elem_of_dom. by rewrite (Hf _ _ E).
Qed.
(** Allocation and release. *)
Lemma sound_alloc X w a o c e :
  sound X w → w_heap w !! a = None →
  sound (if obj_locked o then X ∪ {[a]} else X) (set_env e (set_heap (<[a := o]> (w_heap w))
    (set_lm (add_nodes c (obj_nodes a o) (w_lm w)) w))).
Proof.
  intros [H1 H2] Ha. red in H2. split; [intros b ob|intros n]; kproj.
  - rewrite lookup_insert. case_decide as Hba.
    + intros [= <-] Hl. rewrite Hl. set_solver.
    + intros Hb Hl. specialize (H1 _ _ Hb Hl). destruct (obj_locked o); set_solver.
  - rewrite add_nodes_lookup, lookup_insert. case_decide as Hn.
    + pose proof (obj_nodes_addr _ _ _ Hn) as <-. rewrite decide_True by done.
      split; [by exists o|by eexists].
    + rewrite H2. case_decide as Hna; [|done]. rewrite <- Hna, Ha. split; [by intros (? & ? & _)|].
      intros (? & [= <-] & ?). by subst.
Qed.
Lemma keeps_kfree a : keeps (kfree a).
Proof.
  intros X w [H1 H2]. red in H2. unfold kfree. destruct (w_heap w !! a) as [o|] eqn:Ha; [|done].
  split; [intros b ob|intros n]; kproj.
  - intros [_ Hb]%lookup_delete_Some. by apply H1.
  - rewrite del_nodes_lookup, lookup_delete. case_decide as Hn.
    + pose proof (obj_nodes_addr _ _ _ Hn) as <-. rewrite decide_True by done.
      split; [by intros [? ?]|by intros (? & ? & _)].
    + rewrite H2. case_decide as Hna; [|done]. rewrite <- Hna, Ha.
      split; [intros (? & [= <-] & ?); by subst|by intros (? & ? & _)].
Qed.

(** Updates of objects. *)
Lemma keeps_upd_complist a f : (∀ c, cl_lock (f c) = true → cl_lock c = true) → keeps (upd_complist a f).
Proof.
  intros Hf X w Hw. unfold upd_complist, get_complist, get_obj. kred.
  destruct (w_heap w !! a) as [[c| | | | |]|] eqn:Ha; try done.
  eapply sound_put; [done..|set_solver|]. simpl. intros Hl%Hf. by apply (proj1 Hw a _ Ha).
Qed.
Lemma keeps_upd_sched a f : (∀ s, sc_lock (f s) = true → sc_lock s = true) → keeps (upd_sched a f).
Proof.
  intros Hf X w Hw. unfold upd_sched, get_sched, get_obj. kred.
  destruct (w_heap w !! a) as [[|s| | | |]|] eqn:Ha; try done.
  eapply sound_put; [done..|set_solver|]. simpl. intros Hl%Hf. by apply (proj1 Hw a _ Ha).
Qed.
Lemma keeps_upd_worker a f : keeps (upd_worker a f).
Proof.
  intros X w Hw. unfold upd_worker, get_worker, get_obj. kred.
  destruct (w_heap w !! a) as [[| |k| | |]|] eqn:Ha; try done.
  eapply sound_put; [done..|set_solver|done].
Qed.
Lemma keeps_str_store p s : keeps (str_store p s).
Proof.
  intros X w Hw. unfold str_store, get_buf. destruct p as [| |a]; [done..|]. kred.
  destruct (w_heap w !! a) as [[| | | | |cap t]|] eqn:Ha; try done. case_decide; [|done].
  eapply sound_put; [done..|set_solver|done].
Qed.
Lemma held_set_event {B} X Y e (g : ums_sched_event → ums_sched_event)
    (k : ums_sched_event → kM B) :
  (∀ ev, held X (k ev) Y) →
  held X (get_event e ≫= λ ev, put_obj e (OEvent (g ev)) ≫= λ _, k ev) Y.
Proof.
  intros Hk w Hw. unfold get_event, get_obj. kred.
  destruct (w_heap w !! e) as [[| | |ev| |]|] eqn:He; try done.
  apply Hk. eapply sound_put; [done..|set_solver|done].
Qed.

(** Locks. *)
Lemma held_lock_complist {B} Y a (f : unit → kM B) :
  (∀ u, held {[a]} (f u) Y) → held ∅ (complist_spin_lock a ≫= f) Y.
Proof.
  apply held_bind. intros w Hw. unfold complist_spin_lock, upd_complist, get_complist, get_obj. kred.
  destruct (w_heap w !! a) as [[c| | | | |]|] eqn:Ha; try done.
  destruct (cl_lock c) eqn:Hl; [by pose proof (proj1 Hw a _ Ha Hl)|].
  rewrite Ha. eapply sound_put; [done..|set_solver|set_solver].
Qed.
Lemma held_unlock_complist {B} Y a (f : unit → kM B) :
  (∀ u, held ∅ (f u) Y) → held {[a]} (complist_spin_unlock a ≫= f) Y.
Proof.
  apply held_bind. intros w Hw. unfold complist_spin_unlock, upd_complist, get_complist, get_obj. kred.
  destruct (w_heap w !! a) as [[c| | | | |]|] eqn:Ha; try done. destruct (cl_lock c); [|done].
  rewrite Ha. eapply sound_put; [done..|set_solver|done].
Qed.
Lemma held_lock_sched {B} Y a (f : unit → kM B) :
  (∀ u, held {[a]} (f u) Y) → held ∅ (sched_spin_lock a ≫= f) Y.
Proof.
  apply held_bind. intros w Hw. unfold sched_spin_lock, upd_sched, get_sched, get_obj. kred.
  destruct (w_heap w !! a) as [[|s| | | |]|] eqn:Ha; try done.
  destruct (sc_lock s) eqn:Hl; [by pose proof (proj1 Hw a _ Ha Hl)|].
  rewrite Ha. eapply sound_put; [done..|set_solver|set_solver].
Qed.
Lemma held_unlock_sched {B} Y a (f : unit → kM B) :
  (∀ u, held ∅ (f u) Y) → held {[a]} (sched_spin_unlock a ≫= f) Y.
Proof.
  apply held_bind. intros w Hw. unfold sched_spin_unlock, upd_sched, get_sched, get_obj. kred.
  destruct (w_heap w !! a) as [[|s| | | |]|] eqn:Ha; try done. destruct (sc_lock s); [|done].
  rewrite Ha. eapply sound_put; [done..|set_solver|done].
Qed.
(** a new scheduler's lock is in an unknown state until it is initialised *)
Lemma held_init_lock {B} Y a (f : unit → kM B) :
  (∀ u, held ∅ (f u) Y) → held {[a]} (upd_sched a (sc_with_lock false) ≫= f) Y.
Proof.
  apply held_bind. intros w Hw. unfold upd_sched, get_sched, get_obj. kred.
  destruct (w_heap w !! a) as [[|s| | | |]|] eqn:Ha; try done.
  eapply sound_put; [done..|set_solver|done].
Qed.
End logic.

Section list_rules.
Context `{KO : KernelOps, LO : !ListOps lnode, LL : !ListLaws lnode}.

Lemma keeps_init h : keeps (lm_run (k_INIT_LIST_HEAD h)).
Proof. apply keeps_lm_run. intros m m' E. apply (law_cells m m' h h). auto. Qed.
Lemma keeps_add n h : keeps (lm_run (k_list_add n h)).
Proof. apply keeps_lm_run. intros m m' E. apply (law_cells m m' n h). auto. Qed.
Lemma keeps_add_tail n h : keeps (lm_run (k_list_add_tail n h)).
Proof. apply keeps_lm_run. intros m m' E. apply (law_cells m m' n h). auto. Qed.
Lemma keeps_del n : keeps (lm_run (k_list_del n)).
Proof. apply keeps_lm_run. intros m m' E. apply (law_cells m m' n n). auto. Qed.
Lemma keeps_replace h n : keeps (lm_run (k_list_replace_init h n)).
Proof. apply keeps_lm_run. intros m m' E. apply (law_cells m m' n h). auto. Qed.
End list_rules.

Section alloc_rules.
Context `{KO : KernelOps, KL : !KernelLaws}.
Implicit Types (w : world) (X Y : gset addr).

Lemma keeps_alloc o c : obj_locked o = false → keeps (alloc_obj o c).
Proof.
  intros Ho X w Hw. unfold alloc_obj. destruct (kmalloc _ _) as [[a|] e] eqn:E.
  - apply kmalloc_fresh, not_elem_of_dom in E.
    pose proof (sound_alloc X w a o c e Hw E) as H. by rewrite Ho in H.
  - by eapply sound_ext.
Qed.
Lemma held_alloc_sched {B} Y (f : option addr → kM B) :
  held ∅ (f None) Y → (∀ a, held {[a]} (f (Some a)) Y) →
  held ∅ (alloc_ums_scheduler ≫= f) Y.
Proof.
  intros HN HS w Hw. unfold alloc_ums_scheduler, alloc_obj, mbind, kM_bind.
  destruct (kmalloc _ _) as [[a|] e] eqn:E.
  - apply kmalloc_fresh, not_elem_of_dom in E. apply HS.
    pose proof (sound_alloc ∅ w a (OSched uninit_scheduler) uninit_cell e Hw E) as H.
    simpl in H. by rewrite (left_id_L ∅ (∪)) in H.
  - apply HN. by eapply sound_ext.
Qed.
End alloc_rules.

#[export] Hint Resolve keeps_ret keeps_gets keeps_call_env keeps_get_obj
  keeps_get_data keeps_lm_get keeps_upd_task keeps_pde_arg keeps_proc_insert keeps_unlock
  keeps_init keeps_add keeps_add_tail keeps_del keeps_replace keeps_kfree keeps_upd_worker
  keeps_str_store : locks.
#[export] Hint Extern 2 (keeps (raise _)) => (by apply keeps_raise) : locks.
#[export] Hint Extern 2 (held _ (raise _) _) => (by apply held_raise) : locks.
#[export] Hint Extern 2 (keeps (modify _)) => (by apply keeps_modify) : locks.
#[export] Hint Extern 2 (keeps (alloc_obj _ _)) => (by apply keeps_alloc) : locks.
#[export] Hint Extern 2 (keeps (upd_complist _ _)) => (by apply keeps_upd_complist) : locks.
#[export] Hint Extern 2 (keeps (upd_sched _ _)) => (by apply keeps_upd_sched) : locks.

(** The functions whose text is walked through at each call. *)
#[export] Hint Unfold get_complist get_sched get_worker get_event deref container_worker
  container_sched entry_context entry_event get_task_struct put_task_struct set_task_state
  wake_up_process kref_get kref_put copy_from_user copy_to_user proc_new proc_mkdir
  proc_create_data proc_symlink proc_remove kmalloc_buf get_buf strcpy strcat str_of kfree_ptr
  get_ctx upd_ctx current_context_pid set_context_state __set_context_state wake_up_all
  rcu_read_lock call_rcu put_data schedule set_event_cache
  prepare_suspend_context wake_up_context prepare_switch_context
  ums_context_init ums_context_deinit upd_sched_dirs upd_worker_dirs
  IDR_L_ALLOC IDR_L_FIND IDR_L_REMOVE
  complist_wake_up_all alloc_ums_complist free_ums_complist ums_complist_init
  ums_complist_deinit ums_complist_destroy ums_complist_release get_ums_complist
  sched_wake_up_all with_event_cache alloc_ums_event
  free_ums_event free_ums_scheduler schedulers_insert schedulers_remove
  alloc_ums_worker free_ums_worker workers_insert workers_remove : locks_text.

(** Walks through the text of a function that keeps the locks. *)
Ltac keep :=
  repeat first
    [ solve [auto with locks nocore]
    | match goal with
      | |- keeps (_ ≫= _) => apply keeps_bind; [|intros ?]
      | |- keeps (match ?x with _ => _ end) => destruct x
      | |- keeps (let _ := ?x in _) => cbv zeta
      end
    | progress autounfold with locks_text ].

(** Walks through the text of a function that takes and releases locks. *)
Ltac lock_walk :=
  repeat first
    [ apply held_lock_complist; intros ?
    | apply held_unlock_complist; intros ?
    | apply held_lock_sched; intros ?
    | apply held_unlock_sched; intros ?
    | apply held_set_event; intros ?
    | solve [auto with locks nocore]
    | solve [apply held_keeps; keep]
    | apply held_bind with (Y := ∅); [solve [auto with locks nocore]|intros ?]
    | apply held_keep; [solve [keep]|intros ?]
    | match goal with
      | |- held _ (match ?x with _ => _ end) _ => destruct x
      | |- held _ (let _ := ?x in _) _ => cbv zeta
      end ].

Section handlers.
Context `{KO : KernelOps, LO : !ListOps lnode, LL : !ListLaws lnode, KL : !KernelLaws,
  IO : IoctlNr}.

(** A wait sleeps with no lock held. *)
Lemma wait_held enq deq cond :
  keeps enq → keeps deq → keeps cond → held ∅ (wait_event_interruptible enq deq cond) ∅.
Proof.
  intros He Hd Hc. unfold wait_event_interruptible.
  apply held_keep; [done|intros []]; [lock_walk|]. apply held_keep; [keep|intros []]; [lock_walk|].
  do 4 (apply held_keep; [keep|intros ?]). by intros w Hw.
Qed.
Lemma complist_wait_held a : held ∅ (complist_wait a) ∅.
Proof. apply held_keep; [keep|intros p]. apply wait_held; keep. Qed.
Lemma sched_wait_held a : held ∅ (sched_wait a) ∅.
Proof. apply held_keep; [keep|intros p]. apply wait_held; keep. Qed.
#[local] Hint Resolve complist_wait_held sched_wait_held : locks.

Lemma keeps_put_complist a : keeps (put_ums_complist a).
Proof. unfold put_ums_complist. keep. Qed.
Lemma held_list_add a c f : held ∅ (ums_completion_list_add a c f) ∅.
Proof. unfold ums_completion_list_add. lock_walk. Qed.
Lemma held_enqueue a e f : held ∅ (enqueue_ums_sched_event a e f) ∅.
Proof. unfold enqueue_ums_sched_event. lock_walk. Qed.
Lemma keeps_register_worker s k : keeps (ums_scheduler_proc_register_worker s k).
Proof. unfold ums_scheduler_proc_register_worker. keep. Qed.
Lemma keeps_unregister_worker s k : keeps (ums_scheduler_proc_unregister_worker s k).
Proof. unfold ums_scheduler_proc_unregister_worker. keep. Qed.
#[local] Hint Resolve keeps_put_complist held_list_add held_enqueue keeps_register_worker
  keeps_unregister_worker : locks.

Lemma keeps_register_workers s ns : keeps (register_workers s ns).
Proof. induction ns; simpl; keep. Qed.
Lemma keeps_free_events ns : keeps (free_events ns).
Proof. induction ns; simpl; keep. Qed.
Lemma keeps_sched_register d s : keeps (ums_scheduler_proc_register d s).
Proof. unfold ums_scheduler_proc_register. keep. Qed.
Lemma keeps_sched_unregister s : keeps (ums_scheduler_proc_unregister s).
Proof. unfold ums_scheduler_proc_unregister. keep. Qed.
Lemma keeps_worker_register d k : keeps (ums_worker_proc_register d k).
Proof. unfold ums_worker_proc_register. keep. Qed.
Lemma keeps_worker_unregister k : keeps (ums_worker_proc_unregister k).
Proof. unfold ums_worker_proc_unregister. keep. Qed.
#[local] Hint Resolve keeps_register_workers keeps_free_events keeps_sched_register
  keeps_sched_unregister keeps_worker_register keeps_worker_unregister : locks.

Lemma keeps_worker_create : keeps ums_worker_create.
Proof. unfold ums_worker_create, ums_worker_init. keep. Qed.
Lemma keeps_worker_destroy k : keeps (ums_worker_destroy k).
Proof. unfold ums_worker_destroy. keep. Qed.
Lemma held_sched_init a : held {[a]} (ums_scheduler_init a) ∅.
Proof.
  unfold ums_scheduler_init. apply held_keep; [keep|intros _].
  apply held_init_lock. intros _. lock_walk.
Qed.
Lemma held_sched_create : held ∅ ums_scheduler_create ∅.
Proof.
  unfold ums_scheduler_create. apply held_alloc_sched; [lock_walk|intros a].
  eapply held_bind; [apply held_sched_init|]. intros r. lock_walk.
Qed.
Lemma held_sched_destroy s : held ∅ (ums_scheduler_destroy s) ∅.
Proof. unfold ums_scheduler_destroy. lock_walk. Qed.
#[local] Hint Resolve keeps_worker_create keeps_worker_destroy held_sched_create
  held_sched_destroy : locks.

(** ** The waiting loops and the handlers *)

Lemma held_dequeue_complist_loop fuel a : held {[a]} (dequeue_complist_loop fuel a) ∅.
Proof. induction fuel; simpl; lock_walk. Qed.
Lemma held_dequeue_event_loop fuel a : held {[a]} (dequeue_event_loop fuel a) ∅.
Proof. induction fuel; simpl; lock_walk. Qed.
#[local] Hint Resolve held_dequeue_complist_loop held_dequeue_event_loop : locks.
Lemma held_do_dequeue_complist a : held ∅ (do_dequeue_ums_complist_context a) ∅.
Proof. unfold do_dequeue_ums_complist_context. lock_walk. Qed.
Lemma held_do_dequeue_event a : held ∅ (do_dequeue_ums_sched_event a) ∅.
Proof. unfold do_dequeue_ums_sched_event. lock_walk. Qed.
Lemma held_resume_dequeue_complist a : held ∅ (resume_dequeue_ums_complist_context a) ∅.
Proof. unfold resume_dequeue_ums_complist_context. lock_walk. Qed.
Lemma held_resume_dequeue_event a : held ∅ (resume_dequeue_ums_sched_event a) ∅.
Proof. unfold resume_dequeue_ums_sched_event. lock_walk. Qed.
Lemma held_dqcontext_return args a s r : held ∅ (dqcontext_return args a s r) ∅.
Proof. unfold dqcontext_return. lock_walk. Qed.
Lemma held_dqevent_return args s r : held ∅ (dqevent_return args s r) ∅.
Proof. unfold dqevent_return. lock_walk. Qed.
#[local] Hint Resolve held_do_dequeue_complist held_do_dequeue_event held_resume_dequeue_complist
  held_resume_dequeue_event held_dqcontext_return held_dqevent_return : locks.

Lemma held_create id : held ∅ (create_ums_complist id) ∅.
Proof. unfold create_ums_complist. lock_walk. Qed.
Lemma held_dqcontext args : held ∅ (ums_complist_dqcontext args) ∅.
Proof. unfold ums_complist_dqcontext. lock_walk. Qed.
Lemma held_dqevent args : held ∅ (ums_sched_dqevent args) ∅.
Proof. unfold ums_sched_dqevent. lock_walk. Qed.
Lemma held_resume_dqcontext args a s : held ∅ (resume_dqcontext args a s) ∅.
Proof. unfold resume_dqcontext. lock_walk. Qed.
Lemma held_resume_dqevent args s : held ∅ (resume_dqevent args s) ∅.
Proof. unfold resume_dqevent. lock_walk. Qed.
Lemma held_next args : held ∅ (ums_complist_next_context args) ∅.
Proof. unfold ums_complist_next_context. lock_walk. Qed.
Lemma held_delete id : held ∅ (ums_complist_delete id) ∅.
Proof. unfold ums_complist_delete. lock_walk. Qed.
Lemma held_exec pid : held ∅ (exec_ums_context pid) ∅.
Proof. unfold exec_ums_context. lock_walk. Qed.
Lemma held_enter_worker args : held ∅ (enter_ums_worker_mode args) ∅.
Proof. unfold enter_ums_worker_mode. lock_walk. Qed.
Lemma held_enter_sched args : held ∅ (enter_ums_scheduler_mode args) ∅.
Proof. unfold enter_ums_scheduler_mode. lock_walk. Qed.
Lemma held_yield args : held ∅ (ums_worker_yield args) ∅.
Proof. unfold ums_worker_yield. lock_walk. Qed.
Lemma held_end : held ∅ ums_worker_end ∅.
Proof. unfold ums_worker_end. lock_walk. Qed.
#[local] Hint Resolve held_create held_dqcontext held_dqevent held_next held_delete held_exec
  held_enter_worker held_enter_sched held_yield held_end : locks.
Lemma held_enter args : held ∅ (enter_ums_mode args) ∅.
Proof. unfold enter_ums_mode. lock_walk. Qed.
#[local] Hint Resolve held_enter : locks.

Lemma held_ioctl cmd arg : held ∅ (ums_dev_ioctl cmd arg) ∅.
Proof. unfold ums_dev_ioctl. lock_walk. Qed.
Lemma keeps_rcu_cb cb : keeps (run_rcu_cb cb).
Proof. destruct cb; unfold run_rcu_cb, ums_complist_call_rcu, ums_scheduler_call_rcu, ums_worker_call_rcu; keep. Qed.
Lemma keeps_proc_dirs_init d : keeps (ums_proc_dirs_init d).
Proof. unfold ums_proc_dirs_init. keep. Qed.
Lemma keeps_proc_dirs_destroy d : keeps (ums_proc_dirs_destroy d).
Proof. unfold ums_proc_dirs_destroy. keep. Qed.
#[local] Hint Resolve keeps_proc_dirs_init keeps_proc_dirs_destroy : locks.
Lemma keeps_open flags : keeps (ums_dev_open flags).
Proof. unfold ums_dev_open. keep. Qed.
End handlers.

#[export] Hint Resolve held_ioctl held_resume_dqcontext held_resume_dqevent keeps_rcu_cb
  keeps_open : locks.
