(* ===== verification/Frames.v ===== *)
(** * Frames: what the code leaves alone

    [rframes R X m]: [m] leaves the tables of the device and the pending
    callbacks alone, and every object outside [X] is still there and related to
    what it was by [R] (events may be freed, new objects may appear).  Two
    relations are used: [same_obj] keeps the identity of an object and its
    references to completion lists and their counts ([frames]); [same_type]
    only keeps what the tables rely on ([wframes]).

    [rgives I P m Q] is a program logic on top: from [P], [m] returns in [Q] or
    sleeps in [I].  [Stable I P]: framed code cannot falsify [P]. *)
From S2P Require Import Prelude ListHead ListSpec Kernel Uapi State Prims Context Proc Complist.
From S2P Require Import Scheduler Worker Device Rcu Locks.
From stdpp Require Import prelude gmap strings.

Local Open Scope Z_scope.

Create HintDb typing.

Definition path_of (y : ums_worker) : cptr addr := wd_worker_dir_path (wk_dirs y).

(** The device is open; the three tables. *)
Record tabs := mk_tabs {
  t_open : bool;
  t_ids : gmap Z addr;
  t_scheds : gset (Z * addr);
  t_workers : gset (Z * addr);
}.

(** ** Objects that keep their type *)

Definition is_event (o : kobj) : bool := match o with OEvent _ => true | _ => false end.
Definition same_type (o o' : kobj) : Prop :=
  match o, o' with
  | OComplist c, OComplist c' => cl_id c' = cl_id c ∧
      (0 < cl_refcount c → 0 < cl_refcount c') ∧ (cl_refcount c = 0 → cl_refcount c' = 0)
  | OSched x, OSched x' => ctx_pid (sc_context x') = ctx_pid (sc_context x)
  | OWorker y, OWorker y' =>
      ctx_pid (wk_context y') = ctx_pid (wk_context y) ∧ path_of y' = path_of y
  | OEvent _, OEvent _ | OData, OData | OBuf _ _, OBuf _ _ => True
  | _, _ => False
  end.
#[global] Instance same_type_preorder : PreOrder same_type.
Proof.
  split; [by intros []|]. intros [] [] []; simpl; try done; intros; destruct_and?; split_and?; try congruence; auto.
Qed.
Lemma same_type_event o o' : same_type o o' → is_event o' = is_event o.
Proof. by destruct o, o'. Qed.

(** ... and with their references to completion lists, and the counts. *)
Definition same_refs (o o' : kobj) : Prop :=
  match o, o' with
  | OComplist c, OComplist c' => cl_refcount c' = cl_refcount c
  | OSched x, OSched x' => sc_complist x' = sc_complist x
  | OWorker y, OWorker y' => wk_complist y' = wk_complist y
  | _, _ => True
  end.
Definition same_obj (o o' : kobj) : Prop := same_type o o' ∧ same_refs o o'.
#[global] Instance same_obj_preorder : PreOrder same_obj.
Proof.
  split; [by intros []|]. intros o1 o2 o3 [T1 R1] [T2 R2]. split; [by etrans|].
  destruct o1, o2, o3; simpl in *; try done; congruence.
Qed.

(** The two relations. *)
Inductive ObjRel : (kobj → kobj → Prop) → Prop :=
  | rel_type : ObjRel same_type
  | rel_obj : ObjRel same_obj.
Existing Class ObjRel.
#[global] Existing Instances rel_type rel_obj.
#[export] Hint Resolve rel_type rel_obj : core.
#[global] Instance objrel_preorder R : ObjRel R → PreOrder R.
Proof. intros []; apply _. Qed.
Lemma or_type R `{!ObjRel R} o o' : R o o' → same_type o o'.
Proof. destruct ObjRel0; [done|by intros []]. Qed.

(** The heap without the objects at [X]. *)
Definition without (X : gset addr) (h : gmap addr kobj) : gmap addr kobj :=
  filter (λ p, p.1 ∉ X) h.
Lemma without_Some X h a o : without X h !! a = Some o ↔ h !! a = Some o ∧ a ∉ X.
Proof. apply map_lookup_filter_Some. Qed.
Section sim.
Context (R : kobj → kobj → Prop) `{OR : !ObjRel R}.
Implicit Types (X Y : gset addr) (h : gmap addr kobj).

(** Outside [X], the objects of [h] are still there, related by [R]; events may
    be gone and new objects may have appeared. *)
Definition rsim X h h' : Prop :=
  ∀ a o, a ∉ X → h !! a = Some o → is_event o = false →
    ∃ o', h' !! a = Some o' ∧ R o o'.

Lemma hsim_refl X h : rsim X h h.
Proof. intros a o _ Ha _. by exists o. Qed.
Lemma hsim_trans X h1 h2 h3 : rsim X h1 h2 → rsim X h2 h3 → rsim X h1 h3.
Proof.
  intros H1 H2 a o Hx Ha He. destruct (H1 a o Hx Ha He) as (o1 & Ha1 & Hs1).
  destruct (H2 a o1 Hx Ha1) as (o2 & Ha2 & Hs2); [by rewrite (same_type_event o); [|by eapply or_type]|].
  exists o2. split; [done|by etrans].
Qed.
Lemma hsim_mono X Y h h' : X ⊆ Y → rsim X h h' → rsim Y h h'.
Proof. intros HXY H a o Ha. apply H. set_solver. Qed.
Lemma hsim_put X h a o o' :
  h !! a = Some o → (a ∉ X → R o o') → rsim X h (<[a := o']> h).
Proof.
  intros Ha Hs b ob Hb Hob He. rewrite lookup_insert. case_decide as E; [|by exists ob].
  subst b. simplify_eq. eauto.
Qed.
Lemma hsim_alloc X h a o : h !! a = None → rsim X h (<[a := o]> h).
Proof. intros Ha b ob _ Hb _. exists ob. by rewrite lookup_insert_ne by congruence. Qed.
Lemma hsim_delete X h a : (a ∉ X → ∀ o, h !! a = Some o → is_event o = true) → rsim X h (delete a h).
Proof.
  intros Ha b o Hb Ho He. exists o. rewrite lookup_delete_ne; [done|].
  intros ->. by rewrite (Ha Hb o Ho) in He.
Qed.

Lemma hsim_without X h h' : rsim X h h' → rsim ∅ (without X h) (without X h').
Proof.
  intros H a o _ [Ho Ha]%without_Some He. destruct (H a o Ha Ho He) as (o' & ? & ?).
  exists o'. by rewrite without_Some.
Qed.
Lemma hsim_without_sub X Y h h' :
  (∀ a o, a ∉ Y → h !! a = Some o → h' !! a = Some o ∧ a ∉ X) →
  rsim ∅ (without Y h) (without X h').
Proof.
  intros H a o _ [Ho Ha]%without_Some _. exists o. rewrite without_Some. split; [auto|done].
Qed.
Lemma hsim_without_all X h h' :
  (∀ a o, a ∉ X → h !! a = Some o → h' !! a = Some o) → rsim ∅ (without X h) h'.
Proof. intros H a o _ [Ho Ha]%without_Some _. exists o. split; [auto|done]. Qed.
End sim.

Abbreviation hsim := (rsim same_obj).
Abbreviation wsim := (rsim same_type).
Lemma rsim_weaken R `{!ObjRel R} X h h' : rsim R X h h' → wsim X h h'.
Proof.
  intros H a o Hx Ha He. destruct (H a o Hx Ha He) as (o' & ? & ?%(or_type R)). eauto.
Qed.

Ltac sim_at H a :=
  let o := fresh "o" in let Ho := fresh in let Hs := fresh in
  edestruct (H a) as (o & Ho & Hs); [set_solver|eassumption|done|destruct o; try done; simpl in Hs].

Lemma hsim_complist h h' a c : wsim ∅ h h' → h !! a = Some (OComplist c) →
  ∃ c', h' !! a = Some (OComplist c') ∧ same_type (OComplist c) (OComplist c').
Proof. intros H Ha. sim_at H a. eauto. Qed.
Lemma hsim_sched h h' a x : wsim ∅ h h' → h !! a = Some (OSched x) →
  ∃ x', h' !! a = Some (OSched x') ∧ same_type (OSched x) (OSched x').
Proof. intros H Ha. sim_at H a. eauto. Qed.
Lemma hsim_worker h h' a y : wsim ∅ h h' → h !! a = Some (OWorker y) →
  ∃ y', h' !! a = Some (OWorker y') ∧ same_type (OWorker y) (OWorker y').
Proof. intros H Ha. sim_at H a. eauto. Qed.
Lemma hsim_buf h h' a cap s : wsim ∅ h h' → h !! a = Some (OBuf cap s) →
  ∃ cap' s', h' !! a = Some (OBuf cap' s').
Proof. intros H Ha. sim_at H a. eauto. Qed.

(** ** Worlds *)

Section worlds.
Context `{KO : KernelOps}.
Implicit Types (w : world) (X Y : gset addr).

Definition tabs_of_data (d : ums_data) : tabs :=
  mk_tabs true (idr_ents (d_comp_lists d)) (rht_objs (d_schedulers d)) (rht_objs (d_workers d)).
Definition tabs_of w : tabs :=
  match w_data w with Some d => tabs_of_data d | None => mk_tabs false ∅ ∅ ∅ end.
(** [w'] has the tables and callbacks of [w], and its objects outside [X]. *)
Definition rframed R X w w' : Prop :=
  tabs_of w' = tabs_of w ∧ w_cbs w' = w_cbs w ∧ rsim R X (w_heap w) (w_heap w').
Definition rframes {A} R X (m : kM A) : Prop :=
  ∀ w, match m w with Ok _ w' | Sleep w' => rframed R X w w' | Bug _ => True end.

Context (R : kobj → kobj → Prop) `{OR : !ObjRel R}.

Lemma framed_trans X w1 w2 w3 : rframed R X w1 w2 → rframed R X w2 w3 → rframed R X w1 w3.
Proof.
  intros (E1 & F1 & S1) (E2 & F2 & S2). split_and!; [congruence..|by eapply hsim_trans].
Qed.
Lemma framed_mono X Y w w' : X ⊆ Y → rframed R X w w' → rframed R Y w w'.
Proof. intros ? (? & ? & ?). split_and!; [done..|by eapply hsim_mono]. Qed.
Lemma framed_ext X w w' :
  w_data w' = w_data w → w_cbs w' = w_cbs w → w_heap w' = w_heap w → rframed R X w w'.
Proof.
  intros E1 E2 E3. unfold rframed, tabs_of. rewrite E1, E2, E3. split_and!; [done..|by apply hsim_refl].
Qed.
Lemma framed_heap X w h : rsim R X (w_heap w) h → rframed R X w (set_heap h w).
Proof. done. Qed.
(** ** Rules for frames *)

Lemma frames_ok {A} X (m : kM A) w a w' : rframes R X m → m w = Ok a w' → rframed R X w w'.
Proof. intros Hm E. specialize (Hm w). by rewrite E in Hm. Qed.
Lemma frames_bind {A B} X (m : kM A) (f : A → kM B) :
  rframes R X m → (∀ a, rframes R X (f a)) → rframes R X (m ≫= f).
Proof.
  intros Hm Hf w. specialize (Hm w). unfold mbind, kM_bind.
  destruct (m w) as [a w1|w1|b]; [|done..]. specialize (Hf a w1).
  destruct (f a w1); [..|done]; by eapply framed_trans.
Qed.
Lemma frames_mono {A} X Y (m : kM A) : X ⊆ Y → rframes R X m → rframes R Y m.
Proof. intros HXY Hm w. specialize (Hm w). destruct (m w); [..|done]; by eapply framed_mono. Qed.
Lemma frames_modify X f :
  (∀ w, w_data (f w) = w_data w ∧ w_cbs (f w) = w_cbs w ∧ w_heap (f w) = w_heap w) →
  rframes R X (modify f).
Proof. intros Hf w. destruct (Hf w) as (? & ? & ?). by apply framed_ext. Qed.
Lemma frames_ret {A} X (a : A) : rframes R X (mret a).
Proof. intros w. by apply framed_ext. Qed.
Lemma frames_asleep {A} X : rframes R X (asleep : kM A).
Proof. intros w. by apply framed_ext. Qed.
Lemma frames_raise {A} X b : rframes R X (raise b : kM A).
Proof. done. Qed.
Lemma frames_gets {A} X (f : world → A) : rframes R X (gets f).
Proof. intros w. by apply framed_ext. Qed.
Lemma frames_call_env {A} X (f : kenv → A * kenv) : rframes R X (call_env f).
Proof. intros w. unfold call_env. destruct (f _). by apply framed_ext. Qed.
Lemma frames_get_obj X a : rframes R X (get_obj a).
Proof. intros w. unfold get_obj. destruct (w_heap w !! a); [by apply framed_ext|done]. Qed.
Lemma frames_get_data X : rframes R X get_data.
Proof. intros w. unfold get_data. destruct (w_data w) eqn:E; [by apply framed_ext|done]. Qed.
Lemma frames_lm_get {A} X (f : lmem lnode → option A) : rframes R X (lm_get f).
Proof. intros w. unfold lm_get. destruct (f (w_lm w)); [by apply framed_ext|done]. Qed.
Lemma frames_lm_run X (f : lmem lnode → option (lmem lnode)) : rframes R X (lm_run f).
Proof. intros w. unfold lm_run. destruct (f (w_lm w)); [by apply framed_ext|done]. Qed.
Lemma frames_upd_task X p f : rframes R X (upd_task p f).
Proof. intros w. unfold upd_task. destruct (w_tasks w !! p); [by apply framed_ext|done]. Qed.
Lemma frames_pde_arg X p : rframes R X (pde_arg p).
Proof.
  intros w. unfold pde_arg. destruct p as [| |a]; [done|by apply framed_ext|].
  destruct (proc_ents _ !! a); [by apply framed_ext|done].
Qed.
Lemma frames_proc_insert X d : rframes R X (proc_insert d).
Proof. intros w. unfold proc_insert. destruct (proc_add _ _ _) as [[]]. by apply framed_ext. Qed.
Lemma frames_unlock X : rframes R X rcu_read_unlock.
Proof. intros w. unfold rcu_read_unlock. destruct (w_rcu w); [done|]. by apply framed_ext. Qed.

(** An update of an object, exempt or keeping its type. *)
Lemma frames_upd_complist X a f :
  a ∈ X ∨ (∀ c, R (OComplist c) (OComplist (f c))) → rframes R X (upd_complist a f).
Proof.
  intros Hf w. unfold upd_complist, get_complist, get_obj. kred.
  destruct (w_heap w !! a) as [[c| | | | |]|] eqn:Ha; try done.
  apply framed_heap. eapply hsim_put; [exact _|done|]. by destruct Hf.
Qed.
Lemma frames_upd_sched X a f :
  a ∈ X ∨ (∀ x, R (OSched x) (OSched (f x))) → rframes R X (upd_sched a f).
Proof.
  intros Hf w. unfold upd_sched, get_sched, get_obj. kred.
  destruct (w_heap w !! a) as [[|x| | | |]|] eqn:Ha; try done.
  apply framed_heap. eapply hsim_put; [exact _|done|]. by destruct Hf.
Qed.
Lemma frames_upd_worker X a f :
  a ∈ X ∨ (∀ y, R (OWorker y) (OWorker (f y))) → rframes R X (upd_worker a f).
Proof.
  intros Hf w. unfold upd_worker, get_worker, get_obj. kred.
  destruct (w_heap w !! a) as [[| |y| | |]|] eqn:Ha; try done.
  apply framed_heap. eapply hsim_put; [exact _|done|]. by destruct Hf.
Qed.
Lemma frames_str_store X p s : rframes R X (str_store p s).
Proof.
  intros w. unfold str_store, get_buf. destruct p as [| |a]; [done..|]. kred.
  destruct (w_heap w !! a) as [[| | | | |cap t]|] eqn:Ha; try done. case_decide; [|done].
  apply framed_heap. eapply hsim_put; [exact _|done|by case OR].
Qed.
Lemma frames_set_event {B} X e (g : ums_sched_event → ums_sched_event) (k : ums_sched_event → kM B) :
  (∀ ev, rframes R X (k ev)) →
  rframes R X (get_event e ≫= λ ev, put_obj e (OEvent (g ev)) ≫= λ _, k ev).
Proof.
  intros Hk w. unfold get_event, get_obj. kred.
  destruct (w_heap w !! e) as [[| | |ev| |]|] eqn:He; try done.
  specialize (Hk ev (set_heap (<[e := OEvent (g ev)]> (w_heap w)) w)).
  destruct (k ev _); [..|done]; (eapply framed_trans; [|exact Hk]; apply framed_heap;
    eapply hsim_put; [exact _|done|by case OR]).
Qed.
Lemma frames_free_event X e : rframes R X (free_ums_event e).
Proof.
  intros w. unfold free_ums_event, with_event_cache, get_event, get_obj. kred.
  destruct (g_event_cache _); [|done].
  destruct (w_heap w !! e) as [[| | |ev| |]|] eqn:He; try done. unfold kfree. rewrite He.
  split_and!; [done..|]. kproj. apply hsim_delete; [exact _|]. intros _ o Ho. by simplify_eq.
Qed.
Lemma frames_kfree X a : a ∈ X → rframes R X (kfree a).
Proof.
  intros Ha w. unfold kfree. destruct (w_heap w !! a); [|done].
  split_and!; [done..|]. kproj. by apply hsim_delete.
Qed.
(** ** The logic *)

Definition rgives {A} (I P : world → Prop) (m : kM A) (Q : A → world → Prop) : Prop :=
  ∀ w, P w → match m w with Ok a w' => Q a w' | Sleep w' => I w' | Bug _ => True end.
Definition rsafe {A} (I P : world → Prop) (m : kM A) : Prop := rgives I P m (λ _, I).

Class Stable (I P : world → Prop) : Prop := {
  stable_base w : P w → I w;
  stable_framed w w' : P w → rframed R ∅ w w' → P w';
}.

Lemma gives_bind {A B} I P Q T (m : kM A) (f : A → kM B) :
  rgives I P m Q → (∀ a, rgives I (Q a) (f a) T) → rgives I P (m ≫= f) T.
Proof.
  intros Hm Hf w Hw. specialize (Hm w Hw). unfold mbind, kM_bind.
  destruct (m w) as [a w1|w1|b]; [by apply Hf|done..].
Qed.
Lemma gives_assoc {A B C} I P Q (m : kM A) (f : A → kM B) (g : B → kM C) :
  rgives I P (m ≫= λ a, f a ≫= g) Q → rgives I P ((m ≫= f) ≫= g) Q.
Proof. intros H w Hw. specialize (H w Hw). unfold mbind, kM_bind in *. by destruct (m w). Qed.
Lemma gives_mono {A} (I I' P P' : world → Prop) (m : kM A) (Q Q' : A → world → Prop) :
  rgives I P m Q → (∀ w, I w → I' w) → (∀ w, P' w → P w) → (∀ a w, Q a w → Q' a w) → rgives I' P' m Q'.
Proof.
  intros Hm HI HP HQ w Hw. specialize (Hm w (HP w Hw)). destruct (m w); [by apply HQ|by apply HI|done].
Qed.
Lemma gives_ret {A} I P (Q : A → world → Prop) a : (∀ w, P w → Q a w) → rgives I P (mret a) Q.
Proof. intros H w Hw. by apply H. Qed.

Lemma safe_frames {A} I P `{!Stable I P} (m : kM A) : rframes R ∅ m → rsafe I P m.
Proof.
  intros Hm w Hw. specialize (Hm w).
  destruct (m w); [..|done]; eapply stable_base, stable_framed, Hm; done.
Qed.
Lemma safe_bind {A B} I P `{!Stable I P} (m : kM A) (f : A → kM B) :
  rframes R ∅ m → (∀ a, rsafe I P (f a)) → rsafe I P (m ≫= f).
Proof.
  intros Hm Hf w Hw. specialize (Hm w). unfold mbind, kM_bind.
  destruct (m w) as [a w1|w1|b]; [..|done].
  - by eapply Hf, stable_framed.
  - by eapply stable_base, stable_framed, Hm.
Qed.

Lemma safe_set_event {B} I P `{!Stable I P} e (g : ums_sched_event → ums_sched_event)
    (k : ums_sched_event → kM B) :
  (∀ ev, rsafe I P (k ev)) →
  rsafe I P (get_event e ≫= λ ev, put_obj e (OEvent (g ev)) ≫= λ _, k ev).
Proof.
  intros Hk w Hw. unfold get_event, get_obj. kred.
  destruct (w_heap w !! e) as [[| | |ev| |]|] eqn:He; try done.
  apply Hk. eapply stable_framed; [exact Hw|]. apply framed_heap. eapply hsim_put; [exact _|done|by case OR].
Qed.
End worlds.

Abbreviation framed := (rframed same_obj).
Abbreviation wframed := (rframed same_type).
Abbreviation frames := (rframes same_obj).
Abbreviation wframes := (rframes same_type).

Lemma framed_weaken `{KO : KernelOps} R `{!ObjRel R} X w w' : rframed R X w w' → wframed X w w'.
Proof. intros (? & ? & ?). split_and!; [done..|by eapply rsim_weaken]. Qed.
Section weak.
Context `{KO : KernelOps}.
(** A reference is taken: the count stays positive. *)
Lemma frames_get_ums_complist X a : rframes same_type X (get_ums_complist a).
Proof.
  intros w. unfold get_ums_complist, get_complist, get_obj. kred.
  destruct (w_heap w !! a) as [[c| | | | |]|] eqn:Ha; try done. unfold kref_get.
  case_decide; [|done]. kred. unfold upd_complist, get_complist, get_obj. kred. rewrite Ha.
  apply framed_heap. eapply hsim_put; [exact _|done|]. intros _. simpl. lia.
Qed.
End weak.

Section alloc.
Context `{KO : KernelOps, KL : !KernelLaws} (R : kobj → kobj → Prop) `{OR : !ObjRel R}.

Lemma alloc_ok o c w r w' :
  alloc_obj o c w = Ok r w' →
  match r with
  | None => rframed R ∅ w w' ∧ w_heap w' = w_heap w
  | Some a => rframed R ∅ w w' ∧ w_heap w !! a = None ∧ w_heap w' = <[a := o]> (w_heap w)
  end.
Proof.
  unfold alloc_obj. destruct (kmalloc _ _) as [[a|] e] eqn:E; intros [= <- <-].
  - apply kmalloc_fresh, not_elem_of_dom in E. split; [|done].
    split; [done|]. split; [done|]. apply hsim_alloc; [exact _|done].
  - split; [by apply framed_ext|done].
Qed.
Lemma frames_alloc X o c : rframes R X (alloc_obj o c).
Proof.
  intros w. destruct (alloc_obj o c w) as [r w'|w'|b] eqn:E; [..|done].
  - apply alloc_ok in E. eapply framed_mono; [exact _|apply empty_subseteq|]. destruct r; apply E.
  - unfold alloc_obj in E. by destruct (kmalloc _ _) as [[]].
Qed.
End alloc.

(** An update of a known relation is checked for each of the two. *)
Ltac rel_case := repeat match goal with H : ObjRel ?R |- _ => is_var R; destruct H end.
#[export] Hint Resolve frames_ret frames_asleep frames_raise frames_gets frames_call_env
  frames_get_obj frames_get_data frames_lm_get frames_lm_run frames_upd_task frames_pde_arg
  frames_proc_insert frames_unlock frames_str_store frames_free_event frames_get_ums_complist
  frames_alloc rel_type rel_obj : typing.
#[export] Hint Extern 2 (rframes _ _ (modify _)) => (by apply frames_modify) : typing.
#[export] Hint Extern 2 (rframes _ _ (kfree _)) => (apply frames_kfree; [exact _|set_solver]) : typing.
#[export] Hint Extern 2 (rframes _ _ (upd_complist _ _)) =>
  (apply frames_upd_complist; [exact _|first [left; set_solver | right; rel_case; by intros []]]) : typing.
#[export] Hint Extern 2 (rframes _ _ (upd_sched _ _)) =>
  (apply frames_upd_sched; [exact _|first [left; set_solver | right; rel_case; by intros []]]) : typing.
#[export] Hint Extern 2 (rframes _ _ (upd_worker _ _)) =>
  (apply frames_upd_worker; [exact _|first [left; set_solver | right; rel_case; by intros []]]) : typing.
#[export] Hint Unfold wait_event_interruptible complist_wait sched_wait complist_spin_lock
  complist_spin_unlock sched_spin_lock sched_spin_unlock : locks_text.

(** Walks through the text of a function that frames, of one that is safe. *)
Ltac frame :=
  repeat first
    [ solve [auto with typing nocore]
    | apply frames_set_event; [exact _|intros ?]
    | match goal with
      | |- rframes _ _ (_ ≫= _) => apply frames_bind; [exact _| |intros ?]
      | |- rframes _ _ (match ?x with _ => _ end) => destruct x
      | |- rframes _ _ (let _ := ?x in _) => cbv zeta
      end
    | progress autounfold with locks_text ].
Ltac safe_walk :=
  repeat first
    [ solve [auto with typing nocore]
    | solve [eapply safe_frames; [exact _|frame]]
    | eapply safe_set_event; [|exact _|intros ?]; [exact _|]
    | eapply safe_bind; [exact _|solve [frame]|intros ?]
    | match goal with
      | |- rsafe _ _ (match ?x with _ => _ end) => destruct x
      | |- rsafe _ _ (let _ := ?x in _) => cbv zeta
      end ].

(** ** Code that leaves the tables alone *)

Section handlers.
Context `{KO : KernelOps, LO : !ListOps lnode, KL : !KernelLaws, IO : IoctlNr} (R : kobj → kobj → Prop) `{OR : !ObjRel R}.
Implicit Types (w : world).

Lemma frames_list_add a c f : rframes R ∅ (ums_completion_list_add a c f).
Proof. unfold ums_completion_list_add. frame. Qed.
Lemma frames_enqueue a e f : rframes R ∅ (enqueue_ums_sched_event a e f).
Proof. unfold enqueue_ums_sched_event. frame. Qed.
Lemma frames_register_worker s k : rframes R ∅ (ums_scheduler_proc_register_worker s k).
Proof. unfold ums_scheduler_proc_register_worker. frame. Qed.
Lemma frames_unregister_worker s k : rframes R ∅ (ums_scheduler_proc_unregister_worker s k).
Proof. unfold ums_scheduler_proc_unregister_worker. frame. Qed.
#[local] Hint Resolve frames_list_add frames_enqueue frames_register_worker
  frames_unregister_worker : typing.
Lemma frames_register_workers s ns : rframes R ∅ (register_workers s ns).
Proof. induction ns; simpl; frame. Qed.
Lemma frames_free_events ns : rframes R ∅ (free_events ns).
Proof. induction ns; simpl; frame. Qed.
Lemma frames_sched_register d s : rframes R ∅ (ums_scheduler_proc_register d s).
Proof. unfold ums_scheduler_proc_register. frame. Qed.
Lemma frames_sched_unregister s : rframes R ∅ (ums_scheduler_proc_unregister s).
Proof. unfold ums_scheduler_proc_unregister. frame. Qed.
#[local] Hint Resolve frames_register_workers frames_free_events frames_sched_register
  frames_sched_unregister : typing.
Lemma frames_complist_loop fuel a : rframes R ∅ (dequeue_complist_loop fuel a).
Proof. induction fuel; simpl; frame. Qed.
Lemma frames_event_loop fuel a : rframes R ∅ (dequeue_event_loop fuel a).
Proof. induction fuel; simpl; frame. Qed.
Lemma frames_dqcontext_return args a s r : rframes R ∅ (dqcontext_return args a s r).
Proof. unfold dqcontext_return. frame. Qed.
Lemma frames_dqevent_return args s r : rframes R ∅ (dqevent_return args s r).
Proof. unfold dqevent_return. frame. Qed.
#[local] Hint Resolve frames_complist_loop frames_event_loop frames_dqcontext_return
  frames_dqevent_return : typing.

Lemma frames_dqcontext args : rframes R ∅ (ums_complist_dqcontext args).
Proof. unfold ums_complist_dqcontext, do_dequeue_ums_complist_context. frame. Qed.
Lemma frames_dqevent args : rframes R ∅ (ums_sched_dqevent args).
Proof. unfold ums_sched_dqevent, do_dequeue_ums_sched_event. frame. Qed.
Lemma frames_resume_dqcontext args a s : rframes R ∅ (resume_dqcontext args a s).
Proof. unfold resume_dqcontext, resume_dequeue_ums_complist_context. frame. Qed.
Lemma frames_resume_dqevent args s : rframes R ∅ (resume_dqevent args s).
Proof. unfold resume_dqevent, resume_dequeue_ums_sched_event. frame. Qed.
Lemma frames_next args : rframes R ∅ (ums_complist_next_context args).
Proof. unfold ums_complist_next_context. frame. Qed.
Lemma frames_exec pid : rframes R ∅ (exec_ums_context pid).
Proof. unfold exec_ums_context. frame. Qed.
Lemma frames_yield args : rframes R ∅ (ums_worker_yield args).
Proof. unfold ums_worker_yield. frame. Qed.
#[local] Hint Resolve frames_dqcontext frames_dqevent frames_next frames_exec frames_yield : typing.

End handlers.
#[export] Hint Resolve frames_list_add frames_enqueue frames_register_worker
  frames_unregister_worker frames_register_workers frames_free_events frames_sched_register
  frames_sched_unregister frames_complist_loop frames_event_loop frames_dqcontext_return
  frames_dqevent_return frames_dqcontext frames_dqevent frames_next frames_exec frames_yield
  frames_resume_dqcontext frames_resume_dqevent : typing.
