(* ===== verification/Private.v ===== *)
(** * Objects of a running call

    An invariant [J] of the tables, the callbacks and the heap that framed
    code keeps ([HeapInv]) also holds while a call builds an object that no
    one else can reach: [private X] is [J] on the heap without [X].  The
    allocation, initialisation and release of such an object is treated here
    once for all invariants; the registration of a worker in procfs is the
    long case, because its path is a second private object. *)
From S2P Require Import Prelude ListHead ListSpec Kernel Uapi State Prims Context Proc Complist.
From S2P Require Import Scheduler Worker Device Rcu Locks Frames.
From stdpp Require Import prelude gmap strings.

Local Open Scope Z_scope.

Class HeapInv (R : kobj → kobj → Prop) (J : tabs → list rcu_cb → gmap addr kobj → Prop) : Prop :=
  hi_sim t cbs h h' : J t cbs h → rsim R ∅ h h' → J t cbs h'.

Definition holds `{KO : KernelOps} (J : tabs → list rcu_cb → gmap addr kobj → Prop) (w : world) : Prop :=
  J (tabs_of w) (w_cbs w) (w_heap w).
(** The objects at [X] are those of the running call alone. *)
Definition private `{KO : KernelOps} (J : tabs → list rcu_cb → gmap addr kobj → Prop)
    (X : gset addr) (w : world) : Prop :=
  J (tabs_of w) (w_cbs w) (without X (w_heap w)).

Section private.
Context `{KO : KernelOps, LO : !ListOps lnode, KL : !KernelLaws}.
Context (R : kobj → kobj → Prop) (J : tabs → list rcu_cb → gmap addr kobj → Prop) `{OR : !ObjRel R, HI : !HeapInv R J}.
Implicit Types (w : world) (X Y : gset addr).
#[local] Abbreviation gives := (rgives (holds J)).

Lemma holds_framed w w' : holds J w → rframed R ∅ w w' → holds J w'.
Proof. intros HT (E & F & S). unfold holds. rewrite E, F. by eapply hi_sim. Qed.
Lemma holds_stable : Stable R (holds J) (holds J).
Proof. split; [done|apply holds_framed]. Qed.

Lemma private_holds X w : private J X w → holds J w.
Proof. intros HP. unfold holds. eapply hi_sim; [exact HP|]. apply hsim_without_all; [exact _|done]. Qed.
Lemma private_framed X w w' : private J X w → rframed R X w w' → private J X w'.
Proof.
  intros HP (E & F & S). unfold private. rewrite E, F.
  eapply hi_sim; [exact HP|]. by apply hsim_without.
Qed.
Lemma private_heap X Y w w' :
  private J Y w → tabs_of w' = tabs_of w → w_cbs w' = w_cbs w →
  (∀ a o, a ∉ Y → w_heap w !! a = Some o → w_heap w' !! a = Some o ∧ a ∉ X) → private J X w'.
Proof.
  intros HP E F H. unfold private. rewrite E, F.
  eapply hi_sim; [exact HP|]. apply hsim_without_sub; [exact _|done].
Qed.

(** A new object is private. *)
Lemma gives_alloc o c :
  gives (holds J) (alloc_obj o c) (λ r w, match r with
    | None => holds J w
    | Some a => private J {[a]} w ∧ w_heap w !! a = Some o
    end).
Proof.
  intros w HT. destruct (alloc_obj o c w) as [[a|] w'|w'|b] eqn:E; [..|done].
  - apply (alloc_ok R) in E as ((E1 & E2 & _) & Hf & Hh). rewrite Hh. split; [|apply lookup_insert_eq].
    unfold private. rewrite E1, E2, Hh. eapply hi_sim; [exact HT|].
    intros b ob _ Hb _. exists ob. rewrite without_Some, lookup_insert_ne by congruence.
    split; [|done]. split; [done|]. intros ->%elem_of_singleton. congruence.
  - apply (alloc_ok R) in E as [F _]. by eapply holds_framed.
  - unfold alloc_obj in E. by destruct (kmalloc _ _) as [[]].
Qed.

Lemma gives_private {A} X (m : kM A) : rframes R X m → gives (private J X) m (λ _, private J X).
Proof.
  intros Hm w HP. specialize (Hm w). destruct (m w); [by eapply private_framed| |done].
  by eapply private_holds, private_framed.
Qed.
Lemma private_bind {A B} X (m : kM A) (f : A → kM B) Q :
  rframes R X m → (∀ a, gives (private J X) (f a) Q) → gives (private J X) (m ≫= f) Q.
Proof. intros Hm. eapply gives_bind, gives_private, Hm. Qed.
(** It is freed. *)
Lemma gives_private_kfree X a : gives (private J (X ∪ {[a]})) (kfree a) (λ _, private J X).
Proof.
  intros w HP. unfold kfree. destruct (w_heap w !! a); [|done].
  eapply private_heap; [exact HP|done..|]. kproj. intros b o Hb Ho.
  rewrite lookup_delete_ne; [split; [done|]|]; set_solver.
Qed.
Lemma gives_kfree a : gives (private J {[a]}) (kfree a) (λ _, holds J).
Proof.
  intros w HP. pose proof (gives_private_kfree ∅ a w) as H.
  rewrite (left_id_L ∅ (∪)) in H. specialize (H HP).
  destruct (kfree a w); [by eapply private_holds|done..].
Qed.

(** The private worker [k] with the private buffer of its path. *)
Definition path_ready k b w : Prop :=
  ∃ y cap s, private J {[k; b]} w ∧ w_heap w !! k = Some (OWorker y) ∧ path_of y = Ptr b ∧
    w_heap w !! b = Some (OBuf cap s).

Lemma gives_path_ready {A} k b (m : kM A) :
  rframes R ∅ m → gives (path_ready k b) m (λ _, path_ready k b).
Proof.
  intros Hm w (y & cap & s & HP & Hk & Hp & Hb). specialize (Hm w).
  assert (∀ w', rframed R ∅ w w' → path_ready k b w') as HF.
  { intros w' F. pose proof F as (_ & _ & S).
    apply rsim_weaken in S; [|exact _].
    destruct (hsim_worker _ _ _ _ S Hk) as (y' & ? & _ & ?).
    destruct (hsim_buf _ _ _ _ _ S Hb) as (cap' & s' & ?).
    exists y', cap', s'. split_and!; [|done|congruence|done].
    eapply private_framed; [exact HP|]. eapply framed_mono; [exact _|apply empty_subseteq|done]. }
  destruct (m w); [by apply HF| |done].
  destruct (HF _ Hm) as (? & ? & ? & ? & _). by eapply private_holds.
Qed.
Lemma path_ready_private k b w : path_ready k b w → private J {[k]} w.
Proof.
  intros (y & cap & s & HP & _). eapply private_heap; [exact HP|done..|]. set_solver.
Qed.

Lemma gives_path_alloc k n m :
  gives (private J {[k]}) (b ← kmalloc_buf n; _ ← upd_worker_dirs k (wd_with_path b m); mret b)
    (λ b w, match b with
            | PUninit => False
            | PNull => private J {[k]} w
            | Ptr a => path_ready k a w
            end).
Proof.
  intros w HP. unfold kmalloc_buf.
  destruct (alloc_obj (OBuf (Z.to_nat n) "") uninit_cell w) as [r w1|w1|b] eqn:E.
  2:{ unfold alloc_obj in E. by destruct (kmalloc _ _) as [[]]. }
  2:{ unfold mbind, kM_bind. by rewrite E. }
  unfold upd_worker_dirs. unfold mbind at 1, kM_bind at 1. rewrite (bind_ok _ _ _ _ _ E).
  apply (alloc_ok R) in E. cbn [mret kM_ret].
  destruct (w_heap w1 !! k) as [[| |y| | |]|] eqn:Hk;
    try (unfold upd_worker, get_worker, get_obj; kred; by rewrite Hk).
  krun upd_worker_run; [done|]. destruct r as [b|]; simpl.
  - destruct E as ((E1 & E2 & _) & Hf & Hh).
    assert (k ≠ b) as Hkb by (intros ->; rewrite Hh, lookup_insert_eq in Hk; done).
    eexists _, _, "". split; [|split; [apply lookup_insert_eq|split; [done|]]].
    + eapply private_heap; [exact HP|exact E1|exact E2|]. kproj. intros a o Ha Ho.
      assert (a ≠ k ∧ a ≠ b) as [? ?] by (split; [set_solver|congruence]).
      rewrite lookup_insert_ne, Hh, lookup_insert_ne by done. split; [done|set_solver].
    + kproj. rewrite lookup_insert_ne, Hh by done. apply lookup_insert_eq.
  - destruct E as [F _]. eapply private_framed; [exact HP|].
    eapply framed_trans; [exact _|eapply framed_mono; [exact _|apply empty_subseteq|exact F]|].
    apply framed_heap. eapply hsim_put; [exact _|done|set_solver].
Qed.

Lemma gives_path_alloc_then {B} k n m (f : cptr addr → kM B) Q :
  gives (private J {[k]}) (f PNull) Q → (∀ b, gives (path_ready k b) (f (Ptr b)) Q) →
  gives (private J {[k]}) (b ← kmalloc_buf n; _ ← upd_worker_dirs k (wd_with_path b m); f b) Q.
Proof.
  intros HN HP w Hw. pose proof (gives_path_alloc k n m w Hw) as Ha. unfold mbind, kM_bind in *.
  destruct (kmalloc_buf n w) as [b w1|w1|?]; [|done..].
  destruct (upd_worker_dirs k _ w1) as [? w2|w2|?]; [|done..].
  simpl in Ha. destruct b as [| |b]; [done|by apply HN|by apply HP].
Qed.

Lemma gives_worker_register d k :
  gives (private J {[k]}) (ums_worker_proc_register d k)
    (λ r w, if decide (r = 0) then ∃ b, path_ready k b w else private J {[k]} w).
Proof.
  assert (∀ P (r : Z), r ≠ 0 → (∀ w, P w → private J {[k]} w) →
    gives P (mret r) (λ r w, if decide (r = 0) then ∃ b, path_ready k b w else private J {[k]} w)) as Hret.
  { intros P r Hr HP. apply gives_ret. intros w Hw. rewrite decide_False by done. auto. }
  unfold ums_worker_proc_register. eapply private_bind; [frame|intros x].
  destruct (snprintf _ _) as [name n]. case_decide; [by apply Hret|].
  do 2 (eapply private_bind; [frame|intros ?]). case_match; [by apply Hret|]. cbv zeta.
  apply gives_path_alloc_then; [eapply private_bind; [frame|intros _]; by apply Hret|intros b].
  cbn [is_null].
  do 6 (eapply (gives_bind _ _ (λ _, path_ready k b)); [apply gives_path_ready; frame|intros ?]).
  case_match; [|apply gives_ret; intros w Hw; simpl; eauto].
  eapply (gives_bind _ _ (λ _, private J {[k]})); [|intros _; eapply private_bind; [frame|intros _]; by apply Hret].
  intros w (y & cap & s & HP & _). by apply (gives_private_kfree {[k]} b).
Qed.

(** ** Workers and schedulers are created

    [P] says what holds when the new structure has been entered in its table. *)
Section create_sched.
Context (P : addr → world → Prop).
Hypothesis sched_entered : ∀ a, gives (private J {[a]}) (schedulers_insert a)
  (λ r w, if decide (r = 0) then P a w else private J {[a]} w).

Lemma gives_scheduler_init a :
  gives (private J {[a]}) (ums_scheduler_init a)
    (λ r w, if decide (r = 0) then P a w else private J {[a]} w).
Proof.
  unfold ums_scheduler_init. do 5 (eapply private_bind; [frame|intros ?]).
  eapply private_bind; [eapply frames_mono; [exact _| |by apply frames_sched_register]; set_solver|intros r].
  case_decide; [|apply sched_entered]. apply gives_ret. intros w HP. by rewrite decide_False.
Qed.
Lemma gives_scheduler_create :
  gives (holds J) ums_scheduler_create
    (λ r w, match r with inl _ => holds J w | inr a => P a w end).
Proof.
  unfold ums_scheduler_create. eapply gives_bind; [apply gives_alloc|].
  intros [a|]; [|by apply gives_ret]. eapply gives_bind.
  { intros w [HP _]. by apply (gives_scheduler_init a). }
  intros r. simpl. destruct (decide (r = 0)) as [->|Hr]; [kzero; by apply gives_ret|].
  rewrite decide_True by done. eapply gives_bind; [apply gives_kfree|]. intros u. by apply gives_ret.
Qed.

End create_sched.

Section create_worker.
Context (P : addr → world → Prop).
Hypothesis worker_entered : ∀ k b, gives (path_ready k b) (workers_insert k)
  (λ r w, if decide (r = 0) then P k w else private J {[k]} w).

Lemma gives_worker_init k :
  gives (private J {[k]}) (ums_worker_init k)
    (λ r w, if decide (r = 0) then P k w else private J {[k]} w).
Proof.
  unfold ums_worker_init. do 2 (eapply private_bind; [frame|intros ?]).
  eapply gives_bind; [apply gives_worker_register|]. intros r. simpl.
  destruct (decide (r = 0)) as [->|Hr].
  - kzero. intros w [b Hw]. by apply (worker_entered k b).
  - rewrite decide_True by done. apply gives_ret. intros w Hw. by rewrite decide_False.
Qed.
Lemma gives_worker_create :
  gives (holds J) ums_worker_create
    (λ r w, match r with inl _ => holds J w | inr k => P k w end).
Proof.
  unfold ums_worker_create. eapply gives_bind; [apply gives_alloc|].
  intros [k|]; [|by apply gives_ret]. eapply gives_bind.
  { intros w [HP _]. by apply (gives_worker_init k). }
  intros r. simpl. destruct (decide (r = 0)) as [->|Hr]; [kzero; by apply gives_ret|].
  rewrite decide_True by done. eapply gives_bind; [apply gives_kfree|]. intros u. by apply gives_ret.
Qed.
End create_worker.
End private.
