(* ===== verification/Tables.v ===== *)
(** * Changes of the tables

    What the operations that change the tables of the device or hand a
    structure to RCU do to the tables, the callbacks and the heap: the facts
    that the invariants of [Typing] and [Counting] build on. *)
From S2P Require Import Prelude ListHead ListSpec Kernel Uapi State Prims Context Proc Complist.
From S2P Require Import Scheduler Worker Device Rcu Locks Frames.
From stdpp Require Import prelude gmap.

Local Open Scope Z_scope.

Definition with_ids (i : gmap Z addr) (t : tabs) : tabs :=
  mk_tabs (t_open t) i (t_scheds t) (t_workers t).
Lemma with_ids_id t : with_ids (t_ids t) t = t.
Proof. by destruct t. Qed.
Definition with_scheds (s : gset (Z * addr)) (t : tabs) : tabs :=
  mk_tabs (t_open t) (t_ids t) s (t_workers t).
Definition with_workers (k : gset (Z * addr)) (t : tabs) : tabs :=
  mk_tabs (t_open t) (t_ids t) (t_scheds t) k.

Section tables.
Context `{KO : KernelOps, LO : !ListOps lnode, KL : !KernelLaws}.
Implicit Types (w : world).

(** The three parts of a world. *)
Definition becomes w (t : tabs) (cbs : list rcu_cb) (h : gmap addr kobj) : Prop :=
  tabs_of w = t ∧ w_cbs w = cbs ∧ w_heap w = h.

(** A list is looked up, a reference is taken. *)
Lemma find_outcome id w :
  match IDR_L_FIND id w with
  | Ok r w' => r = t_ids (tabs_of w) !! id ∧ w' = w
  | Sleep _ => False
  | Bug _ => True
  end.
Proof.
  destruct (w_data w) as [d|] eqn:Hd; [|by unfold IDR_L_FIND, get_data, mbind, kM_bind; rewrite Hd].
  rewrite (idr_l_find_run w d id Hd). unfold tabs_of. rewrite Hd. by rewrite idr_find_spec.
Qed.
Lemma get_outcome a w :
  match get_ums_complist a w with
  | Ok _ w' => ∃ c, w_heap w !! a = Some (OComplist c) ∧ 0 < cl_refcount c ∧
      w' = set_heap (<[a := OComplist (cl_with_refcount (cl_refcount c + 1) c)]> (w_heap w)) w
  | Sleep _ => False
  | Bug _ => True
  end.
Proof.
  unfold get_ums_complist, get_complist, get_obj. kred.
  destruct (w_heap w !! a) as [[c| | | | |]|] eqn:Ha; try done. unfold kref_get.
  case_decide; [|done]. kred. unfold upd_complist, get_complist, get_obj. kred. rewrite Ha. by exists c.
Qed.

(** A reference to a completion list is dropped: the last one takes the list
    out of the table and hands it to RCU. *)
Lemma put_outcome a w :
  match put_ums_complist a w with
  | Ok _ w' => ∃ c c', w_heap w !! a = Some (OComplist c) ∧ 0 < cl_refcount c ∧
      cl_refcount c' = cl_refcount c - 1 ∧ cl_id c' = cl_id c ∧
      ((cl_refcount c' = 0 ∧
        becomes w' (with_ids (delete (cl_id c) (t_ids (tabs_of w))) (tabs_of w))
          (w_cbs w ++ [CbComplist a]) (<[a := OComplist c']> (w_heap w))) ∨
       (0 < cl_refcount c' ∧ becomes w' (tabs_of w) (w_cbs w) (<[a := OComplist c']> (w_heap w))))
  | Sleep _ => False
  | Bug _ => True
  end.
Proof.
  destruct (w_heap w !! a) as [[c| | | | |]|] eqn:Ha;
    try (unfold put_ums_complist, get_complist, get_obj; kred; by rewrite Ha).
  destruct (decide (0 < cl_refcount c)) as [Hr|Hr].
  2:{ unfold put_ums_complist, get_complist, get_obj, kref_put. kred. by rewrite Ha, decide_False. }
  destruct (w_data w) as [d|] eqn:Hd.
  - rewrite (put_ums_complist_run w a c d Ha Hr Hd). case_decide as E.
    + exists c, (mk_complist (cl_id c) (cl_lock c) [] 0). split_and!; [done..|simpl; lia|done|]. left.
      split; [done|]. split_and!; [|done..]. unfold tabs_of, complist_destroyed. kproj. rewrite Hd.
      unfold tabs_of_data, with_ids. simpl. by rewrite idr_remove_spec.
    + exists c, (cl_with_refcount (cl_refcount c - 1) c). split_and!; [done..|]. right.
      split; [simpl; lia|done].
  - unfold put_ums_complist, kref_put. krun get_complist_run; [done|]. rewrite decide_True by done.
    krun (eq_refl : (mret _ : kM (Z * bool)) w = Ok _ _). krun upd_complist_run; [done|].
    cbn [fst snd]. case_bool_decide as E.
    + unfold ums_complist_release, ums_complist_destroy, ums_complist_deinit, IDR_L_REMOVE.
      do 3 (unfold mbind at 1, kM_bind at 1).
      erewrite complist_wake_up_all_run by (kproj; apply lookup_insert_eq). kred.
      erewrite get_complist_run by (kproj; apply lookup_insert_eq). kred. by rewrite Hd.
    + exists c, (cl_with_refcount (cl_refcount c - 1) c). split_and!; [done..|]. right.
      split; [simpl; lia|done].
Qed.

(** A new completion list is given an id, or a negative value that is in no
    table. *)
Lemma init_outcome a c w :
  w_heap w !! a = Some (OComplist c) →
  match ums_complist_init a w with
  | Ok r w' => r = 0 ∧ ∃ id ids,
      becomes w' (with_ids ids (tabs_of w)) (w_cbs w)
        (<[a := OComplist (mk_complist id false [] 1)]> (w_heap w)) ∧
      ((id < 0 ∧ ids = t_ids (tabs_of w)) ∨
       (0 < id ∧ t_ids (tabs_of w) !! id = None ∧ ids = <[id := a]> (t_ids (tabs_of w))))
  | Sleep _ => False
  | Bug _ => True
  end.
Proof.
  intros Ha. destruct (w_data w) as [d|] eqn:Hd;
    [|by unfold ums_complist_init, IDR_L_ALLOC, get_data, mbind, kM_bind; rewrite Hd].
  destruct (idr_alloc a 1 (-1) (d_comp_lists d) (w_env w)) as [[r i] e] eqn:Hi.
  apply idr_alloc_spec in Hi as Hs; [|lia..].
  assert (r ≠ 0) as Hr by (unfold ENOMEM, ENOSPC in Hs; lia).
  destruct (k_INIT_LIST_HEAD (ClHead a) (w_lm w)) as [m|] eqn:Hm.
  2:{ unfold ums_complist_init. krun (idr_l_alloc_run w d a r i e Hd Hi). rewrite decide_False by done.
      krun upd_complist_run; [exact Ha|]. krun upd_complist_run; [kproj; apply lookup_insert_eq|].
      unfold lm_run, mbind, kM_bind. kproj. by rewrite Hm. }
  rewrite (complist_init_run w d a c m r i e) by done. split; [done|].
  exists r, (idr_ents i). unfold becomes, tabs_of. kproj. rewrite Hd. split; [done|].
  destruct Hs as [[Hneg ->]|(? & Hn & ->)]; simpl; [left|right; split_and!; auto; lia].
  split; [destruct Hneg as [-> | ->]|]; done.
Qed.
(** ... and is undone. *)
Lemma undo_outcome a c w :
  w_heap w !! a = Some (OComplist c) →
  match (_ ← ums_complist_deinit a; free_ums_complist a) w with
  | Ok _ w' => becomes w' (with_ids (delete (cl_id c) (t_ids (tabs_of w))) (tabs_of w)) (w_cbs w)
      (delete a (w_heap w))
  | Sleep _ => False
  | Bug _ => True
  end.
Proof.
  intros Ha. unfold ums_complist_deinit, IDR_L_REMOVE, free_ums_complist.
  do 2 (unfold mbind at 1, kM_bind at 1). rewrite (get_complist_run _ a c) by done. kred.
  destruct (w_data w) as [d|] eqn:Hd; [|done]. unfold kfree. kproj. rewrite Ha.
  unfold becomes, tabs_of. kproj. rewrite Hd. split_and!; [|done..].
  unfold tabs_of_data, with_ids. simpl. by rewrite idr_remove_spec.
Qed.

Lemma sched_insert_outcome a w :
  match schedulers_insert a w with
  | Ok r w' => ∃ x, w_heap w !! a = Some (OSched x) ∧
      if decide (r = 0) then
        becomes w' (with_scheds ({[ (ctx_pid (sc_context x), a) ]} ∪ t_scheds (tabs_of w)) (tabs_of w))
          (w_cbs w) (w_heap w)
      else becomes w' (tabs_of w) (w_cbs w) (w_heap w)
  | Sleep _ => False
  | Bug _ => True
  end.
Proof.
  unfold schedulers_insert, get_sched, get_obj. kred.
  destruct (w_heap w !! a) as [[|x| | | |]|] eqn:Ha; try done.
  destruct (w_data w) as [d|] eqn:Hd; [|done].
  destruct (rhashtable_insert_fast _ a (d_schedulers d) (w_env w)) as [[r t] e] eqn:Hi. kproj.
  exists x. split; [done|]. unfold becomes, tabs_of. kproj. rewrite Hd.
  apply rhashtable_insert_spec in Hi as [[-> Ht]|[Hr Ht]].
  - rewrite decide_True by done. split_and!; [|done..]. unfold tabs_of_data, with_scheds. simpl. by rewrite Ht.
  - rewrite decide_False by (simpl; lia). split_and!; [|done..]. unfold tabs_of_data. simpl. by rewrite Ht.
Qed.
Lemma worker_insert_outcome k w :
  match workers_insert k w with
  | Ok r w' => ∃ y, w_heap w !! k = Some (OWorker y) ∧
      if decide (r = 0) then
        becomes w' (with_workers ({[ (ctx_pid (wk_context y), k) ]} ∪ t_workers (tabs_of w)) (tabs_of w))
          (w_cbs w) (w_heap w)
      else becomes w' (tabs_of w) (w_cbs w) (w_heap w)
  | Sleep _ => False
  | Bug _ => True
  end.
Proof.
  unfold workers_insert, get_worker, get_obj. kred.
  destruct (w_heap w !! k) as [[| |y| | |]|] eqn:Hk; try done.
  destruct (w_data w) as [d|] eqn:Hd; [|done].
  destruct (rhashtable_insert_fast _ k (d_workers d) (w_env w)) as [[r t] e] eqn:Hi. kproj.
  exists y. split; [done|]. unfold becomes, tabs_of. kproj. rewrite Hd.
  apply rhashtable_insert_spec in Hi as [[-> Ht]|[Hr Ht]].
  - rewrite decide_True by done. split_and!; [|done..]. unfold tabs_of_data, with_workers. simpl. by rewrite Ht.
  - rewrite decide_False by (simpl; lia). split_and!; [|done..]. unfold tabs_of_data. simpl. by rewrite Ht.
Qed.

(** A scheduler and a worker leave their table; the path of the worker is
    freed. *)
Lemma sched_leave_outcome a w :
  match (_ ← schedulers_remove a; call_rcu (CbSched a)) w with
  | Ok _ w' => ∃ x, w_heap w !! a = Some (OSched x) ∧
      becomes w' (with_scheds (t_scheds (tabs_of w) ∖ {[ (ctx_pid (sc_context x), a) ]}) (tabs_of w))
        (w_cbs w ++ [CbSched a]) (w_heap w)
  | Sleep _ => False
  | Bug _ => True
  end.
Proof.
  unfold schedulers_remove, get_sched, get_obj. kred.
  destruct (w_heap w !! a) as [[|x| | | |]|] eqn:Ha; try done.
  destruct (w_data w) as [d|] eqn:Hd; [|done]. exists x. split; [done|].
  unfold becomes, tabs_of. kproj. rewrite Hd. split_and!; [|done..].
  unfold tabs_of_data, with_scheds. simpl. by rewrite rhashtable_remove_spec.
Qed.
Lemma worker_leave_outcome k w y b o :
  w_heap w !! k = Some (OWorker y) → path_of y = Ptr b → w_heap w !! b = Some o → b ≠ k →
  match (x ← get_worker k; _ ← kfree_ptr (path_of x); _ ← workers_remove k; call_rcu (CbWorker k)) w with
  | Ok _ w' =>
      becomes w' (with_workers (t_workers (tabs_of w) ∖ {[ (ctx_pid (wk_context y), k) ]}) (tabs_of w))
        (w_cbs w ++ [CbWorker k]) (delete b (w_heap w))
  | Sleep _ => False
  | Bug _ => True
  end.
Proof.
  intros Hk Hp Hb Hne. krun get_worker_run; [done|]. rewrite Hp. unfold kfree_ptr, kfree, workers_remove.
  unfold mbind at 1, kM_bind at 1. rewrite Hb. unfold mbind at 1, kM_bind at 1.
  krun get_worker_run; [kproj; by rewrite lookup_delete_ne|]. kred.
  unfold becomes, tabs_of. kproj. destruct (w_data w) as [d|] eqn:Hd; [|done]. split_and!; [|done..].
  unfold tabs_of_data, with_workers. simpl. by rewrite rhashtable_remove_spec.
Qed.
End tables.
