(* ===== verification/Typing.v ===== *)
(** * Typing of the kernel heap

    What the tables of the device promise to the code that looks objects up in
    them: an id leads to a live completion list with that id and at least one
    reference, a pid to a live scheduler or worker with that pid, a worker of
    the table owns the buffer of its path, and a structure handed to RCU is
    still allocated and can no longer be found.

    The code that changes a table or frees a structure is treated on its own,
    by lemmas on [heap_typed]; the rest is framed. *)
From S2P Require Import Prelude ListHead ListSpec Kernel Uapi State Prims Context Proc Complist.
From S2P Require Import Scheduler Worker Device Rcu Locks Frames Private Tables.
From stdpp Require Import prelude gmap strings.

Local Open Scope Z_scope.

Definition cb_typed (t : tabs) (h : gmap addr kobj) (cb : rcu_cb) : Prop :=
  match cb with
  | CbComplist a => ∃ c, h !! a = Some (OComplist c) ∧ cl_refcount c = 0
  | CbSched a => (∃ x, h !! a = Some (OSched x)) ∧ ∀ pid, (pid, a) ∉ t_scheds t
  | CbWorker a => (∃ y, h !! a = Some (OWorker y)) ∧ ∀ pid, (pid, a) ∉ t_workers t
  end.

Record heap_typed (t : tabs) (cbs : list rcu_cb) (h : gmap addr kobj) : Prop := {
  ty_ids id a : t_ids t !! id = Some a →
    ∃ c, h !! a = Some (OComplist c) ∧ cl_id c = id ∧ 0 < cl_refcount c;
  ty_scheds pid a : (pid, a) ∈ t_scheds t →
    ∃ x, h !! a = Some (OSched x) ∧ ctx_pid (sc_context x) = pid;
  ty_workers pid a : (pid, a) ∈ t_workers t →
    ∃ y b cap s, h !! a = Some (OWorker y) ∧ ctx_pid (wk_context y) = pid ∧
      path_of y = Ptr b ∧ h !! b = Some (OBuf cap s);
  ty_paths p1 k1 y1 p2 k2 y2 : (p1, k1) ∈ t_workers t → (p2, k2) ∈ t_workers t →
    h !! k1 = Some (OWorker y1) → h !! k2 = Some (OWorker y2) → path_of y1 = path_of y2 → k1 = k2;
  ty_base : t_open t = true ∧ NoDup cbs;
  ty_cbs cb : cb ∈ cbs → cb_typed t h cb;
}.

Lemma cb_typed_sim t h h' cb : wsim ∅ h h' → cb_typed t h cb → cb_typed t h' cb.
Proof.
  intros H. destruct cb as [a|a|a]; simpl.
  - intros (c & Ha & Hc). destruct (hsim_complist _ _ _ _ H Ha) as (c' & ? & _ & _ & ?). eauto.
  - intros [[x Ha] Hn]. destruct (hsim_sched _ _ _ _ H Ha) as (? & ? & _). eauto.
  - intros [[y Ha] Hn]. destruct (hsim_worker _ _ _ _ H Ha) as (? & ? & _). eauto.
Qed.

Lemma heap_typed_sim t cbs h h' : heap_typed t cbs h → wsim ∅ h h' → heap_typed t cbs h'.
Proof.
  intros [H1 H2 H3 H4 H5 H6] H. split; [..|done|].
  - intros id a (c & Ha & ? & ?)%H1. destruct (hsim_complist _ _ _ _ H Ha) as (c' & ? & ? & ? & _).
    exists c'. split_and!; [done|congruence|auto].
  - intros pid a (x & Ha & ?)%H2. destruct (hsim_sched _ _ _ _ H Ha) as (x' & ? & Hx).
    exists x'. split; [done|]. simpl in Hx. congruence.
  - intros pid a (y & b & cap & s & Ha & ? & ? & Hb)%H3.
    destruct (hsim_worker _ _ _ _ H Ha) as (y' & ? & ? & ?).
    destruct (hsim_buf _ _ _ _ _ H Hb) as (cap' & s' & ?).
    exists y', b, cap', s'. split_and!; congruence.
  - intros p1 k1 y1 p2 k2 y2 I1 I2 K1 K2 Ep.
    destruct (H3 _ _ I1) as (z1 & _ & _ & _ & Z1 & _). destruct (H3 _ _ I2) as (z2 & _ & _ & _ & Z2 & _).
    destruct (hsim_worker _ _ _ _ H Z1) as (? & ? & _ & E1).
    destruct (hsim_worker _ _ _ _ H Z2) as (? & ? & _ & E2). simplify_eq.
    apply (H4 p1 k1 z1 p2 k2 z2); try done. congruence.
  - intros cb Hcb. eapply cb_typed_sim, H6, Hcb. done.
Qed.

(** The objects the tables and the callbacks depend on are alive; [a] is not
    one of them. *)
Definition unused (t : tabs) (cbs : list rcu_cb) (h : gmap addr kobj) (a : addr) : Prop :=
  (∀ id, t_ids t !! id ≠ Some a) ∧ (∀ pid, (pid, a) ∉ t_scheds t) ∧
  (∀ pid, (pid, a) ∉ t_workers t) ∧
  (∀ pid k y, (pid, k) ∈ t_workers t → h !! k = Some (OWorker y) → path_of y ≠ Ptr a) ∧
  (CbComplist a ∉ cbs) ∧ (CbSched a ∉ cbs) ∧ (CbWorker a ∉ cbs).

Lemma heap_typed_at t cbs h h' a :
  heap_typed t cbs h → unused t cbs h a → (∀ b, b ≠ a → h' !! b = h !! b) →
  heap_typed t cbs h'.
Proof.
  intros [H1 H2 H3 H4 H5 H6] (U1 & U2 & U3 & U4 & U5 & U6 & U7) Hh. split; [..|done|].
  - intros id b Hb. rewrite Hh by (intros ->; by apply (U1 id)). by apply H1.
  - intros pid b Hb. rewrite Hh by (intros ->; by apply (U2 pid)). by apply H2.
  - intros pid b Hb. destruct (H3 _ _ Hb) as (y & p & cap & s & Hy & ? & Hp & ?).
    exists y, p, cap, s. rewrite !Hh; [done| |intros ->; by apply (U3 pid)].
    intros ->. by apply (U4 _ _ _ Hb Hy).
  - intros p1 k1 y1 p2 k2 y2 I1 I2. rewrite !Hh; [by apply (H4 p1 k1 y1 p2 k2 y2)|..].
    + intros ->. by apply (U3 p2).
    + intros ->. by apply (U3 p1).
  - intros cb Hcb. specialize (H6 cb Hcb).
    destruct cb as [b|b|b]; simpl in *; rewrite Hh by (by intros ->); done.
Qed.

(** An address that is of no use to the tables, by the kind of the object
    that is there. *)
Lemma unused_complist t cbs h a c :
  heap_typed t cbs h → h !! a = Some (OComplist c) → (∀ id, t_ids t !! id ≠ Some a) →
  CbComplist a ∉ cbs → unused t cbs h a.
Proof.
  intros HT Ha Hid Hcb. repeat split; try done.
  - intros pid (? & ? & _)%(ty_scheds _ _ _ HT). congruence.
  - intros pid (? & ? & ? & ? & ? & _)%(ty_workers _ _ _ HT). congruence.
  - intros pid k y (? & ? & ? & ? & ? & ? & ? & ?)%(ty_workers _ _ _ HT) ? ?. congruence.
  - intros [[??] _]%(ty_cbs _ _ _ HT). congruence.
  - intros [[??] _]%(ty_cbs _ _ _ HT). congruence.
Qed.
Lemma unused_sched t cbs h a x :
  heap_typed t cbs h → h !! a = Some (OSched x) → (∀ pid, (pid, a) ∉ t_scheds t) →
  CbSched a ∉ cbs → unused t cbs h a.
Proof.
  intros HT Ha Hid Hcb. repeat split; try done.
  - intros id (? & ? & _)%(ty_ids _ _ _ HT). congruence.
  - intros pid (? & ? & ? & ? & ? & _)%(ty_workers _ _ _ HT). congruence.
  - intros pid k y (? & ? & ? & ? & ? & ? & ? & ?)%(ty_workers _ _ _ HT) ? ?. congruence.
  - intros (? & ? & _)%(ty_cbs _ _ _ HT). congruence.
  - intros [[??] _]%(ty_cbs _ _ _ HT). congruence.
Qed.
Lemma unused_worker t cbs h a y :
  heap_typed t cbs h → h !! a = Some (OWorker y) → (∀ pid, (pid, a) ∉ t_workers t) →
  CbWorker a ∉ cbs → unused t cbs h a.
Proof.
  intros HT Ha Hid Hcb. repeat split; try done.
  - intros id (? & ? & _)%(ty_ids _ _ _ HT). congruence.
  - intros pid (? & ? & _)%(ty_scheds _ _ _ HT). congruence.
  - intros pid k z (? & ? & ? & ? & ? & ? & ? & ?)%(ty_workers _ _ _ HT) ? ?. congruence.
  - intros (? & ? & _)%(ty_cbs _ _ _ HT). congruence.
  - intros [[??] _]%(ty_cbs _ _ _ HT). congruence.
Qed.
Lemma unused_buf t cbs h a cap s :
  heap_typed t cbs h → h !! a = Some (OBuf cap s) →
  (∀ pid k y, (pid, k) ∈ t_workers t → h !! k = Some (OWorker y) → path_of y ≠ Ptr a) →
  unused t cbs h a.
Proof.
  intros HT Ha Hp. repeat split; try done.
  - intros id (? & ? & _)%(ty_ids _ _ _ HT). congruence.
  - intros pid (? & ? & _)%(ty_scheds _ _ _ HT). congruence.
  - intros pid (? & ? & ? & ? & ? & _)%(ty_workers _ _ _ HT). congruence.
  - intros (? & ? & _)%(ty_cbs _ _ _ HT). congruence.
  - intros [[??] _]%(ty_cbs _ _ _ HT). congruence.
  - intros [[??] _]%(ty_cbs _ _ _ HT). congruence.
Qed.

(** ** Changes of the tables *)

Lemma heap_typed_add_id t cbs h id a c :
  heap_typed t cbs h → h !! a = Some (OComplist c) → cl_id c = id → 0 < cl_refcount c →
  heap_typed (mk_tabs (t_open t) (<[id := a]> (t_ids t)) (t_scheds t) (t_workers t)) cbs h.
Proof.
  intros [H1 H2 H3 H4 H5 H6] Ha Hid Hr. split; [|done..|done|].
  - intros i b. simpl. rewrite lookup_insert_Some. intros [[<- <-]|[_ Hb]]; [by exists c|by apply H1].
  - intros cb Hcb. specialize (H6 cb Hcb). by destruct cb.
Qed.
Lemma heap_typed_del_id t cbs h id :
  heap_typed t cbs h → heap_typed (mk_tabs (t_open t) (delete id (t_ids t)) (t_scheds t) (t_workers t)) cbs h.
Proof.
  intros [H1 H2 H3 H4 H5 H6]. split; [|done..|done|].
  - intros i b. simpl. intros [_ Hb]%lookup_delete_Some. by apply H1.
  - intros cb Hcb. specialize (H6 cb Hcb). by destruct cb.
Qed.
Lemma heap_typed_add_sched t cbs h pid a x :
  heap_typed t cbs h → h !! a = Some (OSched x) → ctx_pid (sc_context x) = pid →
  CbSched a ∉ cbs →
  heap_typed (mk_tabs (t_open t) (t_ids t) ({[ (pid, a) ]} ∪ t_scheds t) (t_workers t)) cbs h.
Proof.
  intros [H1 H2 H3 H4 H5 H6] Ha Hp Hc. split; [done| |done..|].
  - intros p b. simpl. intros [[= -> ->]%elem_of_singleton|Hb]%elem_of_union; [by exists x|by apply H2].
  - intros cb Hcb. specialize (H6 cb Hcb). destruct cb as [b|b|b]; simpl in *; try done.
    destruct H6 as [? Hn]. split; [done|]. intros p [[= -> ->]%elem_of_singleton|Hb]%elem_of_union; [done|by apply (Hn p)].
Qed.
Lemma heap_typed_add_worker t cbs h pid a y b cap s :
  heap_typed t cbs h → h !! a = Some (OWorker y) → ctx_pid (wk_context y) = pid →
  path_of y = Ptr b → h !! b = Some (OBuf cap s) →
  (∀ p k z, (p, k) ∈ t_workers t → h !! k = Some (OWorker z) → path_of z ≠ Ptr b) →
  CbWorker a ∉ cbs →
  heap_typed (mk_tabs (t_open t) (t_ids t) (t_scheds t) ({[ (pid, a) ]} ∪ t_workers t)) cbs h.
Proof.
  intros [H1 H2 H3 H4 H5 H6] Ha Hp Hpa Hb Hn Hc. split; [done|done|..|done|].
  - intros p k. simpl. intros [[= -> ->]%elem_of_singleton|Hk]%elem_of_union; [by exists y, b, cap, s|by apply H3].
  - intros p1 k1 y1 p2 k2 y2. simpl.
    intros [[= -> ->]%elem_of_singleton|I1]%elem_of_union
      [[= -> ->]%elem_of_singleton|I2]%elem_of_union K1 K2 E; [done|..]; simplify_eq.
    + by destruct (Hn p2 k2 y2); [..|congruence].
    + by destruct (Hn p1 k1 y1); [..|congruence].
    + by apply (H4 p1 k1 y1 p2 k2 y2).
  - intros cb Hcb. specialize (H6 cb Hcb). destruct cb as [k|k|k]; simpl in *; try done.
    destruct H6 as [? Hk]. split; [done|]. intros p [[= -> ->]%elem_of_singleton|Hin]%elem_of_union; [done|by apply (Hk p)].
Qed.

Lemma heap_typed_del_sched t cbs h p :
  heap_typed t cbs h → heap_typed (mk_tabs (t_open t) (t_ids t) (t_scheds t ∖ {[p]}) (t_workers t)) cbs h.
Proof.
  intros [H1 H2 H3 H4 H5 H6]. split; [done| |done..|].
  - intros pid b. simpl. intros [Hb _]%elem_of_difference. by apply H2.
  - intros cb Hcb. specialize (H6 cb Hcb). destruct cb as [b|b|b]; simpl in *; [done| |done].
    destruct H6 as [? Hn]. split; [done|]. intros pid [Hb _]%elem_of_difference. by apply (Hn pid).
Qed.
Lemma heap_typed_del_worker t cbs h p :
  heap_typed t cbs h → heap_typed (mk_tabs (t_open t) (t_ids t) (t_scheds t) (t_workers t ∖ {[p]})) cbs h.
Proof.
  intros [H1 H2 H3 H4 H5 H6]. split; [done|done|..|done|].
  - intros pid b. simpl. intros [Hb _]%elem_of_difference. by apply H3.
  - intros p1 k1 y1 p2 k2 y2. simpl.
    intros [I1 _]%elem_of_difference [I2 _]%elem_of_difference. by apply (H4 p1 k1 y1 p2 k2 y2).
  - intros cb Hcb. specialize (H6 cb Hcb). destruct cb as [b|b|b]; simpl in *; [done..|].
    destruct H6 as [? Hn]. split; [done|]. intros pid [Hb _]%elem_of_difference. by apply (Hn pid).
Qed.
Lemma heap_typed_add_cb t cbs h cb :
  heap_typed t cbs h → cb_typed t h cb → cb ∉ cbs → heap_typed t (cbs ++ [cb]) h.
Proof.
  intros [H1 H2 H3 H4 H5 H6] Hcb Hn. split; [done..| |].
  - destruct H5. split; [done|]. apply NoDup_app. split; [done|].
    split; [|apply NoDup_singleton]. set_solver.
  - intros cb' [?| ->%list_elem_of_singleton]%elem_of_app; [by apply H6|done].
Qed.
Lemma heap_typed_del_cb t cb cbs h : heap_typed t (cb :: cbs) h → heap_typed t cbs h.
Proof.
  intros [H1 H2 H3 H4 [H5 [_ ?]%NoDup_cons] H6]. split; [done..|]. intros cb' ?. apply H6. set_solver.
Qed.

(** The last reference to a completion list is dropped. *)
Lemma heap_typed_drop t cbs h a c c' :
  heap_typed t cbs h → h !! a = Some (OComplist c) → 0 < cl_refcount c → cl_refcount c' = 0 →
  heap_typed (mk_tabs (t_open t) (delete (cl_id c) (t_ids t)) (t_scheds t) (t_workers t))
    (cbs ++ [CbComplist a]) (<[a := OComplist c']> h).
Proof.
  intros HT Ha Hr Hr'.
  assert (CbComplist a ∉ cbs) as Hcb.
  { intros (? & ? & ?)%(ty_cbs _ _ _ HT). simplify_eq. lia. }
  apply heap_typed_add_cb; [|exists c'; by rewrite lookup_insert_eq|done].
  eapply (heap_typed_at _ _ h); [by apply heap_typed_del_id| |intros b Hb; by rewrite lookup_insert_ne].
  eapply unused_complist; [by apply heap_typed_del_id|done| |done].
  intros id. simpl. intros [Hne Hid]%lookup_delete_Some. destruct (ty_ids _ _ _ HT _ _ Hid) as (? & ? & ? & _).
  simplify_eq.
Qed.
(** A scheduler and a worker that leave their table for RCU; the path of the
    worker is freed. *)
Lemma heap_typed_leave_sched t cbs h pid a x :
  heap_typed t cbs h → (pid, a) ∈ t_scheds t → h !! a = Some (OSched x) →
  heap_typed (mk_tabs (t_open t) (t_ids t) (t_scheds t ∖ {[ (ctx_pid (sc_context x), a) ]}) (t_workers t))
    (cbs ++ [CbSched a]) h.
Proof.
  intros HT Hin Ha. apply heap_typed_add_cb; [by apply heap_typed_del_sched| |].
  - split; [by exists x|]. simpl. intros p [Hp Hn]%elem_of_difference. apply Hn.
    destruct (ty_scheds _ _ _ HT _ _ Hp) as (? & ? & ?). simplify_eq. set_solver.
  - intros [_ Hn]%(ty_cbs _ _ _ HT). by apply (Hn pid).
Qed.
Lemma heap_typed_leave_worker t cbs h pid k y b :
  heap_typed t cbs h → (pid, k) ∈ t_workers t → h !! k = Some (OWorker y) → path_of y = Ptr b →
  heap_typed (mk_tabs (t_open t) (t_ids t) (t_scheds t) (t_workers t ∖ {[ (ctx_pid (wk_context y), k) ]}))
    (cbs ++ [CbWorker k]) (delete b h).
Proof.
  intros HT Hin Hk Hp.
  destruct (ty_workers _ _ _ HT _ _ Hin) as (? & b' & cap & s & ? & <- & Hp' & Hb). simplify_eq.
  rewrite Hp in Hp'. injection Hp' as <-.
  assert (∀ p, (p, k) ∉ t_workers t ∖ {[ (ctx_pid (wk_context y), k) ]}) as Hout.
  { intros p [Hpk Hn]%elem_of_difference. apply Hn.
    destruct (ty_workers _ _ _ HT _ _ Hpk) as (? & ? & ? & ? & ? & ? & _). simplify_eq. set_solver. }
  apply heap_typed_add_cb.
  - eapply (heap_typed_at _ _ h); [by apply heap_typed_del_worker| |intros z Hz; by rewrite lookup_delete_ne].
    eapply unused_buf; [by apply heap_typed_del_worker|done|].
    simpl. intros p j z [Hj Hn]%elem_of_difference Hz Ez. apply Hn.
    assert (j = k) as ->
      by (apply (ty_paths _ _ _ HT p j z (ctx_pid (wk_context y)) k y); [done..|congruence]).
    by destruct (Hout p); apply elem_of_difference.
  - split; [|done]. exists y. rewrite lookup_delete_ne; [done|]. intros ->. congruence.
  - intros [_ Hn]%(ty_cbs _ _ _ HT). by apply (Hn (ctx_pid (wk_context y))).
Qed.
(** A callback frees its structure. *)
Lemma heap_typed_free t cb cbs h a :
  heap_typed t (cb :: cbs) h → cb = CbComplist a ∨ cb = CbSched a ∨ cb = CbWorker a →
  heap_typed t cbs (delete a h).
Proof.
  intros HT Hcb. pose proof (heap_typed_del_cb _ _ _ _ HT) as HT'.
  pose proof (ty_base _ _ _ HT) as [_ [Hn _]%NoDup_cons].
  pose proof (ty_cbs _ _ _ HT cb (list_elem_of_here _ _)) as Hc.
  eapply (heap_typed_at _ _ h); [done| |intros z Hz; by rewrite lookup_delete_ne].
  destruct Hcb as [-> | [-> | ->]]; simpl in Hc.
  - destruct Hc as (c & Ha & Hr). eapply unused_complist; [done..| |done].
    intros id (? & ? & _ & ?)%(ty_ids _ _ _ HT). simplify_eq. lia.
  - destruct Hc as [[x Ha] ?]. by eapply unused_sched.
  - destruct Hc as [[y Ha] ?]. by eapply unused_worker.
Qed.

(** ** Worlds *)

#[export] Instance heap_typed_inv : HeapInv same_type heap_typed.
Proof. exact heap_typed_sim. Qed.
Abbreviation typed := (holds heap_typed).

Section worlds.
Context `{KO : KernelOps}.
Implicit Types (w : world) (X Y : gset addr).

Lemma typed_framed w w' : typed w → framed ∅ w w' → typed w'.
Proof. intros HT F. eapply (holds_framed same_type heap_typed); [done|]. by eapply framed_weaken. Qed.

#[export] Instance typed_stable : Stable same_type typed typed.
Proof. apply holds_stable, _. Qed.

(** The worker [k], the scheduler [a] can be found; the structure of [cb],
    taken from the queue of callbacks, waits to be freed. *)
Definition worker_in k w : Prop := typed w ∧ ∃ pid, (pid, k) ∈ t_workers (tabs_of w).
Definition sched_in a w : Prop := typed w ∧ ∃ pid, (pid, a) ∈ t_scheds (tabs_of w).
Definition freeing (cb : rcu_cb) w : Prop :=
  heap_typed (tabs_of w) (cb :: w_cbs w) (w_heap w).
#[export] Instance worker_in_stable k : Stable same_type typed (worker_in k).
Proof.
  split; [by intros w []|]. intros w w' [HT Hk] F. split; [by eapply (holds_framed same_type heap_typed)|].
  by destruct F as [-> _].
Qed.
#[export] Instance sched_in_stable a : Stable same_type typed (sched_in a).
Proof.
  split; [by intros w []|]. intros w w' [HT Hk] F. split; [by eapply (holds_framed same_type heap_typed)|].
  by destruct F as [-> _].
Qed.
#[export] Instance freeing_stable cb : Stable same_type typed (freeing cb).
Proof.
  split; [intros w; apply heap_typed_del_cb|]. intros w w' HT (E & F & S). unfold freeing.
  rewrite E, F. by eapply heap_typed_sim.
Qed.

End worlds.

Abbreviation gives := (rgives typed).
Abbreviation safe := (rsafe typed).

Section handlers.
Context `{KO : KernelOps, LO : !ListOps lnode, KL : !KernelLaws, IO : IoctlNr}.
Implicit Types (w : world).

(** ** References to completion lists *)

(** What survives the release of a reference. *)
Lemma put_complist_tabs a w :
  typed w →
  match put_ums_complist a w with
  | Ok _ w' => typed w' ∧ t_scheds (tabs_of w') = t_scheds (tabs_of w) ∧
      t_workers (tabs_of w') = t_workers (tabs_of w)
  | Sleep _ => False
  | Bug _ => True
  end.
Proof.
  intros HT. pose proof (put_outcome a w) as H. destruct (put_ums_complist a w) as [r w'|w'|b]; [|done..].
  destruct H as (c & c' & Ha & Hr & Hr' & Hid & Hcase). unfold holds.
  destruct Hcase as [[Hz (E1 & E2 & E3)]|[Hp (E1 & E2 & E3)]]; rewrite E1, E2, E3; (split; [|done]).
  - by apply heap_typed_drop.
  - eapply heap_typed_sim; [exact HT|]. eapply hsim_put; [exact _|done|]. intros _. simpl. lia.
Qed.
Lemma gives_put_worker k a : gives (worker_in k) (put_ums_complist a) (λ _, worker_in k).
Proof.
  intros w [HT Hk]. pose proof (put_complist_tabs a w HT) as H.
  destruct (put_ums_complist a w); [|done..]. destruct H as (? & _ & E). split; [done|by rewrite E].
Qed.
Lemma gives_put_sched s a : gives (sched_in s) (put_ums_complist a) (λ _, sched_in s).
Proof.
  intros w [HT Hk]. pose proof (put_complist_tabs a w HT) as H.
  destruct (put_ums_complist a w); [|done..]. destruct H as (? & E & _). split; [done|by rewrite E].
Qed.
Lemma safe_delete id : safe typed (ums_complist_delete id).
Proof.
  unfold ums_complist_delete. eapply safe_bind; [exact _|frame|intros _].
  eapply safe_bind; [exact _|frame|intros [a|]]; [|safe_walk].
  eapply (gives_bind _ _ (λ _, typed)); [|intros r; safe_walk].
  intros w HT. pose proof (put_complist_tabs a w HT) as H.
  destruct (put_ums_complist a w); [apply H|done..].
Qed.

(** ** Completion lists *)

(** A new completion list [c] at [a], before and after it is given an id. *)
Definition complist_new a c w : Prop :=
  private heap_typed {[a]} w ∧ w_heap w !! a = Some (OComplist c).
Definition complist_listed a c w : Prop :=
  typed w ∧ w_heap w !! a = Some (OComplist c) ∧
  heap_typed (mk_tabs (t_open (tabs_of w)) (delete (cl_id c) (t_ids (tabs_of w))) (t_scheds (tabs_of w))
    (t_workers (tabs_of w))) (w_cbs w) (without {[a]} (w_heap w)).

Lemma gives_complist_init a c :
  gives (complist_new a c) (ums_complist_init a) (λ r w, r = 0 ∧ ∃ c', complist_listed a c' w).
Proof.
  intros w [HT Ha]. pose proof (init_outcome a c w Ha) as H.
  destruct (ums_complist_init a w) as [r w'|w'|b]; [|done..].
  destruct H as (-> & id & ids & (E1 & E2 & E3) & Hids). split; [done|]. eexists.
  unfold complist_listed, holds. rewrite E1, E2, E3. set (h' := <[a := _]> _) in *.
  assert (private heap_typed {[a]} (set_heap h' w)) as HT'.
  { eapply (private_framed same_type heap_typed); [done|]. apply framed_heap.
    eapply hsim_put; [exact _|done|set_solver]. }
  pose proof (private_holds same_type heap_typed _ _ HT') as HT2. unfold private, holds in HT', HT2.
  split; [|split; [apply lookup_insert_eq|]]; destruct Hids as [[_ ->]|(_ & Hn & ->)]; simpl.
  - by rewrite with_ids_id.
  - eapply heap_typed_add_id; [exact HT2|apply lookup_insert_eq|done|done].
  - by apply heap_typed_del_id.
  - rewrite delete_insert_id by done. change (mk_tabs _ _ _ _) with (with_ids (t_ids (tabs_of w)) (tabs_of w)).
    by rewrite with_ids_id.
Qed.

Lemma gives_complist_undo a c :
  gives (complist_listed a c) (_ ← ums_complist_deinit a; free_ums_complist a) (λ _, typed).
Proof.
  intros w (_ & Ha & HT). pose proof (undo_outcome a c w Ha) as H.
  destruct ((_ ← ums_complist_deinit a; free_ums_complist a) w) as [r w'|w'|b]; [|done..].
  destruct H as (E1 & E2 & E3). unfold holds. rewrite E1, E2, E3.
  eapply heap_typed_sim; [exact HT|].
  apply hsim_without_all; [exact _|]. intros b o Hb. rewrite lookup_delete_ne; [done|set_solver].
Qed.

Lemma safe_create id : safe typed (create_ums_complist id).
Proof.
  unfold create_ums_complist. eapply gives_bind; [apply (gives_alloc same_type heap_typed)|].
  intros [a|]; [|by apply gives_ret]. eapply gives_bind; [apply gives_complist_init|].
  intros r w [-> [c Hw]]. kzero. rewrite (bind_ok _ _ _ c w) by apply get_complist_run, Hw.
  unfold copy_to_user. unfold mbind, kM_bind. case_decide; kred.
  - kzero. by eapply (holds_framed same_type heap_typed w); [apply Hw|apply framed_ext].
  - rewrite decide_True by done. pose proof (gives_complist_undo a c w Hw) as H'.
    unfold mbind, kM_bind in H'. destruct (ums_complist_deinit a w) as [u w1|w1|b]; [|done..].
    by destruct (free_ums_complist a w1).
Qed.

(** ** Schedulers *)

Lemma gives_schedulers_insert a :
  gives (private heap_typed {[a]}) (schedulers_insert a)
    (λ r w, if decide (r = 0) then sched_in a w else private heap_typed {[a]} w).
Proof.
  intros w HP. pose proof (private_holds same_type heap_typed _ _ HP) as HT.
  pose proof (sched_insert_outcome a w) as H. destruct (schedulers_insert a w) as [r w'|w'|b]; [|done..].
  destruct H as (x & Ha & H). unfold sched_in, private, holds.
  case_decide; destruct H as (E1 & E2 & E3); rewrite E1, E2, E3; [|exact HP].
  split; [|eexists; by apply elem_of_union_l, elem_of_singleton].
  apply (heap_typed_add_sched _ _ _ _ _ _ HT Ha); [done|].
  intros [[y Hy] _]%(ty_cbs _ _ _ HP). apply without_Some in Hy as [_ Hy]. set_solver.
Qed.

Lemma gives_schedulers_remove a :
  gives (sched_in a) (_ ← schedulers_remove a; call_rcu (CbSched a)) (λ _, typed).
Proof.
  intros w [HT [pid Hin]]. pose proof (sched_leave_outcome a w) as H.
  destruct ((_ ← schedulers_remove a; call_rcu (CbSched a)) w) as [r w'|w'|b]; [|done..].
  destruct H as (x & Ha & E1 & E2 & E3). unfold holds. rewrite E1, E2, E3.
  by eapply heap_typed_leave_sched.
Qed.

Lemma safe_scheduler_destroy a : safe (sched_in a) (ums_scheduler_destroy a).
Proof.
  unfold ums_scheduler_destroy. do 6 (eapply safe_bind; [exact _|frame|intros ?]).
  eapply (gives_bind _ _ (λ _, sched_in a)); [apply gives_put_sched|intros _].
  eapply safe_bind; [exact _|frame|intros _]. apply gives_schedulers_remove.
Qed.

Lemma safe_enter_sched args : safe typed (enter_ums_scheduler_mode args).
Proof.
  unfold enter_ums_scheduler_mode. eapply gives_bind; [apply (gives_scheduler_create same_type heap_typed sched_in gives_schedulers_insert)|].
  assert (∀ a (r : Z), safe (sched_in a)
    (_ ← rcu_read_unlock; _ ← ums_scheduler_destroy a; mret r)) as Hend.
  { intros a r. eapply safe_bind; [exact _|frame|intros _].
    eapply (gives_bind _ _ (λ _, typed)); [apply safe_scheduler_destroy|]. intros _. by apply gives_ret. }
  intros [r|a]; [by apply gives_ret|]. safe_walk; try apply Hend.
Qed.

(** ** Workers *)

Lemma gives_workers_insert k b :
  gives (path_ready heap_typed k b) (workers_insert k)
    (λ r w, if decide (r = 0) then worker_in k w else private heap_typed {[k]} w).
Proof.
  intros w HR. pose proof (path_ready_private same_type heap_typed _ _ _ HR) as HP1.
  destruct HR as (y & cap & s & HP & Hk & Hp & Hb).
  pose proof (private_holds same_type heap_typed _ _ HP) as HT.
  pose proof (worker_insert_outcome k w) as H. destruct (workers_insert k w) as [r w'|w'|?]; [|done..].
  destruct H as (y' & Hk' & H). simplify_eq. unfold worker_in, private, holds.
  case_decide; destruct H as (E1 & E2 & E3); rewrite E1, E2, E3; [|exact HP1].
  split; [|eexists; by apply elem_of_union_l, elem_of_singleton].
  apply (heap_typed_add_worker _ _ _ _ _ _ _ _ _ HT Hk eq_refl Hp Hb).
  - intros p j z (z' & b' & cap' & s' & Hz' & _ & Hp' & Hb')%(ty_workers _ _ _ HP) Hz Ez.
    apply without_Some in Hz' as [Hz' _]. apply without_Some in Hb' as [_ Hb']. simplify_eq.
    rewrite Hp' in Ez. simplify_eq. set_solver.
  - intros [[z Hz] _]%(ty_cbs _ _ _ HP). apply without_Some in Hz as [_ Hz]. set_solver.
Qed.

Lemma gives_worker_leave k :
  gives (worker_in k)
    (x ← get_worker k; _ ← kfree_ptr (path_of x); _ ← workers_remove k; call_rcu (CbWorker k))
    (λ _, typed).
Proof.
  intros w [HT [pid Hin]]. destruct (ty_workers _ _ _ HT _ _ Hin) as (y & b & cap & s & Hk & _ & Hp & Hb).
  assert (b ≠ k) as Hne by congruence. pose proof (worker_leave_outcome k w y b _ Hk Hp Hb Hne) as H.
  destruct ((get_worker k ≫= _) w) as [r w'|w'|?]; [|done..].
  destruct H as (E1 & E2 & E3). unfold holds. rewrite E1, E2, E3. by eapply heap_typed_leave_worker.
Qed.

Lemma safe_worker_destroy k : safe (worker_in k) (ums_worker_destroy k).
Proof.
  unfold ums_worker_destroy. do 2 (eapply safe_bind; [exact _|frame|intros ?]).
  eapply (gives_bind _ _ (λ _, worker_in k)); [apply gives_put_worker|intros _].
  unfold ums_worker_proc_unregister.
  do 4 (apply gives_assoc; eapply safe_bind; [exact _|frame|intros ?]).
  apply gives_assoc, gives_worker_leave.
Qed.

Lemma safe_enter_worker args : safe typed (enter_ums_worker_mode args).
Proof.
  unfold enter_ums_worker_mode. eapply gives_bind; [apply (gives_worker_create same_type heap_typed worker_in gives_workers_insert)|].
  intros [r|k]; [by apply gives_ret|]. safe_walk.
  eapply (gives_bind _ _ (λ _, typed)); [apply safe_worker_destroy|]. intros _. by apply gives_ret.
Qed.

Lemma safe_end : safe typed ums_worker_end.
Proof.
  unfold ums_worker_end. do 2 (eapply safe_bind; [exact _|frame|intros ?]).
  intros w HT. unfold mbind at 1, kM_bind at 1, get_data at 1.
  destruct (w_data w) as [d|] eqn:Hd; [|done]. destruct (rhashtable_lookup_fast _ _) as [k|] eqn:Hk.
  - apply rhashtable_lookup_Some in Hk.
    assert (worker_in k w) as Hin by (split; [done|]; unfold tabs_of; rewrite Hd; by eexists).
    revert w HT Hd Hin. enough (safe (worker_in k) _) as H by (intros w _ _; apply H).
    safe_walk.
    eapply (gives_bind _ _ (λ _, typed)); [apply safe_worker_destroy|]. intros _. safe_walk.
  - revert w HT Hd. enough (safe typed _) as H by (intros w HT _; by apply H). safe_walk.
Qed.

(** ** The device *)

#[local] Hint Resolve safe_create safe_delete safe_enter_sched safe_enter_worker safe_end : typing.
Lemma safe_enter args : safe typed (enter_ums_mode args).
Proof. unfold enter_ums_mode. safe_walk. Qed.
#[local] Hint Resolve safe_enter : typing.
Lemma safe_ioctl cmd arg : safe typed (ums_dev_ioctl cmd arg).
Proof. unfold ums_dev_ioctl. safe_walk. Qed.
Lemma safe_resume_dqcontext args a s : safe typed (resume_dqcontext args a s).
Proof. eapply safe_frames; [exact _|by apply frames_resume_dqcontext]. Qed.
Lemma safe_resume_dqevent args s : safe typed (resume_dqevent args s).
Proof. eapply safe_frames; [exact _|by apply frames_resume_dqevent]. Qed.

Lemma gives_free cb a :
  cb = CbComplist a ∨ cb = CbSched a ∨ cb = CbWorker a → gives (freeing cb) (kfree a) (λ _, typed).
Proof.
  intros Hcb w Hw. unfold kfree. destruct (w_heap w !! a); [|done].
  exact (heap_typed_free _ _ _ _ _ Hw Hcb).
Qed.
Lemma safe_rcu_cb cb : safe (freeing cb) (run_rcu_cb cb).
Proof.
  destruct cb as [a|a|a]; simpl; [apply gives_free; auto| |];
    (eapply safe_bind; [exact _|frame|intros _; apply gives_free; auto]).
Qed.

(** Opening the device hands nothing to RCU. *)
Definition keeps_cbs {A} (m : kM A) : Prop :=
  ∀ w a w', m w = Ok a w' → w_cbs w' = w_cbs w.
Lemma keeps_cbs_bind {A B} (m : kM A) (f : A → kM B) :
  keeps_cbs m → (∀ a, keeps_cbs (f a)) → keeps_cbs (m ≫= f).
Proof.
  intros Hm Hf w b w' (a & w1 & E1 & E2)%bind_inv. rewrite (Hf _ _ _ _ E2). by eapply Hm.
Qed.
Lemma keeps_cbs_frames {A} X (m : kM A) : wframes X m → keeps_cbs m.
Proof. intros Hm w a w' E. by destruct (frames_ok _ _ _ _ _ _ Hm E) as (_ & ? & _). Qed.
Lemma keeps_cbs_kfree_ptr p : keeps_cbs (kfree_ptr p).
Proof.
  destruct p as [| |a]; [done|by intros w ? w' [= <- <-]|].
  apply (keeps_cbs_frames {[a]}). frame.
Qed.
Lemma keeps_cbs_dirs_init d : keeps_cbs (ums_proc_dirs_init d).
Proof.
  unfold ums_proc_dirs_init. repeat first
    [ apply keeps_cbs_kfree_ptr
    | apply (keeps_cbs_frames ∅); solve [frame]
    | apply keeps_cbs_bind; [|intros ?]
    | match goal with |- keeps_cbs (match ?x with _ => _ end) => destruct x end
    | progress cbv zeta ].
Qed.

Lemma open_outcome w flags w' :
  ums_dev_open flags w = Ok 0 w' → tabs_of w' = mk_tabs true ∅ ∅ ∅ ∧ w_cbs w' = w_cbs w.
Proof.
  intros E. unfold ums_dev_open in E. case_decide; [done|].
  apply bind_inv in E as (r & w1 & E1 & E). apply (keeps_cbs_frames ∅) in E1; [|frame].
  destruct r as [a|]; [|done]. apply bind_inv in E as ([r dirs] & w2 & E2 & E).
  apply keeps_cbs_dirs_init in E2. case_decide as Hr.
  { apply bind_inv in E as (_ & w3 & _ & [= ? _]). lia. }
  apply bind_inv in E as ([r1 t1] & w3 & E3 & E). simpl in E. case_decide as Hr1.
  { apply bind_inv in E as (_ & ? & _ & (_ & ? & _ & [= ? _])%bind_inv). lia. }
  apply bind_inv in E as ([r2 t2] & w4 & E4 & E). simpl in E. case_decide as Hr2.
  { apply bind_inv in E as (_ & ? & _ & (_ & ? & _ & [= ? _])%bind_inv). lia. }
  injection E as <-. apply (keeps_cbs_frames ∅) in E3 as C3, E4 as C4; [|frame..].
  unfold call_env in E3, E4. destruct (rhashtable_init (w_env w2)) as [[? ?] e] eqn:H1.
  destruct (rhashtable_init (w_env w3)) as [[? ?] e'] eqn:H2. simplify_eq.
  apply rhashtable_init_spec in H1 as [_ Ht1], H2 as [_ Ht2].
  unfold tabs_of, tabs_of_data. kproj. simpl. rewrite idr_init_ents, Ht1, Ht2. split; congruence.
Qed.
Lemma open_typed w flags w' : w_cbs w = [] → ums_dev_open flags w = Ok 0 w' → typed w'.
Proof.
  intros Hc [Et Ec]%open_outcome. unfold holds. rewrite Et, Ec, Hc.
  split; simpl; try set_solver. split; [done|apply NoDup_nil_2].
Qed.
End handlers.
