(* ===== verification/System.v ===== *)
(** * The module as a transition system

    Tasks call the device ([ums_dev_ioctl]); a call returns, or goes to sleep
    in a wait queue and is resumed later (woken up or interrupted by a signal);
    RCU callbacks run; the rest of the kernel changes its hidden state and the
    run states of tasks.  Steps are not restricted further, so that every
    order of them is covered: a sleeping call may be resumed at any time, and a
    callback may run at any time after it was handed to RCU. *)
From S2P Require Import Prelude ListHead ListSpec Kernel Uapi State Prims Context Proc Complist.
From S2P Require Import Scheduler Worker Device Rcu Locks Frames Private Typing.
From stdpp Require Import prelude gmap.

(** A call that sleeps: where it goes on, with its arguments. *)
Inductive sleeper :=
  | WaitContext (args : uptr dequeue_ums_complist_args) (complist scheduler : addr)
  | WaitEvent (args : uptr ums_sched_event) (scheduler : addr).

Section system.
Context `{KO : KernelOps, LO : !ListOps lnode, IO : IoctlNr}.

Definition resume (c : sleeper) : kM Z :=
  match c with
  | WaitContext args a s => resume_dqcontext args a s
  | WaitEvent args s => resume_dqevent args s
  end.

(** The objects a sleeping call of the current task works on. *)
Definition sleeping_call (cmd : Z) (arg : ioctl_arg) (w : world) : option sleeper :=
  d ← w_data w;
  s ← rhashtable_lookup_fast (d_schedulers d) (w_cur w);
  if decide (cmd = IOCTL_UMS_SCHED_DQEVENT) then Some (WaitEvent (arg_event arg) s)
  else
    v ← u_val (arg_dequeue arg);
    a ← idr_find (d_comp_lists d) (dq_ums_complist v);
    Some (WaitContext (arg_dequeue arg) a s).

(** The device after it was opened, and the calls that sleep, by task. *)
Record sys := mk_sys { s_world : world; s_sleep : gmap pid_t sleeper }.

(** Calls are restricted by [ok], a condition on the request and the state. *)
Inductive step_if (ok : Z → ioctl_arg → world → Prop) : sys → sys → Prop :=
  | step_call w sl p cmd arg r w' :
      sl !! p = None → ok cmd arg (set_cur p w) → ums_dev_ioctl cmd arg (set_cur p w) = Ok r w' →
      step_if ok (mk_sys w sl) (mk_sys w' sl)
  | step_sleep w sl p cmd arg c w' :
      sl !! p = None → ok cmd arg (set_cur p w) → ums_dev_ioctl cmd arg (set_cur p w) = Sleep w' →
      sleeping_call cmd arg (set_cur p w) = Some c →
      step_if ok (mk_sys w sl) (mk_sys (set_rcu 0 w') (<[p := c]> sl))
  | step_resume w sl p c r w' :
      sl !! p = Some c → resume c (set_cur p (set_rcu 1 w)) = Ok r w' →
      step_if ok (mk_sys w sl) (mk_sys w' (delete p sl))
  | step_sleep_again w sl p c w' :
      sl !! p = Some c → resume c (set_cur p (set_rcu 1 w)) = Sleep w' →
      step_if ok (mk_sys w sl) (mk_sys (set_rcu 0 w') sl)
  | step_callback w sl cb cbs w' :
      w_cbs w = cb :: cbs → run_rcu_cb cb (set_cbs cbs w) = Ok tt w' →
      step_if ok (mk_sys w sl) (mk_sys w' sl)
  | step_kernel w sl e ts :
      step_if ok (mk_sys w sl) (mk_sys (set_tasks ts (set_env e w)) sl).

(** Every call. *)
Definition any_call : Z → ioctl_arg → world → Prop := λ _ _ _, True.

(** The device has just been opened on a world without objects and pending
    callbacks. *)
Definition initial (σ : sys) : Prop :=
  s_sleep σ = ∅ ∧ ∃ w flags, w_heap w = ∅ ∧ w_lm w = ∅ ∧ w_rcu w = 0 ∧ w_cbs w = [] ∧
    ums_dev_open flags w = Ok 0%Z (s_world σ).
Inductive reachable_if (ok : Z → ioctl_arg → world → Prop) : sys → Prop :=
  | reach_initial σ : initial σ → reachable_if ok σ
  | reach_step σ σ' : reachable_if ok σ → step_if ok σ σ' → reachable_if ok σ'.
Definition reachable : sys → Prop := reachable_if any_call.
End system.

(** ** Between steps *)

Section invariant.
Context `{KO : KernelOps, LO : !ListOps lnode, LL : !ListLaws lnode, KL : !KernelLaws,
  IO : IoctlNr}.

(** No RCU section is entered, no lock is held, the list cells are those of
    the live objects, and the heap is as the tables promise. *)
Definition sys_ok (σ : sys) : Prop :=
  w_rcu (s_world σ) = 0 ∧ sound ∅ (s_world σ) ∧ typed (s_world σ).

Lemma triple_ok {A} u i (m : kM A) j w a w' :
  triple u i m j → w_rcu w = i → m w = Ok a w' → w_rcu w' = j.
Proof. intros Ht Hi E. specialize (Ht w Hi). rewrite E in Ht. apply Ht. Qed.
Lemma held_ok {A} X (m : kM A) Y w a w' :
  held X m Y → sound X w → m w = Ok a w' → sound Y w'.
Proof. intros Hh Hw E. specialize (Hh w Hw). by rewrite E in Hh. Qed.
Lemma held_sleep {A} X (m : kM A) Y w w' :
  held X m Y → sound X w → m w = Sleep w' → sound ∅ w'.
Proof. intros Hh Hw E. specialize (Hh w Hw). by rewrite E in Hh. Qed.

Lemma safe_ok {A} P (m : kM A) w a w' : safe P m → P w → m w = Ok a w' → typed w'.
Proof. intros Hm Hw E. specialize (Hm w Hw). by rewrite E in Hm. Qed.
Lemma safe_sleep {A} P (m : kM A) w w' : safe P m → P w → m w = Sleep w' → typed w'.
Proof. intros Hm Hw E. specialize (Hm w Hw). by rewrite E in Hm. Qed.
(** The tables, the callbacks and the heap are what counts. *)
Lemma typed_ext w w' :
  w_data w' = w_data w → w_cbs w' = w_cbs w → w_heap w' = w_heap w → typed w → typed w'.
Proof. intros E1 E2 E3 HT. eapply typed_framed; [exact HT|by apply framed_ext]. Qed.

Lemma resume_triple u c : triple u 1 (resume c) 0.
Proof. destruct c; [apply rcu_resume_dqcontext|apply rcu_resume_dqevent]. Qed.
Lemma resume_held c : held ∅ (resume c) ∅.
Proof. destruct c; [apply held_resume_dqcontext|apply held_resume_dqevent]. Qed.

Lemma resume_safe c : safe typed (resume c).
Proof. destruct c; [apply safe_resume_dqcontext|apply safe_resume_dqevent]. Qed.

Lemma sys_ok_initial σ : initial σ → sys_ok σ.
Proof.
  destruct σ as [w' sl]. intros (_ & w & flags & Hh & Hl & Hr & Hc & E). simpl in *.
  split_and!; simpl.
  - eapply (triple_ok true); [apply triple_balanced, bal_open|done|exact E].
  - eapply held_ok; [apply held_keeps, (keeps_open flags)| |exact E]. split.
    + intros a o. rewrite Hh. by intros ?%lookup_empty_Some.
    + intros n. rewrite Hh, Hl, !lookup_empty.
      split; [by intros [? ?]|by intros (? & ? & _)].
  - by eapply open_typed.
Qed.

Lemma sys_ok_step ok σ σ' : sys_ok σ → step_if ok σ σ' → sys_ok σ'.
Proof.
  intros (Hr & Hs & Ht) Hstep. destruct Hstep as [w sl p cmd arg r w' _ _ E|w sl p cmd arg c w' _ _ E _
    |w sl p c r w' _ E|w sl p c w' _ E|w sl cb cbs w' Hcb E|w sl e ts]; simpl in *.
  - assert (sound ∅ (set_cur p w)) as Hs' by (by eapply sound_ext).
    assert (typed (set_cur p w)) as Ht' by (by eapply typed_ext). split_and!.
    + by eapply triple_ok; [apply rcu_ioctl| |exact E].
    + by eapply held_ok; [apply held_ioctl| |exact E].
    + by eapply safe_ok; [apply safe_ioctl| |exact E].
  - assert (sound ∅ (set_cur p w)) as Hs' by (by eapply sound_ext).
    assert (typed (set_cur p w)) as Ht' by (by eapply typed_ext). split_and!; [done|..]; simpl.
    + eapply (sound_ext _ w'); [done..|]. by eapply held_sleep; [apply held_ioctl| |exact E].
    + eapply (typed_ext w'); [done..|]. by eapply safe_sleep; [apply safe_ioctl| |exact E].
  - assert (sound ∅ (set_cur p (set_rcu 1 w))) as Hs' by (by eapply sound_ext).
    assert (typed (set_cur p (set_rcu 1 w))) as Ht' by (by eapply typed_ext). split_and!.
    + by eapply (triple_ok true); [apply resume_triple| |exact E].
    + by eapply held_ok; [apply resume_held| |exact E].
    + by eapply safe_ok; [apply resume_safe| |exact E].
  - assert (sound ∅ (set_cur p (set_rcu 1 w))) as Hs' by (by eapply sound_ext).
    assert (typed (set_cur p (set_rcu 1 w))) as Ht' by (by eapply typed_ext).
    split_and!; [done|..]; simpl.
    + eapply (sound_ext _ w'); [done..|]. by eapply held_sleep; [apply resume_held| |exact E].
    + eapply (typed_ext w'); [done..|]. by eapply safe_sleep; [apply resume_safe| |exact E].
  - split_and!.
    + by eapply (triple_ok true); [apply triple_balanced, bal_rcu_cb| |exact E].
    + eapply (held_ok ∅ _ _ (set_cbs cbs w)); [apply held_keeps, (keeps_rcu_cb cb)| |exact E].
      by eapply sound_ext.
    + eapply safe_ok; [apply (safe_rcu_cb cb)| |exact E]. unfold holds in Ht. by rewrite Hcb in Ht.
  - split_and!; [done|by eapply sound_ext|by eapply typed_ext].
Qed.

Lemma reachable_ok ok σ : reachable_if ok σ → sys_ok σ.
Proof. induction 1; eauto using sys_ok_initial, sys_ok_step. Qed.
End invariant.
