(* ===== verification/Counting.v ===== *)
(** * References to completion lists

    [kref_init] gives a completion list one reference, that of its creator,
    which [ums_complist_delete] drops; every worker and scheduler takes one
    with [get_ums_complist] and drops it with [put_ums_complist].  The number
    of references is therefore the number of workers and schedulers that use
    the list, plus one as long as it has not been deleted -- provided that no
    list is deleted twice.  Both conditions are about the history of calls: a
    run ([tidy_run]) carries the log of the lists that were created and deleted,
    and [deleted log id] is read off this log.

    [heap_counted own I M h]: the structures at [M] each refer to a completion
    list, and the count of every list that is used or listed in the table [I]
    is right, where the creator of the list [id] still has its reference if
    [own id].  [full own K] is this invariant together with the typing of the heap,
    for all workers and schedulers in the tables but those at [K], which are
    still being built or already leaving. *)
From S2P Require Import Prelude ListHead ListSpec Kernel Uapi State Prims Context Proc Complist.
From S2P Require Import Scheduler Worker Device Rcu Locks Frames Private Tables Typing System.
From stdpp Require Import prelude gmap.

Local Open Scope Z_scope.

(** ** Counting *)

(** The completion list a structure refers to. *)
Definition ref_of (o : kobj) : option (cptr addr) :=
  match o with
  | OSched x => Some (sc_complist x)
  | OWorker y => Some (wk_complist y)
  | _ => None
  end.
Definition ref_at (h : gmap addr kobj) (k : addr) : option (cptr addr) := h !! k ≫= ref_of.

(** The number of structures at [M] that use the list [a]. *)
Definition users (M : gset addr) (h : gmap addr kobj) (a : addr) : Z :=
  Z.of_nat (size (filter (λ k, ref_at h k = Some (Ptr a)) M)).
Definition tracked (I : gmap Z addr) (M : gset addr) (h : gmap addr kobj) (a : addr) : Prop :=
  (∃ k, k ∈ M ∧ ref_at h k = Some (Ptr a)) ∨ ∃ id, I !! id = Some a.

(** The reference of the creator. *)
Definition owed (b : bool) : Z := if b then 1 else 0.

Record heap_counted (own : Z → bool) (I : gmap Z addr) (M : gset addr) (h : gmap addr kobj) :
    Prop := {
  hc_ref k : k ∈ M → ∃ a, ref_at h k = Some (Ptr a);
  hc_count a : tracked I M h a →
    ∃ c, h !! a = Some (OComplist c) ∧ I !! cl_id c = Some a ∧ 0 < cl_id c ∧
      cl_refcount c = users M h a + owed (own (cl_id c));
}.

Section counting.
Implicit Types (own : Z → bool) (I : gmap Z addr) (M : gset addr) (h : gmap addr kobj).

Lemma ref_at_insert h a o k :
  ref_at (<[a := o]> h) k = if decide (k = a) then ref_of o else ref_at h k.
Proof. unfold ref_at. rewrite lookup_insert. by repeat case_decide; subst. Qed.
Lemma ref_at_complist h a c k :
  h !! a = Some (OComplist c) → ref_at (<[a := OComplist c]> h) k = ref_at h k.
Proof. intros Ha. by rewrite insert_id. Qed.

Lemma users_ext M h h' a :
  (∀ k, k ∈ M → ref_at h' k = ref_at h k) → users M h' a = users M h a.
Proof.
  intros H. unfold users. do 2 f_equal. apply set_eq. intros k. rewrite !elem_of_filter.
  split; intros [E Hk]; (split; [|done]); specialize (H k Hk); congruence.
Qed.
Lemma users_nonneg M h a : 0 ≤ users M h a.
Proof. unfold users. lia. Qed.
Lemma users_pos M h a k : k ∈ M → ref_at h k = Some (Ptr a) → 1 ≤ users M h a.
Proof.
  intros Hk E. unfold users.
  assert (size (filter (λ k, ref_at h k = Some (Ptr a)) M) ≠ 0%nat); [|lia].
  rewrite size_non_empty_iff. intros H%leibniz_equiv. apply (not_elem_of_empty (C := gset addr) k).
  rewrite <- H. by apply elem_of_filter.
Qed.
Lemma users_zero M h a : (∀ k, k ∈ M → ref_at h k ≠ Some (Ptr a)) → users M h a = 0.
Proof.
  intros H. unfold users.
  assert (filter (λ k, ref_at h k = Some (Ptr a)) M = ∅) as ->; [|by rewrite size_empty].
  apply set_eq. intros k. rewrite elem_of_filter. set_solver.
Qed.
Lemma users_cons M h a k :
  k ∉ M → users ({[k]} ∪ M) h a = users M h a + (if decide (ref_at h k = Some (Ptr a)) then 1 else 0).
Proof.
  intros Hk. unfold users. set (P := λ k, ref_at h k = Some (Ptr a)). case_decide as E.
  - assert (filter P ({[k]} ∪ M) = {[k]} ∪ filter P M) as ->.
    { apply set_eq. intros x. rewrite !elem_of_union, !elem_of_filter, elem_of_union, elem_of_singleton.
      unfold P. naive_solver. }
    rewrite size_union, size_singleton by set_solver. lia.
  - assert (filter P ({[k]} ∪ M) = filter P M) as ->; [|lia].
    apply set_eq. intros x. rewrite !elem_of_filter, elem_of_union, elem_of_singleton.
    unfold P. naive_solver.
Qed.

(** ** Steps on a heap *)

(** Structures and lists keep their references. *)
Lemma heap_counted_sim own I M h h' :
  heap_counted own I M h → hsim ∅ h h' → heap_counted own I M h'.
Proof.
  intros [H1 H2] H.
  assert (∀ k, k ∈ M → ref_at h' k = ref_at h k) as Hr.
  { intros k (a & E)%H1. rewrite E. unfold ref_at in *. destruct (h !! k) as [o|] eqn:Hk; [|done].
    simpl in E. destruct (H k o) as (o' & -> & [Ht Hs]); [set_solver|done|by destruct o|].
    destruct o, o'; simplify_eq/=; try done; congruence. }
  split; [intros k Hk; rewrite Hr by done; by apply H1|].
  intros a Ha. destruct (H2 a) as (c & Hc & ?).
  { destruct Ha as [(k & Hk & E)|?]; [left|by right]. exists k. by rewrite <- Hr. }
  destruct (H a _ ltac:(set_solver) Hc eq_refl) as ([c'| | | | |] & Hc' & [Ht Hs]); simpl in Ht, Hs; try done.
  destruct Ht as [Eid _]. exists c'. by rewrite (users_ext M h h' a Hr), Hs, Eid.
Qed.
(** An object of no interest changes or goes. *)
Lemma heap_counted_at own I M h h' x :
  heap_counted own I M h → x ∉ M → ¬ tracked I M h x → (∀ b, b ≠ x → h' !! b = h !! b) →
  heap_counted own I M h'.
Proof.
  intros [H1 H2] Hx Ht Hh.
  assert (∀ k, k ∈ M → ref_at h' k = ref_at h k) as Hr.
  { intros k Hk. unfold ref_at. rewrite Hh; [done|]. by intros ->. }
  split; [intros k Hk; rewrite Hr by done; by apply H1|].
  intros a Ha. assert (tracked I M h a) as Ha'.
  { destruct Ha as [(k & Hk & E)|?]; [left|by right]. exists k. by rewrite <- Hr. }
  destruct (H2 a Ha') as (c & Hc & ?). exists c. rewrite Hh by (by intros ->).
  by rewrite (users_ext M h h' a Hr).
Qed.
(** An unused list without references leaves the table. *)
Lemma heap_counted_drop_id own I M h a c :
  heap_counted own I M h → h !! a = Some (OComplist c) → I !! cl_id c = Some a →
  cl_refcount c = 0 → (∀ id, I !! id = Some a → id = cl_id c) →
  heap_counted own (delete (cl_id c) I) M h.
Proof.
  intros [H1 H2] Ha Hid Hr Hu. split; [done|]. intros b Hb.
  assert (tracked I M h b) as Hb'.
  { destruct Hb as [?|[i [_ Hi]%lookup_delete_Some]]; [by left|right; by exists i]. }
  destruct (H2 b Hb') as (c' & Hc' & Hi & Hp & Hn). exists c'. split_and!; [done| |done|done].
  apply lookup_delete_Some. split; [|done]. intros E. rewrite <- E, Hid in Hi. simplify_eq.
  destruct Hb as [(k & Hk & Er)|[i [Hne Hi]%lookup_delete_Some]].
  - pose proof (users_pos M h b k Hk Er). destruct (own (cl_id c)); simpl in *; lia.
  - by apply Hne, eq_sym, Hu.
Qed.

(** The creators of listed lists are the same. *)
Lemma heap_counted_own own own' I M h :
  heap_counted own I M h → (∀ id, 0 < id → is_Some (I !! id) → own' id = own id) →
  heap_counted own' I M h.
Proof.
  intros [H1 H2] Ho. split; [done|]. intros a (c & Ha & Hi & Hp & Hn)%H2. exists c.
  rewrite Ho by eauto. done.
Qed.

(** A new list with one reference, that of its creator. *)
Lemma heap_counted_add_id own I M h a c :
  heap_counted own I M h → (∀ k, k ∈ M → ref_at h k ≠ Some (Ptr a)) → h !! a = Some (OComplist c) →
  I !! cl_id c = None → 0 < cl_id c → cl_refcount c = 1 → own (cl_id c) = true →
  heap_counted own (<[cl_id c := a]> I) M h.
Proof.
  intros [H1 H2] Hn Ha Hi Hp Hc Ho. split; [done|]. intros b Hb. destruct (decide (b = a)) as [->|Hne].
  - exists c. by rewrite (users_zero M h a Hn), lookup_insert_eq, Ho, Hc.
  - destruct (H2 b) as (c' & ? & Hi' & ? & ?).
    { destruct Hb as [?|[i [[_ ?]|[_ ?]]%lookup_insert_Some]]; [by left|congruence|right; by exists i]. }
    exists c'. rewrite lookup_insert_ne by congruence. done.
Qed.

(** The count of one list changes, with its users or its creator. *)
Lemma heap_counted_set own own' I M M' h a c c' :
  heap_counted own I M h → h !! a = Some (OComplist c) → I !! cl_id c = Some a → 0 < cl_id c →
  cl_id c' = cl_id c → (∀ i, i ≠ cl_id c → own' i = own i) →
  (∀ k, k ∈ M' → k ∈ M ∨ ref_at h k = Some (Ptr a)) →
  (∀ b, b ≠ a → users M' h b = users M h b) →
  cl_refcount c' = users M' h a + owed (own' (cl_id c)) →
  heap_counted own' I M' (<[a := OComplist c']> h).
Proof.
  intros [H1 H2] Ha Hi Hp Eid Ho HM Hu Hc.
  assert (∀ k, ref_at (<[a := OComplist c']> h) k = ref_at h k) as Hr.
  { intros k. rewrite ref_at_insert. case_decide as E; [|done]. subst k. unfold ref_at. by rewrite Ha. }
  assert (∀ b, users M' (<[a := OComplist c']> h) b = users M' h b) as Hu'
    by (intros b; by apply users_ext).
  split.
  - intros k Hk. rewrite Hr. destruct (HM k Hk) as [?|?]; [by apply H1|by eexists].
  - intros b Hb. rewrite Hu'. destruct (decide (b = a)) as [->|Hne].
    + exists c'. by rewrite lookup_insert_eq, Eid.
    + rewrite Hu, lookup_insert_ne by done. destruct (H2 b) as (d & Hd & Hid & ? & Hn).
      { destruct Hb as [(k & Hk & E)|?]; [|by right]. rewrite Hr in E. left. exists k. split; [|done].
        destruct (HM k Hk) as [?|?]; [done|congruence]. }
      exists d. rewrite Ho by congruence. done.
Qed.
(** A structure [k] that refers to [a] starts and stops to count. *)
Lemma heap_counted_join own I M h a c c' k :
  heap_counted own I M h → h !! a = Some (OComplist c) → k ∉ M → ref_at h k = Some (Ptr a) →
  tracked I M h a → cl_id c' = cl_id c → cl_refcount c' = cl_refcount c + 1 →
  heap_counted own I ({[k]} ∪ M) (<[a := OComplist c']> h).
Proof.
  intros HC Ha Hk E Ht Eid Hc'. destruct (hc_count _ _ _ _ HC a Ht) as (c0 & ? & Hi & Hp & Hc). simplify_eq.
  eapply heap_counted_set; [done..| | |].
  - set_solver.
  - intros b Hb. rewrite users_cons, decide_False by (done || congruence). lia.
  - rewrite users_cons, decide_True by done. lia.
Qed.
Lemma heap_counted_leave own I M h a c c' k :
  heap_counted own I M h → h !! a = Some (OComplist c) → k ∈ M → ref_at h k = Some (Ptr a) →
  cl_id c' = cl_id c → cl_refcount c' = cl_refcount c - 1 →
  I !! cl_id c = Some a ∧ heap_counted own I (M ∖ {[k]}) (<[a := OComplist c']> h).
Proof.
  intros HC Ha Hk E Eid Hc'.
  assert (M = {[k]} ∪ (M ∖ {[k]})) as EM by (by apply union_difference_singleton_L).
  destruct (hc_count _ _ _ _ HC a) as (c0 & ? & Hi & Hp & Hc); [by left; exists k|]. simplify_eq.
  assert (∀ b, users M h b = users (M ∖ {[k]}) h b + (if decide (ref_at h k = Some (Ptr b)) then 1 else 0))
    as Hu by (intros b; rewrite EM at 1; apply users_cons; set_solver).
  split; [done|]. eapply heap_counted_set; [done..| | |].
  - set_solver.
  - intros b Hb. rewrite Hu, decide_False by congruence. lia.
  - specialize (Hu a). rewrite decide_True in Hu by done. lia.
Qed.
(** The creator's reference is dropped. *)
Definition gives_up (id : Z) (own : Z → bool) : Z → bool :=
  λ i, if decide (i = id) then false else own i.
Lemma heap_counted_delete own I M h a c c' :
  heap_counted own I M h → h !! a = Some (OComplist c) → tracked I M h a →
  own (cl_id c) = true → cl_id c' = cl_id c → cl_refcount c' = cl_refcount c - 1 →
  I !! cl_id c = Some a ∧ heap_counted (gives_up (cl_id c) own) I M (<[a := OComplist c']> h).
Proof.
  intros HC Ha Ht Ho Eid Hc'. destruct (hc_count _ _ _ _ HC a Ht) as (c0 & ? & Hi & Hp & Hc). simplify_eq.
  rewrite Ho in Hc. simpl in Hc. split; [done|].
  eapply (heap_counted_set own); [done..| |auto|done|]; unfold gives_up.
  - intros i Hi'. by rewrite decide_False.
  - rewrite decide_True by done. simpl. lia.
Qed.
End counting.

(** ** The invariant *)

Definition members (t : tabs) : gset addr := set_map snd (t_scheds t) ∪ set_map snd (t_workers t).
Lemma elem_of_members t k :
  k ∈ members t ↔ (∃ pid, (pid, k) ∈ t_scheds t) ∨ (∃ pid, (pid, k) ∈ t_workers t).
Proof.
  unfold members. rewrite elem_of_union, !elem_of_map. split.
  - intros [([pid k'] & -> & ?)|([pid k'] & -> & ?)]; [left|right]; by exists pid.
  - intros [[pid ?]|[pid ?]]; [left|right]; by exists (pid, k).
Qed.

Lemma members_add_sched t pid a :
  members (with_scheds ({[ (pid, a) ]} ∪ t_scheds t) t) = {[a]} ∪ members t.
Proof.
  apply set_eq. intros j. rewrite elem_of_union, !elem_of_members, elem_of_singleton. simpl.
  setoid_rewrite elem_of_union. setoid_rewrite elem_of_singleton. naive_solver.
Qed.
Lemma members_add_worker t pid k :
  members (with_workers ({[ (pid, k) ]} ∪ t_workers t) t) = {[k]} ∪ members t.
Proof.
  apply set_eq. intros j. rewrite elem_of_union, !elem_of_members, elem_of_singleton. simpl.
  setoid_rewrite elem_of_union. setoid_rewrite elem_of_singleton. naive_solver.
Qed.

Definition full (own : Z → bool) (K : gset addr) (t : tabs) (cbs : list rcu_cb)
    (h : gmap addr kobj) : Prop :=
  heap_typed t cbs h ∧ heap_counted own (t_ids t) (members t ∖ K) h.
#[export] Instance full_inv own K : HeapInv same_obj (full own K).
Proof.
  intros t cbs h h' [HT HC] S. split; [|by eapply heap_counted_sim].
  eapply heap_typed_sim; [exact HT|]. by eapply rsim_weaken.
Qed.
Lemma full_empty own t cbs h :
  full own ∅ t cbs h ↔ heap_typed t cbs h ∧ heap_counted own (t_ids t) (members t) h.
Proof. unfold full. by rewrite difference_empty_L. Qed.

(** A worker or scheduler of the tables is not a completion list. *)
Lemma member_kind t cbs h k :
  heap_typed t cbs h → k ∈ members t →
  (∃ x, h !! k = Some (OSched x)) ∨ (∃ y, h !! k = Some (OWorker y)).
Proof.
  intros HT [[pid Hk]|[pid Hk]]%elem_of_members.
  - destruct (ty_scheds _ _ _ HT _ _ Hk) as (x & ? & _). eauto.
  - destruct (ty_workers _ _ _ HT _ _ Hk) as (y & ? & ? & ? & ? & _). eauto.
Qed.
(** An object that is no completion list, or has no reference, is not tracked. *)
Lemma not_tracked own I M h x :
  heap_counted own I M h → (∀ c, h !! x ≠ Some (OComplist c)) → ¬ tracked I M h x.
Proof. intros HC Hx (c & ? & _)%(hc_count _ _ _ _ HC). by apply (Hx c). Qed.
Lemma not_tracked_dead own t cbs M h x c :
  heap_typed t cbs h → heap_counted own (t_ids t) M h → h !! x = Some (OComplist c) →
  cl_refcount c = 0 → ¬ tracked (t_ids t) M h x.
Proof.
  intros HT HC Hx Hr [(k & Hk & E)|[id Hid]].
  - destruct (hc_count _ _ _ _ HC x) as (c' & ? & _ & _ & ?); [by left; exists k|]. simplify_eq.
    pose proof (users_pos M h x k Hk E). destruct (own (cl_id c)); simpl in *; lia.
  - destruct (ty_ids _ _ _ HT _ _ Hid) as (c' & ? & _ & ?). simplify_eq. lia.
Qed.

(** A structure in the tables is given a reference to a listed list. *)
Lemma full_join own t cbs h k a c c' o o' id :
  full own {[k]} t cbs h → k ∈ members t → t_ids t !! id = Some a →
  h !! a = Some (OComplist c) → 0 < cl_refcount c →
  cl_id c' = cl_id c → cl_refcount c' = cl_refcount c + 1 →
  h !! k = Some o → same_type o o' → ref_of o' = Some (Ptr a) →
  full own ∅ t cbs (<[k := o']> (<[a := OComplist c']> h)).
Proof.
  intros [HT HC] Hm Hid Ha Hr Ei Er Hk Ho Eo.
  assert (k ≠ a) as Hne by (intros ->; simplify_eq; by destruct o').
  apply full_empty. split.
  - eapply heap_typed_sim; [exact HT|]. eapply hsim_trans; [exact _|eapply hsim_put; [exact _|exact Ha|]|].
    + intros _. instantiate (1 := OComplist c'). simpl. split_and!; [done|lia..].
    + eapply hsim_put; [exact _|by rewrite lookup_insert_ne|done].
  - rewrite insert_insert_ne by done. rewrite (union_difference_singleton_L k (members t) Hm).
    assert (heap_counted own (t_ids t) (members t ∖ {[k]}) (<[k := o']> h)) as HC'.
    { eapply (heap_counted_at _ _ _ h _ k); [done|set_solver| |intros b Hb; by rewrite lookup_insert_ne].
      eapply not_tracked; [done|]. intros c0 E. simplify_eq. by destruct o'. }
    assert (<[k := o']> h !! a = Some (OComplist c)) as Ha' by (by rewrite lookup_insert_ne).
    eapply heap_counted_join; [done..|set_solver| |by right; exists id|done|done].
    by rewrite ref_at_insert, decide_True.
Qed.

(** A call whose objects at [X] are private has not entered them anywhere. *)
Lemma private_not_member own t X h K k :
  heap_counted own (t_ids t) (members t ∖ K) (without X h) → k ∈ X → k ∉ K → k ∉ members t.
Proof.
  intros HC Hk HK Hm. destruct (hc_ref _ _ _ _ HC k) as (a & E); [set_solver|].
  unfold ref_at in E. destruct (without X h !! k) as [o|] eqn:Ho; [|done].
  apply without_Some in Ho as [_ ?]. done.
Qed.
Lemma private_not_used own I M X h a :
  heap_counted own I M (without X h) → a ∈ X → ¬ tracked I M (without X h) a.
Proof. intros HC Ha (c & [_ ?]%without_Some & _)%(hc_count _ _ _ _ HC). done. Qed.

Section worlds.
Context `{KO : KernelOps, LO : !ListOps lnode, KL : !KernelLaws, IO : IoctlNr}.
Implicit Types (w : world).
(** The lists whose creators still have their references, by id. *)
Context (own : Z → bool).
#[local] Abbreviation counted := (holds (full own ∅)).

#[export] Instance counted_stable : Stable same_obj counted counted.
Proof. apply (holds_stable same_obj (full own ∅)). Qed.

Lemma use_gives {A} (I P : world → Prop) (m : kM A) (Q : A → world → Prop) w :
  rgives I P m Q → P w → match m w with Ok a w' => Q a w' | Sleep w' => I w' | Bug _ => True end.
Proof. intros Hm. apply Hm. Qed.
(** Code that frames and does not sleep, for assertions that need not hold
    while a task sleeps. *)
Definition awake {A} (m : kM A) : Prop := ∀ w w', m w ≠ Sleep w'.
Lemma awake_balanced {A} (m : kM A) : balanced m → awake m.
Proof. intros Hb w w' E. specialize (Hb w). by rewrite E in Hb. Qed.
Lemma awake_bind {A B} I J `{!HeapInv same_obj J} (m : kM A) (f : A → kM B) Q :
  frames ∅ m → awake m → (∀ a, rgives I (holds J) (f a) Q) → rgives I (holds J) (m ≫= f) Q.
Proof.
  intros Hm Hb Hf w Hw. specialize (Hm w). unfold mbind, kM_bind.
  destruct (m w) as [a w1|w1|b] eqn:E; [|by destruct (Hb w w1)|done].
  apply Hf. by eapply (holds_framed same_obj J).
Qed.

(** [k] counts; [k] has dropped its reference and is about to leave. *)
Definition entered (S : tabs → gset (Z * addr)) (k : addr) (t : tabs) : Prop := ∃ pid, (pid, k) ∈ S t.
Definition uses S k w : Prop := counted w ∧ entered S k (tabs_of w).
Definition leaving S (k : addr) (t : tabs) (cbs : list rcu_cb) (h : gmap addr kobj) : Prop :=
  full own {[k]} t cbs h ∧ entered S k t.
#[export] Instance leaving_inv S k : HeapInv same_obj (leaving S k).
Proof. intros t cbs h h' [HF Hk] HS. split; [|done]. by eapply full_inv. Qed.
#[export] Instance uses_stable S k : Stable same_obj counted (uses S k).
Proof.
  split; [by intros w []|]. intros w w' [HC Hk] F.
  split; [by eapply (holds_framed same_obj (full own ∅))|]. by destruct F as [-> _].
Qed.

(** ** References are dropped *)

Lemma put_leaving S k a w :
  (S = t_scheds ∨ S = t_workers) → uses S k w → ref_at (w_heap w) k = Some (Ptr a) →
  match put_ums_complist a w with
  | Ok _ w' => holds (leaving S k) w'
  | Sleep _ => False
  | Bug _ => True
  end.
Proof.
  intros HS [HC Hk] E. apply full_empty in HC as [HT HC].
  assert (k ∈ members (tabs_of w)) as Hm by (apply elem_of_members; destruct HS as [-> | ->]; auto).
  pose proof (put_complist_tabs a w HT) as H1. pose proof (put_outcome a w) as H2.
  destruct (put_ums_complist a w) as [r w'|w'|b]; [|done..]. destruct H1 as (HT' & Es & Ew).
  destruct H2 as (c & c' & Ha & Hr & Hr' & Hid & H2).
  assert (members (tabs_of w') = members (tabs_of w)) as Em by (unfold members; by rewrite Es, Ew).
  split; [split; [exact HT'|]|by destruct HS as [-> | ->]; unfold entered; rewrite ?Es, ?Ew].
  rewrite Em. destruct (heap_counted_leave _ _ _ _ a c c' k HC Ha Hm E Hid Hr') as [Hi HL].
  destruct H2 as [[Hz (E1 & _ & ->)]|[_ (E1 & _ & ->)]]; rewrite E1; [|done].
  simpl. rewrite <- Hid. rewrite <- Hid in Hi.
  eapply heap_counted_drop_id; [exact HL|apply lookup_insert_eq|done|done|].
  intros id (c0 & ? & <- & _)%(ty_ids _ _ _ HT). by simplify_eq.
Qed.

(** The structure leaves its table. *)
Lemma members_leave_worker t cbs h k y :
  heap_typed t cbs h → h !! k = Some (OWorker y) →
  members (with_workers (t_workers t ∖ {[ (ctx_pid (wk_context y), k) ]}) t) = members t ∖ {[k]}.
Proof.
  intros HT Hk. apply set_eq. intros j. rewrite elem_of_difference, !elem_of_members, elem_of_singleton. simpl.
  split.
  - intros [[pid Hj]|[pid [Hj Hne]%elem_of_difference]]; (split; [by eauto|intros ->]).
    + destruct (ty_scheds _ _ _ HT _ _ Hj) as (? & ? & _). congruence.
    + destruct (ty_workers _ _ _ HT _ _ Hj) as (? & ? & ? & ? & ? & ? & _). simplify_eq. set_solver.
  - intros [[?|[pid Hj]] Hne]; [by left|right]. exists pid. set_solver.
Qed.
Lemma members_leave_sched t cbs h a x :
  heap_typed t cbs h → h !! a = Some (OSched x) →
  members (with_scheds (t_scheds t ∖ {[ (ctx_pid (sc_context x), a) ]}) t) = members t ∖ {[a]}.
Proof.
  intros HT Ha. apply set_eq. intros j. rewrite elem_of_difference, !elem_of_members, elem_of_singleton. simpl.
  split.
  - intros [[pid [Hj Hne]%elem_of_difference]|[pid Hj]]; (split; [by eauto|intros ->]).
    + destruct (ty_scheds _ _ _ HT _ _ Hj) as (? & ? & ?). simplify_eq. set_solver.
    + destruct (ty_workers _ _ _ HT _ _ Hj) as (? & ? & ? & ? & ? & _). congruence.
  - intros [[[pid Hj]|?] Hne]; [left|by right]. exists pid. set_solver.
Qed.

Lemma gives_worker_left k :
  rgives counted (holds (leaving t_workers k))
    (x ← get_worker k; _ ← kfree_ptr (path_of x); _ ← workers_remove k; call_rcu (CbWorker k))
    (λ _, counted).
Proof.
  intros w [[HT HC] Hk]. pose proof Hk as [pid Hin].
  destruct (ty_workers _ _ _ HT _ _ Hin) as (y & b & cap & s & Hy & _ & Hp & Hb).
  assert (b ≠ k) as Hne by congruence.
  pose proof (worker_leave_outcome k w y b _ Hy Hp Hb Hne) as H1.
  pose proof (gives_worker_leave k w (conj HT Hk)) as H2.
  destruct ((get_worker k ≫= _) w) as [r w'|w'|?]; [|done..].
  apply full_empty. split; [exact H2|]. destruct H1 as (E1 & _ & E3). rewrite E1, E3.
  rewrite (members_leave_worker _ _ _ _ _ HT Hy). simpl.
  eapply (heap_counted_at _ _ _ (w_heap w) _ b); [done| | |intros z Hz; by rewrite lookup_delete_ne].
  - intros [Hm _]%elem_of_difference. destruct (member_kind _ _ _ _ HT Hm) as [[? ?]|[? ?]]; congruence.
  - eapply not_tracked; [done|]. intros c. congruence.
Qed.
Lemma gives_sched_left a :
  rgives counted (holds (leaving t_scheds a))
    (_ ← schedulers_remove a; call_rcu (CbSched a)) (λ _, counted).
Proof.
  intros w [[HT HC] Hk]. pose proof (sched_leave_outcome a w) as H1.
  pose proof (gives_schedulers_remove a w (conj HT Hk)) as H2.
  destruct ((_ ← schedulers_remove a; _) w) as [r w'|w'|?]; [|done..].
  apply full_empty. split; [exact H2|]. destruct H1 as (x & Ha & E1 & _ & E3). rewrite E1, E3.
  by rewrite (members_leave_sched _ _ _ _ _ HT Ha).
Qed.

Lemma safe_worker_left k : rsafe counted (uses t_workers k) (ums_worker_destroy k).
Proof.
  intros w Hu. pose proof Hu as [HC [pid Hin]]. apply full_empty in HC as [HT HC].
  destruct (ty_workers _ _ _ HT _ _ Hin) as (y & ? & ? & ? & Hy & _).
  destruct (hc_ref _ _ _ _ HC k) as (a & E); [apply elem_of_members; right; by exists pid|].
  pose proof (put_leaving t_workers k a w (or_intror eq_refl) Hu E) as Hp.
  unfold ref_at in E. rewrite Hy in E. injection E as E.
  unfold ums_worker_destroy. krun get_worker_run; [done|]. rewrite E.
  krun (eq_refl : deref (Ptr a) w = Ok _ _). unfold mbind at 1, kM_bind at 1.
  destruct (put_ums_complist a w) as [r w'|w'|b]; [|done..].
  refine ((_ : rgives counted (holds (leaving t_workers k)) _ (λ _, counted)) w' Hp).
  unfold ums_worker_proc_unregister.
  do 4 (apply gives_assoc; eapply awake_bind; [exact _|frame|apply awake_balanced; balance|intros ?]).
  apply gives_assoc, gives_worker_left.
Qed.
Lemma safe_sched_left a : rsafe counted (uses t_scheds a) (ums_scheduler_destroy a).
Proof.
  unfold ums_scheduler_destroy. do 4 (eapply safe_bind; [exact _|frame|intros ?]).
  intros w Hu. pose proof Hu as [HC [pid Hin]]. apply full_empty in HC as [HT HC].
  destruct (ty_scheds _ _ _ HT _ _ Hin) as (x & Hx & _).
  destruct (hc_ref _ _ _ _ HC a) as (b & E); [apply elem_of_members; left; by exists pid|].
  pose proof (put_leaving t_scheds a b w (or_introl eq_refl) Hu E) as Hp.
  unfold ref_at in E. rewrite Hx in E. injection E as E. krun get_sched_run; [done|]. rewrite E.
  krun (eq_refl : deref (Ptr b) w = Ok _ _). unfold mbind at 1, kM_bind at 1.
  destruct (put_ums_complist b w) as [r w'|w'|?]; [|done..].
  refine ((_ : rgives counted (holds (leaving t_scheds a)) _ (λ _, counted)) w' Hp).
  eapply awake_bind; [exact _|frame|apply awake_balanced; balance|intros _]. apply gives_sched_left.
Qed.

(** ** A list is deleted *)

Lemma gives_deleted id :
  own id = true →
  rgives counted counted (ums_complist_delete id)
    (λ r w, if decide (r = 0) then holds (full (gives_up id own) ∅) w else counted w).
Proof.
  intros Hown w HC. pose proof HC as HC0. apply full_empty in HC as [HT HC].
  unfold ums_complist_delete.
  krun (eq_refl : rcu_read_lock w = Ok _ _). set (w1 := set_rcu _ w).
  pose proof (find_outcome id w1) as Hf. unfold mbind at 1, kM_bind at 1.
  destruct (IDR_L_FIND id w1) as [o w2|w2|b]; [|done..]. destruct Hf as [-> ->].
  change (tabs_of w1) with (tabs_of w).
  destruct (t_ids (tabs_of w) !! id) as [a|] eqn:Hid.
  2:{ krun (rcu_read_unlock_run w1 (w_rcu w)); [done|]. kred. by rewrite decide_False. }
  destruct (ty_ids _ _ _ HT _ _ Hid) as (c0 & Ha0 & Eid & _).
  pose proof (put_complist_tabs a w1 HT) as H1. pose proof (put_outcome a w1) as H2.
  unfold mbind at 1, kM_bind at 1. destruct (put_ums_complist a w1) as [r w2|w2|b]; [|done..].
  destruct H1 as (HT' & Es & Ew). destruct H2 as (c & c' & Ha & Hr & Hr' & Ec & H2).
  change (w_heap w1) with (w_heap w) in *.
  rewrite Ha0 in Ha. injection Ha as ->. subst id.
  assert (holds (full (gives_up (cl_id c) own) ∅) w2) as HC2.
  { apply full_empty. split; [done|].
    assert (members (tabs_of w2) = members (tabs_of w)) as -> by (unfold members; by rewrite Es, Ew).
    destruct (heap_counted_delete own (t_ids (tabs_of w)) (members (tabs_of w)) (w_heap w) a c c' HC Ha0)
      as [Hi HD]; [by right; exists (cl_id c)|done..|].
    destruct H2 as [[Hz (E1 & _ & E3)]|[_ (E1 & _ & E3)]]; rewrite E1, E3; [|done].
    simpl. rewrite <- Ec. rewrite <- Ec in Hi, HD.
    eapply heap_counted_drop_id; [exact HD|apply lookup_insert_eq|done|done|].
    intros i (c1 & ? & <- & _)%(ty_ids _ _ _ HT). by simplify_eq. }
  unfold mbind, kM_bind, rcu_read_unlock. destruct (w_rcu w2); [done|]. kred.
  by rewrite decide_True.
Qed.

(** ** Workers and schedulers enter *)

(** The list [id] exists; the new structure [k] is in its table and has no
    reference yet. *)
Definition named (id : Z) (t : tabs) (cbs : list rcu_cb) (h : gmap addr kobj) : Prop :=
  full own ∅ t cbs h ∧ is_Some (t_ids t !! id).
Definition building (S : tabs → gset (Z * addr)) (id : Z) (k : addr) (t : tabs) (cbs : list rcu_cb)
    (h : gmap addr kobj) : Prop :=
  leaving S k t cbs h ∧ is_Some (t_ids t !! id).
#[export] Instance named_inv id : HeapInv same_obj (named id).
Proof. intros t cbs h h' [HF ?] HS. split; [|done]. by eapply full_inv. Qed.
#[export] Instance building_inv S id k : HeapInv same_obj (building S id k).
Proof. intros t cbs h h' [HF ?] HS. split; [|done]. by eapply leaving_inv. Qed.

(** Everyone but the new structure counts as before. *)
Lemma counted_entered t t' X k h :
  heap_counted own (t_ids t) (members t) (without X h) → k ∈ X → t_ids t' = t_ids t →
  members t' = {[k]} ∪ members t → heap_counted own (t_ids t') (members t' ∖ {[k]}) h.
Proof.
  intros HC Hk Ei Em. rewrite Ei, Em.
  assert (k ∉ members t) as Hn.
  { eapply (private_not_member own t X h ∅); [by rewrite difference_empty_L|done|set_solver]. }
  replace (({[k]} ∪ members t) ∖ {[k]}) with (members t) by set_solver.
  eapply heap_counted_sim; [exact HC|]. by apply hsim_without_all.
Qed.

Lemma gives_sched_entered id a :
  rgives (holds (named id)) (private (named id) {[a]}) (schedulers_insert a)
    (λ r w, if decide (r = 0) then holds (building t_scheds id a) w else private (named id) {[a]} w).
Proof.
  intros w HN. pose proof HN as [[HT HC]%full_empty Hid].
  pose proof (gives_schedulers_insert a w HT) as H1. pose proof (sched_insert_outcome a w) as H2.
  destruct (schedulers_insert a w) as [r w'|w'|b]; [|done..]. destruct H2 as (x & _ & H2).
  case_decide; destruct H2 as (E1 & E2 & E3).
  - destruct H1 as [HT' Hin]. split; [|by rewrite E1]. split; [|done]. split; [done|].
    rewrite E3. eapply counted_entered; [exact HC|set_solver|by rewrite E1|].
    rewrite E1. apply members_add_sched.
  - unfold private. by rewrite E1, E2, E3.
Qed.
Lemma gives_worker_entered id k b :
  rgives (holds (named id)) (path_ready (named id) k b) (workers_insert k)
    (λ r w, if decide (r = 0) then holds (building t_workers id k) w else private (named id) {[k]} w).
Proof.
  intros w HR. pose proof (path_ready_private same_obj (named id) _ _ _ HR) as HP.
  destruct HR as (y & cap & s & [[HT HC]%full_empty Hid] & Hk & Hp & Hb).
  assert (path_ready heap_typed k b w) as HR' by (by exists y, cap, s).
  pose proof (gives_workers_insert k b w HR') as H1. pose proof (worker_insert_outcome k w) as H2.
  destruct (workers_insert k w) as [r w'|w'|?]; [|done..]. destruct H2 as (y' & _ & H2).
  case_decide; destruct H2 as (E1 & E2 & E3).
  - destruct H1 as [HT' Hin]. split; [|by rewrite E1]. split; [|done]. split; [done|].
    rewrite E3. eapply counted_entered; [exact HC|set_solver|by rewrite E1|].
    rewrite E1. apply members_add_worker.
  - unfold private in *. by rewrite E1, E2, E3.
Qed.

(** The new structure takes its reference. *)
Lemma gives_join_worker {B} id k a (f : kM B) :
  rsafe counted (uses t_workers k) f →
  rgives counted (λ w, holds (leaving t_workers k) w ∧ t_ids (tabs_of w) !! id = Some a)
    (_ ← get_ums_complist a; _ ← rcu_read_unlock;
     _ ← upd_worker k (wk_with_complist (Ptr a)); f) (λ _, counted).
Proof.
  intros Hf w [[HF [pid Hin]] Hid]. pose proof HF as [HT _].
  destruct (ty_workers _ _ _ HT _ _ Hin) as (y & ? & ? & ? & Hy & _).
  pose proof (get_outcome a w) as Hg. unfold mbind at 1, kM_bind at 1.
  destruct (get_ums_complist a w) as [r w1|w1|b]; [|done..]. destruct Hg as (c & Ha & Hr & ->).
  unfold mbind at 1, kM_bind at 1, rcu_read_unlock. kproj. destruct (w_rcu w); [done|].
  krun upd_worker_run; [kproj; rewrite lookup_insert_ne by congruence; exact Hy|].
  apply Hf. split; [|by exists pid].
  eapply (full_join _ _ _ _ k a c); try done. apply elem_of_members. right. by exists pid.
Qed.
Lemma gives_join_sched {B} id k a (f : kM B) :
  rsafe counted (uses t_scheds k) f →
  rgives counted (λ w, holds (leaving t_scheds k) w ∧ t_ids (tabs_of w) !! id = Some a)
    (_ ← get_ums_complist a; _ ← rcu_read_unlock;
     _ ← upd_sched k (sc_with_complist (Ptr a)); f) (λ _, counted).
Proof.
  intros Hf w [[HF [pid Hin]] Hid]. pose proof HF as [HT _].
  destruct (ty_scheds _ _ _ HT _ _ Hin) as (x & Hx & _).
  pose proof (get_outcome a w) as Hg. unfold mbind at 1, kM_bind at 1.
  destruct (get_ums_complist a w) as [r w1|w1|b]; [|done..]. destruct Hg as (c & Ha & Hr & ->).
  unfold mbind at 1, kM_bind at 1, rcu_read_unlock. kproj. destruct (w_rcu w); [done|].
  krun upd_sched_run; [kproj; rewrite lookup_insert_ne by congruence; exact Hx|].
  apply Hf. split; [|by exists pid].
  eapply (full_join _ _ _ _ k a c); try done. apply elem_of_members. left. by exists pid.
Qed.

(** The list that was named is found. *)
Lemma gives_find {B} S id k (f : option addr → kM B) :
  (∀ a, rgives counted (λ w, holds (leaving S k) w ∧ t_ids (tabs_of w) !! id = Some a) (f (Some a))
     (λ _, counted)) →
  rgives counted (holds (building S id k)) (o ← IDR_L_FIND id; f o) (λ _, counted).
Proof.
  intros Hf w [HL [a Ha]]. pose proof (find_outcome id w) as Ho. unfold mbind, kM_bind.
  destruct (IDR_L_FIND id w) as [o w1|w1|b]; [|done..]. destruct Ho as [-> ->]. rewrite Ha. by apply Hf.
Qed.

Lemma named_counted id w : holds (named id) w → counted w.
Proof. by intros [? _]. Qed.

Lemma gives_enter_worker args :
  rgives counted (holds (named (ea_ums_complist args))) (enter_ums_worker_mode args) (λ _, counted).
Proof.
  set (id := ea_ums_complist args). unfold enter_ums_worker_mode.
  eapply gives_bind.
  { eapply gives_mono; [apply (gives_worker_create same_obj (named id) _ (gives_worker_entered id))
      |apply named_counted|done|exact (λ _ _ H, H)]. }
  intros [r|k]; [apply gives_ret; apply named_counted|].
  eapply awake_bind; [exact _|frame|done|intros _]. apply gives_find. intros a.
  apply gives_join_worker. safe_walk.
Qed.
Lemma gives_enter_sched args :
  rgives counted (holds (named (ea_ums_complist args))) (enter_ums_scheduler_mode args) (λ _, counted).
Proof.
  set (id := ea_ums_complist args). unfold enter_ums_scheduler_mode.
  eapply gives_bind.
  { eapply gives_mono; [apply (gives_scheduler_create same_obj (named id) _ (gives_sched_entered id))
      |apply named_counted|done|exact (λ _ _ H, H)]. }
  intros [r|k]; [apply gives_ret; apply named_counted|]. cbv zeta.
  eapply awake_bind; [exact _|frame|done|intros _]. apply gives_find. intros a.
  apply gives_join_sched. safe_walk.
  eapply (gives_bind _ _ (λ _, counted)); [apply safe_sched_left|]. intros _. by apply gives_ret.
Qed.

(** ** Lists are created *)

(** The creator of the new list [id] has its reference. *)
Definition takes_over (id : Z) : Z → bool := λ i, if decide (i = id) then true else own i.
Definition listed a c w : Prop :=
  holds (full (takes_over (cl_id c)) ∅) w ∧ complist_listed a c w ∧
  heap_counted own (delete (cl_id c) (t_ids (tabs_of w))) (members (tabs_of w))
    (without {[a]} (w_heap w)).

Lemma gives_list_init a c :
  rgives counted (λ w, private (full own ∅) {[a]} w ∧ w_heap w !! a = Some (OComplist c))
    (ums_complist_init a) (λ r w, r = 0 ∧ ∃ c', listed a c' w).
Proof.
  intros w [HP Ha]. pose proof HP as [HT HC]%full_empty.
  pose proof (gives_complist_init a c w (conj HT Ha)) as H1. pose proof (init_outcome a c w Ha) as H2.
  destruct (ums_complist_init a w) as [r w'|w'|b]; [|done..].
  destruct H1 as (-> & c' & HL). destruct H2 as (_ & id & ids & (E1 & _ & E3) & Hids). split; [done|].
  pose proof HL as (HT' & Ha' & _). rewrite E3, lookup_insert_eq in Ha'. injection Ha' as <-.
  set (c' := mk_complist id false [] 1) in *. set (h' := <[a := _]> _) in *.
  set (I := t_ids (tabs_of w)) in *. set (M := members (tabs_of w)) in *.
  assert (heap_counted own I M (without {[a]} h')) as HC'.
  { eapply heap_counted_sim; [exact HC|]. apply hsim_without. eapply hsim_put; [exact _|done|set_solver]. }
  assert (heap_counted own I M h') as HC2
    by (eapply heap_counted_sim; [exact HC'|]; by apply hsim_without_all).
  assert (∀ J, I !! id = None ∨ id < 0 → heap_counted own I M J → heap_counted (takes_over id) I M J) as HO.
  { intros J Hn HJ. eapply heap_counted_own; [exact HJ|]. intros i Hi [b Hb]. unfold takes_over.
    rewrite decide_False; [done|]. intros ->. destruct Hn; [congruence|lia]. }
  assert (members (tabs_of w') = M) as Em by (by rewrite E1).
  exists c'. split; [apply full_empty; split; [exact HT'|]|split; [exact HL|]]; rewrite Em, E1, E3; simpl;
    destruct Hids as [[Hneg ->]|(Hpos & Hn & ->)]; fold I.
  - apply HO; auto.
  - apply (heap_counted_add_id (takes_over id) I M h' a c').
    + apply HO; auto.
    + intros k Hk E. destruct (hc_ref _ _ _ _ HC' k Hk) as (b & Eb).
      assert (ref_at (without {[a]} h') k = ref_at h' k) as Er.
      { unfold ref_at in *. destruct (without {[a]} h' !! k) as [o|] eqn:Ho; [|done].
        by apply without_Some in Ho as [-> _]. }
      eapply (private_not_used _ _ _ {[a]} h' a HC'); [set_solver|]. left. exists k. by rewrite Er.
    + apply lookup_insert_eq.
    + done.
    + done.
    + done.
    + unfold takes_over. by rewrite decide_True.
  - rewrite delete_id; [done|]. apply eq_None_not_Some. intros [b Hb].
    destruct (hc_count _ _ _ _ HC' b) as (cb & Hcb & _ & Hp & _); [right; by exists id|].
    destruct (ty_ids _ _ _ HT id b Hb) as (cb' & Hcb' & <- & _).
    apply without_Some in Hcb as [Hcb _]. unfold h' in Hcb.
    apply without_Some in Hcb' as [Hcb' ?]. rewrite lookup_insert_ne in Hcb by set_solver. simplify_eq. lia.
  - rewrite delete_insert_id by done. exact HC'.
Qed.
Lemma gives_list_undo a c :
  rgives counted (listed a c) (_ ← ums_complist_deinit a; free_ums_complist a) (λ _, counted).
Proof.
  intros w (_ & HL & HC). pose proof HL as (_ & Ha & _).
  pose proof (gives_complist_undo a c w HL) as H1. pose proof (undo_outcome a c w Ha) as H2.
  destruct ((_ ← ums_complist_deinit a; free_ums_complist a) w) as [r w'|w'|b]; [|done..].
  apply full_empty. split; [exact H1|]. destruct H2 as (E1 & _ & E3). rewrite E1, E3.
  eapply heap_counted_sim; [exact HC|]. apply hsim_without_all; [exact _|].
  intros b o Hb. rewrite lookup_delete_ne; [done|set_solver].
Qed.

(** The creator of the list whose id the call hands over has its reference. *)
Definition created (r : Z) w : Prop :=
  if decide (r = 0)
  then ∃ id, last (w_out w) = Some (UId id) ∧ holds (full (takes_over id) ∅) w
  else counted w.

Lemma gives_list_create u : rgives counted counted (create_ums_complist u) created.
Proof.
  unfold create_ums_complist. eapply gives_bind; [apply (gives_alloc same_obj (full own ∅))|].
  intros [a|]; [|by apply gives_ret]. eapply gives_bind; [apply gives_list_init|].
  intros r w [-> [c Hw]]. kzero. pose proof Hw as (HC & (_ & Ha & _) & _).
  rewrite (bind_ok _ _ _ c w) by (by apply get_complist_run).
  unfold copy_to_user. unfold mbind, kM_bind. case_decide; kred.
  - kzero. unfold created. rewrite decide_True by done. exists (cl_id c). kproj. split; [apply last_snoc|].
    by eapply (holds_framed same_obj (full (takes_over (cl_id c)) ∅) w); [exact HC|apply framed_ext].
  - rewrite decide_True by done. pose proof (gives_list_undo a c w Hw) as H'.
    unfold mbind, kM_bind in H'. destruct (ums_complist_deinit a w) as [v w1|w1|b]; [|done..].
    by destruct (free_ums_complist a w1).
Qed.

(** ** The device *)

Lemma safe_worker_end : rsafe counted counted ums_worker_end.
Proof.
  unfold ums_worker_end. do 2 (eapply safe_bind; [exact _|frame|intros ?]).
  intros w HC. unfold mbind at 1, kM_bind at 1, get_data at 1.
  destruct (w_data w) as [d|] eqn:Hd; [|done]. destruct (rhashtable_lookup_fast _ _) as [k|] eqn:Hk.
  - apply rhashtable_lookup_Some in Hk.
    assert (uses t_workers k w) as Hin by (split; [done|]; unfold entered, tabs_of; rewrite Hd; by eexists).
    revert w HC Hd Hin. enough (rsafe counted (uses t_workers k) _) as H by (intros w _ _; apply H).
    safe_walk.
    eapply (gives_bind _ _ (λ _, counted)); [apply safe_worker_left|]. intros _. safe_walk.
  - revert w HC Hd. enough (rsafe counted counted _) as H by (intros w HC _; by apply H). safe_walk.
Qed.

(** Worker and scheduler modes are entered with lists that exist. *)
Definition named_call (cmd : Z) (arg : ioctl_arg) w : Prop :=
  cmd = IOCTL_ENTER_UMS → ∀ v, u_val (arg_enter arg) = Some v →
    is_Some (t_ids (tabs_of w) !! ea_ums_complist v).

(** What the creators have after a call that returned [r]. *)
Definition called (cmd : Z) (arg : ioctl_arg) (r : Z) w : Prop :=
  if decide (cmd = IOCTL_CREATE_UMS_CLIST) then created r w
  else if decide (cmd = IOCTL_DELETE_UMS_CLIST ∧ r = 0)
       then holds (full (gives_up (s32 (arg_val arg)) own) ∅) w
  else counted w.

Lemma gives_ioctl cmd arg :
  (cmd = IOCTL_DELETE_UMS_CLIST → own (s32 (arg_val arg)) = true) →
  rgives counted (λ w, counted w ∧ named_call cmd arg w) (ums_dev_ioctl cmd arg) (called cmd arg).
Proof.
  intros Hown. unfold ums_dev_ioctl, called.
  case_decide as E1; [intros w [HC _]; by apply gives_list_create|].
  assert (∀ m : kM Z, rsafe counted counted m → cmd ≠ IOCTL_DELETE_UMS_CLIST →
    rgives counted (λ w, counted w ∧ named_call cmd arg w) m (λ r w,
      if decide (cmd = IOCTL_DELETE_UMS_CLIST ∧ r = 0)
      then holds (full (gives_up (s32 (arg_val arg)) own) ∅) w else counted w)) as Hsafe.
  { intros m Hm Hne w [HC _]. specialize (Hm w HC). destruct (m w) as [r w'|w'|b]; [|done..].
    rewrite decide_False by naive_solver. exact Hm. }
  assert (∀ i c, ioctl_commands !! i = Some c → i ≠ 5%nat → c ≠ IOCTL_DELETE_UMS_CLIST) as Hlate
    by (intros i c Hi; by apply (ioctl_commands_ne i 5 c)).
  destruct (decide (cmd = IOCTL_ENTER_UMS)) as [E2|_].
  { assert (cmd ≠ IOCTL_DELETE_UMS_CLIST) as Hd by (rewrite E2; by apply (Hlate 1%nat)).
    intros w [HC Hn]. specialize (Hn E2). unfold enter_ums_mode, copy_from_user.
    destruct (u_val (arg_enter arg)) as [v|] eqn:Hv; [|by kred; rewrite decide_False by naive_solver].
    assert (holds (named (ea_ums_complist v)) w) as HN by (split; [done|by apply Hn]).
    krun (eq_refl : (mret (Some v) : kM _) w = Ok _ _).
    assert (∀ m : kM Z, rgives counted (holds (named (ea_ums_complist v))) m (λ _, counted) →
      match m w with
      | Ok r w' => if decide (cmd = IOCTL_DELETE_UMS_CLIST ∧ r = 0)
                   then holds (full (gives_up (s32 (arg_val arg)) own) ∅) w' else counted w'
      | Sleep w' => counted w'
      | Bug _ => True
      end) as Hm.
    { intros m Hm. specialize (Hm w HN). destruct (m w); [|done..]. by rewrite decide_False by naive_solver. }
    destruct (decide (Z.land _ ENTER_UMS_SCHED ≠ 0)); [apply Hm, gives_enter_sched|].
    destruct (decide (Z.land _ ENTER_UMS_WORK ≠ 0)); apply Hm; [apply gives_enter_worker|].
    apply gives_ret. apply named_counted. }
  destruct (decide (cmd = IOCTL_UMS_SCHED_DQEVENT)) as [E3|_].
  { apply Hsafe; [safe_walk|]. rewrite E3. by apply (Hlate 2%nat). }
  destruct (decide (cmd = IOCTL_DEQUEUE_UMS_CLIST)) as [E4|_].
  { apply Hsafe; [safe_walk|]. rewrite E4. by apply (Hlate 3%nat). }
  destruct (decide (cmd = IOCTL_NEXT_UMS_CTX_LIST)) as [E5|_].
  { apply Hsafe; [safe_walk|]. rewrite E5. by apply (Hlate 4%nat). }
  destruct (decide (cmd = IOCTL_DELETE_UMS_CLIST)) as [E6|N6].
  { intros w [HC _]. pose proof (gives_deleted _ (Hown E6) w HC) as H.
    destruct (ums_complist_delete _ w) as [r w'|w'|b]; [|done..].
    destruct (decide (r = 0)); [rewrite decide_True by done|rewrite decide_False by naive_solver]; done. }
  destruct (decide (cmd = IOCTL_EXEC_UMS_CTX)); [apply Hsafe; [safe_walk|done]|].
  destruct (decide (cmd = IOCTL_UMS_YIELD)); [apply Hsafe; [safe_walk|done]|].
  destruct (decide (cmd = IOCTL_EXIT_UMS)); [apply Hsafe; [apply safe_worker_end|done]|].
  apply Hsafe; [safe_walk|done].
Qed.

(** A structure is freed after its grace period. *)
Definition freed_next (cb : rcu_cb) (t : tabs) (cbs : list rcu_cb) (h : gmap addr kobj) : Prop :=
  full own ∅ t (cb :: cbs) h.
#[export] Instance freed_next_inv cb : HeapInv same_obj (freed_next cb).
Proof. intros t cbs h h' HF HS. by eapply full_inv. Qed.
#[export] Instance freed_next_stable cb : Stable same_obj counted (holds (freed_next cb)).
Proof.
  split; [|apply (holds_framed same_obj (freed_next cb))].
  intros w [HT HC]. split; [by eapply heap_typed_del_cb|done].
Qed.
Lemma gives_freed cb a :
  cb = CbComplist a ∨ cb = CbSched a ∨ cb = CbWorker a →
  rgives counted (holds (freed_next cb)) (kfree a) (λ _, counted).
Proof.
  intros Hcb w [HT HC]%full_empty. unfold kfree. destruct (w_heap w !! a) eqn:Ha; [|done].
  apply full_empty. split; [by eapply heap_typed_free|]. kproj.
  eapply (heap_counted_at _ _ _ (w_heap w) _ a); [done| | |intros z Hz; by rewrite lookup_delete_ne];
    pose proof (ty_cbs _ _ _ HT cb (list_elem_of_here _ _)) as Hc;
    destruct Hcb as [-> | [-> | ->]]; simpl in Hc.
  - intros Hm. destruct Hc as (c & ? & _), (member_kind _ _ _ _ HT Hm) as [[? ?]|[? ?]]; congruence.
  - intros [[pid ?]|[pid Hm]]%elem_of_members; [by apply (proj2 Hc pid)|].
    destruct (ty_workers _ _ _ HT _ _ Hm) as (? & ? & ? & ? & ? & _), Hc as [[? ?] _]. congruence.
  - intros [[pid Hm]|[pid ?]]%elem_of_members; [|by apply (proj2 Hc pid)].
    destruct (ty_scheds _ _ _ HT _ _ Hm) as (? & ? & _), Hc as [[? ?] _]. congruence.
  - destruct Hc as (c & ? & ?). by eapply not_tracked_dead.
  - eapply not_tracked; [done|]. intros c. destruct Hc as [[? ?] _]. congruence.
  - eapply not_tracked; [done|]. intros c. destruct Hc as [[? ?] _]. congruence.
Qed.
Lemma safe_freed cb : rsafe counted (holds (freed_next cb)) (run_rcu_cb cb).
Proof.
  destruct cb as [a|a|a]; simpl; [apply gives_freed; auto| |];
    (eapply safe_bind; [exact _|frame|intros _; apply gives_freed; auto]).
Qed.

Lemma counted_ext w w' :
  w_data w' = w_data w → w_cbs w' = w_cbs w → w_heap w' = w_heap w → counted w → counted w'.
Proof.
  intros E1 E2 E3 HC. eapply (holds_framed same_obj (full own ∅)); [exact HC|by apply framed_ext].
Qed.

Lemma counted_initial σ : initial σ → counted (s_world σ).
Proof.
  destruct σ as [w' sl]. intros (_ & w & flags & Hh & _ & _ & Hc & E). simpl in *.
  apply full_empty. split; [by eapply open_typed|].
  apply open_outcome in E as [-> _]. simpl.
  assert (members (mk_tabs true ∅ ∅ ∅) = ∅) as -> by (unfold members; set_solver).
  split; [set_solver|]. intros a [(k & ? & _)|[id ?]]; [set_solver|done].
Qed.

(** Steps that are no new calls. *)
Definition no_call : Z → ioctl_arg → world → Prop := λ _ _ _, False.
Lemma counted_between σ σ' : counted (s_world σ) → step_if no_call σ σ' → counted (s_world σ').
Proof.
  intros HC Hstep. destruct Hstep as [w sl p cmd arg r w' _ [] _|w sl p cmd arg c w' _ [] _ _
    |w sl p c r w' _ E|w sl p c w' _ E|w sl cb cbs w' Hcb E|w sl e ts]; simpl in *.
  - assert (counted (set_cur p (set_rcu 1 w))) as HC' by (by eapply counted_ext).
    assert (rsafe counted counted (resume c)) as H by (destruct c; simpl; safe_walk).
    specialize (H _ HC'). by rewrite E in H.
  - assert (counted (set_cur p (set_rcu 1 w))) as HC' by (by eapply counted_ext).
    assert (rsafe counted counted (resume c)) as H by (destruct c; simpl; safe_walk).
    specialize (H _ HC'). rewrite E in H. by eapply counted_ext, H.
  - assert (holds (freed_next cb) (set_cbs cbs w)) as HF
      by (unfold holds, freed_next; simpl; unfold holds in HC; by rewrite Hcb in HC).
    pose proof (safe_freed cb _ HF) as H. by rewrite E in H.
  - by eapply counted_ext.
Qed.
End worlds.

(** ** Runs *)

(** The calls of user space that succeeded in creating and deleting lists, the
    latest first; [deleted log id]: the list that [id] names, if any, was
    deleted since it was created. *)
Inductive list_call := Created (id : Z) | Deleted (id : Z).
Fixpoint deleted (log : list list_call) (id : Z) : bool :=
  match log with
  | [] => false
  | Created i :: log => if decide (id = i) then false else deleted log id
  | Deleted i :: log => if decide (id = i) then true else deleted log id
  end.
Definition not_deleted (log : list list_call) : Z → bool := λ id, negb (deleted log id).

Section runs.
Context `{KO : KernelOps, LO : !ListOps lnode, KL : !KernelLaws, IO : IoctlNr}.
Implicit Types (w : world) (log : list list_call).

(** What a call that returned [r] adds to the log: the id it handed over, the
    id it was given. *)
Definition logged (cmd : Z) (arg : ioctl_arg) (r : Z) w' : list list_call :=
  if decide (r ≠ 0) then []
  else if decide (cmd = IOCTL_CREATE_UMS_CLIST) then
    match last (w_out w') with Some (UId id) => [Created id] | _ => [] end
  else if decide (cmd = IOCTL_DELETE_UMS_CLIST) then [Deleted (s32 (arg_val arg))]
  else [].

(** No list is deleted that was deleted before, and worker and scheduler modes
    are entered with lists that exist. *)
Definition tidy_call log (cmd : Z) (arg : ioctl_arg) w : Prop :=
  (cmd = IOCTL_DELETE_UMS_CLIST → deleted log (s32 (arg_val arg)) = false) ∧
  named_call cmd arg w.

Inductive tidy_run : list list_call → sys → Prop :=
  | tidy_open σ : initial σ → tidy_run [] σ
  | tidy_returns log w sl p cmd arg r w' :
      tidy_run log (mk_sys w sl) → sl !! p = None → tidy_call log cmd arg (set_cur p w) →
      ums_dev_ioctl cmd arg (set_cur p w) = Ok r w' →
      tidy_run (logged cmd arg r w' ++ log) (mk_sys w' sl)
  | tidy_sleeps log w sl p cmd arg c w' :
      tidy_run log (mk_sys w sl) → sl !! p = None → tidy_call log cmd arg (set_cur p w) →
      ums_dev_ioctl cmd arg (set_cur p w) = Sleep w' →
      sleeping_call cmd arg (set_cur p w) = Some c →
      tidy_run log (mk_sys (set_rcu 0 w') (<[p := c]> sl))
  | tidy_between log σ σ' : tidy_run log σ → step_if no_call σ σ' → tidy_run log σ'.

Lemma tidy_reachable log σ : tidy_run log σ → reachable σ.
Proof.
  induction 1 as [σ Hi|log w sl p cmd arg r w' _ IH Hp _ E|log w sl p cmd arg c w' _ IH Hp _ E Hc
    |log σ σ' _ IH Hs]; [by apply reach_initial|eapply reach_step; [exact IH|]..].
  - by eapply step_call.
  - by eapply step_sleep.
  - destruct Hs as [??????? _ []|??????? _ []| | | |];
      [by eapply step_resume|by eapply step_sleep_again|by eapply step_callback|apply step_kernel].
Qed.

Lemma full_own own own' K t cbs h :
  (∀ id, own' id = own id) → full own K t cbs h → full own' K t cbs h.
Proof. intros Ho [HT HC]. split; [done|]. by eapply heap_counted_own. Qed.

Lemma counted_logged log cmd arg r w' :
  called (not_deleted log) cmd arg r w' →
  holds (full (not_deleted (logged cmd arg r w' ++ log)) ∅) w'.
Proof.
  unfold called, created, logged. intros H. unfold holds in *.
  destruct (decide (r ≠ 0)) as [Hr|Hr].
  { rewrite (decide_False (P := r = 0)) in H by done.
    rewrite (decide_False (P := _ ∧ _)) in H by naive_solver. by case_decide. }
  assert (r = 0) as -> by lia. destruct (decide (cmd = IOCTL_CREATE_UMS_CLIST)).
  - rewrite decide_True in H by done. destruct H as (id & -> & H).
    eapply full_own; [|exact H]. intros i. unfold not_deleted, takes_over. simpl. by case_decide.
  - destruct (decide (cmd = IOCTL_DELETE_UMS_CLIST)); [rewrite decide_True in H by done
      |by rewrite decide_False in H by naive_solver].
    eapply full_own; [|exact H]. intros i. unfold not_deleted, gives_up. simpl. by case_decide.
Qed.

Lemma counted_run log σ : tidy_run log σ → holds (full (not_deleted log) ∅) (s_world σ).
Proof.
  induction 1 as [σ Hi|log w sl p cmd arg r w' _ IH _ [Hd Hn] E|log w sl p cmd arg c w' _ IH _ [Hd Hn] E _
    |log σ σ' _ IH Hs]; [by apply counted_initial| | |by eapply counted_between].
  all: assert (holds (full (not_deleted log) ∅) (set_cur p w)) as HC by (by eapply counted_ext, IH).
  all: assert (cmd = IOCTL_DELETE_UMS_CLIST → not_deleted log (s32 (arg_val arg)) = true) as Ho
    by (intros ->; unfold not_deleted; by rewrite Hd).
  all: pose proof (gives_ioctl _ cmd arg Ho _ (conj HC Hn)) as H; rewrite E in H; simpl in *.
  - by apply counted_logged.
  - by eapply counted_ext, H.
Qed.
End runs.
