(* ===== verification/KernelInst.v ===== *)
(** * A concrete kernel

    Instances of [KernelOps], [KernelLaws] and [IoctlNr] built from finite
    maps.  They show that the promises the module relies on can hold together,
    and make every handler executable: the hidden state is a script saying
    which of the coming calls fail. *)
From S2P Require Import Prelude ListHead ListSpec Kernel Uapi State.
From stdpp Require Import prelude gmap strings.

Local Open Scope Z_scope.

(** The head of the script: does the next call fail? *)
Definition next_fault (e : list bool) : bool * list bool :=
  match e with [] => (false, []) | b :: e => (b, e) end.

Fixpoint first_free (fuel : nat) (z : Z) (i : gmap Z addr) : option Z :=
  match fuel with
  | O => None
  | S fuel => match i !! z with None => Some z | Some _ => first_free fuel (z + 1) i end
  end.

Lemma first_free_spec fuel z i r : first_free fuel z i = Some r → z ≤ r ∧ i !! r = None.
Proof.
  revert z. induction fuel as [|fuel IH]; intros z; simpl; [done|].
  destruct (i !! z) eqn:E.
  - intros [? ?]%IH. split; [lia|done].
  - intros [= <-]. split; [lia|done].
Qed.

Definition inst_idr_alloc (p : addr) (start stop : Z) (i : gmap Z addr) (e : list bool) :
    Z * gmap Z addr * list bool :=
  let '(f, e) := next_fault e in
  if (f : bool) then (- ENOMEM, i, e) else
  match first_free (S (size i)) start i with
  | Some r => if decide (r ≤ 2 ^ 31 - 1) then (r, <[r := p]> i, e) else (- ENOSPC, i, e)
  | None => (- ENOSPC, i, e)
  end.

(** The first object with the given key. *)
Definition inst_lookup (t : gset (Z * addr)) (k : Z) : option addr :=
  snd <$> head (filter (λ x, x.1 = k) (elements t)).

Definition same_entry (d d' : pde) : bool :=
  bool_decide (pde_parent d' = pde_parent d) && bool_decide (pde_name d' = pde_name d).
Definition has_entry (d : pde) (p : gmap addr pde) : bool :=
  existsb (λ x, same_entry d x.2) (map_to_list p).
Definition inst_proc_add (d : pde) (p : gmap addr pde) (e : list bool) :
    option addr * gmap addr pde * list bool :=
  let '(f, e) := next_fault e in
  if (f : bool) || has_entry d p then (None, p, e) else
  let a := fresh (dom p) in (Some a, <[a := d]> p, e).

#[global] Instance inst_kernel : KernelOps := {|
  kenv := list bool;
  kmalloc used e := let '(f, e) := next_fault e in (if f then None else Some (fresh used), e);
  k_garbage := 0xDEADBEEF;
  signal_pending := next_fault;
  misc_register e := let '(f, e) := next_fault e in (if f then - ENOMEM else 0, e);
  kmem_cache_create e := let '(f, e) := next_fault e in (negb f, e);
  idr := gmap Z addr;
  idr_init := ∅;
  idr_alloc := inst_idr_alloc;
  idr_find i id := i !! id;
  idr_remove id i := delete id i;
  idr_seq i := map_to_list i;
  idr_ents i := i;
  rhashtable := gset (Z * addr);
  rhashtable_init e := let '(f, e) := next_fault e in (if f then - ENOMEM else 0, ∅, e);
  rhashtable_insert_fast k a t e :=
    let '(f, e) := next_fault e in
    if f then (- ENOMEM, t, e) else (0, {[ (k, a) ]} ∪ t, e);
  rhashtable_lookup_fast := inst_lookup;
  rhashtable_remove_fast k a t := t ∖ {[ (k, a) ]};
  rhashtable_seq t := (elements t).*2;
  rht_objs t := t;
  procfs := gmap addr pde;
  proc_add := inst_proc_add;
  k_proc_remove a p := filter (λ x, pde_below (size p) p a x.1 = false) p;
  proc_ents p := p;
|}.

Lemma has_entry_false d p b d' :
  has_entry d p = false → p !! b = Some d' →
  ¬ (pde_parent d' = pde_parent d ∧ pde_name d' = pde_name d).
Proof.
  intros Hf Hb [E1 E2]. unfold has_entry in Hf.
  assert (existsb (λ x, same_entry d x.2) (map_to_list p) = true) as Ht; [|congruence].
  apply existsb_exists. exists (b, d'). split.
  - by apply list_elem_of_In, elem_of_map_to_list.
  - unfold same_entry; simpl. by rewrite !bool_decide_true.
Qed.

#[global] Instance inst_laws : KernelLaws.
Proof.
  split; simpl.
  - intros used e a e'. destruct (next_fault e) as [[] ?]; intros [= <- <-]. apply is_fresh.
  - intros e r e'. destruct (next_fault e) as [[] ?]; intros [= <- <-]; unfold ENOMEM; lia.
  - done.
  - intros p start stop i e r i' e' Hs _. unfold inst_idr_alloc.
    destruct (next_fault e) as [[] e1]; [intros [= <- <- <-]; auto|].
    destruct (first_free _ _ _) as [z|] eqn:Hf; [|intros [= <- <- <-]; auto].
    case_decide; intros [= <- <- <-]; [right|auto].
    apply first_free_spec in Hf as [??]. done.
  - done.
  - done.
  - done.
  - intros e r t e'. destruct (next_fault e) as [[] ?]; intros [= <- <- <-];
      (split; [unfold ENOMEM; lia|done]).
  - intros k a t e r t' e'. destruct (next_fault e) as [[] ?]; intros [= <- <- <-].
    + right. split; [unfold ENOMEM; lia|done].
    + by left.
  - intros t k a. unfold inst_lookup. intros ([k' a'] & Hh & [= ->])%fmap_Some.
    apply head_Some_elem_of, list_elem_of_filter in Hh as [Hk ?]. simpl in Hk. subst. by apply elem_of_elements.
  - intros t k a. unfold inst_lookup. intros Hh%fmap_None Hin.
    apply elem_of_elements in Hin.
    assert ((k, a) ∈ filter (λ x, x.1 = k) (elements t)) as Hf by by apply list_elem_of_filter.
    destruct (filter _ _); [set_solver|done].
  - done.
  - intros t a. rewrite list_elem_of_fmap. split.
    + intros ([k x] & -> & ?%elem_of_elements). by exists k.
    + intros [k ?]. exists (k, a). by rewrite elem_of_elements.
  - intros d p e r p' e'. unfold inst_proc_add. destruct (next_fault e) as [f e1].
    destruct (f || has_entry d p) eqn:Hf; intros [= <- <- <-]; [done|].
    apply orb_false_iff in Hf as [_ Hf]. split_and!; [|done|].
    + apply not_elem_of_dom, is_fresh.
    + intros b d'. by apply has_entry_false.
  - intros a p b. rewrite map_lookup_filter.
    destruct (p !! b) eqn:E; simpl; [|by case_match].
    destruct (pde_below _ _ _ _) eqn:Hb; simpl; by rewrite ?option_guard_True, ?option_guard_False.
Qed.

(** <asm-generic/ioctl.h>: direction, size, type and number packed in 32 bits. *)
Definition inst_ioc (dir t n size : Z) : Z := dir * 2 ^ 30 + size * 2 ^ 16 + t * 2 ^ 8 + n.

Lemma inst_ioc_nr dir t n size : 0 ≤ n < 256 → inst_ioc dir t n size mod 256 = n.
Proof.
  intros Hn. unfold inst_ioc.
  replace (_ + n) with (n + (dir * 2 ^ 22 + size * 2 ^ 8 + t) * 256) by lia.
  rewrite Z.mod_add by lia. by apply Z.mod_small.
Qed.

#[global] Instance inst_ioctl : IoctlNr := {|
  IO_ t n := inst_ioc 0 t n 0;
  IOW_ t n s := inst_ioc 1 t n s;
  IOR_ t n s := inst_ioc 2 t n s;
  IOWR_ t n s := inst_ioc 3 t n s;
  IOC_NR x := x mod 256;
  sizeof_ptr := 8;
  IOC_NR_IO t n := inst_ioc_nr 0 t n 0;
  IOC_NR_IOR t n s := inst_ioc_nr 2 t n s;
  IOC_NR_IOW t n s := inst_ioc_nr 1 t n s;
  IOC_NR_IOWR t n s := inst_ioc_nr 3 t n s;
|}.
