(* ===== verification/Scenario.v ===== *)
(** * A session on the concrete kernel

    The worlds of a small session, computed by running the handlers on the
    kernel of [KernelInst] and the list routines of [src/src/util/list.h]: the
    module is loaded, process 10 opens the device and creates a completion
    list, tasks 11 and 12 enter worker mode and task 13 enters scheduler mode.
    Each world is the computed result of the call that leads to it.  The
    witnesses of the properties evaluate the handlers on these worlds. *)
From S2P Require Import Prelude ListHead ListSpec Kernel Uapi State Prims Context Proc.
From S2P Require Import Complist Scheduler Worker Device KernelInst.
From stdpp Require Import prelude gmap strings.

Local Open Scope Z_scope.

(** A user pointer that can be read and written. *)
Definition good {T} (v : T) : uptr T := mk_uptr (Some v) 0.
(** ... and one through which nothing can be written. *)
Definition bad {T} (v : T) : uptr T := mk_uptr (Some v) 4.

(** The world a call ends in (the world itself when it does not return), the
    current task of a world, the faults to come. *)
Definition after {A} (m : kM A) (w : world) : world :=
  match m w with Ok _ w' => w' | _ => w end.
Definition as_task (p : pid_t) (w : world) : world := set_cur p w.
Definition faults (e : list bool) (w : world) : world := set_env (e : kenv) w.

Definition tasks0 : gmap pid_t task :=
  {[ 10 := mk_task TASK_RUNNING 1; 11 := mk_task TASK_RUNNING 1;
     12 := mk_task TASK_RUNNING 1; 13 := mk_task TASK_RUNNING 1 ]}.
Definition w_start : world :=
  mk_world (KO := inst_kernel) [] ∅ ∅ ∅ tasks0 10 0 [] None (mk_mod false PNull 0 false) [] [].

Definition w_loaded : world := Eval vm_compute in after ums_init w_start.
Definition w_open : world := Eval vm_compute in after (ums_dev_open 0) w_loaded.
Definition w_list : world := Eval vm_compute in after (create_ums_complist (good 0)) w_open.
Definition w_worker1 : world := Eval vm_compute in
  after (enter_ums_worker_mode (mk_enter_args 2 1)) (as_task 11 w_list).
Definition w_worker2 : world := Eval vm_compute in
  after (enter_ums_worker_mode (mk_enter_args 2 1)) (as_task 12 w_worker1).
Definition w_sched : world := Eval vm_compute in
  after (enter_ums_scheduler_mode (mk_enter_args 1 1)) (as_task 13 w_worker2).
(** the scheduler has consumed the startup event *)
Definition w_started : world := Eval vm_compute in
  after (ums_sched_dqevent (good zero_event)) w_sched.
(** it has dequeued the completion list ... *)
Definition w_dequeued : world := Eval vm_compute in
  after (ums_complist_dqcontext (good (mk_dequeue_args 1 0))) w_started.
(** ... and asked for the next context *)
Definition w_drained : world := Eval vm_compute in
  after (ums_complist_next_context (good (mk_next_args 11 0))) w_dequeued.
(** worker 12 runs *)
Definition w_running : world := Eval vm_compute in
  as_task 12 (after (exec_ums_context 12) w_drained).

(** The objects: completion list, the two workers, the scheduler, its startup
    event. *)
Definition a_list : addr := 4.
Definition a_worker1 : addr := 5.
Definition a_worker2 : addr := 7.
Definition a_sched : addr := 9.
Definition a_event : addr := 10.

(** Their content in a world. *)
Definition complist_of (w : world) (a : addr) : ums_complist :=
  match w_heap w !! a with Some (OComplist c) => c | _ => zero_complist end.
Definition sched_of (w : world) (a : addr) : ums_scheduler :=
  match w_heap w !! a with Some (OSched x) => x | _ => uninit_scheduler end.
Definition worker_of (w : world) (a : addr) : ums_worker :=
  match w_heap w !! a with Some (OWorker y) => y | _ => uninit_worker end.
Definition data_of (w : world) : ums_data :=
  match w_data w with Some d => d | None => mk_data 1 ∅ ∅ ∅ zero_proc_dirs end.
Definition task_of (w : world) (p : pid_t) : task :=
  default (mk_task 0 0) (w_tasks w !! p).

(** The lists of the worlds above. *)
Definition lists_worker2 : forest lnode :=
  {[ ClHead a_list := [wnode a_worker1; wnode a_worker2] ]}.
Definition lists_sched : forest lnode :=
  {[ ClHead a_list := [wnode a_worker1; wnode a_worker2]; EventQ a_sched := [EventList a_event] ]}.
Definition lists_started : forest lnode :=
  {[ ClHead a_list := [wnode a_worker1; wnode a_worker2]; EventQ a_sched := [] ]}.
Definition lists_dequeued : forest lnode :=
  {[ ClHead a_list := []; wnode a_worker1 := [wnode a_worker2]; EventQ a_sched := [] ]}.
Definition lists_drained : forest lnode :=
  {[ ClHead a_list := []; wnode a_worker1 := []; wnode a_worker2 := []; EventQ a_sched := [] ]}.

Lemma cells_owned_alt (w : world) :
  map_Forall (λ n _, is_Some (w_heap w !! node_addr n)) (w_lm w) → cells_owned w.
Proof. intros Hf n [c Hc]. by eapply Hf. Qed.

(** The call returns. *)
Definition returns {A} (o : outcome A) : bool := match o with Ok _ _ => true | _ => false end.
Lemma returns_not_bug {A} (o : outcome A) b : returns o = true → o ≠ Bug b.
Proof. by destruct o. Qed.

(** Facts about concrete worlds are evaluated. *)
Ltac compute_fact :=
  lazymatch goal with
  | |- ?x = ?y => first [has_evar y; vm_compute; reflexivity | vm_cast_no_check (eq_refl x)]
  end.
Ltac decide_fact := apply (bool_decide_unpack _); vm_compute; exact I.
Ltac owned_fact := apply cells_owned_alt; decide_fact.

(** The session does what it should. *)
Example session_lists :
  forest_ok (w_lm w_worker2) lists_worker2 ∧ forest_ok (w_lm w_sched) lists_sched ∧
  forest_ok (w_lm w_started) lists_started ∧ forest_ok (w_lm w_dequeued) lists_dequeued ∧
  forest_ok (w_lm w_drained) lists_drained ∧ forest_ok (w_lm w_running) lists_drained.
Proof. split_and!; decide_fact. Qed.

Lemma two_elements {A} (x y j : A) : j ∈ [x; y] → j = x ∨ j = y.
Proof. set_solver. Qed.

(** The scheduler of the session can dequeue the two workers. *)
Lemma session_dq_ready u :
  dq_ready w_started lists_started (mk_uptr (Some (mk_dequeue_args 1 0)) u) a_list a_sched
    (complist_of w_started a_list) [a_worker1; a_worker2].
Proof.
  split.
  - eexists _, (data_of w_started). split; [done|]. do 2 (split; [compute_fact|]). compute_fact.
  - compute_fact.
  - compute_fact.
  - decide_fact.
  - compute_fact.
  - intros j [-> | ->]%two_elements;
      [eexists (sched_of w_started a_sched), (worker_of w_started a_worker1), _, _, _
      |eexists (sched_of w_started a_sched), (worker_of w_started a_worker2), _, _, _];
      (split; [compute_fact|split; [compute_fact|split; [compute_fact|split; [compute_fact|]]]]);
      eexists; compute_fact.
Qed.

Definition session_pid (a : addr) : pid_t := if decide (a = a_worker1) then 11 else 12.
Lemma session_pids_ok :
  pids_ok session_pid (w_heap w_started) (data_of w_started) [a_worker1; a_worker2].
Proof.
  intros j [-> | ->]%two_elements;
    (split; [compute_fact|]);
    [exists (worker_of w_started a_worker1)|exists (worker_of w_started a_worker2)];
    split; compute_fact.
Qed.
