(* ===== verification/User.v ===== *)
(** * User space: the process the library runs in

    What the user library ([src/src/lib/src]) and the programs on top of it
    rely on, seen from one thread: its memory, errno, the library's static
    variables, and a monad in which their code is written.  The class [SysOps]
    lists the services whose outcome the code cannot determine: system calls,
    memory allocation, POSIX threads.  [os] is their hidden state; it covers
    the kernel and what the other threads do, so a system call that sleeps is
    one call whose result shows what happened meanwhile.  [None] as the outcome
    of a call means that it never returns.

    The documented behaviour of libc is written out: a system call that fails
    sets errno and returns -1, [malloc] sets errno to ENOMEM, [pthread_once]
    runs its routine once, the destructor of a thread-specific key is called
    with the non-NULL value of a thread that ends. *)
From S2P Require Import Prelude ListHead Kernel Uapi State.
From stdpp Require Import prelude gmap strings.

Local Open Scope Z_scope.

(** ** Services *)

(** The start routines handed to [pthread_create]. *)
Inductive start_routine := StartWorker | StartScheduler | StartPlain.

Class SysOps := {
  os : Type;
  (** the value the kernel returns, and what it copied to user space *)
  sys_ioctl : Z → Z → ioctl_arg → os → option (Z * list uval * os);
  sys_open : string → Z → os → Z * os;
  sys_close : Z → os → Z * os;
  (** the child's view of the system after a fork *)
  sys_fork : os → os;
  (** memory that is not in use *)
  c_malloc : gset addr → os → option addr * os;
  (** attributes, start routine and its argument: zero or an error number, and
      the new thread's id *)
  sys_pthread_create : Z → start_routine → Z → os → Z * Z * os;
  sys_pthread_key_create : os → Z * os;
  sys_pthread_setspecific : os → Z * os;
  sys_pthread_atfork : os → Z * os;
  (** [pthread_attr_init], [pthread_attr_setdetachstate],
      [pthread_attr_setaffinity_np], [sched_setaffinity] *)
  sys_pthread_attr : os → Z * os;
  (** [pthread_join] waits: it may not return *)
  sys_pthread_join : Z → os → option (Z * os);
  sys_nproc : os → Z;
}.

(** ** Memory *)

(** [worker_proc_args_t] *)
Record worker_proc_args_t := mk_worker_args {
  wa_completion_list : Z;
  wa_func : addr;
  wa_args : Z;
}.

(** An object of the process: an [int] or [long] variable, the arguments of a
    worker thread, a node of the example's ready queue (its [list] member is a
    list cell), a task of the benchmark (its result may be unwritten), an array
    or structure of 8-byte cells that may be unwritten, or a block of bytes the
    code only passes on. *)
Inductive uobj :=
  | UInt (v : Z)
  | UArgs (a : worker_proc_args_t)
  | UNode (context : Z)
  | UTask (input : Z) (result : option Z)
  | UCells (cells : list (option Z))
  | UBlob.

(** The list cells: [rq.head] and the [list] members of the nodes. *)
Inductive unode := RqHead | NodeList (a : addr).
#[global] Instance unode_eq_dec : EqDecision unode.
Proof. solve_decision. Defined.
#[global] Instance unode_countable : Countable unode.
Proof.
  refine (inj_countable' (λ n, match n with RqHead => None | NodeList a => Some a end)
    (λ o, match o with None => RqHead | Some a => NodeList a end) _). by intros [].
Defined.

(** A pointer kept in an integer ([void *] arguments that pass through the
    kernel), and back. *)
Definition ptr_val (a : addr) : Z := Z.pos a.
Definition val_ptr (z : Z) : cptr addr :=
  match z with Z.pos a => Ptr a | Z0 => PNull | Z.neg _ => PUninit end.

Inductive ubug :=
  | Segv        (** access through NULL or to memory that is not an object of that type *)
  | BadFree     (** free of something that is not allocated *)
  | CellFault   (** list routine on a pointer that is not a live cell *)
  | Undefined   (** use of a variable that was never written *)
  | AssertFailed  (** an assertion of a test does not hold *)
  | OutOfFuel.  (** not a behaviour: the bound of a modelled loop *)

Section user.
Context `{SO : SysOps}.

(** [u_fileno] is [UMS_FILENO], [u_once] and [u_key] are [worker_key_once] and
    whether [worker_key] exists, [u_specific] is its value in this thread,
    [u_atfork] says that the child handler is registered; [u_stdout] and
    [u_stderr] are what was printed ([perror] with the value of errno).
    [u_attrs] counts the [pthread_attr_t] variables that were initialised:
    nothing under [src/] calls [pthread_attr_destroy], so none of them is given
    up again. *)
Record ustate := mk_ustate {
  u_os : os;
  u_errno : Z;
  u_heap : gmap addr uobj;
  u_lm : lmem unode;
  u_fileno : Z;
  u_once : bool;
  u_key : bool;
  u_specific : option addr;
  u_atfork : bool;
  u_attrs : Z;
  u_stdout : list string;
  u_stderr : list (string * Z);
}.

Definition uset_os (v : os) (s : ustate) : ustate :=
  mk_ustate v (u_errno s) (u_heap s) (u_lm s) (u_fileno s) (u_once s) (u_key s) (u_specific s)
    (u_atfork s) (u_attrs s) (u_stdout s) (u_stderr s).
Definition uset_errno (v : Z) (s : ustate) : ustate :=
  mk_ustate (u_os s) v (u_heap s) (u_lm s) (u_fileno s) (u_once s) (u_key s) (u_specific s)
    (u_atfork s) (u_attrs s) (u_stdout s) (u_stderr s).
Definition uset_heap (v : gmap addr uobj) (s : ustate) : ustate :=
  mk_ustate (u_os s) (u_errno s) v (u_lm s) (u_fileno s) (u_once s) (u_key s) (u_specific s)
    (u_atfork s) (u_attrs s) (u_stdout s) (u_stderr s).
Definition uset_lm (v : lmem unode) (s : ustate) : ustate :=
  mk_ustate (u_os s) (u_errno s) (u_heap s) v (u_fileno s) (u_once s) (u_key s) (u_specific s)
    (u_atfork s) (u_attrs s) (u_stdout s) (u_stderr s).
Definition uset_fileno (v : Z) (s : ustate) : ustate :=
  mk_ustate (u_os s) (u_errno s) (u_heap s) (u_lm s) v (u_once s) (u_key s) (u_specific s)
    (u_atfork s) (u_attrs s) (u_stdout s) (u_stderr s).
Definition uset_key (once key : bool) (s : ustate) : ustate :=
  mk_ustate (u_os s) (u_errno s) (u_heap s) (u_lm s) (u_fileno s) once key (u_specific s)
    (u_atfork s) (u_attrs s) (u_stdout s) (u_stderr s).
Definition uset_specific (v : option addr) (s : ustate) : ustate :=
  mk_ustate (u_os s) (u_errno s) (u_heap s) (u_lm s) (u_fileno s) (u_once s) (u_key s) v
    (u_atfork s) (u_attrs s) (u_stdout s) (u_stderr s).
Definition uset_atfork (v : bool) (s : ustate) : ustate :=
  mk_ustate (u_os s) (u_errno s) (u_heap s) (u_lm s) (u_fileno s) (u_once s) (u_key s)
    (u_specific s) v (u_attrs s) (u_stdout s) (u_stderr s).
Definition uset_out (o : list string) (e : list (string * Z)) (s : ustate) : ustate :=
  mk_ustate (u_os s) (u_errno s) (u_heap s) (u_lm s) (u_fileno s) (u_once s) (u_key s)
    (u_specific s) (u_atfork s) (u_attrs s) o e.
Definition uset_attrs (v : Z) (s : ustate) : ustate :=
  mk_ustate (u_os s) (u_errno s) (u_heap s) (u_lm s) (u_fileno s) (u_once s) (u_key s)
    (u_specific s) (u_atfork s) v (u_stdout s) (u_stderr s).

(** ** The monad *)

Inductive uout (A : Type) :=
  | URet (a : A) (s : ustate)
  | UBlocked (s : ustate)    (** a system call was made that does not return *)
  | UCrash (b : ubug).
Definition uM (A : Type) : Type := ustate → uout A.
End user.
Arguments URet {SO A}.
Arguments UBlocked {SO A}.
Arguments UCrash {SO A}.

#[global] Instance uM_ret `{SysOps} : MRet uM := λ A a s, URet a s.
#[global] Instance uM_bind `{SysOps} : MBind uM := λ A B f m s,
  match m s with
  | URet a s => f a s
  | UBlocked s => UBlocked s
  | UCrash b => UCrash b
  end.

Section prims.
Context `{SO : SysOps}.

Definition ucrash {A} (b : ubug) : uM A := λ _, UCrash b.
Definition ugets {A} (f : ustate → A) : uM A := λ s, URet (f s) s.
Definition umodify (f : ustate → ustate) : uM unit := λ s, URet tt (f s).
Definition ucall {A} (f : os → A * os) : uM A := λ s,
  let '(a, o) := f (u_os s) in URet a (uset_os o s).
Definition set_errno (v : Z) : uM unit := umodify (uset_errno v).

(** ** Memory *)

Definition uderef (p : cptr addr) : uM addr :=
  match p with Ptr a => mret a | _ => ucrash Segv end.
Definition uget (a : addr) : uM uobj := λ s,
  match u_heap s !! a with Some o => URet o s | None => UCrash Segv end.
Definition uput (a : addr) (o : uobj) : uM unit :=
  umodify (λ s, uset_heap (<[a := o]> (u_heap s)) s).
Definition load_int (a : addr) : uM Z :=
  o ← uget a; match o with UInt v => mret v | _ => ucrash Segv end.
Definition store_int (a : addr) (v : Z) : uM unit := _ ← load_int a; uput a (UInt v).
Definition load_args (a : addr) : uM worker_proc_args_t :=
  o ← uget a; match o with UArgs v => mret v | _ => ucrash Segv end.
Definition load_node (a : addr) : uM Z :=
  o ← uget a; match o with UNode v => mret v | _ => ucrash Segv end.
Definition load_task (a : addr) : uM (Z * option Z) :=
  o ← uget a; match o with UTask i r => mret (i, r) | _ => ucrash Segv end.
Definition load_cell (a : addr) (i : nat) : uM Z :=
  o ← uget a;
  match o with
  | UCells l =>
      match l !! i with Some (Some v) => mret v | Some None => ucrash Undefined | None => ucrash Segv end
  | _ => ucrash Segv
  end.
Definition store_cell (a : addr) (i : nat) (v : Z) : uM unit :=
  o ← uget a;
  match o with
  | UCells l => if decide (i < length l)%nat then uput a (UCells (<[i := Some v]> l)) else ucrash Segv
  | _ => ucrash Segv
  end.

(** The list cells of an object. *)
Definition uobj_nodes (a : addr) (o : uobj) : list unode :=
  match o with UNode _ => [NodeList a] | _ => [] end.
Definition uadd_nodes (ns : list unode) (m : lmem unode) : lmem unode :=
  foldr (λ n, <[n := mk_list_head LUninit LUninit]>) m ns.
Definition udel_nodes (ns : list unode) (m : lmem unode) : lmem unode := foldr delete m ns.

(** [malloc] of room for the object [o]; the content is written at once by the
    code that uses it. *)
Definition malloc (o : uobj) : uM (cptr addr) := λ s,
  match c_malloc (dom (u_heap s)) (u_os s) with
  | (None, e) => URet PNull (uset_errno ENOMEM (uset_os e s))
  | (Some a, e) =>
      URet (Ptr a) (uset_os e (uset_heap (<[a := o]> (u_heap s))
        (uset_lm (uadd_nodes (uobj_nodes a o) (u_lm s)) s)))
  end.
Definition free (p : cptr addr) : uM unit := λ s,
  match p with
  | PUninit => UCrash BadFree
  | PNull => URet tt s
  | Ptr a =>
      match u_heap s !! a with
      | None => UCrash BadFree
      | Some o => URet tt (uset_heap (delete a (u_heap s))
                    (uset_lm (udel_nodes (uobj_nodes a o) (u_lm s)) s))
      end
  end.
(** [malloc] of [n] cells, [n] a [long] or an [unsigned long]: the size is
    computed in 64 bits, and more than PTRDIFF_MAX bytes are never given. *)
Definition malloc_array (n : Z) : uM (cptr addr) :=
  let size := u64 (n * 8) in
  if decide (size < 2 ^ 63) then malloc (UCells (replicate (Z.to_nat (size / 8)) None))
  else _ ← set_errno ENOMEM; mret PNull.

(** A local [int] variable whose address is taken. *)
Definition with_local {A} (v : Z) (body : addr → uM A) : uM A := λ s,
  let a := fresh (dom (u_heap s)) in
  match body a (uset_heap (<[a := UInt v]> (u_heap s)) s) with
  | URet x s' => URet x (uset_heap (delete a (u_heap s')) s')
  | UBlocked s' => UBlocked s'
  | UCrash b => UCrash b
  end.

(** Lists of the process *)
Definition ulist {A} (f : lmem unode → option A) : uM A := λ s,
  match f (u_lm s) with Some x => URet x s | None => UCrash CellFault end.
Definition ulist_upd (f : lmem unode → option (lmem unode)) : uM unit := λ s,
  match f (u_lm s) with Some m => URet tt (uset_lm m s) | None => UCrash CellFault end.

(** ** System calls *)

(** The wrapper of libc around the result of a system call. *)
Definition syscall_ret (r : Z) : uM Z :=
  if decide (-4095 ≤ r < 0) then _ ← set_errno (- r); mret (-1) else mret r.

Definition ioctl (fd cmd : Z) (arg : ioctl_arg) : uM (Z * list uval) := λ s,
  match sys_ioctl fd cmd arg (u_os s) with
  | None => UBlocked s
  | Some (r, out, o) => (r ← syscall_ret r; mret (r, out)) (uset_os o s)
  end.
Definition open (path : string) (flags : Z) : uM Z :=
  r ← ucall (sys_open path flags); syscall_ret r.
Definition close (fd : Z) : uM Z := r ← ucall (sys_close fd); syscall_ret r.

(** Arguments of ioctl: no pointer of any type, a value, pointers to local
    variables, a pointer to an [int] of the process. *)
Definition no_arg : ioctl_arg :=
  mk_arg 0 (mk_uptr None 1) (mk_uptr None 1) (mk_uptr None 1) (mk_uptr None 1) (mk_uptr None 1).
Definition val_arg (v : Z) : ioctl_arg :=
  mk_arg v (mk_uptr None 1) (mk_uptr None 1) (mk_uptr None 1) (mk_uptr None 1) (mk_uptr None 1).
Definition enter_arg (v : enter_ums_mode_args) : ioctl_arg :=
  mk_arg 0 (mk_uptr None 1) (mk_uptr (Some v) 0) (mk_uptr None 1) (mk_uptr None 1) (mk_uptr None 1).
Definition event_arg (v : option ums_sched_event) : ioctl_arg :=
  mk_arg 0 (mk_uptr None 1) (mk_uptr None 1) (mk_uptr v 0) (mk_uptr None 1) (mk_uptr None 1).
Definition dequeue_arg (v : dequeue_ums_complist_args) : ioctl_arg :=
  mk_arg 0 (mk_uptr None 1) (mk_uptr None 1) (mk_uptr None 1) (mk_uptr (Some v) 0) (mk_uptr None 1).
Definition next_arg (v : ums_next_context_list_args) : ioctl_arg :=
  mk_arg 0 (mk_uptr None 1) (mk_uptr None 1) (mk_uptr None 1) (mk_uptr None 1) (mk_uptr (Some v) 0).
Definition id_arg (o : option uobj) : ioctl_arg :=
  mk_arg 0 (match o with Some (UInt v) => mk_uptr (Some v) 0 | _ => mk_uptr None 4 end)
    (mk_uptr None 1) (mk_uptr None 1) (mk_uptr None 1) (mk_uptr None 1).

(** The last id, pid or event the kernel wrote through the pointer. *)
Definition out_id (out : list uval) : option Z :=
  match last out with Some (UId z) => Some z | _ => None end.
Definition out_pid (out : list uval) : option Z :=
  match last out with Some (UPid z) => Some z | _ => None end.
Definition out_event (out : list uval) : option ums_sched_event :=
  match last out with Some (UEvent e) => Some e | _ => None end.

(** ** Threads *)

(** [pthread_attr_init]: the variable holds what it may have allocated until
    [pthread_attr_destroy]. *)
Definition pthread_attr_init : uM Z :=
  r ← ucall sys_pthread_attr;
  _ ← if decide (r = 0) then umodify (λ s, uset_attrs (u_attrs s + 1) s) else mret tt;
  mret r.

(** The value returned, and what is stored in the [pthread_t] variable. *)
Definition pthread_create (attr : Z) (f : start_routine) (arg : Z) : uM (Z * option Z) :=
  r ← ucall (sys_pthread_create attr f arg);
  mret (r.1, if decide (r.1 = 0) then Some r.2 else None).

(** ** Output *)

Definition perror (what : string) : uM unit :=
  umodify (λ s, uset_out (u_stdout s) (u_stderr s ++ [(what, u_errno s)]) s).
Definition puts (text : string) : uM unit :=
  umodify (λ s, uset_out (u_stdout s ++ [text]) (u_stderr s) s).
End prims.

(** ** Running code *)

Lemma ubind_ret `{SysOps} {A B} (m : uM A) (f : A → uM B) s a s' :
  m s = URet a s' → (m ≫= f) s = f a s'.
Proof. intros E. unfold mbind, uM_bind. by rewrite E. Qed.
Lemma ubind_blocked `{SysOps} {A B} (m : uM A) (f : A → uM B) s s' :
  m s = UBlocked s' → (m ≫= f) s = UBlocked s'.
Proof. intros E. unfold mbind, uM_bind. by rewrite E. Qed.
Lemma ubind_crash `{SysOps} {A B} (m : uM A) (f : A → uM B) s b :
  m s = UCrash b → (m ≫= f) s = UCrash b.
Proof. intros E. unfold mbind, uM_bind. by rewrite E. Qed.
Lemma ubind_inv `{SysOps} {A B} (m : uM A) (f : A → uM B) s b s' :
  (m ≫= f) s = URet b s' → ∃ a s1, m s = URet a s1 ∧ f a s1 = URet b s'.
Proof. unfold mbind, uM_bind. destruct (m s); naive_solver. Qed.

(** Step over the first call of a sequence, given what it does. *)
Tactic Notation "urun" uconstr(lem) :=
  let E := fresh in
  match goal with
  | |- context [(?m ≫= ?f) ?s] =>
      eassert (m s = URet _ _) as E;
      [eapply lem | rewrite (ubind_ret m f s _ _ E); clear E; cbv beta iota]
  end.

Ltac uproj :=
  cbn [uset_os uset_errno uset_heap uset_lm uset_fileno uset_key uset_specific uset_atfork uset_out
       u_os u_errno u_heap u_lm u_fileno u_once u_key u_specific u_atfork u_stdout u_stderr].
(** Runs the calls that only read and write fields. *)
Ltac ured :=
  cbv beta iota delta [mbind uM_bind mret uM_ret ucrash ugets umodify set_errno uderef uget uput
    load_int store_int load_args load_node ucall ioctl syscall_ret ulist ulist_upd perror puts];
  uproj.
Ltac ustep :=
  ured;
  repeat match goal with
         | E : ?x = _ |- context [match ?x with _ => _ end] => rewrite E; ured
         end.
