(* ===== verification/UserLib.v ===== *)
(** * The user library: [src/src/lib/src], [src/src/lib/include/umsdefs.h]

    The functions of [complist.c], [scheduler.c], [worker.c], [hooks.c] and
    [private.h] under their C names, over the process of [User].  A pointer
    argument is NULL or the address of an object; [text] is the program text:
    what calling a function pointer does.

    [enter_ums_scheduling_mode] loops for ever; [fuel] bounds the passes of the
    modelled loop.  The relation [passes] describes the passes without a bound,
    and the two are shown to agree. *)
From S2P Require Import Prelude ListHead Kernel Uapi State User.
From stdpp Require Import prelude gmap strings.

Local Open Scope Z_scope.

(** ** umsdefs.h *)

(** [ums_activation_t]: a union with one member *)
Record ums_activation_t := mk_activation { act_context : Z }.

Inductive ums_reason_t :=
  | UMS_SCHEDULER_STARTUP
  | UMS_SCHEDULER_THREAD_YIELD
  | UMS_SCHEDULER_THREAD_END.

#[global] Instance ums_reason_eq_dec : EqDecision ums_reason_t.
Proof. solve_decision. Defined.

Record ums_attr_t := mk_attr {
  at_completion_list : Z;
  at_pthread_attr : Z;
}.

Section lib.
Context `{SO : SysOps, IO : IoctlNr}.

Definition ums_scheduler_entry_point_t : Type :=
  ums_reason_t → cptr ums_activation_t → Z → uM unit.

Record ums_scheduler_startup_info_t := mk_startup_info {
  si_completion_list : Z;
  si_entry_point : ums_scheduler_entry_point_t;
  si_scheduler_param : Z;
}.

(** The test of a pointer argument at the start of a function. *)
Definition null_check {T} (p : cptr T) (body : T → uM Z) : uM Z :=
  match p with
  | PUninit => ucrash Undefined
  | PNull => _ ← set_errno EFAULT; mret (-1)
  | Ptr a => body a
  end.

(** [ioctl(UMS_FILENO, cmd, arg)] *)
Definition ums_ioctl (cmd : Z) (arg : ioctl_arg) : uM (Z * list uval) :=
  fd ← ugets u_fileno; ioctl fd cmd arg.

(** ** private.h *)

Definition enter_ums_mode (args : enter_ums_mode_args) : uM Z :=
  r ← ums_ioctl IOCTL_ENTER_UMS (enter_arg args); mret r.1.

(** ** complist.c *)

Definition create_ums_completion_list (completion_list : cptr addr) : uM Z :=
  null_check completion_list (λ p,
    o ← ugets (λ s, u_heap s !! p);
    r ← ums_ioctl IOCTL_CREATE_UMS_CLIST (id_arg o);
    _ ← match out_id r.2 with Some id => store_int p id | None => mret tt end;
    mret r.1).

Definition dequeue_ums_completion_list_items (completion_list : Z)
    (ums_thread_list : cptr addr) : uM Z :=
  let dequeue_args := mk_dequeue_args completion_list 0 in
  null_check ums_thread_list (λ p,
    r ← ums_ioctl IOCTL_DEQUEUE_UMS_CLIST (dequeue_arg dequeue_args);
    let ums_context := default (dq_ums_context dequeue_args) (out_pid r.2) in
    let retval := r.1 in
    _ ← if decide (retval = 0) then store_int p ums_context else mret tt;
    mret retval).

Definition get_next_ums_list_item (context : Z) : uM Z :=
  let next_context_args := mk_next_args context 0 in
  r ← ums_ioctl IOCTL_NEXT_UMS_CTX_LIST (next_arg next_context_args);
  let ums_next_context := default (nx_ums_next_context next_context_args) (out_pid r.2) in
  if decide (r.1 ≠ 0) then mret r.1 else
  mret (if decide (ums_next_context = -1) then 0 else ums_next_context).

Definition delete_ums_completion_list (completion_list : cptr addr) : uM Z :=
  null_check completion_list (λ p,
    id ← load_int p;
    r ← ums_ioctl IOCTL_DELETE_UMS_CLIST (val_arg id);
    _ ← if decide (r.1 = 0) then store_int p 0 else mret tt;
    mret r.1).

(** ** scheduler.c *)

(** The event is written by the kernel: the variable has no value before. *)
Definition dequeue_ums_sched_event : uM (Z * option ums_sched_event) :=
  r ← ums_ioctl IOCTL_UMS_SCHED_DQEVENT (event_arg None); mret (r.1, out_event r.2).

(** The members of the union, which both start with the context. *)
Definition ev_context (p : ums_event_params) : Z :=
  match p with zero_params => 0 | yield_params c _ | end_params c => c end.
Definition ev_scheduler_params (p : ums_event_params) : Z :=
  match p with yield_params _ v => v | _ => 0 end.

(** The call of the entry point for an event. *)
Definition proxy_event (info : ums_scheduler_startup_info_t) (event : ums_sched_event) : uM unit :=
  match ev_type event with
  | SCHEDULER_STARTUP =>
      si_entry_point info UMS_SCHEDULER_STARTUP PNull (si_scheduler_param info)
  | THREAD_YIELD =>
      let scheduler_activation := mk_activation (ev_context (ev_params event)) in
      si_entry_point info UMS_SCHEDULER_THREAD_YIELD (Ptr scheduler_activation)
        (ev_scheduler_params (ev_params event))
  | THREAD_TERMINATED =>
      let scheduler_activation := mk_activation (ev_context (ev_params event)) in
      si_entry_point info UMS_SCHEDULER_THREAD_END (Ptr scheduler_activation) 0
  end.

Fixpoint scheduling_loop (info : ums_scheduler_startup_info_t) (fuel : nat) : uM Z :=
  match fuel with
  | O => ucrash OutOfFuel
  | S fuel =>
      r ← dequeue_ums_sched_event;
      if decide (r.1 ≠ 0) then
        errno ← ugets u_errno;
        if decide (errno = EINTR) then scheduling_loop info fuel else mret (-1)
      else
        match r.2 with
        | None => ucrash Undefined
        | Some event => _ ← proxy_event info event; scheduling_loop info fuel
        end
  end.

Definition enter_ums_scheduling_mode (fuel : nat)
    (scheduler_startup_info : cptr ums_scheduler_startup_info_t) : uM Z :=
  null_check scheduler_startup_info (λ info,
    let enter_args := mk_enter_args ENTER_UMS_SCHED (si_completion_list info) in
    r ← enter_ums_mode enter_args;
    if decide (r ≠ 0) then mret (-1) else scheduling_loop info fuel).

Definition execute_ums_thread (context : Z) : uM Z :=
  r ← ums_ioctl IOCTL_EXEC_UMS_CTX (val_arg context); mret r.1.

(** ** worker.c *)

Definition exit_ums_mode : uM Z := r ← ums_ioctl IOCTL_EXIT_UMS no_arg; mret r.1.

Definition destroy_worker_key (args : addr) : uM unit :=
  _ ← free (Ptr args); _ ← exit_ums_mode; mret tt.

Definition create_worker_key : uM unit :=
  r ← ucall sys_pthread_key_create;
  umodify (λ s, uset_key (u_once s) (bool_decide (r = 0)) s).

(** [pthread_once(&worker_key_once, create_worker_key)] *)
Definition worker_key_init : uM unit :=
  done ← ugets u_once;
  if (done : bool) then mret tt else
  _ ← create_worker_key; umodify (λ s, uset_key true (u_key s) s).

(** [pthread_setspecific(worker_key, args)]: fails without a key. *)
Definition set_worker_key (args : addr) : uM Z :=
  k ← ugets u_key;
  if (k : bool) then
    r ← ucall sys_pthread_setspecific;
    if decide (r = 0) then _ ← umodify (uset_specific (Some args)); mret 0 else mret r
  else mret EINVAL.

(** The end of a thread: the destructor of the key is called with its value. *)
Definition thread_exit : uM unit :=
  v ← ugets u_specific;
  match v with
  | None => mret tt
  | Some args => _ ← umodify (uset_specific None); destroy_worker_key args
  end.

Section text.
Context (text : addr → Z → uM Z).

Definition worker_wrapper_routine (args : addr) : uM Z :=
  worker_args ← load_args args;
  let ums_args := mk_enter_args ENTER_UMS_WORK (wa_completion_list worker_args) in
  _ ← worker_key_init;
  r ← enter_ums_mode ums_args;
  if decide (r ≠ 0) then _ ← free (Ptr args); mret 0 else
  _ ← set_worker_key args;
  worker_args ← load_args args;
  text (wa_func worker_args) (wa_args worker_args).

(** The life of a worker thread. *)
Definition worker_thread (args : addr) : uM Z :=
  r ← worker_wrapper_routine args; _ ← thread_exit; mret r.
End text.

(** The value returned, and what is stored in [*thread]. *)
Definition ums_pthread_create (ums_attr : cptr ums_attr_t) (func : cptr addr) (args : Z) :
    uM (Z * option Z) :=
  match ums_attr, func with
  | PUninit, _ => ucrash Undefined
  | PNull, _ => _ ← set_errno EFAULT; mret (-1, None)
  | Ptr _, PUninit => ucrash Undefined
  | Ptr _, PNull => _ ← set_errno EFAULT; mret (-1, None)
  | Ptr attr, Ptr f =>
      ums_args ← malloc (UArgs (mk_worker_args (at_completion_list attr) f args));
      match ums_args with
      | Ptr a => pthread_create (at_pthread_attr attr) StartWorker (ptr_val a)
      | _ => mret (-1, None)
      end
  end.

Definition ums_thread_yield (scheduler_param : Z) : uM Z :=
  r ← ums_ioctl IOCTL_UMS_YIELD (val_arg scheduler_param); mret r.1.

(** ** hooks.c *)

Definition ums_fileno_open : uM unit :=
  fd ← open ("/dev/" +:+ UMS_DEV_NAME) O_RDONLY; umodify (uset_fileno fd).
Definition ums_fileno_close : uM unit :=
  fd ← ugets u_fileno; _ ← close fd; mret tt.
Definition ums_atfork_child_handler : uM unit := _ ← ums_fileno_close; ums_fileno_open.

Definition ums_init : uM unit :=
  _ ← ums_fileno_open;
  r ← ucall sys_pthread_atfork;
  umodify (uset_atfork (bool_decide (r = 0))).
Definition ums_exit : uM unit := ums_fileno_close.

(** [fork] as seen by the child: the handlers run after it. *)
Definition fork_child : uM unit :=
  _ ← umodify (λ s, uset_os (sys_fork (u_os s)) s);
  h ← ugets u_atfork;
  if (h : bool) then ums_atfork_child_handler else mret tt.
End lib.

(** ** Results of system calls *)

Section lib_runs.
Context `{SO : SysOps, IO : IoctlNr}.
Implicit Types (s : ustate).

(** The call returns [r], or fails with the error number [e]. *)
Definition answers s (cmd : Z) (arg : ioctl_arg) (r : Z) (out : list uval) (o : os) : Prop :=
  sys_ioctl (u_fileno s) cmd arg (u_os s) = Some (r, out, o) ∧ 0 ≤ r.
Definition fails s (cmd : Z) (arg : ioctl_arg) (e : Z) (o : os) : Prop :=
  sys_ioctl (u_fileno s) cmd arg (u_os s) = Some (- e, [], o) ∧ 0 < e ≤ 4095.
(** The state after a failed call. *)
Definition failed (e : Z) (o : os) s : ustate := uset_errno e (uset_os o s).

Lemma ums_ioctl_answers s cmd arg r out o :
  answers s cmd arg r out o → ums_ioctl cmd arg s = URet (r, out) (uset_os o s).
Proof.
  intros [E Hr]. unfold ums_ioctl. ured. rewrite E. ured. by rewrite decide_False by lia.
Qed.
Lemma ums_ioctl_fails s cmd arg e o :
  fails s cmd arg e o → ums_ioctl cmd arg s = URet (-1, []) (failed e o s).
Proof.
  intros [E He]. unfold ums_ioctl. ured. rewrite E. ured. rewrite decide_True by lia.
  uproj. by rewrite Z.opp_involutive.
Qed.
Lemma ums_ioctl_blocked s cmd arg :
  sys_ioctl (u_fileno s) cmd arg (u_os s) = None → ums_ioctl cmd arg s = UBlocked s.
Proof. intros E. unfold ums_ioctl. ured. by rewrite E. Qed.

Lemma load_int_run s a v : u_heap s !! a = Some (UInt v) → load_int a s = URet v s.
Proof. intros E. ured. by rewrite E. Qed.
Lemma store_int_run s a v x :
  u_heap s !! a = Some (UInt v) →
  store_int a x s = URet tt (uset_heap (<[a := UInt x]> (u_heap s)) s).
Proof. intros E. unfold store_int. by urun (load_int_run s a v E). Qed.
Lemma load_args_run s a v : u_heap s !! a = Some (UArgs v) → load_args a s = URet v s.
Proof. intros E. ured. by rewrite E. Qed.
Lemma load_node_run s a v : u_heap s !! a = Some (UNode v) → load_node a s = URet v s.
Proof. intros E. ured. by rewrite E. Qed.
Lemma free_run s a o :
  u_heap s !! a = Some o →
  free (Ptr a) s = URet tt (uset_heap (delete a (u_heap s))
    (uset_lm (udel_nodes (uobj_nodes a o) (u_lm s)) s)).
Proof. intros E. unfold free. by rewrite E. Qed.

(** ** The wrappers *)

Lemma dequeue_items_answers s cl p v out o :
  answers s IOCTL_DEQUEUE_UMS_CLIST (dequeue_arg (mk_dequeue_args cl 0)) 0 out o →
  u_heap s !! p = Some (UInt v) →
  dequeue_ums_completion_list_items cl (Ptr p) s =
    URet 0 (uset_heap (<[p := UInt (default 0 (out_pid out))]> (u_heap s)) (uset_os o s)).
Proof.
  intros E Hp. unfold dequeue_ums_completion_list_items, null_check.
  urun (ums_ioctl_answers _ _ _ _ _ _ E). cbn [fst snd]. rewrite decide_True by done.
  by urun (store_int_run _ p v).
Qed.
Lemma dequeue_items_fails s cl p e o :
  fails s IOCTL_DEQUEUE_UMS_CLIST (dequeue_arg (mk_dequeue_args cl 0)) e o →
  dequeue_ums_completion_list_items cl (Ptr p) s = URet (-1) (failed e o s).
Proof.
  intros E. unfold dequeue_ums_completion_list_items, null_check.
  urun (ums_ioctl_fails _ _ _ _ _ E). by rewrite decide_False by done.
Qed.

Lemma get_next_answers s p out o :
  answers s IOCTL_NEXT_UMS_CTX_LIST (next_arg (mk_next_args p 0)) 0 out o →
  get_next_ums_list_item p s =
    URet (let q := default 0 (out_pid out) in if decide (q = -1) then 0 else q) (uset_os o s).
Proof.
  intros E. unfold get_next_ums_list_item. urun (ums_ioctl_answers _ _ _ _ _ _ E).
  cbn [fst snd]. by rewrite decide_False by (by intros []).
Qed.
Lemma get_next_fails s p e o :
  fails s IOCTL_NEXT_UMS_CTX_LIST (next_arg (mk_next_args p 0)) e o →
  get_next_ums_list_item p s = URet (-1) (failed e o s).
Proof.
  intros E. unfold get_next_ums_list_item. urun (ums_ioctl_fails _ _ _ _ _ E).
  cbn [fst snd]. by rewrite decide_True by done.
Qed.

Lemma delete_answers s p id out o :
  answers s IOCTL_DELETE_UMS_CLIST (val_arg id) 0 out o → u_heap s !! p = Some (UInt id) →
  delete_ums_completion_list (Ptr p) s =
    URet 0 (uset_heap (<[p := UInt 0]> (u_heap s)) (uset_os o s)).
Proof.
  intros E Hp. unfold delete_ums_completion_list, null_check. urun (load_int_run s p id Hp).
  urun (ums_ioctl_answers _ _ _ _ _ _ E). cbn [fst]. rewrite decide_True by done.
  by urun (store_int_run _ p id).
Qed.
Lemma delete_fails s p id e o :
  fails s IOCTL_DELETE_UMS_CLIST (val_arg id) e o → u_heap s !! p = Some (UInt id) →
  delete_ums_completion_list (Ptr p) s = URet (-1) (failed e o s).
Proof.
  intros E Hp. unfold delete_ums_completion_list, null_check. urun (load_int_run s p id Hp).
  urun (ums_ioctl_fails _ _ _ _ _ E). cbn [fst]. by rewrite decide_False by done.
Qed.

Lemma create_answers s p v id o :
  answers s IOCTL_CREATE_UMS_CLIST (id_arg (u_heap s !! p)) 0 [UId id] o →
  u_heap s !! p = Some (UInt v) →
  create_ums_completion_list (Ptr p) s =
    URet 0 (uset_heap (<[p := UInt id]> (u_heap s)) (uset_os o s)).
Proof.
  intros E Hp. unfold create_ums_completion_list, null_check.
  urun (eq_refl : ugets _ s = URet _ _). urun (ums_ioctl_answers _ _ _ _ _ _ E).
  cbn [fst snd out_id last]. by urun (store_int_run _ p v).
Qed.
Lemma create_fails s p e o :
  fails s IOCTL_CREATE_UMS_CLIST (id_arg (u_heap s !! p)) e o →
  create_ums_completion_list (Ptr p) s = URet (-1) (failed e o s).
Proof.
  intros E. unfold create_ums_completion_list, null_check.
  urun (eq_refl : ugets _ s = URet _ _). by urun (ums_ioctl_fails _ _ _ _ _ E).
Qed.

Lemma enter_answers s args out o :
  answers s IOCTL_ENTER_UMS (enter_arg args) 0 out o →
  enter_ums_mode args s = URet 0 (uset_os o s).
Proof. intros E. unfold enter_ums_mode. by urun (ums_ioctl_answers _ _ _ _ _ _ E). Qed.
Lemma enter_fails s args e o :
  fails s IOCTL_ENTER_UMS (enter_arg args) e o →
  enter_ums_mode args s = URet (-1) (failed e o s).
Proof. intros E. unfold enter_ums_mode. by urun (ums_ioctl_fails _ _ _ _ _ E). Qed.

Lemma yield_answers s v out o :
  answers s IOCTL_UMS_YIELD (val_arg v) 0 out o → ums_thread_yield v s = URet 0 (uset_os o s).
Proof. intros E. unfold ums_thread_yield. by urun (ums_ioctl_answers _ _ _ _ _ _ E). Qed.
Lemma yield_fails s v e o :
  fails s IOCTL_UMS_YIELD (val_arg v) e o → ums_thread_yield v s = URet (-1) (failed e o s).
Proof. intros E. unfold ums_thread_yield. by urun (ums_ioctl_fails _ _ _ _ _ E). Qed.
End lib_runs.
