(* ===== verification/Example.v ===== *)
(** * The example program: [src/examples/00-simple-example/main.c]

    A scheduler per processor that keeps a ready queue of contexts, and worker
    threads that yield once.  The queue is a list of [src/src/util/list.h]
    ([ListHead]) in the memory of the process, filled through the library of
    [UserLib].

    [fuel] bounds the two loops of [get_next_context] (the retries after a
    signal and the contexts of one batch). *)
From S2P Require Import Prelude ListHead Kernel Uapi State User UserLib.
From stdpp Require Import prelude gmap strings pretty.

Local Open Scope Z_scope.

Section example.
Context `{SO : SysOps, IO : IoctlNr}.

(** The address of the global variable [comp_list] and of the function
    [worker_pthread_proc]; the build options
    [HAVE_DECL_PTHREAD_ATTR_SETAFFINITY_NP] and [HAVE_SCHED_SETAFFINITY]. *)
Context (comp_list worker_proc : addr) (have_attr_affinity have_sched_affinity : bool).

(** ** The ready queue *)

(** The first entry is unlinked and returned; the entry of the head itself is
    not a node. *)
Definition take_first : uM (cptr addr) :=
  n ← ulist (list_first_entry (LNode RqHead));
  match n with
  | NodeList a => _ ← ulist_upd (list_del (LNode (NodeList a))); mret (Ptr a)
  | RqHead => ucrash Segv
  end.

(** A new node with the context at the end of the queue; [false]: no memory. *)
Definition queue_context (context : Z) : uM bool :=
  node ← malloc (UNode context);
  match node with
  | Ptr a => _ ← ulist_upd (list_add_tail (LNode (NodeList a)) (LNode RqHead)); mret true
  | _ => mret false
  end.

Fixpoint dequeue_retry (fuel : nat) (context : addr) : uM bool :=
  match fuel with
  | O => ucrash OutOfFuel
  | S fuel =>
      cl ← load_int comp_list;
      r ← dequeue_ums_completion_list_items cl (Ptr context);
      if decide (r ≠ 0) then
        errno ← ugets u_errno;
        if decide (errno = EINTR) then dequeue_retry fuel context else mret false
      else mret true
  end.

Fixpoint queue_rest (fuel : nat) (context : addr) : uM bool :=
  match fuel with
  | O => ucrash OutOfFuel
  | S fuel =>
      c ← load_int context;
      c' ← get_next_ums_list_item c;
      _ ← store_int context c';
      if decide (0 < c') then
        ok ← queue_context c';
        if (ok : bool) then queue_rest fuel context else mret false
      else mret true
  end.

(** What [get_next_context] does when the queue is empty. *)
Definition refill (fuel : nat) (context : addr) : uM (cptr addr) :=
  got ← dequeue_retry fuel context;
  if negb got then mret PNull else
  c ← load_int context;
  ok ← queue_context c;
  if negb ok then mret PNull else
  ok ← queue_rest fuel context;
  if negb ok then mret PNull else
  take_first.

Definition get_next_context (fuel : nat) : uM (cptr addr) :=
  with_local 0 (λ context,
    e ← ulist (list_empty (LNode RqHead));
    if negb e then take_first else refill fuel context).

Definition execute_next_context (fuel : nat) : uM unit :=
  node ← get_next_context fuel;
  match node with
  | Ptr a =>
      c ← load_node a;
      r ← execute_ums_thread c;
      _ ← if decide (r ≠ 0) then perror "execute_ums_thread" else mret tt;
      free (Ptr a)
  | _ => perror "get_next_context"
  end.

(** ** The scheduler *)

Definition sched_entry_proc (fuel : nat) : ums_scheduler_entry_point_t :=
  λ reason activation args,
  match reason with
  | UMS_SCHEDULER_STARTUP => execute_next_context fuel
  | UMS_SCHEDULER_THREAD_YIELD =>
      match activation with
      | Ptr act =>
          let context := act_context act in
          p ← uderef (val_ptr args);
          worker_result ← load_int p;
          _ ← puts ("worker " +:+ pretty context +:+ " yielded with value " +:+ pretty worker_result);
          _ ← free (Ptr p);
          execute_next_context fuel
      | _ => ucrash Segv
      end
  | UMS_SCHEDULER_THREAD_END => execute_next_context fuel
  end.

(** [sched_info.scheduler_param] is left as it is on the stack. *)
Definition sched_pthread_proc (fuel : nat) (garbage : Z) (arg : cptr addr) : uM Z :=
  cl ← load_int comp_list;
  let sched_info := mk_startup_info cl (sched_entry_proc fuel) garbage in
  _ ← ulist_upd (INIT_LIST_HEAD (LNode RqHead));
  _ ← if negb have_attr_affinity && have_sched_affinity
      then _ ← ucall sys_pthread_attr; free arg else mret tt;
  r ← enter_ums_scheduling_mode fuel (Ptr sched_info);
  _ ← if decide (r ≠ 0) then perror "enter_ums_scheduling_mode" else mret tt;
  mret 0.

(** The label [out]. *)
Definition initialize_out : uM Z :=
  _ ← delete_ums_completion_list (Ptr comp_list); mret (-1).

Fixpoint start_schedulers (n : nat) : uM Z :=
  match n with
  | O => mret 0
  | S n =>
      r ← ucall sys_pthread_attr;
      if decide (r ≠ 0) then initialize_out else
      r ← if have_attr_affinity then ucall sys_pthread_attr else mret 0;
      if decide (r ≠ 0) then initialize_out else
      let per_thread := negb have_attr_affinity && have_sched_affinity in
      cpus_arg ← if per_thread then malloc UBlob else mret PNull;
      if per_thread && bool_decide (cpus_arg = PNull) then initialize_out else
      t ← pthread_create 1 StartScheduler (match cpus_arg with Ptr a => ptr_val a | _ => 0 end);
      if decide (t.1 ≠ 0) then
        _ ← if per_thread then free cpus_arg else mret tt; initialize_out
      else start_schedulers n
  end.

Definition initialize_ums_scheduling (nthreads : nat) : uM Z :=
  r ← pthread_attr_init;
  if decide (r ≠ 0) then mret (-1) else
  r ← create_ums_completion_list (Ptr comp_list);
  if decide (r ≠ 0) then mret (-1) else start_schedulers nthreads.

Definition release_ums_scheduling : uM Z := delete_ums_completion_list (Ptr comp_list).

(** ** Workers *)

Definition create_ums_worker_thread (arg : Z) : uM (Z * option Z) :=
  cl ← load_int comp_list;
  ums_pthread_create (Ptr (mk_attr cl 0)) (Ptr worker_proc) arg.

Definition worker_pthread_proc (arg : Z) : uM Z :=
  result ← malloc (UInt arg);
  match result with
  | Ptr a =>
      r ← ums_thread_yield (ptr_val a);
      _ ← if decide (r ≠ 0) then perror "ums_thread_yield" else mret tt;
      mret 0
  | _ => mret 0
  end.

(** ** main *)

(** [workers[i]] for the indices [idx]: [None] was not written. *)
Fixpoint create_workers (idx : list Z) : uM (list (option Z)) :=
  match idx with
  | [] => mret []
  | i :: idx =>
      t ← create_ums_worker_thread i;
      _ ← if decide (t.1 ≠ 0) then perror "create_ums_worker_thread" else mret tt;
      rest ← create_workers idx;
      mret (t.2 :: rest)
  end.

Definition pthread_join (thread : option Z) : uM Z := λ s,
  match thread with
  | None => UCrash Undefined
  | Some t =>
      match sys_pthread_join t (u_os s) with
      | None => UBlocked s
      | Some (r, o) => URet r (uset_os o s)
      end
  end.

Fixpoint join_workers (workers : list (option Z)) : uM unit :=
  match workers with
  | [] => mret tt
  | t :: workers => _ ← pthread_join t; join_workers workers
  end.

(** The arrays of [pthread_t] have [nproc] and [24 * nproc] cells: a count
    that is not positive is undefined. *)
Definition main : uM Z :=
  nprocs ← ugets (λ s, sys_nproc (u_os s));
  if decide (nprocs ≤ 0) then ucrash Undefined else
  let nproc := Z.to_nat nprocs in
  r ← initialize_ums_scheduling nproc;
  if decide (r ≠ 0) then _ ← perror "initialize_ums_scheduling"; mret 1 else
  workers ← create_workers (Z.of_nat <$> seq 0 (24 * nproc));
  _ ← join_workers workers;
  r ← release_ums_scheduling;
  if decide (r ≠ 0) then _ ← perror "release_ums_scheduling"; mret 1 else
  mret 0.
End example.
