(* ===== verification/ExampleSpec.v ===== *)
(** * The ready queue of the example, against an interface of its source

    [ContextSource] is what the example needs from the library and the module
    below it: a completion list that holds contexts hands them over as a batch,
    and the batch is read element by element.  The behaviour of
    [get_next_context] is proved against it; [UserKernel] shows that the module
    provides it. *)
From S2P Require Import Prelude ListHead Kernel Uapi State User UserLib Example.
From stdpp Require Import prelude gmap strings.

Local Open Scope Z_scope.

(** The documented behaviour of malloc: the memory was not in use. *)
Class MallocLaws `{SO : SysOps} : Prop :=
  malloc_fresh used o a o' : c_malloc used o = (Some a, o') → a ∉ used.

(** The completion list [cl] of the device open as [fd] as a source of
    contexts.  [waiting refused ps o]: it holds [ps], and the kernel has no
    memory to hand over the first of them if [refused].  [batch ps o]: the
    contexts [ps] were handed over and the first of them was the last one
    returned. *)
Class ContextSource `{SO : SysOps, IO : IoctlNr} (fd cl : Z) := {
  waiting : bool → list Z → os → Prop;
  batch : list Z → os → Prop;
  src_positive b ps o : waiting b ps o → Forall (λ p, 0 < p) ps;
  src_dequeue b p ps o : waiting b (p :: ps) o →
    ∃ r out o', sys_ioctl fd IOCTL_DEQUEUE_UMS_CLIST (dequeue_arg (mk_dequeue_args cl 0)) o =
        Some (r, out, o') ∧
      if b then r = - ENOMEM ∧ out = []
      else r = 0 ∧ out_pid out = Some p ∧ batch (p :: ps) o';
  src_next p q ps o : batch (p :: q :: ps) o →
    ∃ out o', sys_ioctl fd IOCTL_NEXT_UMS_CTX_LIST (next_arg (mk_next_args p 0)) o =
        Some (0, out, o') ∧ out_pid out = Some q ∧ batch (q :: ps) o';
  src_last p o : batch [p] o →
    ∃ out o', sys_ioctl fd IOCTL_NEXT_UMS_CTX_LIST (next_arg (mk_next_args p 0)) o =
        Some (0, out, o') ∧ out_pid out = Some (-1) ∧ batch [] o';
  src_malloc ps used o : batch ps o → batch ps (c_malloc used o).2;
}.

(** ** The queue *)

Section queue.
Context `{SO : SysOps, IO : IoctlNr, ML : !MallocLaws}.
Implicit Types (s : ustate) (ns : list (addr * Z)).

(** The ready queue holds the nodes [ns], with their contexts. *)
Definition rq_ok s ns : Prop :=
  is_list (u_lm s) RqHead (NodeList <$> ns.*1) ∧
  Forall (λ n, u_heap s !! n.1 = Some (UNode n.2)) ns.

Lemma is_list_other (m : lmem unode) h l n c :
  n ∉ h :: l → is_list m h l → is_list (<[n := c]> m) h l.
Proof.
  intros Hn [Hnd Hs]. split; [done|]. eapply seg_frame, Hs; intros y Hy;
    unfold ld_next, ld_prev; simpl; rewrite lookup_insert_ne; try done;
    intros ->; apply Hn; set_solver.
Qed.

Lemma rq_ok_node s ns a : rq_ok s ns → u_heap s !! a = None → NodeList a ∉ RqHead :: (NodeList <$> ns.*1).
Proof.
  intros [_ HF] Ha [?|Hin]%elem_of_cons; [done|].
  apply list_elem_of_fmap in Hin as (b & [= <-] & Hb).
  apply list_elem_of_fmap in Hb as ([b c] & -> & Hb).
  rewrite Forall_forall in HF. specialize (HF _ Hb). simpl in *. congruence.
Qed.

(** Parts of the state the queue does not depend on. *)
Lemma rq_ok_frame s s' ns :
  u_lm s' = u_lm s → (∀ a v, u_heap s !! a = Some (UNode v) → u_heap s' !! a = Some (UNode v)) →
  rq_ok s ns → rq_ok s' ns.
Proof.
  intros El Hh [Hl HF]. split; [by rewrite El|]. eapply Forall_impl; [exact HF|].
  intros n Hn. by apply Hh.
Qed.

Lemma queue_context_run s ns c a e :
  rq_ok s ns → c_malloc (dom (u_heap s)) (u_os s) = (Some a, e) →
  ∃ m, let s' := uset_os e (uset_heap (<[a := UNode c]> (u_heap s)) (uset_lm m s)) in
    queue_context c s = URet true s' ∧ rq_ok s' (ns ++ [(a, c)]) ∧ u_heap s !! a = None.
Proof.
  intros Hrq Hm. apply malloc_fresh in Hm as Ha. apply not_elem_of_dom in Ha.
  pose proof (rq_ok_node _ _ _ Hrq Ha) as Hn. pose proof Hrq as [Hl HF].
  set (m0 := <[NodeList a := mk_list_head LUninit LUninit]> (u_lm s)).
  destruct (list_add_tail_spec m0 RqHead (NodeList <$> ns.*1) (NodeList a)) as (m & E & _ & Hl').
  { by apply is_list_other. }
  { done. }
  { unfold m0. rewrite lookup_insert_eq. by eexists. }
  exists m. split_and!; [| |done].
  - unfold queue_context, malloc. ured. rewrite Hm. ured. cbn [uobj_nodes uadd_nodes foldr].
    fold m0. by rewrite E.
  - split; uproj.
    + by rewrite !fmap_app.
    + apply Forall_app. split.
      * eapply Forall_impl; [exact HF|]. intros [b v] Hb. simpl in *.
        rewrite lookup_insert_ne by congruence. done.
      * constructor; [|constructor]. simpl. by rewrite lookup_insert_eq.
Qed.

Lemma queue_context_fails s c e :
  c_malloc (dom (u_heap s)) (u_os s) = (None, e) →
  queue_context c s = URet false (uset_errno ENOMEM (uset_os e s)).
Proof. intros Hm. unfold queue_context, malloc. ured. by rewrite Hm. Qed.

Lemma take_first_run s a c ns :
  rq_ok s ((a, c) :: ns) →
  ∃ m, take_first s = URet (Ptr a) (uset_lm m s) ∧ rq_ok (uset_lm m s) ns.
Proof.
  intros [Hl HF]. simpl in Hl. apply Forall_cons in HF as [_ HF].
  destruct (list_del_spec (u_lm s) RqHead [] (NodeList a) (NodeList <$> ns.*1) Hl)
    as (m & E & _ & Hl' & _).
  exists m. split; [|by split]. unfold take_first.
  assert (list_first_entry (LNode RqHead) (u_lm s) = Some (NodeList a)) as E1.
  { unfold list_first_entry. by rewrite (is_list_first _ _ _ Hl). }
  ured. rewrite E1. ured. by rewrite E.
Qed.
End queue.

(** ** Filling the queue *)

Section refill.
Context `{SO : SysOps, IO : IoctlNr, ML : !MallocLaws} (fd cl : Z) `{CS : !ContextSource fd cl}.
Implicit Types (s : ustate) (ns : list (addr * Z)) (ps : list Z).

(** Memory is available in every state. *)
Definition memory_available : Prop := ∀ used o, is_Some (c_malloc used o).1.

(** What filling the queue leaves alone: every object but the variable
    [context], and the library's variables. *)
Definition keeps_objects (context : addr) s s' : Prop :=
  (∀ a o, a ≠ context → u_heap s !! a = Some o → u_heap s' !! a = Some o) ∧
  (∃ v, u_heap s' !! context = Some (UInt v)) ∧ u_fileno s' = u_fileno s.

Lemma keeps_objects_trans context s1 s2 s3 :
  keeps_objects context s1 s2 → keeps_objects context s2 s3 → keeps_objects context s1 s3.
Proof. intros (H1 & _ & F1) (H2 & ? & F2). split_and!; [eauto|done|congruence]. Qed.

Lemma queue_context_source s ns c ps context v :
  memory_available → rq_ok s ns → batch ps (u_os s) → u_heap s !! context = Some (UInt v) →
  ∃ a s', queue_context c s = URet true s' ∧ rq_ok s' (ns ++ [(a, c)]) ∧ batch ps (u_os s') ∧
    u_heap s' !! context = Some (UInt v) ∧ keeps_objects context s s'.
Proof.
  intros Hmem Hrq Hb Hc. destruct (c_malloc (dom (u_heap s)) (u_os s)) as [[a|] e] eqn:Hm;
    [|specialize (Hmem (dom (u_heap s)) (u_os s)); rewrite Hm in Hmem; by destruct Hmem].
  destruct (queue_context_run s ns c a e Hrq Hm) as (m & E & Hrq' & Ha).
  eexists a, _. split; [exact E|]. split; [exact Hrq'|]. uproj.
  assert (context ≠ a) by congruence. split_and!.
  - pose proof (src_malloc ps (dom (u_heap s)) (u_os s) Hb) as Hb'. by rewrite Hm in Hb'.
  - by rewrite lookup_insert_ne.
  - split_and!; uproj; [|exists v; by rewrite lookup_insert_ne|done].
    intros b o Hb' Ho. rewrite lookup_insert_ne by congruence. done.
Qed.

(** Reading on in the batch and storing the context. *)
Lemma next_source s p q ps context v :
  u_fileno s = fd → batch (p :: q :: ps) (u_os s) → 0 < q → u_heap s !! context = Some (UInt v) →
  ∃ o, get_next_ums_list_item p s = URet q (uset_os o s) ∧ batch (q :: ps) o.
Proof.
  intros Hfd Hb Hq Hc. destruct (src_next p q ps (u_os s) Hb) as (out & o & E & Eo & Hb').
  exists o. split; [|done]. rewrite (get_next_answers s p out o); [|unfold answers; by rewrite Hfd].
  rewrite Eo. simpl. by rewrite decide_False by lia.
Qed.
Lemma last_source s p :
  u_fileno s = fd → batch [p] (u_os s) →
  ∃ o, get_next_ums_list_item p s = URet 0 (uset_os o s) ∧ batch [] o.
Proof.
  intros Hfd Hb. destruct (src_last p (u_os s) Hb) as (out & o & E & Eo & Hb').
  exists o. split; [|done]. rewrite (get_next_answers s p out o); [|unfold answers; by rewrite Hfd].
  by rewrite Eo.
Qed.

(** Writing the variable [context]. *)
Lemma set_context_frame s s' ns context p v :
  u_heap s !! context = Some (UInt p) → rq_ok s ns →
  u_heap s' = <[context := UInt v]> (u_heap s) → u_lm s' = u_lm s → u_fileno s' = u_fileno s →
  rq_ok s' ns ∧ keeps_objects context s s'.
Proof.
  intros Hc Hrq Eh El Ef. split.
  - eapply rq_ok_frame; [exact El| |exact Hrq]. intros a x Ha. rewrite Eh.
    by rewrite lookup_insert_ne by congruence.
  - split_and!; [|exists v; by rewrite Eh, lookup_insert_eq|done].
    intros a o Ha Ho. by rewrite Eh, lookup_insert_ne by congruence.
Qed.

Lemma queue_rest_run s ns p ps context fuel :
  memory_available → u_fileno s = fd → rq_ok s ns → batch (p :: ps) (u_os s) →
  Forall (λ q, 0 < q) ps → u_heap s !! context = Some (UInt p) → (length ps < fuel)%nat →
  ∃ ns' s', queue_rest fuel context s = URet true s' ∧ rq_ok s' (ns ++ ns') ∧ ns'.*2 = ps ∧
    batch [] (u_os s') ∧ keeps_objects context s s'.
Proof.
  intros Hmem. revert s ns p fuel.
  induction ps as [|q ps IH]; intros s ns p [|fuel] Hfd Hrq Hb Hpos Hc Hf; simpl in Hf; try lia;
    cbn [queue_rest]; urun (load_int_run s context p Hc).
  - destruct (last_source s p Hfd Hb) as (o & E & Hb'). urun E. urun (store_int_run _ context p).
    { done. }
    rewrite decide_False by lia. set (s1 := uset_heap _ _). exists [], s1. rewrite app_nil_r.
    destruct (set_context_frame s s1 ns context p 0) as [Hrq' HK]; [done..|]. by split_and!.
  - apply Forall_cons in Hpos as [Hq Hpos].
    destruct (next_source s p q ps context p Hfd Hb Hq Hc) as (o & E & Hb'). urun E.
    urun (store_int_run _ context p). { done. }
    rewrite decide_True by done.
    set (s1 := uset_heap _ _).
    destruct (set_context_frame s s1 ns context p q) as [Hrq1 K1]; [done..|].
    destruct (queue_context_source s1 ns q (q :: ps) context q Hmem Hrq1)
      as (a & s2 & E2 & Hrq2 & Hb2 & Hc2 & K2); [done|apply lookup_insert_eq|].
    urun E2. destruct (IH s2 (ns ++ [(a, q)]) q fuel) as (ns' & s3 & E3 & Hrq3 & En & Hb3 & K3);
      [|done|done|done|done|lia|].
    { destruct K1 as (_ & _ & F1), K2 as (_ & _ & F2). congruence. }
    exists ((a, q) :: ns'), s3. split; [done|]. rewrite <- (assoc_L (++)) in Hrq3.
    split_and!; [done|by rewrite fmap_cons, En|done|].
    eapply keeps_objects_trans; [exact K1|]. by eapply keeps_objects_trans.
Qed.
End refill.

(** ** [get_next_context] *)

Section get_next.
Context `{SO : SysOps, IO : IoctlNr, ML : !MallocLaws} (fd cl : Z) `{CS : !ContextSource fd cl}.
Context (comp_list : addr).
Implicit Types (s : ustate) (ns : list (addr * Z)) (ps : list Z).

Lemma refill_run s b p ps context fuel v :
  (b = false → memory_available) → u_fileno s = fd → rq_ok s [] → waiting b (p :: ps) (u_os s) →
  u_heap s !! context = Some (UInt v) → u_heap s !! comp_list = Some (UInt cl) →
  (length ps < fuel)%nat →
  if b then ∃ o, refill comp_list fuel context s = URet PNull (failed ENOMEM o s) else
  (∃ a ns s', refill comp_list fuel context s = URet (Ptr a) s' ∧
     u_heap s' !! a = Some (UNode p) ∧ rq_ok s' ns ∧ (a ∉ ns.*1) ∧ ns.*2 = ps ∧
     batch [] (u_os s') ∧ keeps_objects context s s').
Proof.
  intros Hmem Hfd Hrq Hw Hc Hcl Hf. destruct fuel as [|fuel]; [lia|].
  pose proof (src_positive _ _ _ Hw) as Hpos. apply Forall_cons in Hpos as [Hp Hpos].
  destruct (src_dequeue b p ps (u_os s) Hw) as (r & out & o & E & Hcase). destruct b.
  { destruct Hcase as [-> ->]. exists o. unfold refill. cbn [dequeue_retry].
      assert (fails s IOCTL_DEQUEUE_UMS_CLIST (dequeue_arg (mk_dequeue_args cl 0)) ENOMEM o) as F
        by (unfold fails; by rewrite Hfd).
      unfold mbind, uM_bind. rewrite (load_int_run s comp_list cl Hcl).
      rewrite (dequeue_items_fails s cl context _ _ F). rewrite decide_True by done. ured.
      by rewrite decide_False by done. }
  destruct Hcase as (-> & Eo & Hb). specialize (Hmem eq_refl).
  assert (answers s IOCTL_DEQUEUE_UMS_CLIST (dequeue_arg (mk_dequeue_args cl 0)) 0 out o)
    as F by (unfold answers; by rewrite Hfd).
  set (s1 := uset_heap (<[context := UInt p]> (u_heap s)) (uset_os o s)).
  assert (dequeue_retry comp_list (S fuel) context s = URet true s1) as E1.
  { cbn [dequeue_retry]. urun (load_int_run s comp_list cl Hcl).
    urun (dequeue_items_answers s cl context v out o F Hc).
    rewrite decide_False by (by intros []). by rewrite Eo. }
  unfold refill. urun E1. cbn [negb]. urun (load_int_run s1 context p).
  { apply lookup_insert_eq. }
  destruct (set_context_frame s s1 [] context v p) as [Hrq1 K1]; [done..|].
  destruct (queue_context_source fd cl s1 [] p (p :: ps) context p)
    as (a & s2 & E2 & Hrq2 & Hb2 & Hc2 & K2); [done..|apply lookup_insert_eq|].
  urun E2. cbn [negb].
  destruct (queue_rest_run fd cl s2 [(a, p)] p ps context (S fuel))
    as (ns & s3 & E3 & Hrq3 & En & Hb3 & K3); [done| |done..|].
  { destruct K2 as (_ & _ & F2). rewrite F2. exact Hfd. }
  urun E3. cbn [negb]. destruct (take_first_run s3 a p ns Hrq3) as (m & E4 & Hrq4).
  exists a, ns, (uset_lm m s3). split_and!; [done| |done| |done|done|].
  - destruct Hrq3 as [_ [Ha _]%Forall_cons]. exact Ha.
  - destruct Hrq3 as [[[_ Hnd]%NoDup_cons _] _]. simpl in Hnd. apply NoDup_cons in Hnd as [Hn _].
    intros Hin. apply Hn. by apply list_elem_of_fmap_2.
  - eapply keeps_objects_trans; [exact K1|]. by eapply keeps_objects_trans.
Qed.

(** A variable on the stack of the caller. *)
Lemma with_local_run {A} s (body : addr → uM A) x s' :
  let a := fresh (dom (u_heap s)) in
  body a (uset_heap (<[a := UInt 0]> (u_heap s)) s) = URet x s' →
  with_local 0 body s = URet x (uset_heap (delete a (u_heap s')) s').
Proof. intros a E. unfold with_local. fold a. by rewrite E. Qed.

Lemma rq_empty s ns b : rq_ok s ns → b = bool_decide (ns = []) →
  list_empty (LNode RqHead) (u_lm s) = Some b.
Proof.
  intros [Hl _] ->. rewrite (list_empty_spec _ _ _ Hl). f_equal. apply bool_decide_ext.
  by destruct ns.
Qed.

(** With a node in the queue: its first node, without a system call. *)
Lemma get_next_pops s a c ns fuel :
  rq_ok s ((a, c) :: ns) →
  ∃ m, get_next_context comp_list fuel s = URet (Ptr a) (uset_lm m s) ∧ rq_ok (uset_lm m s) ns.
Proof.
  intros Hrq. set (x := fresh (dom (u_heap s))).
  assert (u_heap s !! x = None) as Hx by (apply not_elem_of_dom, is_fresh).
  set (s1 := uset_heap (<[x := UInt 0]> (u_heap s)) s).
  assert (rq_ok s1 ((a, c) :: ns)) as Hrq1.
  { eapply rq_ok_frame; [..|exact Hrq]; [done|]. intros b v Hb. unfold s1; uproj.
    by rewrite lookup_insert_ne by congruence. }
  destruct (take_first_run s1 a c ns Hrq1) as (m & E & Hrq').
  exists m. split.
  - unfold get_next_context. erewrite with_local_run.
    2:{ cbv beta. fold x. fold s1. unfold ulist at 1. unfold mbind, uM_bind.
        rewrite (rq_empty s1 _ false Hrq1) by done. exact E. }
    unfold s1; uproj. fold x. rewrite delete_insert_id by done. by destruct s.
  - destruct (take_first_run s a c ns Hrq) as (m' & E' & Hrq2). destruct Hrq' as [Hl _].
    destruct Hrq2 as [_ HF]. by split.
Qed.

(** With an empty queue and contexts waiting: the first of them, the others
    are in the queue; or the kernel had no memory. *)
Lemma get_next_refills s nm p ps fuel :
  (nm = false → memory_available) → u_fileno s = fd → rq_ok s [] → waiting nm (p :: ps) (u_os s) →
  u_heap s !! comp_list = Some (UInt cl) → (length ps < fuel)%nat →
  if nm then ∃ o, get_next_context comp_list fuel s = URet PNull (failed ENOMEM o s) else
  (∃ a ns s', get_next_context comp_list fuel s = URet (Ptr a) s' ∧
     u_heap s' !! a = Some (UNode p) ∧ rq_ok s' ns ∧ (a ∉ ns.*1) ∧ ns.*2 = ps ∧
     batch [] (u_os s') ∧ u_fileno s' = fd ∧
     ∀ z o, u_heap s !! z = Some o → u_heap s' !! z = Some o).
Proof.
  intros Hmem Hfd Hrq Hw Hcl Hf. set (x := fresh (dom (u_heap s))).
  assert (u_heap s !! x = None) as Hx by (apply not_elem_of_dom, is_fresh).
  set (s1 := uset_heap (<[x := UInt 0]> (u_heap s)) s).
  assert (∀ b o, u_heap s !! b = Some o → b ≠ x ∧ u_heap s1 !! b = Some o) as Hs1.
  { intros b o Hb. unfold s1; uproj. rewrite lookup_insert_ne by congruence. naive_solver. }
  assert (rq_ok s1 []) as Hrq1 by (destruct Hrq; by split).
  assert (∀ r s', refill comp_list fuel x s1 = URet r s' →
    get_next_context comp_list fuel s = URet r (uset_heap (delete x (u_heap s')) s')) as Hgo.
  { intros r s' E. unfold get_next_context. erewrite with_local_run; [done|].
    cbv beta. fold x. fold s1. unfold ulist at 1. unfold mbind, uM_bind.
    rewrite (rq_empty s1 _ true Hrq1) by done. exact E. }
  assert (u_heap s1 !! x = Some (UInt 0)) as Hx1 by apply lookup_insert_eq.
  pose proof (refill_run s1 nm p ps x fuel 0 Hmem Hfd Hrq1 Hw Hx1 (proj2 (Hs1 _ _ Hcl)) Hf) as HR.
  destruct nm; [destruct HR as (o & E)
    |destruct HR as (a & ns & s' & E & Ha & Hrq' & Hn & En & Hb & K1 & (v & Hv) & K3)].
  2:{ eexists a, ns, _. split; [by apply Hgo|]. uproj. assert (a ≠ x) by congruence. split_and!.
    + by rewrite lookup_delete_ne.
    + eapply rq_ok_frame; [..|exact Hrq']; [done|]. intros b c Hbc. uproj.
      by rewrite lookup_delete_ne by congruence.
    + done.
    + done.
    + done.
    + by rewrite K3.
    + intros b o Hbo. destruct (Hs1 b o Hbo) as [Hbx Hb1]. rewrite lookup_delete_ne by done.
      by apply K1. }
  exists o. rewrite (Hgo _ _ E). f_equal. unfold failed, s1; uproj.
    rewrite delete_insert_id by done. by destruct s.
Qed.

(** What a scheduler that asks for [n] contexts is given. *)
Fixpoint take_contexts (fuel n : nat) : uM (list Z) :=
  match n with
  | O => mret []
  | S n =>
      node ← get_next_context comp_list fuel;
      match node with
      | Ptr a => c ← load_node a; _ ← free (Ptr a); cs ← take_contexts fuel n; mret (c :: cs)
      | _ => mret []
      end
  end.

(** Freeing a node that is not in the queue. *)
Lemma free_node_run s ns a c :
  rq_ok s ns → u_heap s !! a = Some (UNode c) → a ∉ ns.*1 →
  ∃ s', free (Ptr a) s = URet tt s' ∧ rq_ok s' ns ∧ u_os s' = u_os s ∧ u_fileno s' = u_fileno s ∧
    u_heap s' = delete a (u_heap s).
Proof.
  intros [Hl HF] Ha Hn. rewrite (free_run s a _ Ha). eexists. split; [done|].
  uproj. split_and!; [|done..]. split; uproj.
  - destruct Hl as [Hnd Hs]. split; [done|]. cbn [uobj_nodes udel_nodes foldr].
    eapply seg_frame, Hs; intros y Hy; unfold ld_next, ld_prev; simpl;
      (rewrite lookup_delete_ne; [done|]); intros <-; apply Hn;
      (assert (NodeList a ∈ NodeList <$> ns.*1) as Hin by set_solver);
      by apply list_elem_of_fmap in Hin as (b & [= <-] & ?).
  - rewrite Forall_forall in HF |- *. intros n Hin. rewrite lookup_delete_ne; [by apply HF|].
    intros ->. apply Hn. by apply list_elem_of_fmap_2.
Qed.

(** The contexts in the queue are taken in order, without a system call. *)
Lemma take_queue s ns fuel :
  rq_ok s ns → ∃ s', take_contexts fuel (length ns) s = URet ns.*2 s' ∧ rq_ok s' [] ∧
    u_os s' = u_os s.
Proof.
  revert s. induction ns as [|[a c] ns IH]; intros s Hrq; [by exists s|].
  cbn [take_contexts length]. destruct (get_next_pops s a c ns fuel Hrq) as (m & E & Hrq1).
  urun E. destruct Hrq as [[[_ Hnd]%NoDup_cons _] [Ha _]%Forall_cons]. simpl in Ha, Hnd.
  apply NoDup_cons in Hnd as [Hn _]. urun (load_node_run _ a c); [done|].
  destruct (free_node_run (uset_lm m s) ns a c Hrq1) as (s2 & E2 & Hrq2 & Eo & _); [done| |].
  { intros Hin. apply Hn. by apply list_elem_of_fmap_2. }
  urun E2. destruct (IH s2 Hrq2) as (s3 & E3 & Hrq3 & Eo3). urun E3.
  exists s3. split_and!; [done..|]. by rewrite Eo3, Eo.
Qed.

Lemma take_waiting s p ps fuel :
  memory_available → u_fileno s = fd → rq_ok s [] → waiting false (p :: ps) (u_os s) →
  u_heap s !! comp_list = Some (UInt cl) → (length ps < fuel)%nat →
  ∃ s', take_contexts fuel (length (p :: ps)) s = URet (p :: ps) s' ∧ rq_ok s' [] ∧
    batch [] (u_os s').
Proof.
  intros Hmem Hfd Hrq Hw Hcl Hf. cbn [take_contexts length].
  destruct (get_next_refills s false p ps fuel) as
    (a & ns & s' & E & Ha & Hrq' & Hn & En & Hb & _); [done..|].
  urun E. urun (load_node_run _ a p); [done|].
  destruct (free_node_run s' ns a p Hrq' Ha Hn) as (s2 & E2 & Hrq2 & Eo & _). urun E2.
  destruct (take_queue s2 ns fuel Hrq2) as (s3 & E3 & Hrq3 & Eo3).
  rewrite <- En, length_fmap. urun E3. exists s3. split_and!; [by rewrite En|done|].
  by rewrite Eo3, Eo.
Qed.
End get_next.
