(* ===== verification/UserKernel.v ===== *)
(** * The library on top of the module

    The services of [User] provided by the module of [Device]: an ioctl call on
    the open device runs [ums_dev_ioctl] for the calling task; a call that
    sleeps goes on when other tasks have run ([k_others] says what they do to
    the module in the meantime), and never returns if they do nothing more.
    -ERESTARTSYS reaches the process as EINTR, as documented for a signal whose
    handler does not restart calls.  The rest of the C library is the parameter
    [LibcOps].

    The completion lists of the module are a [ContextSource], so that what was
    proved of the example against the interface holds on the module. *)
From S2P Require Import Prelude ListHead ListSpec Kernel Uapi State Prims Context Proc Complist.
From S2P Require Import Scheduler Worker Device Rcu Locks System User UserLib Example ExampleSpec.
From stdpp Require Import prelude gmap strings.

Local Open Scope Z_scope.

Class LibcOps := {
  lenv : Type;
  l_malloc : gset addr → lenv → option addr * lenv;
  l_malloc_fresh used e a e' : l_malloc used e = (Some a, e') → a ∉ used;
  l_open : string → Z → lenv → Z * lenv;
  l_close : Z → lenv → Z * lenv;
  l_fork : lenv → lenv;
  l_pthread_create : Z → start_routine → Z → lenv → Z * Z * lenv;
  l_pthread : lenv → Z * lenv;
  l_pthread_join : Z → lenv → option (Z * lenv);
  l_nproc : lenv → Z;
}.

Section module_sys.
Context `{KO : KernelOps, LO : !ListOps lnode, IO : IoctlNr, LC : LibcOps}.

(** The world of the module, the calling task, the descriptors of the device,
    what other tasks do while this one sleeps, the rest of libc. *)
Record kos := mk_kos {
  k_world : world;
  k_pid : pid_t;
  k_fds : gset Z;
  k_others : list (world → world);
  k_libc : lenv;
}.
Definition kset_world (w : world) (o : kos) : kos :=
  mk_kos w (k_pid o) (k_fds o) (k_others o) (k_libc o).
Definition kset_libc (e : lenv) (o : kos) : kos :=
  mk_kos (k_world o) (k_pid o) (k_fds o) (k_others o) e.

(** What the process sees of a returned value. *)
Definition syscall_exit (r : Z) : Z := if decide (r = - ERESTARTSYS) then - EINTR else r.

(** A sleeping call, resumed after each action of the others. *)
Fixpoint sleep_loop (c : sleeper) (p : pid_t) (others : list (world → world)) (w : world) :
    option (Z * world * list (world → world)) :=
  match others with
  | [] => None
  | f :: others =>
      match resume c (set_cur p (set_rcu 1 (f (set_rcu 0 w)))) with
      | Ok r w' => Some (r, w', others)
      | Sleep w' => sleep_loop c p others w'
      | Bug _ => None
      end
  end.

Definition device_call (cmd : Z) (arg : ioctl_arg) (o : kos) :
    option (Z * world * list (world → world)) :=
  let w := set_cur (k_pid o) (k_world o) in
  match ums_dev_ioctl cmd arg w with
  | Ok r w' => Some (r, w', k_others o)
  | Sleep w' => c ← sleeping_call cmd arg w; sleep_loop c (k_pid o) (k_others o) w'
  | Bug _ => None
  end.

Definition module_ioctl (fd cmd : Z) (arg : ioctl_arg) (o : kos) : option (Z * list uval * kos) :=
  if decide (fd ∈ k_fds o) then
    match device_call cmd arg o with
    | None => None
    | Some (r, w', others) =>
        Some (syscall_exit r, drop (length (w_out (k_world o))) (w_out w'),
              mk_kos w' (k_pid o) (k_fds o) others (k_libc o))
    end
  else Some (- EBADF, [], o).

Definition on_libc {A} (f : lenv → A * lenv) (o : kos) : A * kos :=
  let '(a, e) := f (k_libc o) in (a, kset_libc e o).

#[export] Instance module_sys : SysOps := {|
  os := kos;
  sys_ioctl := module_ioctl;
  sys_open path flags := on_libc (l_open path flags);
  sys_close fd := on_libc (l_close fd);
  sys_fork o := kset_libc (l_fork (k_libc o)) o;
  c_malloc used := on_libc (l_malloc used);
  sys_pthread_create attr f arg := on_libc (l_pthread_create attr f arg);
  sys_pthread_key_create := on_libc l_pthread;
  sys_pthread_setspecific := on_libc l_pthread;
  sys_pthread_atfork := on_libc l_pthread;
  sys_pthread_attr := on_libc l_pthread;
  sys_pthread_join t o :=
    match l_pthread_join t (k_libc o) with
    | Some (r, e) => Some (r, kset_libc e o)
    | None => None
    end;
  sys_nproc o := l_nproc (k_libc o);
|}.

#[export] Instance module_malloc : MallocLaws.
Proof.
  intros used o a o'. cbn. unfold on_libc. destruct (l_malloc used (k_libc o)) as [r e] eqn:E.
  intros [= -> _]. by eapply l_malloc_fresh.
Qed.

(** A call that returns without sleeping. *)
Lemma module_ioctl_run fd cmd arg o r w' out :
  fd ∈ k_fds o → r ≠ - ERESTARTSYS →
  ums_dev_ioctl cmd arg (set_cur (k_pid o) (k_world o)) = Ok r w' →
  w_out w' = w_out (k_world o) ++ out →
  module_ioctl fd cmd arg o = Some (r, out, kset_world w' o).
Proof.
  intros Hfd Hr E Eo. unfold module_ioctl, device_call. rewrite decide_True by done.
  rewrite E. unfold syscall_exit. rewrite decide_False by done.
  by rewrite Eo, drop_app_length.
Qed.
End module_sys.

(** ** The completion lists as a source of contexts *)

Section source.
Context `{KO : KernelOps, LO : !ListOps lnode, LL : !ListLaws lnode, KL : !KernelLaws,
  IO : IoctlNr, LC : LibcOps}.
Context (fd cl : Z).
Implicit Types (o : kos) (ps : list Z).

(** The calling scheduler can dequeue workers whose pids are [ps]; [refused]:
    procfs refuses the link of the first of them. *)
Definition list_waiting (refused : bool) ps o : Prop :=
  fd ∈ k_fds o ∧ Forall (λ p, 0 < p) ps ∧
  ∃ L a s c ks d pid, let w := set_cur (k_pid o) (k_world o) in
    dq_ready w L (arg_dequeue (dequeue_arg (mk_dequeue_args cl 0))) a s c ks ∧
    w_data w = Some d ∧ pids_ok pid (w_heap w) d ks ∧ ps = pid <$> ks ∧
    ∀ k, head ks = Some k → link_refused w s k = refused.

(** Workers whose pids are [ps] were dequeued; the list of the others is at
    the first of them. *)
Definition list_batch ps o : Prop :=
  fd ∈ k_fds o ∧
  match ps with
  | [] => True
  | _ => ∃ L k ks d pid, let w := k_world o in
      w_data w = Some d ∧ forest_ok (w_lm w) L ∧ L !! wnode k = Some (wnode <$> ks) ∧
      NoDup (k :: ks) ∧ pids_ok pid (w_heap w) d (k :: ks) ∧ ps = pid <$> k :: ks
  end.

Lemma list_dequeue b p ps o :
  list_waiting b (p :: ps) o →
  ∃ r out o', sys_ioctl fd IOCTL_DEQUEUE_UMS_CLIST (dequeue_arg (mk_dequeue_args cl 0)) o =
      Some (r, out, o') ∧
    if b then r = - ENOMEM ∧ out = []
    else r = 0 ∧ out_pid out = Some p ∧ list_batch (p :: ps) o'.
Proof.
  intros (Hfd & _ & L & a & s & c & ks & d & pid & HR & Hd & Hpids & Eps & Href).
  destruct ks as [|k ks]; [done|]. injection Eps as -> ->. specialize (Href k eq_refl).
  destruct (dqcontext_run _ L _ a s c k ks HR) as (r & w' & E & _ & Ed & Hcase).
  rewrite <- ioctl_dequeue in E.
  rewrite Href in Hcase.
  destruct Hcase as [(-> & -> & _ & HL & Hh & _ & y & Hy & Ho)|([-> Hu] & _ & _ & _ & Ho)].
  - eexists _, _, _. split; [by apply (module_ioctl_run fd _ _ _ 0 w' _ Hfd)|].
    destruct (Hpids k) as [_ (y' & Hy' & Epid)]; [apply list_elem_of_here|]. simplify_eq.
    split_and!; [done|cbn; by rewrite Epid|]. split; [done|].
    destruct HR as [_ _ _ HL0 Hq _].
    exists (<[ClHead a := []]> (<[wnode k := wnode <$> ks]> L)), k, ks, d, pid. cbn. split_and!.
    + by rewrite Ed.
    + done.
    + rewrite lookup_insert_ne by done. apply lookup_insert_eq.
    + pose proof (forest_nodup _ _ _ _ HL0 Hq) as [_ Hnd]%NoDup_cons. by apply NoDup_fmap_1 in Hnd.
    + intros j Hj. destruct (Hpids j Hj) as [? (yj & Hyj & Epj)]. split; [done|].
      destruct (up_to_links_lookup _ _ _ _ Hh Hyj) as (ob & Ho' & Es).
      apply strip_worker in Es as (y' & -> & Ec & _). exists y'. by rewrite Ec.
    + done.
  - assert (b = true) as -> by (by destruct Hu).
    eexists _, _, _. split; [apply (module_ioctl_run fd _ _ _ (- ENOMEM) w' [] Hfd); [done|done|]|done].
    by rewrite app_nil_r.
Qed.

Lemma list_next p q ps o :
  list_batch (p :: q :: ps) o →
  ∃ out o', sys_ioctl fd IOCTL_NEXT_UMS_CTX_LIST (next_arg (mk_next_args p 0)) o =
    Some (0, out, o') ∧ out_pid out = Some q ∧ list_batch (q :: ps) o'.
Proof.
  intros (Hfd & L & k & ks & d & pid & Hd & HL & Hk & Hnd & Hpids & Eps).
  destruct ks as [|j js]; [done|]. injection Eps as -> -> ->.
  destruct (Hpids k) as [Hlk _]; [apply list_elem_of_here|].
  destruct (Hpids j) as [_ (y & Hy & Ey)]; [apply list_elem_of_further, list_elem_of_here|].
  set (w := set_cur (k_pid o) (k_world o)).
  destruct (next_context_run w L d (arg_next (next_arg (mk_next_args (pid k) 0)))
    (mk_next_args (pid k) 0) k j js y) as (m & E & _ & HL'); [done..|].
  rewrite <- ioctl_next in E. eexists _, _.
  split; [eapply (module_ioctl_run fd); [done|done|exact E|done]|].
  apply NoDup_cons in Hnd as [Hkn Hnd]. split; [cbn; by rewrite Ey|]. split; [done|].
  exists (<[wnode k := []]> (<[wnode j := wnode <$> js]> L)), j, js, d, pid. cbn.
  split_and!; [done|done| |done| |done].
  - rewrite lookup_insert_ne by (intros [= ->]; apply Hkn, list_elem_of_here).
    apply lookup_insert_eq.
  - intros z Hz. apply Hpids. by apply list_elem_of_further.
Qed.

Lemma list_last p o :
  list_batch [p] o →
  ∃ out o', sys_ioctl fd IOCTL_NEXT_UMS_CTX_LIST (next_arg (mk_next_args p 0)) o =
    Some (0, out, o') ∧ out_pid out = Some (-1) ∧ list_batch [] o'.
Proof.
  intros (Hfd & L & k & ks & d & pid & Hd & HL & Hk & Hnd & Hpids & Eps).
  destruct ks as [|j js]; [|done]. injection Eps as ->.
  destruct (Hpids k) as [Hlk _]; [apply list_elem_of_here|].
  pose proof (next_context_empty_run (set_cur (k_pid o) (k_world o)) L d
    (arg_next (next_arg (mk_next_args (pid k) 0))) (mk_next_args (pid k) 0) k) as E.
  rewrite <- ioctl_next in E. eexists _, _.
  split; [eapply (module_ioctl_run fd); [done|done|by apply E|done]|done].
Qed.

#[export] Instance module_source : ContextSource fd cl.
Proof.
  refine {| waiting := list_waiting; batch := list_batch |}.
  - by intros b ps o (_ & ? & _).
  - apply list_dequeue.
  - apply list_next.
  - apply list_last.
  - intros ps used o Hb. cbn. unfold on_libc. by destruct (l_malloc used (k_libc o)).
Defined.
End source.
