(* ===== verification/Tests.v ===== *)
(** * The unit tests of the library: [src/src/lib/tests]

    The tests link the library against stubs of open, close and ioctl
    ([mock_ums_syscalls.c], by the linker's --wrap).  The stubs are an instance
    of [SysOps] on top of the real system, so that the tests run the functions
    of [UserLib].

    A test that fails ends in the crash [AssertFailed].  A thread a test starts
    runs when it is joined; [pthread_exit] is a call that does not return, after
    which the destructors of the thread run.  The program [text] of the worker
    threads consists of the two procedures of [check_ums_worker.c]. *)
From S2P Require Import Prelude ListHead Kernel Uapi State KernelInst User UserLib.
From stdpp Require Import prelude gmap strings.

Local Open Scope Z_scope.

(** ** mock_ums_syscalls.c *)

Definition INT_MAX : Z := 2147483647.
Definition MOCK_FILENO : Z := Z.shiftr INT_MAX 2.
Definition ums_complist_id : Z := 1.
Definition mock_context : Z := 1.
Definition next_ums_context : Z := 1.

(** The system the stubs are linked with. *)
Class RealSystem := { real : SysOps }.

Section mock.
Context `{RS : RealSystem, IO : IoctlNr}.

(** The value returned, what errno is set to, and what is written through the
    pointer; [None]: the pointer is not one to an object of the type. *)
Definition mock_ums_ioctl (request : Z) (arg : ioctl_arg) : option (Z * option Z * list uval) :=
  if decide (request = IOCTL_CREATE_UMS_CLIST) then
    comp_listp ← u_val (arg_id arg); Some (0, None, [UId ums_complist_id])
  else if decide (request = IOCTL_DELETE_UMS_CLIST) then
    let comp_list := s32 (arg_val arg) in
    if decide (comp_list ≠ ums_complist_id) then Some (-1, Some EINVAL, []) else Some (0, None, [])
  else if decide (request = IOCTL_ENTER_UMS) then
    enter_ums_args ← u_val (arg_enter arg);
    if decide (ea_flags enter_ums_args = ENTER_UMS_SCHED) then Some (0, None, [])
    else if decide (ea_flags enter_ums_args = ENTER_UMS_WORK) then Some (0, None, [])
    else Some (-1, None, [])
  else if decide (request = IOCTL_UMS_SCHED_DQEVENT) then Some (0, None, [])
  else if decide (request = IOCTL_DEQUEUE_UMS_CLIST) then
    dequeue_args ← u_val (arg_dequeue arg);
    if decide (dq_ums_complist dequeue_args ≠ ums_complist_id) then Some (-1, Some EINVAL, [])
    else Some (0, None, [UPid mock_context])
  else if decide (request = IOCTL_NEXT_UMS_CTX_LIST) then
    next_context_args ← u_val (arg_next arg);
    Some (0, None, (if decide (nx_ums_context next_context_args ≠ mock_context)
                    then [UPid (-1)] else []) ++ [UPid next_ums_context])
  else if decide (request = IOCTL_UMS_YIELD) then Some (0, None, [])
  else Some (-1, Some ENOTSUP, []).

(** The real system, and the threads that were started and did not run yet. *)
Record mock_os := mk_mock_os {
  m_real : @os real;
  m_threads : list (Z * (start_routine * Z));
}.
Definition on_real {A} (f : @os real → A * @os real) (o : mock_os) : A * mock_os :=
  let '(a, e) := f (m_real o) in (a, mk_mock_os e (m_threads o)).

Definition __wrap_open (pathname : string) (flags : Z) (o : mock_os) : Z * mock_os :=
  if String.prefix "/dev/ums" pathname then (MOCK_FILENO, o)
  else on_real (@sys_open real pathname flags) o.
Definition __wrap_close (fd : Z) (o : mock_os) : Z * mock_os :=
  if decide (fd = MOCK_FILENO) then (0, o) else on_real (@sys_close real fd) o.

(** An error number is passed on the way a system call does; the one result
    without it, for flags the library does not use, sets errno to 1 here and
    leaves it alone in the stub. *)
Definition __wrap_ioctl (fd request : Z) (arg : ioctl_arg) (o : mock_os) :
    option (Z * list uval * mock_os) :=
  if decide (fd = MOCK_FILENO) then
    r ← mock_ums_ioctl request arg;
    Some (match r.1.2 with Some e => - e | None => r.1.1 end, r.2, o)
  else
    r ← @sys_ioctl real fd request arg (m_real o);
    Some (r.1.1, r.1.2, mk_mock_os r.2 (m_threads o)).

Definition mock_pthread_create (attr : Z) (f : start_routine) (arg : Z) (o : mock_os) :
    Z * Z * mock_os :=
  let '(r, t, e) := @sys_pthread_create real attr f arg (m_real o) in
  (r, t, mk_mock_os e (if decide (r = 0) then m_threads o ++ [(t, (f, arg))] else m_threads o)).

#[export] Instance mock_sys : SysOps := {|
  os := mock_os;
  sys_ioctl := __wrap_ioctl;
  sys_open := __wrap_open;
  sys_close := __wrap_close;
  sys_fork o := mk_mock_os (@sys_fork real (m_real o)) (m_threads o);
  c_malloc used := on_real (@c_malloc real used);
  sys_pthread_create := mock_pthread_create;
  sys_pthread_key_create := on_real (@sys_pthread_key_create real);
  sys_pthread_setspecific := on_real (@sys_pthread_setspecific real);
  sys_pthread_atfork := on_real (@sys_pthread_atfork real);
  sys_pthread_attr := on_real (@sys_pthread_attr real);
  sys_pthread_join t o :=
    r ← @sys_pthread_join real t (m_real o); Some (r.1, mk_mock_os r.2 (m_threads o));
  sys_nproc o := @sys_nproc real (m_real o);
|}.
End mock.

(** ** Check *)

Section check.
Context `{RS : RealSystem, IO : IoctlNr}.
Implicit Types (s : ustate).

Definition ck_assert (b : bool) : uM unit := if b then mret tt else ucrash AssertFailed.
Definition ck_assert_int_eq (m : uM Z) (v : Z) : uM unit := r ← m; ck_assert (bool_decide (r = v)).
Definition ck_assert_int_gt (m : uM Z) (v : Z) : uM unit := r ← m; ck_assert (bool_decide (v < r)).

(** A test runs in a process of its own between the functions of its fixture. *)
Definition checked (setup test teardown : uM unit) : uM unit :=
  _ ← fork_child; _ ← setup; _ ← test; teardown.
Definition passes_test (test : uM unit) s : bool :=
  match test s with URet _ _ => true | _ => false end.
(** The main function of each program. *)
Definition suite_main (tests : list (uM unit)) s : Z :=
  let number_failed := length (filter (λ t, passes_test t s = false) tests) in
  if decide (number_failed = 0%nat) then 0 else 1.

(** ** Threads *)

Definition pthread_exit {A} : uM A := UBlocked.

(** The life of a thread: errno and the thread-specific value are its own. *)
Definition run_thread (body : uM unit) : uM unit := λ s,
  match body (uset_specific None s) with
  | URet _ s' | UBlocked s' =>
      match thread_exit s' with
      | URet _ s'' => URet tt (uset_errno (u_errno s) (uset_specific (u_specific s) s''))
      | UBlocked s'' => UBlocked s''
      | UCrash b => UCrash b
      end
  | UCrash b => UCrash b
  end.

Definition start_thread (t : Z) : uM (start_routine * Z) := λ s,
  match list_find (λ x, x.1 = t) (m_threads (u_os s)) with
  | None => UCrash Undefined
  | Some (i, x) => URet x.2 (uset_os (mk_mock_os (m_real (u_os s)) (delete i (m_threads (u_os s)))) s)
  end.

(** [work_pthread_proc], [work_pthread_yield_proc] (which has no return
    statement; its value is not used) and the scheduler's procedure. *)
Definition work_pthread_proc (arg : Z) : uM Z := mret 0.
Definition work_pthread_yield_proc (arg : Z) : uM Z :=
  _ ← ck_assert_int_eq (ums_thread_yield 0) 0; mret 0.
Definition work_proc : addr := 1%positive.
Definition yield_proc : addr := 2%positive.
Definition text (f : addr) : Z → uM Z :=
  if decide (f = work_proc) then work_pthread_proc
  else if decide (f = yield_proc) then work_pthread_yield_proc
  else λ _, ucrash Segv.

Definition join (sched_proc : uM unit) (t : option Z) : uM unit :=
  match t with
  | None => ucrash Undefined
  | Some t =>
      x ← start_thread t;
      match x.1 with
      | StartWorker =>
          run_thread (p ← uderef (val_ptr x.2); _ ← worker_wrapper_routine text p; mret tt)
      | _ => run_thread sched_proc
      end
  end.
End check.

(** ** check_ums_completion_list.c *)

Section complist_tests.
Context `{RS : RealSystem, IO : IoctlNr}.

(** [garbage] is what the variable holds before it is written. *)
Definition test_ums_completion_list_create (garbage : Z) : uM unit :=
  with_local garbage (λ comp_list,
    _ ← ck_assert_int_eq (create_ums_completion_list (Ptr comp_list)) 0;
    _ ← ck_assert_int_eq (delete_ums_completion_list (Ptr comp_list)) 0;
    ck_assert_int_eq (delete_ums_completion_list (Ptr comp_list)) (-1)).
Definition test_ums_completion_list_create_bad : uM unit :=
  ck_assert_int_eq (create_ums_completion_list PNull) (-1).
Definition test_ums_completion_list_delete_bad : uM unit :=
  with_local (-1) (λ comp_list,
    _ ← ck_assert_int_eq (delete_ums_completion_list PNull) (-1);
    ck_assert_int_eq (delete_ums_completion_list (Ptr comp_list)) (-1)).

Definition create_ums_completion_list_suite (garbage : Z) : list (uM unit) :=
  (λ test, checked (mret tt) test (mret tt)) <$>
  [test_ums_completion_list_create garbage; test_ums_completion_list_create_bad;
   test_ums_completion_list_delete_bad].
End complist_tests.

(** ** check_ums_worker.c, check_ums_scheduler.c *)

Section thread_tests.
Context `{RS : RealSystem, IO : IoctlNr}.

(** The address of the global variable [comp_list]; [fuel] bounds the loop of
    [enter_ums_scheduling_mode]. *)
Context (comp_list : addr) (fuel : nat).

Definition setup : uM unit := _ ← create_ums_completion_list (Ptr comp_list); mret tt.
Definition teardown : uM unit := _ ← delete_ums_completion_list (Ptr comp_list); mret tt.

(** [ums_attr], with the list of the fixture. *)
Definition test_attr : uM (cptr ums_attr_t) := cl ← load_int comp_list; mret (Ptr (mk_attr cl 0)).
(** A worker whose creation is asserted. *)
Definition create_worker (func : addr) : uM (option Z) :=
  ums_attr ← test_attr;
  t ← ums_pthread_create ums_attr (Ptr func) 0;
  _ ← ck_assert_int_eq (mret t.1) 0;
  mret t.2.

Definition test_enter_ums_worker_mode : uM unit :=
  worker ← create_worker work_proc; join (ucrash Segv) worker.
Definition test_enter_ums_worker_mode_bad : uM unit :=
  ums_attr ← test_attr;
  _ ← ck_assert_int_eq (t ← ums_pthread_create PNull (Ptr work_proc) 0; mret t.1) (-1);
  ck_assert_int_eq (t ← ums_pthread_create ums_attr PNull 0; mret t.1) (-1).
Definition test_ums_worker_yield : uM unit :=
  worker ← create_worker yield_proc; join (ucrash Segv) worker.

Definition create_ums_worker_suite : list (uM unit) :=
  (λ test, checked setup test teardown) <$>
  [test_enter_ums_worker_mode; test_enter_ums_worker_mode_bad; test_ums_worker_yield].

(** The scheduler's procedure, given the fields of [sched_info_tcase]. *)
Definition sched_pthread_proc (sched_info : cptr ums_scheduler_startup_info_t)
    (expected_retval : Z) : uM unit :=
  ck_assert_int_eq (enter_ums_scheduling_mode fuel sched_info) expected_retval.

Definition startup_sched_entry_proc : ums_scheduler_entry_point_t :=
  λ reason activation args, pthread_exit.
Definition dequeue_comp_list_sched_entry_proc : ums_scheduler_entry_point_t :=
  λ reason activation args,
  with_local 0 (λ context,
    _ ← ck_assert_int_eq (cl ← load_int comp_list;
          dequeue_ums_completion_list_items cl (Ptr context)) 0;
    pthread_exit).
Definition dequeue_comp_list_sched_entry_proc_bad : ums_scheduler_entry_point_t :=
  λ reason activation args,
  _ ← ck_assert_int_eq (cl ← load_int comp_list; dequeue_ums_completion_list_items cl PNull) (-1);
  pthread_exit.
Definition next_comp_list_sched_entry_proc : ums_scheduler_entry_point_t :=
  λ reason activation args,
  with_local 0 (λ context_list,
    _ ← ck_assert_int_eq (cl ← load_int comp_list;
          dequeue_ums_completion_list_items cl (Ptr context_list)) 0;
    _ ← ck_assert_int_gt (c ← load_int context_list; get_next_ums_list_item c) 0;
    pthread_exit).

(** A scheduler with the entry point [entry], started and joined after the
    workers. *)
Definition test_scheduler (entry : ums_scheduler_entry_point_t) (workers : list (option Z)) :
    uM unit :=
  cl ← load_int comp_list;
  scheduler ← pthread_create 0 StartScheduler 0;
  _ ← foldr (λ t rest, _ ← join (ucrash Segv) t; rest) (mret tt) workers;
  join (sched_pthread_proc (Ptr (mk_startup_info cl entry 0)) 0) scheduler.2.

Definition test_enter_ums_scheduling_mode : uM unit := test_scheduler startup_sched_entry_proc [].
Definition test_enter_ums_scheduling_mode_bad : uM unit :=
  scheduler ← pthread_create 0 StartScheduler 0;
  join (sched_pthread_proc PNull (-1)) scheduler.2.
Definition test_ums_scheduler_dequeue_comp_list : uM unit :=
  worker ← create_worker work_proc;
  test_scheduler dequeue_comp_list_sched_entry_proc [worker].
Definition test_ums_scheduler_dequeue_comp_list_bad : uM unit :=
  test_scheduler dequeue_comp_list_sched_entry_proc_bad [].
Definition test_ums_scheduler_next_comp_list : uM unit :=
  worker1 ← create_worker work_proc;
  worker2 ← create_worker work_proc;
  test_scheduler next_comp_list_sched_entry_proc [worker1; worker2].

Definition create_ums_scheduler_suite : list (uM unit) :=
  (λ test, checked setup test teardown) <$>
  [test_enter_ums_scheduling_mode; test_enter_ums_scheduling_mode_bad;
   test_ums_scheduler_dequeue_comp_list; test_ums_scheduler_dequeue_comp_list_bad;
   test_ums_scheduler_next_comp_list].
End thread_tests.

(** ** What the stubs answer *)

Section stub.
Context `{RS : RealSystem, IO : IoctlNr}.
Implicit Types (s : ustate).

Lemma uset_os_id s : uset_os (u_os s) s = s.
Proof. by destruct s. Qed.

Lemma stub_answers s cmd arg r out :
  u_fileno s = MOCK_FILENO → mock_ums_ioctl cmd arg = Some (r, None, out) → 0 ≤ r →
  answers s cmd arg r out (u_os s).
Proof.
  intros Hf E Hr. split; [|done]. cbn. unfold __wrap_ioctl. by rewrite Hf, decide_True, E by done.
Qed.
Lemma stub_fails s cmd arg e :
  u_fileno s = MOCK_FILENO → mock_ums_ioctl cmd arg = Some (-1, Some e, []) → 0 < e ≤ 4095 →
  fails s cmd arg e (u_os s).
Proof.
  intros Hf E Hr. split; [|done]. cbn. unfold __wrap_ioctl. by rewrite Hf, decide_True, E by done.
Qed.
End stub.

(** Two request numbers differ, the cases of the stub's switch. *)
Ltac nr_ne :=
  let E := fresh in
  intros E; apply (f_equal IOC_NR) in E;
  destruct ioctl_nrs as (?&?&?&?&?&?&?&?&?); lia.
Ltac stub :=
  unfold mock_ums_ioctl;
  repeat first [rewrite decide_True by done | rewrite decide_False by nr_ne].

(** ** The tests pass *)

Section runs.
Context `{RS : RealSystem, IO : IoctlNr}.
Implicit Types (s : ustate).

(** The code returns, and [Q] holds then. *)
Definition runs {A} (m : uM A) s (Q : A → ustate → Prop) : Prop :=
  ∃ a s', m s = URet a s' ∧ Q a s'.

Lemma runs_bind {A B} (m : uM A) (f : A → uM B) s (Q : B → ustate → Prop) :
  runs m s (λ a s', runs (f a) s' Q) → runs (m ≫= f) s Q.
Proof.
  intros (a & s' & E & b & s'' & E' & HQ). exists b, s''. split; [|done].
  by rewrite (ubind_ret _ _ _ _ _ E).
Qed.
Lemma runs_ret {A} (a : A) s (Q : A → ustate → Prop) : Q a s → runs (mret a) s Q.
Proof. by exists a, s. Qed.
Lemma runs_weaken {A} (m : uM A) s (P Q : A → ustate → Prop) :
  runs m s P → (∀ a s', P a s' → Q a s') → runs m s Q.
Proof. intros (a & s' & E & HP) HPQ. exists a, s'. auto. Qed.
Lemma runs_assert (m : uM Z) v s (Q : unit → ustate → Prop) :
  runs m s (λ r s', r = v ∧ Q tt s') → runs (ck_assert_int_eq m v) s Q.
Proof.
  intros H. apply runs_bind. eapply runs_weaken; [exact H|]. intros a s' [-> HQ].
  rewrite bool_decide_true by done. by apply runs_ret.
Qed.
Lemma runs_local {A} v (body : addr → uM A) s (Q : A → ustate → Prop) :
  (∀ a, u_heap s !! a = None →
    runs (body a) (uset_heap (<[a := UInt v]> (u_heap s)) s)
      (λ x s', Q x (uset_heap (delete a (u_heap s')) s'))) →
  runs (with_local v body) s Q.
Proof.
  intros H. unfold with_local. set (a := fresh (dom (u_heap s))).
  destruct (H a) as (x & s' & E & HQ); [apply not_elem_of_dom, is_fresh|].
  eexists _, _. split; [cbv zeta; fold a; by rewrite E|done].
Qed.

(** The library is linked with the stubs, and [p] points to an integer. *)
Definition linked s : Prop := u_fileno s = MOCK_FILENO.
Definition int_at (p : addr) (v : Z) s : Prop := linked s ∧ u_heap s !! p = Some (UInt v).

Lemma create_runs p v s (Q : Z → ustate → Prop) :
  int_at p v s →
  Q 0 (uset_heap (<[p := UInt ums_complist_id]> (u_heap s)) s) →
  runs (create_ums_completion_list (Ptr p)) s Q.
Proof.
  intros [Hf Hp] HQ. eexists _, _. split; [|exact HQ].
  rewrite (create_answers s p v ums_complist_id (u_os s)); [by rewrite uset_os_id| |done].
  apply stub_answers; [done| |done]. rewrite Hp. by stub.
Qed.
Lemma delete_runs p s (Q : Z → ustate → Prop) :
  int_at p ums_complist_id s → Q 0 (uset_heap (<[p := UInt 0]> (u_heap s)) s) →
  runs (delete_ums_completion_list (Ptr p)) s Q.
Proof.
  intros [Hf Hp] HQ. eexists _, _. split; [|exact HQ].
  rewrite (delete_answers s p ums_complist_id [] (u_os s)); [by rewrite uset_os_id| |done].
  apply stub_answers; [done| |done]. stub. by vm_compute.
Qed.
Lemma delete_unknown_runs p v s (Q : Z → ustate → Prop) :
  int_at p v s → s32 v ≠ ums_complist_id → Q (-1) (uset_errno EINVAL s) →
  runs (delete_ums_completion_list (Ptr p)) s Q.
Proof.
  intros [Hf Hp] Hv HQ. eexists _, _. split; [|exact HQ].
  rewrite (delete_fails s p v EINVAL (u_os s)); [unfold failed; by rewrite uset_os_id| |done].
  apply stub_fails; [done| |done]. by stub.
Qed.
Lemma null_runs {T} (body : T → uM Z) s (Q : Z → ustate → Prop) :
  Q (-1) (uset_errno EFAULT s) → runs (null_check PNull body) s Q.
Proof. by eexists _, _. Qed.

(** The child handler closes and opens the device again. *)
Lemma stub_close s : linked s → ums_fileno_close s = URet tt s.
Proof.
  intros Hf. unfold ums_fileno_close, close. ured. rewrite Hf. cbn.
  unfold __wrap_close. by rewrite decide_True, uset_os_id by done.
Qed.
Lemma stub_open s : ums_fileno_open s = URet tt (uset_fileno MOCK_FILENO s).
Proof. unfold ums_fileno_open, open. by destruct s. Qed.

Lemma fork_runs s (Q : unit → ustate → Prop) :
  linked s → (∀ o, m_threads o = m_threads (u_os s) → Q tt (uset_os o s)) → runs fork_child s Q.
Proof.
  intros Hf HQ. eexists _, _. split; [|by apply (HQ (sys_fork (u_os s)))].
  unfold fork_child. ured. destruct (u_atfork s) eqn:Ea; [|done].
  unfold ums_atfork_child_handler. urun stub_close; [done|]. rewrite stub_open.
  unfold linked in Hf. destruct s. cbn in *. by subst.
Qed.
End runs.

Section threads.
Context `{RS : RealSystem, IO : IoctlNr}.
Implicit Types (s : ustate).

(** Only the thread-specific data, errno and the real system differ. *)
Definition same_memory s s' : Prop :=
  u_fileno s' = u_fileno s ∧ u_heap s' = u_heap s ∧ m_threads (u_os s') = m_threads (u_os s).

#[export] Instance same_memory_preorder : PreOrder same_memory.
Proof. split; [done|]. unfold same_memory. intros s1 s2 s3. intuition congruence. Qed.

Lemma on_real_threads {A} (f : @os real → A * @os real) o : m_threads (on_real f o).2 = m_threads o.
Proof. unfold on_real. by destruct (f (m_real o)). Qed.

Lemma ucall_real {A} (f : @os real → A * @os real) s :
  runs (ucall (SO := mock_sys) (on_real f)) s
    (λ _ s', same_memory s s' ∧ u_specific s' = u_specific s).
Proof.
  unfold runs, ucall. pose proof (on_real_threads f (u_os s)) as E.
  change (u_os s : mock_os) with (u_os s). destruct (on_real f (u_os s)) as [a o].
  eexists _, _. split; [done|]. by destruct s.
Qed.

Lemma key_init_runs s :
  runs worker_key_init s (λ _ s', same_memory s s' ∧ u_specific s' = u_specific s).
Proof.
  apply runs_bind. eexists _, _. split; [done|]. destruct (u_once s); [by apply runs_ret|].
  apply runs_bind, runs_bind. eapply runs_weaken; [apply ucall_real|].
  intros r s' H. eexists _, _. split; [done|]. eexists _, _. split; [done|]. exact H.
Qed.

Lemma set_key_runs a s :
  u_specific s = None →
  runs (set_worker_key a) s (λ _ s', same_memory s s' ∧
    (u_specific s' = None ∨ u_specific s' = Some a)).
Proof.
  intros Hn. apply runs_bind. eexists _, _. split; [done|]. destruct (u_key s).
  - apply runs_bind. eapply runs_weaken; [apply ucall_real|]. intros r s' [H Hs]. cbn.
    destruct (decide (r = 0)).
    + apply runs_bind. eexists _, _. split; [done|]. apply runs_ret. split; [exact H|by right].
    + apply runs_ret. split; [done|left; congruence].
  - apply runs_ret. split; [done|by left].
Qed.

Lemma enter_worker_runs v s (Q : Z → ustate → Prop) :
  linked s → Q 0 s → runs (enter_ums_mode (mk_enter_args ENTER_UMS_WORK v)) s Q.
Proof.
  intros Hf HQ. eexists _, _. split; [|exact HQ].
  rewrite (enter_answers s _ [] (u_os s)); [by rewrite uset_os_id|].
  apply stub_answers; [done| |done]. stub. done.
Qed.
Lemma yield_runs s (Q : Z → ustate → Prop) :
  linked s → Q 0 s → runs (ums_thread_yield 0) s Q.
Proof.
  intros Hf HQ. eexists _, _. split; [|exact HQ].
  rewrite (yield_answers s 0 [] (u_os s)); [by rewrite uset_os_id|].
  apply stub_answers; [done| |done]. by stub.
Qed.

(** The stubs do not know the call that leaves the mode; its result is not
    looked at. *)
Lemma thread_exit_runs s :
  linked s → (∀ a, u_specific s = Some a → is_Some (u_heap s !! a)) →
  runs thread_exit s (λ _ s', linked s' ∧ m_threads (u_os s') = m_threads (u_os s) ∧
    u_heap s' = match u_specific s with Some a => delete a (u_heap s) | None => u_heap s end).
Proof.
  intros Hf Ha. apply runs_bind. eexists _, _. split; [done|].
  destruct (u_specific s) as [a|] eqn:Es; [|by apply runs_ret].
  destruct (Ha a) as [ob Hob]; [done|].
  apply runs_bind. eexists _, _. split; [done|]. apply runs_bind. eexists _, _.
  split; [by eapply free_run|]. apply runs_bind.
  eexists _, _. split.
  { unfold exit_ums_mode. urun (ums_ioctl_fails _ IOCTL_EXIT_UMS no_arg ENOTSUP).
    - apply stub_fails; [done| |done]. by stub.
    - done. }
  by apply runs_ret.
Qed.

Lemma test_text_runs f v s :
  linked s → f = work_proc ∨ f = yield_proc → runs (text f v) s (λ _ s', s' = s).
Proof.
  intros Hf [-> | ->]; [by apply runs_ret|]. apply runs_bind, runs_assert.
  apply yield_runs; [done|]. split; [done|by apply runs_ret].
Qed.

(** A worker of the tests returns, with its thread-specific value set or not. *)
Lemma wrapper_runs a x s :
  linked s → u_heap s !! a = Some (UArgs x) → u_specific s = None →
  wa_func x = work_proc ∨ wa_func x = yield_proc →
  runs (worker_wrapper_routine text a) s (λ _ s', same_memory s s' ∧
    (u_specific s' = None ∨ u_specific s' = Some a)).
Proof.
  intros Hf Ha Hn Hx. apply runs_bind. eexists _, _. split; [by apply load_args_run|].
  apply runs_bind. eapply runs_weaken; [apply key_init_runs|]. intros _ s1 [H1 Hs1].
  assert (linked s1) by (destruct H1 as (E & _); unfold linked; by rewrite E).
  apply runs_bind, enter_worker_runs; [done|]. rewrite decide_False by (by intros []).
  apply runs_bind. eapply runs_weaken; [apply (set_key_runs a); congruence|].
  intros _ s2 [H2 Hs2]. assert (same_memory s s2) as H3 by (by etrans).
  apply runs_bind. eexists _, _. split.
  { apply load_args_run. destruct H3 as (_ & -> & _). exact Ha. }
  eapply runs_weaken; [apply test_text_runs; [|done]|].
  { destruct H3 as (E & _). unfold linked. by rewrite E. }
  intros _ ? ->. by split.
Qed.

Lemma thread_runs body s (v : option addr) (P : ustate → Prop) :
  runs body (uset_specific None s) (λ _ s', same_memory s s' ∧
    (u_specific s' = None ∨ u_specific s' = v)) →
  linked s → (∀ a, v = Some a → is_Some (u_heap s !! a)) →
  (∀ s', linked s' → m_threads (u_os s') = m_threads (u_os s) →
    (u_heap s' = u_heap s ∨ ∃ a, v = Some a ∧ u_heap s' = delete a (u_heap s)) → P s') →
  runs (run_thread body) s (λ _, P).
Proof.
  intros (x & s1 & E & (Ef & Eh & Et) & Hs) Hf Ha HP.
  destruct (thread_exit_runs s1) as (y & s2 & E2 & Hf2 & Et2 & Eh2).
  { unfold linked. by rewrite Ef. }
  { intros b Hb. rewrite Eh. apply Ha. destruct Hs as [Hs|Hs]; congruence. }
  eexists _, _. unfold run_thread. rewrite E, E2. split; [done|].
  apply HP; cbn; [done|congruence|]. rewrite Eh2, Eh.
  destruct Hs as [-> | ->]; [by left|]. destruct v as [a|]; [right; by exists a|by left].
Qed.

Lemma start_thread_run t x rest s :
  m_threads (u_os s) = (t, x) :: rest →
  start_thread t s = URet x (uset_os (mk_mock_os (m_real (u_os s)) rest) s).
Proof. intros E. unfold start_thread. rewrite E. cbn. by rewrite decide_True by done. Qed.

Lemma join_worker_runs sp t a x rest s (P : ustate → Prop) :
  linked s → m_threads (u_os s) = (t, (StartWorker, ptr_val a)) :: rest →
  u_heap s !! a = Some (UArgs x) → wa_func x = work_proc ∨ wa_func x = yield_proc →
  (∀ s', linked s' → m_threads (u_os s') = rest →
    (u_heap s' = u_heap s ∨ u_heap s' = delete a (u_heap s)) → P s') →
  runs (join sp (Some t)) s (λ _, P).
Proof.
  intros Hf Et Ha Hx HP. apply runs_bind. eexists _, _.
  split; [by eapply start_thread_run|]. cbn.
  apply (thread_runs _ _ (Some a)); [|done|intros ? [= ->]; by eexists|].
  2: { intros s' ?? [?|(? & [= <-] & ?)]; apply HP; auto. }
  apply runs_bind, runs_ret, runs_bind. eapply runs_weaken; [by apply (wrapper_runs a x)|].
  intros r s' H. by apply runs_ret.
Qed.
End threads.

(** ** The tests *)

Section passing.
Context `{RS : RealSystem, IO : IoctlNr}.
Implicit Types (s : ustate).

Lemma checked_passes setup test teardown s :
  linked s →
  (∀ o, m_threads o = m_threads (u_os s) → runs setup (uset_os o s)
    (λ _ s1, runs test s1 (λ _ s2, runs teardown s2 (λ _ _, True)))) →
  passes_test (checked setup test teardown) s = true.
Proof.
  intros Hf H.
  cut (runs (checked setup test teardown) s (λ _ _, True)).
  { intros (x & s' & E & _). unfold passes_test. by rewrite E. }
  apply runs_bind, fork_runs; [done|]. intros o Ho. apply runs_bind.
  eapply runs_weaken; [exact (H o Ho)|]. intros x s1 H1. by apply runs_bind.
Qed.

Lemma suite_main_ok tests s :
  Forall (λ t, passes_test t s = true) tests → suite_main tests s = 0.
Proof.
  intros H. unfold suite_main. rewrite decide_True; [done|].
  induction H as [|t ts Ht _ IH]; [done|]. rewrite filter_cons_False; [exact IH|congruence].
Qed.

(** The tests of completion lists pass, whatever the uninitialised variable
    holds. *)
Theorem complist_suite_passes garbage s :
  linked s → suite_main (create_ums_completion_list_suite garbage) s = 0.
Proof.
  intros Hf. apply suite_main_ok. repeat constructor; (apply checked_passes; [done|]);
    intros o _; apply runs_ret.
  - apply runs_local. intros a Ha. apply runs_bind, runs_assert, (create_runs a garbage).
    { split; [done|]. apply lookup_insert_eq. }
    split; [done|]. apply runs_bind, runs_assert, delete_runs.
    { split; [done|]. apply lookup_insert_eq. }
    split; [done|]. apply runs_assert, (delete_unknown_runs a 0).
    { split; [done|]. apply lookup_insert_eq. }
    { done. }
    split; [done|]. by apply runs_ret.
  - apply runs_assert, null_runs. split; [done|]. by apply runs_ret.
  - apply runs_local. intros a Ha. apply runs_bind, runs_assert, null_runs. split; [done|].
    apply runs_assert, (delete_unknown_runs a (-1)).
    { split; [done|]. apply lookup_insert_eq. }
    { done. }
    split; [done|]. by apply runs_ret.
Qed.
End passing.

(** Memory is left and threads can be started; without that the tests fail. *)
Class Plentiful `{RS : RealSystem} : Prop := {
  memory_left used o : ∃ a o', @c_malloc real used o = (Some a, o') ∧ a ∉ used;
  threads_start attr f arg o : ∃ t o', @sys_pthread_create real attr f arg o = (0, t, o');
}.

Section thread_suites.
Context `{RS : RealSystem, IO : IoctlNr, PL : !Plentiful} (comp_list : addr) (fuel : nat).
Implicit Types (s : ustate).

Lemma load_runs p v s (Q : Z → ustate → Prop) : int_at p v s → Q v s → runs (load_int p) s Q.
Proof. intros [_ Hp] HQ. eexists _, _. split; [by apply load_int_run|done]. Qed.

Lemma start_runs attr f arg s (Q : Z * option Z → ustate → Prop) :
  (∀ t o, m_threads o = m_threads (u_os s) ++ [(t, (f, arg))] → Q (0, Some t) (uset_os o s)) →
  runs (pthread_create attr f arg) s Q.
Proof.
  intros HQ. destruct (threads_start attr f arg (m_real (u_os s))) as (t & o & E).
  eexists _, _. split; [|apply (HQ t (mk_mock_os o (m_threads (u_os s) ++ [(t, (f, arg))]))); done].
  unfold pthread_create, ucall. ured. cbn. unfold mock_pthread_create. rewrite E. done.
Qed.

Lemma create_worker_runs f v s (Q : option Z → ustate → Prop) :
  int_at comp_list v s →
  (∀ a t s', u_heap s !! a = None → linked s' →
    u_heap s' = <[a := UArgs (mk_worker_args v f 0)]> (u_heap s) →
    m_threads (u_os s') = m_threads (u_os s) ++ [(t, (StartWorker, ptr_val a))] →
    Q (Some t) s') →
  runs (create_worker comp_list f) s Q.
Proof.
  intros Hi HQ. apply runs_bind, runs_bind, (load_runs _ v); [done|]. apply runs_ret, runs_bind.
  destruct (memory_left (dom (u_heap s)) (m_real (u_os s))) as (a & o & E & Ha).
  apply not_elem_of_dom in Ha. apply runs_bind. eexists _, _. split.
  { unfold malloc. cbn. unfold on_real. by rewrite E. }
  apply start_runs. intros t o' Eo. apply runs_bind, runs_assert, runs_ret. split; [done|].
  apply runs_ret. by apply (HQ a t); [|apply Hi| |].
Qed.

Lemma setup_runs v s (Q : unit → ustate → Prop) :
  int_at comp_list v s →
  (∀ s', int_at comp_list ums_complist_id s' → m_threads (u_os s') = m_threads (u_os s) → Q tt s') →
  runs (setup comp_list) s Q.
Proof.
  intros Hi HQ. apply runs_bind, (create_runs _ v); [done|]. apply runs_ret, HQ; [|done].
  split; [apply Hi|]. apply lookup_insert_eq.
Qed.
Lemma teardown_runs s : int_at comp_list ums_complist_id s → runs (teardown comp_list) s (λ _ _, True).
Proof. intros Hi. apply runs_bind, delete_runs; [done|]. by apply runs_ret. Qed.

(** A worker is created and joined. *)
Lemma worker_test_runs f v s :
  int_at comp_list v s → m_threads (u_os s) = [] → f = work_proc ∨ f = yield_proc →
  runs (worker ← create_worker comp_list f; join (ucrash Segv) worker) s
    (λ _ s', int_at comp_list v s').
Proof.
  intros Hi Ht Hf. apply runs_bind, (create_worker_runs f v); [done|].
  intros a t s1 Ha Hf1 Eh Et. rewrite Ht in Et.
  apply (join_worker_runs _ t a (mk_worker_args v f 0) []); [done|done| |done|].
  { rewrite Eh. apply lookup_insert_eq. }
  intros s2 Hf2 _ Eh2. split; [done|].
  assert (comp_list ≠ a) by (intros ->; destruct Hi; congruence).
  destruct Eh2 as [-> | ->]; rewrite ?lookup_delete_ne, Eh, lookup_insert_ne by done; apply Hi.
Qed.

(** The tests of workers pass. *)
Theorem worker_suite_passes v s :
  int_at comp_list v s → m_threads (u_os s) = [] →
  suite_main (create_ums_worker_suite comp_list) s = 0.
Proof.
  intros Hi Ht. apply suite_main_ok. repeat constructor; (apply checked_passes; [apply Hi|]);
    intros o Ho; (apply (setup_runs v); [done|]); intros s1 Hi1 Ht1; cbn in Ht1.
  - eapply runs_weaken; [apply (worker_test_runs _ ums_complist_id); [done|congruence|by left]|].
    intros ? s2. apply teardown_runs.
  - apply runs_bind, runs_bind, (load_runs _ _ _ _ Hi1), runs_ret.
    apply runs_bind, runs_assert, runs_bind. eexists _, _. split; [done|].
    apply runs_ret. split; [done|]. apply runs_assert, runs_bind. eexists _, _. split; [done|].
    apply runs_ret. split; [done|]. by apply teardown_runs.
  - eapply runs_weaken; [apply (worker_test_runs _ ums_complist_id); [done|congruence|by right]|].
    intros ? s2. apply teardown_runs.
Qed.

(** ** Schedulers *)

Lemma dequeue_runs p v s (Q : Z → ustate → Prop) :
  int_at comp_list ums_complist_id s → u_heap s !! p = Some (UInt v) →
  Q 0 (uset_heap (<[p := UInt mock_context]> (u_heap s)) s) →
  runs (cl ← load_int comp_list; dequeue_ums_completion_list_items cl (Ptr p)) s Q.
Proof.
  intros Hi Hp HQ. apply runs_bind, (load_runs _ _ _ _ Hi). eexists _, _. split; [|exact HQ].
  rewrite (dequeue_items_answers s ums_complist_id p v [UPid mock_context] (u_os s));
    [by rewrite uset_os_id| |done].
  apply stub_answers; [apply Hi| |done]. by stub.
Qed.

(** The code ends in a call that does not return, or crashes. *)
Lemma stuck_bind {A B} (m : uM A) (f : A → uM B) s (x : uout B) :
  runs m s (λ a s', f a s' = x) → (m ≫= f) s = x.
Proof. intros (a & s' & E & H). by rewrite (ubind_ret _ _ _ _ _ E). Qed.
Definition exits {A} (m : uM A) s : Prop := ∃ s', m s = UBlocked s'.
Lemma exits_bind {A B} (m : uM A) (f : A → uM B) s :
  runs m s (λ a s', exits (f a) s') → exits (m ≫= f) s.
Proof. intros (a & s' & E & s'' & H). exists s''. by rewrite (ubind_ret _ _ _ _ _ E). Qed.
Lemma exits_local {A} v (body : addr → uM A) s :
  (∀ a, u_heap s !! a = None → exits (body a) (uset_heap (<[a := UInt v]> (u_heap s)) s)) →
  exits (with_local v body) s.
Proof.
  intros H. unfold with_local. set (a := fresh (dom (u_heap s))).
  destruct (H a) as (s' & E); [apply not_elem_of_dom, is_fresh|].
  eexists. cbv zeta. fold a. by rewrite E.
Qed.

(** The assertions of the entry points hold: each of them reaches
    [pthread_exit]. *)
Theorem entry_points_exit reason activation args s :
  int_at comp_list ums_complist_id s →
  exits (startup_sched_entry_proc reason activation args) s ∧
  exits (dequeue_comp_list_sched_entry_proc comp_list reason activation args) s ∧
  exits (dequeue_comp_list_sched_entry_proc_bad comp_list reason activation args) s ∧
  exits (next_comp_list_sched_entry_proc comp_list reason activation args) s.
Proof.
  intros Hi.
  assert (∀ a, u_heap s !! a = None →
    int_at comp_list ums_complist_id (uset_heap (<[a := UInt 0]> (u_heap s)) s)) as Hl.
  { intros a Ha. destruct Hi as [Hf Hp]. split; [done|]. cbn.
    rewrite lookup_insert_ne; [done|congruence]. }
  split_and!.
  - by eexists.
  - apply exits_local. intros a Ha. apply exits_bind, runs_assert, (dequeue_runs a 0);
      [by apply Hl|apply lookup_insert_eq|]. split; [done|by eexists].
  - apply exits_bind, runs_assert, runs_bind, (load_runs _ _ _ _ Hi), null_runs.
    split; [done|by eexists].
  - apply exits_local. intros a Ha. apply exits_bind, runs_assert, (dequeue_runs a 0);
      [by apply Hl|apply lookup_insert_eq|]. split; [done|].
    apply exits_bind, runs_bind, runs_bind. eexists _, _.
    split; [apply load_int_run, lookup_insert_eq|]. eexists _, _. split.
    { eapply (get_next_answers _ _ [UPid next_ums_context]).
      apply stub_answers; [apply Hi| |done]. by stub. }
    eexists _, _. split; [done|]. by eexists.
Qed.

(** The test of a NULL argument passes. *)
Theorem scheduling_mode_bad_passes v s :
  int_at comp_list v s → m_threads (u_os s) = [] →
  passes_test (checked (setup comp_list) (test_enter_ums_scheduling_mode_bad fuel)
    (teardown comp_list)) s = true.
Proof.
  intros Hi Ht. apply checked_passes; [apply Hi|]. intros o Ho.
  apply (setup_runs v); [done|]. intros s1 Hi1 Ht1. cbn in Ht1.
  apply runs_bind, start_runs. intros t o1 Eo1. rewrite Ht1, Ho, Ht in Eo1.
  apply runs_bind. eexists _, _. split; [by apply start_thread_run|].
  apply (thread_runs _ _ None); [|apply Hi1|done|].
  - apply runs_assert, null_runs. split; [done|]. split; [done|by left].
  - intros s2 Hf2 _ [Eh|(? & [=] & _)]. apply teardown_runs. split; [done|].
    rewrite Eh. apply Hi1.
Qed.

(** ** The event that is never written *)

(** The stub of [IOCTL_UMS_SCHED_DQEVENT] returns 0 and writes nothing, and the
    library switches on the type of the event: the thread of the scheduler
    reads an uninitialised variable in its first pass. *)
Lemma sched_proc_undefined n cl entry s :
  linked s →
  sched_pthread_proc (S n) (Ptr (mk_startup_info cl entry 0)) 0 s = UCrash Undefined.
Proof.
  intros Hf.
  assert (enter_ums_mode (mk_enter_args ENTER_UMS_SCHED cl) s = URet 0 s) as E1.
  { rewrite (enter_answers s _ [] (u_os s)); [by rewrite uset_os_id|].
    apply stub_answers; [done| |done]. by stub. }
  assert (dequeue_ums_sched_event s = URet (0, None) s) as E2.
  { unfold dequeue_ums_sched_event. urun (ums_ioctl_answers s _ _ 0 [] (u_os s)).
    - apply stub_answers; [done| |done]. by stub.
    - by rewrite uset_os_id. }
  unfold sched_pthread_proc, ck_assert_int_eq, enter_ums_scheduling_mode, null_check.
  apply ubind_crash. rewrite (ubind_ret _ _ _ _ _ E1). rewrite decide_False by (by intros []).
  cbn [scheduling_loop]. rewrite (ubind_ret _ _ _ _ _ E2). by rewrite decide_False by (by intros []).
Qed.

(** Workers that were started and wait to be joined in this order. *)
Definition pending (ws : list (Z * addr)) s : Prop :=
  NoDup ws.*2 ∧
  Forall (λ w, ∃ x, u_heap s !! w.2 = Some (UArgs x) ∧ wa_func x = work_proc) ws.
Definition started (ws : list (Z * addr)) : list (Z * (start_routine * Z)) :=
  (λ w, (w.1, (StartWorker, ptr_val w.2))) <$> ws.

Lemma pending_step w ws s s' :
  pending (w :: ws) s → u_heap s' = u_heap s ∨ u_heap s' = delete w.2 (u_heap s) → pending ws s'.
Proof.
  intros [Hnd HF] Eh. apply NoDup_cons in Hnd as [Hw Hnd]. apply Forall_cons in HF as [_ HF].
  split; [done|]. rewrite Forall_forall in HF |- *. intros z Hz.
  destruct (HF z Hz) as (x & Hx & Ex). exists x. split; [|done].
  destruct Eh as [-> | ->]; [done|]. rewrite lookup_delete_ne; [done|].
  intros E. apply Hw. rewrite E. by apply list_elem_of_fmap_2.
Qed.

Lemma join_all_runs ws rest s :
  linked s → pending ws s → m_threads (u_os s) = started ws ++ rest →
  runs (foldr (λ t k, _ ← join (ucrash Segv) t; k) (mret tt) (Some <$> ws.*1)) s
    (λ _ s', linked s' ∧ m_threads (u_os s') = rest).
Proof.
  revert s. induction ws as [|w ws IH]; intros s Hf Hp Et; [by apply runs_ret|].
  pose proof Hp as [_ ((x & Hx & Ex) & _)%Forall_cons]. apply runs_bind.
  eapply join_worker_runs; [done|exact Et|exact Hx|by left|].
  intros s' Hf' Et' Eh. apply IH; [done| |done]. by eapply pending_step.
Qed.

Lemma test_scheduler_undefined n entry ws v s :
  int_at comp_list v s → pending ws s → m_threads (u_os s) = started ws →
  test_scheduler comp_list (S n) entry (Some <$> ws.*1) s = UCrash Undefined.
Proof.
  intros Hi Hp Et. apply stuck_bind, (load_runs _ _ _ _ Hi).
  apply stuck_bind, start_runs. intros t o Eo. rewrite Et in Eo. apply stuck_bind.
  eapply runs_weaken; [apply (join_all_runs ws [(t, (StartScheduler, 0))]); [apply Hi|exact Hp|exact Eo]|].
  intros _ s' [Hf' Et']. apply stuck_bind. eexists _, _. split; [by apply start_thread_run|].
  cbn [fst snd]. unfold run_thread. by rewrite sched_proc_undefined.
Qed.

Lemma create_pending ws v s (Q : option Z → ustate → Prop) :
  int_at comp_list v s → pending ws s → m_threads (u_os s) = started ws →
  (∀ t a s', int_at comp_list v s' → pending (ws ++ [(t, a)]) s' →
    m_threads (u_os s') = started (ws ++ [(t, a)]) → Q (Some t) s') →
  runs (create_worker comp_list work_proc) s Q.
Proof.
  intros Hi [Hnd HF] Et HQ. apply (create_worker_runs _ v); [done|].
  intros a t s' Ha Hf' Eh Et'. apply (HQ t a).
  - split; [done|]. rewrite Eh, lookup_insert_ne; [apply Hi|]. intros ->. destruct Hi; congruence.
  - rewrite Forall_forall in HF. split.
    + rewrite fmap_app. apply NoDup_app. split_and!; [done| |apply NoDup_singleton].
      intros b (w & -> & Hw)%list_elem_of_fmap Hba%list_elem_of_singleton. cbn in Hba.
      destruct (HF w Hw) as (? & ? & _). congruence.
    + apply Forall_app. split; [apply Forall_forall|].
      * intros w Hw. destruct (HF w Hw) as (x & Hx & ?). exists x. split; [|done].
        rewrite Eh, lookup_insert_ne; [done|congruence].
      * constructor; [|done]. cbn. eexists. by rewrite Eh, lookup_insert_eq.
  - unfold started in *. by rewrite fmap_app, Et', Et.
Qed.

(** Defect: the four tests of a running scheduler have undefined behaviour. *)
Theorem scheduler_tests_undefined n v s :
  int_at comp_list v s → m_threads (u_os s) = [] →
  test_enter_ums_scheduling_mode comp_list (S n) s = UCrash Undefined ∧
  test_ums_scheduler_dequeue_comp_list comp_list (S n) s = UCrash Undefined ∧
  test_ums_scheduler_dequeue_comp_list_bad comp_list (S n) s = UCrash Undefined ∧
  test_ums_scheduler_next_comp_list comp_list (S n) s = UCrash Undefined.
Proof.
  intros Hi Ht.
  assert (pending [] s) as Hp by (split; constructor).
  split_and!.
  - by apply (test_scheduler_undefined n _ [] v).
  - apply stuck_bind, (create_pending [] v); [done..|]. intros t a s1 Hi1 Hp1 Et1.
    by apply (test_scheduler_undefined n _ [(t, a)] v).
  - by apply (test_scheduler_undefined n _ [] v).
  - apply stuck_bind, (create_pending [] v); [done..|]. intros t a s1 Hi1 Hp1 Et1.
    apply stuck_bind, (create_pending [(t, a)] v); [done..|]. intros t' a' s2 Hi2 Hp2 Et2.
    by apply (test_scheduler_undefined n _ [(t, a); (t', a')] v).
Qed.
End thread_suites.

(** ** The suites, computed *)

(** A system that has nothing but memory and threads. *)
Definition idle_system : RealSystem := {| real := {|
  os := unit;
  sys_ioctl _ _ _ o := Some (- EBADF, [], o);
  sys_open _ _ o := (- EACCES, o);
  sys_close _ o := (- EBADF, o);
  sys_fork o := o;
  c_malloc used o := (Some (fresh used), o);
  sys_pthread_create _ _ _ o := (0, 1, o);
  sys_pthread_key_create o := (0, o);
  sys_pthread_setspecific o := (0, o);
  sys_pthread_atfork o := (0, o);
  sys_pthread_attr o := (0, o);
  sys_pthread_join _ o := Some (0, o);
  sys_nproc _ := 1;
|} |}.

Lemma idle_plentiful : @Plentiful idle_system.
Proof.
  split.
  - intros used o. exists (fresh used), o. split; [done|]. apply is_fresh.
  - intros attr f arg o. by exists 1, o.
Qed.

#[local] Existing Instance idle_system.

(** The state after the constructor of the library, with [comp_list] at 1. *)
Definition test_state : ustate (SO := mock_sys) :=
  mk_ustate (SO := mock_sys) (mk_mock_os tt []) 0 {[ 1%positive := UInt 0 ]} ∅ MOCK_FILENO
    false false None true 0 [] [].

Example worker_suite_computed : suite_main (create_ums_worker_suite 1%positive) test_state = 0.
Proof. vm_compute. reflexivity. Qed.

(** An assertion that does not hold is noticed: a list nobody created cannot be
    deleted. *)
Example failed_assertion_computed :
  suite_main [ck_assert_int_eq (delete_ums_completion_list (Ptr 1%positive)) 0] test_state = 1.
Proof. vm_compute. reflexivity. Qed.
