(* ===== verification/Benchmark.v ===== *)
(** * The benchmark: [src/benchmark]

    The parts of the benchmark that compute something: the timer
    ([lib/src/timer.c]), the primality test its workers run
    ([bin/src/pthread/model.c], [bin/src/ums/model.c]), and the entry point of
    its schedulers.  The ready queue of [bin/src/ums/model.c] is the text of the
    example's, which is modelled in [Example]; the entry point differs in that
    it initialises the queue itself and does not look at what workers yield.

    [prime_loop] has the number of its passes as fuel: the loop variable goes
    from 2 to [num / 2]. *)
From S2P Require Import Prelude ListHead Kernel Uapi State User UserLib Example.
From Stdlib Require Import Znumtheory.
From stdpp Require Import prelude gmap strings.

Local Open Scope Z_scope.

(** ** timer.c *)

(** [struct timespec] and [struct timer]; the fields are [long]. *)
Record timespec := mk_timespec { tv_sec : Z; tv_nsec : Z }.
Record timer := mk_timer { tm_begin : timespec; tm_end : timespec; tm_elapsed : timespec }.

Definition diff (start end_ : timespec) : timespec :=
  if decide (tv_nsec end_ - tv_nsec start < 0) then
    mk_timespec (tv_sec end_ - tv_sec start - 1) (1000000000 + tv_nsec end_ - tv_nsec start)
  else mk_timespec (tv_sec end_ - tv_sec start) (tv_nsec end_ - tv_nsec start).

(** [now] is what [clock_gettime(CLOCK_MONOTONIC)] stores. *)
Definition timer_start (now : timespec) (t : timer) : timer :=
  mk_timer now (tm_end t) (tm_elapsed t).
Definition timer_stop (now : timespec) (t : timer) : timer :=
  mk_timer (tm_begin t) now (diff (tm_begin t) now).

Definition get_nanoseconds (t : timer) : Z :=
  u64 (tv_sec (tm_elapsed t) * 1000000000 + tv_nsec (tm_elapsed t)).

(** The conversion of an unsigned integer to [double]: 53 significant bits, to
    nearest and ties to even; [round] of the result changes nothing. *)
Definition to_double (z : Z) : Z :=
  if decide (z < 2 ^ 53) then z else
  let e := Z.log2 z - 52 in
  let q := z / 2 ^ e in
  let r := z mod 2 ^ e in
  if decide (2 * r < 2 ^ e ∨ 2 * r = 2 ^ e ∧ Z.even q = true) then q * 2 ^ e else (q + 1) * 2 ^ e.
Definition get_microseconds (t : timer) : Z := to_double (get_nanoseconds t / 1000).
Definition get_milliseconds (t : timer) : Z := to_double (get_nanoseconds t / 1000000).
Definition get_seconds (t : timer) : Z := to_double (get_nanoseconds t / 1000000000).

(** ** The primality test *)

(** The passes that are left, from [i] on: whether a divisor is found. *)
Fixpoint prime_loop (n : nat) (i num : Z) : bool :=
  match n with
  | O => false
  | S n => if decide (num mod i = 0) then true else prime_loop n (u64 (i + 1)) num
  end.
Definition has_divisor (num : Z) : bool := prime_loop (Z.to_nat (num / 2 - 1)) 2 num.

Section model.
Context `{SO : SysOps, IO : IoctlNr} (comp_list : addr).
Implicit Types (s : ustate).

(** The common part of the two procedures. *)
Definition primality_test (task : addr) : uM unit :=
  t ← load_task task;
  let num := t.1 in
  _ ← uput task (UTask num (Some 0));
  if has_divisor num then uput task (UTask num (Some 1)) else mret tt.

(** Both pass the address of the result, written as that of its task. *)
Definition primality_test_pthread_worker_proc (task : addr) : uM Z :=
  _ ← primality_test task; mret (ptr_val task).
Definition primality_test_ums_worker_proc (task : addr) : uM Z :=
  _ ← primality_test task;
  r ← ums_thread_yield (ptr_val task);
  _ ← if decide (r ≠ 0) then perror "ums_thread_yield" else mret tt;
  mret 0.

(** ** The entry point of the schedulers *)

Definition bench_sched_entry_proc (fuel : nat) : ums_scheduler_entry_point_t :=
  λ reason activation args,
  match reason with
  | UMS_SCHEDULER_STARTUP =>
      _ ← ulist_upd (INIT_LIST_HEAD (LNode RqHead)); execute_next_context comp_list fuel
  | UMS_SCHEDULER_THREAD_YIELD => execute_next_context comp_list fuel
  | UMS_SCHEDULER_THREAD_END => execute_next_context comp_list fuel
  end.
End model.

(** ** The elapsed time *)

Definition nanoseconds (t : timespec) : Z := tv_sec t * 1000000000 + tv_nsec t.
(** What the clock promises about the second field. *)
Definition normalised (t : timespec) : Prop := 0 ≤ tv_nsec t < 1000000000.

(** The difference of two readings is a normalised reading of the time between
    them. *)
Lemma diff_spec a b :
  normalised a → normalised b →
  normalised (diff a b) ∧ nanoseconds (diff a b) = nanoseconds b - nanoseconds a.
Proof.
  unfold diff, normalised, nanoseconds. intros Ha Hb.
  destruct (decide _); cbn; split; lia.
Qed.

(** A timer that is started and stopped shows the time between the two, in
    nanoseconds and truncated to the coarser units; below 2^53 the detour over
    floating point is exact. *)
Theorem timer_measures a b t :
  normalised a → normalised b →
  let d := nanoseconds b - nanoseconds a in
  let t' := timer_stop b (timer_start a t) in
  0 ≤ d < 2 ^ 63 →
  get_nanoseconds t' = d ∧
  (d < 1000 * 2 ^ 53 → get_microseconds t' = d / 1000) ∧
  get_milliseconds t' = d / 1000000 ∧ get_seconds t' = d / 1000000000.
Proof.
  intros Ha Hb d t' Hd. destruct (diff_spec a b Ha Hb) as [_ E].
  assert (get_nanoseconds t' = d) as E0.
  { unfold get_nanoseconds, t', timer_stop, timer_start. cbn. fold (nanoseconds (diff a b)).
    rewrite E. apply wrap_u_id; lia. }
  assert (∀ z, z < 2 ^ 53 → to_double z = z) as Hx.
  { intros z Hz. unfold to_double. by rewrite decide_True. }
  unfold get_microseconds, get_milliseconds, get_seconds. rewrite E0.
  split_and!; [done|intros ?| |]; apply Hx; apply Z.div_lt_upper_bound; lia.
Qed.

(** ** The test decides primality *)

Lemma prime_loop_spec n i num :
  2 ≤ i → i + Z.of_nat n < 2 ^ 64 →
  prime_loop n i num = true ↔ ∃ d, i ≤ d < i + Z.of_nat n ∧ (d | num).
Proof.
  revert i. induction n as [|n IH]; intros i Hi Hn; cbn [prime_loop].
  { split; [done|]. intros (d & ? & _). lia. }
  destruct (decide (num mod i = 0)) as [E|E].
  - split; [|done]. intros _. exists i. split; [lia|]. apply Z.mod_divide; [lia|done].
  - rewrite wrap_u_id, IH by lia. split; intros (d & Hd & Hdiv); exists d; (split; [|done]).
    + lia.
    + destruct (decide (d = i)) as [-> |]; [|lia]. apply Z.mod_divide in Hdiv; [done|lia].
Qed.

(** The loop finds no divisor exactly if the number is prime or less than 2:
    a divisor is at most half of the number. *)
Theorem has_divisor_spec num :
  0 ≤ num < 2 ^ 64 → has_divisor num = false ↔ num < 2 ∨ Z.prime num.
Proof.
  intros Hn. unfold has_divisor. pose proof (Z.mul_div_le num 2 ltac:(lia)).
  pose proof (Z.mul_succ_div_gt num 2 ltac:(lia)).
  rewrite <- not_true_iff_false, prime_loop_spec by lia. split.
  - intros Hno. destruct (decide (num < 2)); [by left|]. right. split; [lia|].
    intros d Hd [k Hk]. apply Hno. exists d. split; [|by exists k].
    assert (2 ≤ k) by nia. assert (d ≤ num / 2); [|lia]. apply Z.div_le_lower_bound; nia.
  - intros Hp (d & Hd & Hdiv). destruct Hp as [?|[_ Hp]]; [lia|]. apply (Hp d); [lia|done].
Qed.

(** The input of the benchmark is prime, as its comment says. *)
Example benchmark_input_prime : Z.prime 0xE423.
Proof.
  assert (has_divisor 0xE423 = false) as E by (vm_compute; reflexivity).
  apply has_divisor_spec in E as [?|?]; [lia|done|lia].
Qed.

Section model_spec.
Context `{SO : SysOps, IO : IoctlNr}.
Implicit Types (s : ustate).

(** The result a task has after a worker ran. *)
Definition verdict (num : Z) : Z := if has_divisor num then 1 else 0.

Lemma primality_test_run task num r s :
  u_heap s !! task = Some (UTask num r) →
  primality_test task s =
    URet tt (uset_heap (<[task := UTask num (Some (verdict num))]> (u_heap s)) s).
Proof.
  intros E. unfold primality_test, load_task, verdict. ustep. cbn [fst]. destruct (has_divisor num); [|done].
  ured. by rewrite insert_insert_eq.
Qed.

(** A worker of the benchmark stores the verdict, 0 for a prime, and reports it
    with a yield; a yield that fails is only printed. *)
Theorem ums_worker_proc_spec task num r s :
  0 ≤ num < 2 ^ 64 → u_heap s !! task = Some (UTask num r) →
  let s' := uset_heap (<[task := UTask num (Some (verdict num))]> (u_heap s)) s in
  (verdict num = 0 ↔ num < 2 ∨ Z.prime num) ∧
  (∀ out o, answers s' IOCTL_UMS_YIELD (val_arg (ptr_val task)) 0 out o →
    primality_test_ums_worker_proc task s = URet 0 (uset_os o s')) ∧
  (∀ e o, fails s' IOCTL_UMS_YIELD (val_arg (ptr_val task)) e o →
    ∃ s'', primality_test_ums_worker_proc task s = URet 0 s'' ∧ u_heap s'' = u_heap s' ∧
      u_stderr s'' = u_stderr s ++ [("ums_thread_yield"%string, e)]).
Proof.
  intros Hn E s'. split_and!.
  - rewrite <- has_divisor_spec by done. unfold verdict. by destruct (has_divisor num).
  - intros out o Ha. unfold primality_test_ums_worker_proc.
    urun (primality_test_run task num r s E). fold s'. by urun (yield_answers _ _ _ _ Ha).
  - intros e o Ha. eexists. unfold primality_test_ums_worker_proc.
    urun (primality_test_run task num r s E). fold s'. by urun (yield_fails _ _ _ _ Ha).
Qed.
End model_spec.
