(* ===== verification/BenchSuite.v ===== *)
(** * The suites of the benchmark: [src/benchmark/lib/src], [src/benchmark/bin/src/main.c]

    A suite is an object in memory: a structure of cells, whose first members
    are those of [struct benchmark_suite] (so that a pointer to it is one to its
    base), and arrays of pointers to its schedulers and workers.  The two
    implementations are called through the table of functions the first cell
    points to.

    A cell is 8 bytes wide; a [pthread_t], a pointer, a [long] and each [time_t]
    take one.  The CPU set is not kept; of thread attributes the process counts those
    that are initialised ([u_attrs]), which nothing destroys. *)
From S2P Require Import Prelude ListHead Kernel Uapi State User UserLib Example Benchmark.
From stdpp Require Import prelude gmap strings pretty.

Local Open Scope Z_scope.

(** ** Members *)

(** [struct benchmark_suite] *)
Definition SUITE_VTABLE : nat := 0.
Definition SUITE_TASKS : nat := 1.
Definition SUITE_N_TASKS : nat := 2.
Definition SUITE_TIMER : nat := 3.
(** [struct benchmark_suite_ums]; [struct benchmark_suite_pthread] has
    [workers] and [worker_proc] after the base. *)
Definition UMS_COMPLIST : nat := 9.
Definition UMS_SCHEDULERS : nat := 10.
Definition UMS_WORKERS : nat := 11.
Definition UMS_N_SCHEDULERS : nat := 12.
Definition UMS_WORKER_PROC : nat := 13.
Definition PT_WORKERS : nat := 9.
Definition PT_WORKER_PROC : nat := 10.
Definition ums_suite_cells : nat := 14.
Definition pt_suite_cells : nat := 11.
(** The addresses of [ums_vtable] and [pthread_vtable]. *)
Definition ums_vtable : Z := 1.
Definition pthread_vtable : Z := 2.
(** [struct ums_scheduler], with the members of [startup_info] *)
Definition SCHED_THREAD : nat := 0.
Definition SCHED_COMPLIST : nat := 1.
Definition SCHED_ENTRY : nat := 2.
Definition SCHED_PARAM : nat := 3.
(** [struct ums_worker], [struct pthread_worker] *)
Definition WORKER_THREAD : nat := 0.
Definition WORKER_ROUTINE : nat := 1.
Definition WORKER_TASK : nat := 2.

(** The pointer kept in a cell. *)
Definition cell_ptr (p : cptr addr) : Z := match p with Ptr a => ptr_val a | _ => 0 end.

Section suite.
Context `{SO : SysOps, IO : IoctlNr}.

(** [clock_gettime], the code of the entry points and of the workers' procedures,
    the address of [worker_routine], the build options. *)
Context (clock : os → timespec * os) (sched_text : Z → ums_scheduler_entry_point_t).
Context (worker_routine_addr : addr) (have_attr_affinity have_sched_affinity : bool).

Definition load_ptr (a : addr) (i : nat) : uM addr := v ← load_cell a i; uderef (val_ptr v).
(** A thread's id, where it could be created. *)
Definition store_thread (a : addr) (i : nat) (t : option Z) : uM unit :=
  match t with Some t => store_cell a i t | None => mret tt end.

(** ** ums/scheduler.c *)

Definition bench_scheduler_out (scheduler : addr) : uM (cptr addr) :=
  _ ← free (Ptr scheduler); mret PNull.

Definition bench_scheduler_create (completion_list entry param : Z) : uM (cptr addr) :=
  scheduler ← malloc (UCells (replicate 4 None));
  match scheduler with
  | Ptr a =>
      _ ← store_cell a SCHED_COMPLIST completion_list;
      _ ← store_cell a SCHED_ENTRY entry;
      _ ← store_cell a SCHED_PARAM param;
      r ← pthread_attr_init;
      if decide (r ≠ 0) then bench_scheduler_out a else
      r ← if have_attr_affinity then ucall sys_pthread_attr else mret 0;
      if decide (r ≠ 0) then bench_scheduler_out a else
      r ← ucall sys_pthread_attr;
      if decide (r ≠ 0) then bench_scheduler_out a else
      t ← pthread_create 1 StartScheduler (ptr_val a);
      _ ← store_thread a SCHED_THREAD t.2;
      if decide (t.1 ≠ 0) then bench_scheduler_out a else mret (Ptr a)
  | _ => mret PNull
  end.

Definition bench_scheduler_destroy (scheduler : cptr addr) : uM Z := _ ← free scheduler; mret 0.

(** The library reads the structure in every pass; here it is read once. *)
Definition bench_sched_pthread_proc (fuel : nat) (scheduler : addr) : uM Z :=
  _ ← if negb have_attr_affinity && have_sched_affinity
      then _ ← ucall sys_pthread_attr; mret tt else mret tt;
  cl ← load_cell scheduler SCHED_COMPLIST;
  entry ← load_cell scheduler SCHED_ENTRY;
  param ← load_cell scheduler SCHED_PARAM;
  _ ← enter_ums_scheduling_mode fuel (Ptr (mk_startup_info cl (sched_text entry) param));
  mret 0.

(** ** ums/worker.c, pthread/worker.c *)

(** Both allocate and fill the structure and start a thread with it. *)
Definition worker_create (start : Z → uM (Z * option Z)) (routine task : Z) : uM (cptr addr) :=
  worker ← malloc (UCells (replicate 3 None));
  match worker with
  | Ptr a =>
      _ ← store_cell a WORKER_ROUTINE routine;
      _ ← store_cell a WORKER_TASK task;
      t ← start (ptr_val a);
      _ ← store_thread a WORKER_THREAD t.2;
      if decide (t.1 ≠ 0) then _ ← free (Ptr a); mret PNull else mret (Ptr a)
  | _ => mret PNull
  end.
Definition bench_worker_create (attr : ums_attr_t) : Z → Z → uM (cptr addr) :=
  worker_create (ums_pthread_create (Ptr attr) (Ptr worker_routine_addr)).
Definition pthread_worker_create : Z → Z → uM (cptr addr) :=
  worker_create (pthread_create 0 StartPlain).

Definition worker_routine (text : Z → Z → uM Z) (worker : addr) : uM Z :=
  routine ← load_cell worker WORKER_ROUTINE;
  task ← load_cell worker WORKER_TASK;
  text routine task.

Definition worker_destroy (worker : addr) : uM Z :=
  t ← load_cell worker WORKER_THREAD;
  retval ← pthread_join (Some t);
  _ ← free (Ptr worker);
  mret retval.

(** ** Loops over the arrays *)

(** [for (i = 0; i < n; i++)] with a creation that may fail: the index at which
    it failed. *)
Fixpoint create_all (n i : nat) (arr : addr) (create : nat → uM (cptr addr)) : uM (option nat) :=
  match n with
  | O => mret None
  | S n =>
      p ← create i;
      _ ← store_cell arr i (cell_ptr p);
      match p with Ptr _ => create_all n (S i) arr create | _ => mret (Some i) end
  end.

(** [for (; i > 0; i--)] *)
Fixpoint destroy_down (i : nat) (arr : addr) (destroy : addr → uM Z) : uM unit :=
  match i with
  | O => mret tt
  | S i => p ← load_ptr arr i; _ ← destroy p; destroy_down i arr destroy
  end.

(** [for (i = 0; i < n; i++)] until a call fails; [retval] is the result of the
    last call, [None] before the first. *)
Fixpoint destroy_up (n i : nat) (arr : addr) (destroy : addr → uM Z) (retval : option Z) :
    uM (option Z) :=
  match n with
  | O => mret retval
  | S n =>
      p ← load_ptr arr i;
      r ← destroy p;
      if decide (r ≠ 0) then mret (Some r) else destroy_up n (S i) arr destroy (Some r)
  end.

(** ** ums/suite.c *)

Definition sched_free (p : addr) : uM Z := bench_scheduler_destroy (Ptr p).

Definition benchmark_suite_ums_init (n_tasks : Z) (complist : addr) (sched_proc work_proc : Z)
    (suite : addr) : uM Z :=
  n_schedulers ← ugets (λ s, sys_nproc (u_os s));
  _ ← store_cell suite UMS_N_SCHEDULERS n_schedulers;
  schedulers ← malloc_array n_schedulers;
  match schedulers with
  | Ptr sc =>
      workers ← malloc_array n_tasks;
      match workers with
      | Ptr wk =>
          _ ← store_cell suite UMS_SCHEDULERS (ptr_val sc);
          _ ← store_cell suite UMS_WORKERS (ptr_val wk);
          _ ← store_cell suite UMS_COMPLIST (ptr_val complist);
          _ ← store_cell suite UMS_WORKER_PROC work_proc;
          r ← create_ums_completion_list (Ptr complist);
          if decide (r ≠ 0) then
            _ ← free workers; _ ← free schedulers; mret (-1)
          else
            cl ← load_int complist;
            failed ← create_all (Z.to_nat n_schedulers) 0 sc
              (λ _, bench_scheduler_create cl sched_proc 0);
            match failed with
            | None => mret 0
            | Some i =>
                _ ← destroy_down i sc sched_free;
                _ ← delete_ums_completion_list (Ptr complist);
                _ ← free workers; _ ← free schedulers; mret (-1)
            end
      | _ => _ ← free schedulers; mret (-1)
      end
  | _ => mret (-1)
  end.

(** [benchmark_suite_ctor] *)
Definition benchmark_suite_ctor (suite tasks : addr) (n_tasks : Z) : uM unit :=
  _ ← store_cell suite SUITE_TASKS (ptr_val tasks); store_cell suite SUITE_N_TASKS n_tasks.

Definition benchmark_suite_ums_create (tasks : addr) (n_tasks : Z) (complist : addr)
    (sched_proc work_proc : Z) : uM (cptr addr) :=
  suite ← malloc (UCells (replicate ums_suite_cells None));
  match suite with
  | Ptr a =>
      _ ← benchmark_suite_ctor a tasks n_tasks;
      _ ← store_cell a SUITE_VTABLE ums_vtable;
      retval ← benchmark_suite_ums_init n_tasks complist sched_proc work_proc a;
      if decide (retval ≠ 0) then _ ← free suite; mret PNull else mret suite
  | _ => mret PNull
  end.

(** Creation and joining of the workers; [retval] has no value if there is no
    task. *)
Definition run_workers (suite : addr) (workers : nat) (create : Z → uM (cptr addr)) : uM Z :=
  n_tasks ← load_cell suite SUITE_N_TASKS;
  tasks ← load_ptr suite SUITE_TASKS;
  wk ← load_ptr suite workers;
  let n := Z.to_nat n_tasks in
  failed ← create_all n 0 wk (λ i, task ← load_cell tasks i; create task);
  match failed with
  | Some i => _ ← destroy_down i wk worker_destroy; mret (-1)
  | None =>
      retval ← destroy_up n 0 wk worker_destroy None;
      match retval with Some r => mret r | None => ucrash Undefined end
  end.

Definition benchmark_suite_ums_run (suite : addr) : uM Z :=
  complist ← load_ptr suite UMS_COMPLIST;
  cl ← load_int complist;
  worker_proc ← load_cell suite UMS_WORKER_PROC;
  run_workers suite UMS_WORKERS (bench_worker_create (mk_attr cl 0) worker_proc).

(** A scheduler is destroyed without failure; the suite itself is kept. *)
Definition benchmark_suite_ums_destroy (suite : addr) : uM Z :=
  n_schedulers ← load_cell suite UMS_N_SCHEDULERS;
  sc ← load_ptr suite UMS_SCHEDULERS;
  r ← destroy_up (Z.to_nat n_schedulers) 0 sc sched_free None;
  if decide (default 0 r ≠ 0) then mret (default 0 r) else
  _ ← free (Ptr sc);
  wk ← load_ptr suite UMS_WORKERS;
  _ ← free (Ptr wk);
  complist ← load_ptr suite UMS_COMPLIST;
  delete_ums_completion_list (Ptr complist).

(** ** pthread/suite.c *)

Definition benchmark_suite_pthread_init (work_proc : Z) (suite : addr) : uM Z :=
  n_tasks ← load_cell suite SUITE_N_TASKS;
  workers ← malloc_array n_tasks;
  match workers with
  | Ptr wk =>
      _ ← store_cell suite PT_WORKERS (ptr_val wk);
      _ ← store_cell suite PT_WORKER_PROC work_proc;
      mret 0
  | _ => mret (-1)
  end.
Definition benchmark_suite_pthread_create (tasks : addr) (n_tasks work_proc : Z) : uM (cptr addr) :=
  suite ← malloc (UCells (replicate pt_suite_cells None));
  match suite with
  | Ptr a =>
      _ ← benchmark_suite_ctor a tasks n_tasks;
      _ ← store_cell a SUITE_VTABLE pthread_vtable;
      retval ← benchmark_suite_pthread_init work_proc a;
      if decide (retval ≠ 0) then _ ← free suite; mret PNull else mret suite
  | _ => mret PNull
  end.
Definition benchmark_suite_pthread_run (suite : addr) : uM Z :=
  worker_proc ← load_cell suite PT_WORKER_PROC;
  run_workers suite PT_WORKERS (pthread_worker_create worker_proc).
Definition benchmark_suite_pthread_destroy (suite : addr) : uM Z :=
  wk ← load_ptr suite PT_WORKERS; _ ← free (Ptr wk); mret 0.

(** ** suite.c *)

Definition store_timespec (a : addr) (i : nat) (t : timespec) : uM unit :=
  _ ← store_cell a i (tv_sec t); store_cell a (S i) (tv_nsec t).
Definition load_timespec (a : addr) (i : nat) : uM timespec :=
  sec ← load_cell a i; nsec ← load_cell a (S i); mret (mk_timespec sec nsec).

(** [timer_start], [timer_stop] and [get_nanoseconds] on the timer of a suite:
    [begin], [end] and [elapsed] take two cells each. *)
Definition suite_timer_start (suite : addr) : uM unit :=
  now ← ucall clock; store_timespec suite SUITE_TIMER now.
Definition suite_timer_stop (suite : addr) : uM unit :=
  now ← ucall clock;
  _ ← store_timespec suite (SUITE_TIMER + 2) now;
  begin ← load_timespec suite SUITE_TIMER;
  store_timespec suite (SUITE_TIMER + 4) (diff begin now).
Definition suite_nanoseconds (suite : addr) : uM Z :=
  elapsed ← load_timespec suite (SUITE_TIMER + 4);
  mret (get_nanoseconds (mk_timer elapsed elapsed elapsed)).

Definition benchmark_suite_run (suite : addr) : uM Z :=
  _ ← suite_timer_start suite;
  vtable ← load_cell suite SUITE_VTABLE;
  retval ← if decide (vtable = ums_vtable) then benchmark_suite_ums_run suite
           else if decide (vtable = pthread_vtable) then benchmark_suite_pthread_run suite
           else ucrash Segv;
  _ ← suite_timer_stop suite;
  mret retval.
Definition benchmark_suite_destroy (suite : addr) : uM Z :=
  vtable ← load_cell suite SUITE_VTABLE;
  if decide (vtable = ums_vtable) then benchmark_suite_ums_destroy suite
  else if decide (vtable = pthread_vtable) then benchmark_suite_pthread_destroy suite
  else ucrash Segv.

(** ** main.c *)

(** What [getopt_long] and [strtol] make of the arguments. *)
Inductive bench_opt :=
  | OptTask (optarg : string)
  | OptWorkers (n : Z)
  | OptHelp
  | OptUnknown (optopt : string).

Definition eputs (text : string) : uM unit :=
  umodify (λ s, uset_out (u_stdout s) (u_stderr s ++ [(text, 0)]) s).
(** The text is shortened. *)
Definition print_usage (to_stderr : bool) : uM unit :=
  if to_stderr then eputs "Usage" else puts "Usage".

(** The option loop: the value main returns, or the number of workers. *)
Fixpoint parse_options (opts : list bench_opt) (n_workers : Z) : uM (Z + Z) :=
  match opts with
  | [] => mret (inr n_workers)
  | OptTask optarg :: opts =>
      if decide (optarg = "prime"%string) then parse_options opts n_workers else
      _ ← eputs ("Type '" +:+ optarg +:+ "' not valid");
      _ ← print_usage true; mret (inl (-1))
  | OptWorkers n :: opts => parse_options opts n
  | OptHelp :: _ => _ ← print_usage false; mret (inl 0)
  | OptUnknown optopt :: _ =>
      _ ← eputs ("Unknown option '-" +:+ optopt +:+ "'.");
      _ ← print_usage true; mret (inl (-1))
  end.

(** The label [out]: the tasks before index [i], then the array. *)
Definition free_task (task : addr) : uM Z := _ ← free (Ptr task); mret 0.
Definition main_out (i : nat) (tasks : addr) (retval : Z) : uM Z :=
  _ ← destroy_down i tasks free_task; _ ← free (Ptr tasks); mret retval.

Context (comp_list : addr) (sched_entry ums_proc pthread_proc : Z).

(** The suite named on the command line; [None]: no such suite. *)
Definition create_suite (name : string) (tasks : addr) (n_tasks : Z) : uM (option (cptr addr)) :=
  if decide (name = "ums"%string) then
    a ← benchmark_suite_ums_create tasks n_tasks comp_list sched_entry ums_proc; mret (Some a)
  else if decide (name = "pthread"%string) then
    a ← benchmark_suite_pthread_create tasks n_tasks pthread_proc; mret (Some a)
  else mret None.

(** The report is printed without its JSON punctuation. *)
Definition bench_main (opts : list bench_opt) (args : list string) : uM Z :=
  parsed ← parse_options opts 0;
  match parsed, args with
  | inl r, _ => mret r
  | inr _, [] => _ ← print_usage true; mret (-1)
  | inr n_workers, name :: _ =>
      if decide (n_workers = 0) then _ ← print_usage true; mret (-1) else
      tasks ← malloc_array n_workers;
      match tasks with
      | Ptr ts =>
          let n := Z.to_nat n_workers in
          failed ← create_all n 0 ts (λ _, malloc (UTask 0xE423 None));
          match failed with
          | Some i => _ ← perror "malloc task"; main_out i ts (-1)
          | None =>
              suite ← create_suite name ts (u64 n_workers);
              match suite with
              | None => _ ← eputs ("Benchmark type '" +:+ name +:+ "' not valid"); mret (-1)
              | Some (Ptr a) =>
                  retval ← benchmark_suite_run a;
                  if decide (retval ≠ 0) then _ ← perror "benchmark_suite_run"; main_out n ts (-1)
                  else
                    ns ← suite_nanoseconds a;
                    _ ← puts ("num_workers: " +:+ pretty n_workers +:+ ", nanoseconds: " +:+ pretty ns);
                    retval ← benchmark_suite_destroy a;
                    main_out n ts retval
              | Some _ => _ ← perror "benchmark_suite_create"; main_out n ts (-1)
              end
          end
      | _ => _ ← perror "malloc tasks"; mret (-1)
      end
  end.
End suite.
