(* ===== verification/BenchSpec.v ===== *)
(** * What the suites of the benchmark allocate and free

    A logic for user code that looks at its memory: [ugives m s Q] says that
    [m] does not crash from [s], that it returns unless a call of the system
    does not, and that [Q] holds then.  With it: what creation, run and
    destruction of a suite leave allocated. *)
From S2P Require Import Prelude ListHead Kernel Uapi State User UserLib Example ExampleSpec.
From S2P Require Import KernelInst Benchmark BenchSuite.
From stdpp Require Import prelude gmap strings.

Local Open Scope Z_scope.

Section logic.
Context `{SO : SysOps, IO : IoctlNr, ML : !MallocLaws}.
Implicit Types (s : ustate) (h : gmap addr uobj).

(** Every system call returns. *)
Definition prompt : Prop :=
  (∀ fd cmd arg o, is_Some (sys_ioctl fd cmd arg o)) ∧ (∀ t o, is_Some (sys_pthread_join t o)).

Definition ugives {A} (m : uM A) s (Q : A → ustate → Prop) : Prop :=
  match m s with URet a s' => Q a s' | UBlocked _ => ¬ prompt | UCrash _ => False end.

Lemma ugives_bind {A B} (m : uM A) (f : A → uM B) s (P : A → ustate → Prop) (Q : B → ustate → Prop) :
  ugives m s P → (∀ a s', P a s' → ugives (f a) s' Q) → ugives (m ≫= f) s Q.
Proof. unfold ugives, mbind, uM_bind. destruct (m s); [intros HP H; exact (H _ _ HP)|done..]. Qed.
Lemma ugives_ret {A} (a : A) s (Q : A → ustate → Prop) : Q a s → ugives (mret a) s Q.
Proof. done. Qed.
Lemma ugives_weaken {A} (m : uM A) s (P Q : A → ustate → Prop) :
  ugives m s P → (∀ a s', P a s' → Q a s') → ugives m s Q.
Proof. unfold ugives. destruct (m s); [intros HP H; exact (H _ _ HP)|done..]. Qed.

(** Code whose effect on memory is known: it turns the heap [h] into one that
    [Q] accepts with the result. *)
Definition memory {A} (m : uM A) h (Q : A → gmap addr uobj → Prop) : Prop :=
  ∀ s, u_heap s = h → ugives m s (λ a s', Q a (u_heap s')).

Lemma memory_bind {A B} (m : uM A) (f : A → uM B) h (P : A → gmap addr uobj → Prop)
    (Q : B → gmap addr uobj → Prop) :
  memory m h P → (∀ a h', P a h' → memory (f a) h' Q) → memory (m ≫= f) h Q.
Proof.
  intros Hm Hf s E. eapply ugives_bind; [by apply Hm|]. intros a s' HP. by apply (Hf a (u_heap s')).
Qed.
Lemma memory_ret {A} (a : A) h (Q : A → gmap addr uobj → Prop) : Q a h → memory (mret a) h Q.
Proof. intros HQ s <-. done. Qed.
Lemma memory_done {A} (a : A) h : memory (mret a) h (λ _ h', h' = h).
Proof. by apply memory_ret. Qed.
Lemma memory_weaken {A} (m : uM A) h (P Q : A → gmap addr uobj → Prop) :
  memory m h P → (∀ a h', P a h' → Q a h') → memory m h Q.
Proof. intros Hm HPQ s E. eapply ugives_weaken; [by apply Hm|]. auto. Qed.

(** ** Primitives *)

Lemma memory_call {A} (f : os → A * os) h : memory (ucall f) h (λ _ h', h' = h).
Proof. intros s <-. unfold ugives, ucall. by destruct (f (u_os s)). Qed.
Lemma memory_attr_init h : memory pthread_attr_init h (λ _ h', h' = h).
Proof.
  eapply memory_bind; [apply memory_call|]. intros r ? ->. eapply memory_bind.
  - instantiate (1 := λ _ h', h' = h). case_decide; intros s <-; done.
  - intros _ ? ->. apply memory_done.
Qed.
Lemma memory_opt_call {A} (b : bool) (f : os → A * os) v h :
  memory (if b then ucall f else mret v) h (λ _ h', h' = h).
Proof. destruct b; [apply memory_call|]. by intros s <-. Qed.
Lemma memory_gets {A} (f : ustate → A) h : memory (ugets f) h (λ _ h', h' = h).
Proof. intros s <-. done. Qed.
Lemma memory_syscall r h : memory (syscall_ret r) h (λ _ h', h' = h).
Proof. intros s <-. unfold ugives, syscall_ret. by destruct (decide _). Qed.
Lemma memory_ioctl cmd arg h : memory (ums_ioctl cmd arg) h (λ _ h', h' = h).
Proof.
  eapply memory_bind; [apply memory_gets|]. intros fd ? ->. intros s <-. unfold ugives, ioctl.
  destruct (sys_ioctl _ _ _ _) as [[[r out] o]|] eqn:Eio.
  2: { intros [Hp _]. destruct (Hp fd cmd arg (u_os s)). congruence. }
  apply (ugives_bind _ _ _ (λ _ s', u_heap s' = u_heap s)); [by apply (memory_syscall r)|].
  intros r' s' E. by apply ugives_ret.
Qed.
Lemma memory_load_int a v h : h !! a = Some (UInt v) → memory (load_int a) h (λ r h', r = v ∧ h' = h).
Proof. intros E s <-. unfold ugives. by rewrite (load_int_run _ _ _ E). Qed.
Lemma memory_store_int a v x h :
  h !! a = Some (UInt v) → memory (store_int a x) h (λ _ h', h' = <[a := UInt x]> h).
Proof. intros E s <-. unfold ugives. by rewrite (store_int_run _ _ _ _ E). Qed.
Lemma memory_load_cell a l i v h :
  h !! a = Some (UCells l) → l !! i = Some (Some v) →
  memory (load_cell a i) h (λ r h', r = v ∧ h' = h).
Proof. intros E El s <-. unfold ugives, load_cell. ured. by rewrite E, El. Qed.
Lemma memory_store_cell a l i v h :
  h !! a = Some (UCells l) → (i < length l)%nat →
  memory (store_cell a i v) h (λ _ h', h' = <[a := UCells (<[i := Some v]> l)]> h).
Proof. intros E El s <-. unfold ugives, store_cell. ured. rewrite E. by rewrite decide_True. Qed.
Lemma memory_load_ptr a l i p h :
  h !! a = Some (UCells l) → l !! i = Some (Some (ptr_val p)) →
  memory (load_ptr a i) h (λ r h', r = p ∧ h' = h).
Proof.
  intros E El. eapply memory_bind; [by eapply memory_load_cell|]. intros ? ? [-> ->].
  by apply memory_ret.
Qed.
Lemma memory_free a o h :
  h !! a = Some o → memory (free (Ptr a)) h (λ _ h', h' = delete a h).
Proof. intros E s <-. unfold ugives. by rewrite (free_run _ _ _ E). Qed.
Lemma memory_malloc o h :
  memory (malloc o) h (λ p h',
    match p with Ptr a => h !! a = None ∧ h' = <[a := o]> h | PNull => h' = h | PUninit => False end).
Proof.
  intros s <-. unfold ugives, malloc. destruct (c_malloc _ _) as [[a|] e] eqn:E; [|done].
  split; [|done]. by apply malloc_fresh, not_elem_of_dom in E.
Qed.
Lemma memory_malloc_array n h :
  memory (malloc_array n) h (λ p h',
    match p with
    | Ptr a => h !! a = None ∧ u64 (n * 8) < 2 ^ 63 ∧
        h' = <[a := UCells (replicate (Z.to_nat (u64 (n * 8) / 8)) None)]> h
    | PNull => h' = h
    | PUninit => False
    end).
Proof.
  unfold malloc_array. case_decide; [|by intros s <-].
  eapply memory_weaken; [apply memory_malloc|]. intros [| |a] h'; [done..|]. intros [? ->]. done.
Qed.
Lemma memory_thread attr f arg h :
  memory (pthread_create attr f arg) h (λ t h', (t.1 = 0 ↔ is_Some t.2) ∧ h' = h).
Proof.
  eapply memory_bind; [apply memory_call|]. intros [r t] ? ->. apply memory_ret. cbn.
  split; [|done]. case_decide; [by split|]. split; [done|]. by intros [].
Qed.
Lemma memory_join t h : memory (pthread_join (Some t)) h (λ _ h', h' = h).
Proof.
  intros s <-. unfold ugives, pthread_join. destruct (sys_pthread_join _ _) as [[]|] eqn:E; [done|].
  intros [_ Hp]. destruct (Hp t (u_os s)). congruence.
Qed.
Lemma ugives_returns {A} (m : uM A) s Q :
  prompt → ugives m s Q → ∃ a s', m s = URet a s' ∧ Q a s'.
Proof. unfold ugives. intros Hp. destruct (m s); [eauto|done..]. Qed.

(** The library's calls change nothing but the variable of the list. *)
Lemma memory_create_list p v h :
  h !! p = Some (UInt v) →
  memory (create_ums_completion_list (Ptr p)) h (λ _ h', ∃ v, h' = <[p := UInt v]> h).
Proof.
  intros E. eapply memory_bind; [apply memory_gets|]. intros o ? ->.
  eapply memory_bind; [apply memory_ioctl|]. intros r ? ->.
  eapply (memory_bind _ _ _ (λ _ h', ∃ v, h' = <[p := UInt v]> h)).
  - destruct (out_id r.2) as [id|].
    + eapply memory_weaken; [by eapply memory_store_int|]. intros _ ? ->. by eexists.
    + apply memory_ret. exists v. by rewrite insert_id.
  - intros _ ? [v' ->]. apply memory_ret. by eexists.
Qed.
Lemma memory_delete_list p v h :
  h !! p = Some (UInt v) →
  memory (delete_ums_completion_list (Ptr p)) h (λ _ h', ∃ v, h' = <[p := UInt v]> h).
Proof.
  intros E. eapply memory_bind; [by eapply memory_load_int|]. intros ? ? [-> ->].
  eapply memory_bind; [apply memory_ioctl|]. intros r ? ->.
  eapply (memory_bind _ _ _ (λ _ h', ∃ v, h' = <[p := UInt v]> h)).
  - case_decide.
    + eapply memory_weaken; [by eapply memory_store_int|]. intros _ ? ->. by eexists.
    + apply memory_ret. exists v. by rewrite insert_id.
  - intros _ ? [v' ->]. apply memory_ret. by eexists.
Qed.
End logic.

(** ** Objects reached from an array *)

(** [l]: objects that were added to a heap, the newest first. *)
Definition with_objs (l : list (addr * uobj)) (h : gmap addr uobj) : gmap addr uobj :=
  foldr (λ x, <[x.1 := x.2]>) h l.

Lemma with_objs_lookup l h a : a ∉ l.*1 → with_objs l h !! a = h !! a.
Proof.
  induction l as [|x l IH]; [done|]. cbn. intros [Hx Hl]%not_elem_of_cons.
  rewrite lookup_insert_ne by done. by apply IH.
Qed.
Lemma with_objs_insert l h a o : a ∉ l.*1 → <[a := o]> (with_objs l h) = with_objs l (<[a := o]> h).
Proof.
  induction l as [|x l IH]; [done|]. cbn. intros [Hx Hl]%not_elem_of_cons.
  rewrite insert_insert_ne by done. f_equal. by apply IH.
Qed.
Lemma with_objs_delete l h a : a ∉ l.*1 → delete a (with_objs l h) = with_objs l (delete a h).
Proof.
  induction l as [|x l IH]; [done|]. cbn. intros [Hx Hl]%not_elem_of_cons.
  rewrite delete_insert_ne by done. f_equal. by apply IH.
Qed.
Lemma with_objs_app l1 l2 h : with_objs (l1 ++ l2) h = with_objs l1 (with_objs l2 h).
Proof. unfold with_objs. by rewrite foldr_app. Qed.

(** The heap [H] is [h] with an array at [arr], whose cells from [i] on point to
    the objects [l] in the order they were created. *)
Record array_of (good : uobj → Prop) (arr : addr) (i : nat) (l : list (addr * uobj))
    (c : list (option Z)) (h H : gmap addr uobj) : Prop := {
  ao_heap : H = with_objs l (<[arr := UCells c]> h);
  ao_nodup : NoDup (arr :: l.*1);
  ao_fresh : Forall (λ x, h !! x.1 = None ∧ good x.2) l;
  ao_cells j x : reverse l !! j = Some x → c !! (i + j)%nat = Some (Some (ptr_val x.1));
}.

Section arrays.
Context (good : uobj → Prop) (arr : addr).
Implicit Types (l : list (addr * uobj)) (h H : gmap addr uobj) (c : list (option Z)).

Lemma array_lookup i l c h H : array_of good arr i l c h H → H !! arr = Some (UCells c).
Proof.
  intros [-> Hnd _ _]. apply NoDup_cons in Hnd as [Ha _]. rewrite with_objs_lookup by done.
  apply lookup_insert_eq.
Qed.

Lemma with_objs_in l h a : with_objs l h !! a = None → (a ∉ l.*1) ∧ h !! a = None.
Proof.
  induction l as [|x l IH]; [by split; [apply not_elem_of_nil|]|]. cbn.
  destruct (decide (x.1 = a)) as [<-|Hx]; [by rewrite lookup_insert_eq|].
  rewrite lookup_insert_ne by done. intros [? ?]%IH. split; [|done]. by apply not_elem_of_cons.
Qed.

(** A new object whose address is stored in the next cell. *)
Lemma array_push l c h H a o :
  array_of good arr 0 l c h H → H !! a = None → good o → (length l < length c)%nat →
  array_of good arr 0 ((a, o) :: l) (<[length l := Some (ptr_val a)]> c) h
    (<[arr := UCells (<[length l := Some (ptr_val a)]> c)]> (<[a := o]> H)).
Proof.
  intros Hao Ha Ho Hlen. pose proof (array_lookup _ _ _ _ _ Hao) as Harr.
  destruct Hao as [-> Hnd HF Hc]. apply NoDup_cons in Hnd as [Hr Hnd].
  assert (a ≠ arr) by congruence.
  apply with_objs_in in Ha as [Hal Ha]. rewrite lookup_insert_ne in Ha by done. split.
  - cbn. rewrite insert_insert_ne by done. f_equal.
    rewrite with_objs_insert by done. by rewrite insert_insert_eq.
  - cbn. apply NoDup_cons. split; [set_solver|by apply NoDup_cons].
  - by constructor.
  - intros j x. rewrite reverse_cons. cbn.
    destruct (decide (j < length l)%nat) as [Hj|Hj].
    + rewrite lookup_app_l by (by rewrite length_reverse). intros Hx.
      rewrite list_lookup_insert_ne by lia. by apply Hc.
    + rewrite lookup_app_r by (rewrite length_reverse; lia). rewrite length_reverse.
      intros Hx. apply list_lookup_singleton_Some in Hx as [Hj' <-].
      replace j with (length l) by lia. by rewrite list_lookup_insert_eq.
Qed.
(** NULL stored in the next cell. *)
Lemma array_null l c h H v :
  array_of good arr 0 l c h H →
  array_of good arr 0 l (<[length l := Some v]> c) h (<[arr := UCells (<[length l := Some v]> c)]> H).
Proof.
  intros [-> Hnd HF Hc]. split; [|done|done|].
  - apply NoDup_cons in Hnd as [Hr _]. by rewrite with_objs_insert, insert_insert_eq.
  - intros j x Hx. pose proof (lookup_lt_Some _ _ _ Hx) as Hl. rewrite length_reverse in Hl.
    rewrite list_lookup_insert_ne by (cbn; lia). by apply Hc.
Qed.

(** The newest and the oldest object taken away. *)
Lemma array_pop x l c h H :
  array_of good arr 0 (x :: l) c h H →
  c !! length l = Some (Some (ptr_val x.1)) ∧ H !! x.1 = Some x.2 ∧ good x.2 ∧
  array_of good arr 0 l c h (delete x.1 H).
Proof.
  intros [-> Hnd HF Hc]. apply Forall_cons in HF as [[Hx Hg] HF]. split_and!; [| |done|].
  - apply (Hc (length l) x). rewrite reverse_cons, lookup_app_r; rewrite length_reverse; [|done].
    by rewrite Nat.sub_diag.
  - apply lookup_insert_eq.
  - cbn in Hnd. apply NoDup_cons in Hnd as [Ha Hnd]. apply NoDup_cons in Hnd as [Hxl Hnd].
    apply not_elem_of_cons in Ha as [Hax Ha]. split.
    + change (with_objs (x :: l) ?k) with (<[x.1 := x.2]> (with_objs l k)).
      rewrite delete_insert_id; [done|]. rewrite with_objs_lookup by done.
      by rewrite lookup_insert_ne.
    + by apply NoDup_cons.
    + done.
    + intros j y Hy. apply Hc. rewrite reverse_cons. by apply lookup_app_l_Some.
Qed.
Lemma array_shift x l i c h H :
  array_of good arr i (l ++ [x]) c h H →
  c !! i = Some (Some (ptr_val x.1)) ∧ H !! x.1 = Some x.2 ∧ good x.2 ∧
  array_of good arr (S i) l c h (delete x.1 H).
Proof.
  intros [-> Hnd HF Hc]. apply Forall_app in HF as [HF [[Hx Hg] _]%Forall_cons].
  apply NoDup_cons in Hnd as [Ha Hnd]. rewrite fmap_app in Ha, Hnd. cbn in Ha, Hnd.
  apply NoDup_app in Hnd as (Hnd & Hdis & _).
  assert (x.1 ∉ l.*1) as Hxl by (intros ?; by apply (Hdis x.1); [|apply list_elem_of_here]).
  assert (x.1 ≠ arr) as Hxa by set_solver.
  rewrite with_objs_app. cbn. split_and!.
  - rewrite <- (Nat.add_0_r i). apply Hc. by rewrite reverse_snoc.
  - rewrite with_objs_lookup by done. apply lookup_insert_eq.
  - done.
  - split.
    + rewrite with_objs_delete by done. f_equal. rewrite delete_insert_id; [done|].
      by rewrite lookup_insert_ne.
    + apply NoDup_cons. split; [set_solver|done].
    + done.
    + intros j y Hy. replace (S i + j)%nat with (i + S j)%nat by lia. apply Hc.
      by rewrite reverse_snoc.
Qed.
End arrays.

(** ** The loops *)

(** What a constructor does: a new object, or NULL and nothing. *)
Definition constructs (good : uobj → Prop) (h : gmap addr uobj) (p : cptr addr)
    (h' : gmap addr uobj) : Prop :=
  match p with
  | Ptr a => h !! a = None ∧ ∃ o, good o ∧ h' = <[a := o]> h
  | PNull => h' = h
  | PUninit => False
  end.

Section loops.
Context `{SO : SysOps, IO : IoctlNr, ML : !MallocLaws}.
Context (good : uobj → Prop) (arr : addr) (h : gmap addr uobj).
Implicit Types (l : list (addr * uobj)) (H : gmap addr uobj) (c : list (option Z)).

(** [ok] is what the constructor relies on: it does not depend on the array and
    the objects in it. *)
Context (ok : gmap addr uobj → Prop).
Context (ok_array : ∀ l i c H, ok h → array_of good arr i l c h H → ok H).

Lemma create_all_spec m n create l c H :
  ok h → (∀ i H, (i < m)%nat → ok H → memory (create i) H (constructs good H)) →
  array_of good arr 0 l c h H → (length l + n ≤ m)%nat → (m ≤ length c)%nat →
  memory (create_all n (length l) arr create) H (λ r H', ∃ l' c',
    array_of good arr 0 l' c' h H' ∧ length c' = length c ∧
    match r with None => length l' = (length l + n)%nat | Some k => length l' = k end).
Proof.
  intros Hok Hcr. revert l c H. induction n as [|n IH]; intros l c H Hao Hlen Hm.
  { apply memory_ret. exists l, c. split_and!; [done|done|lia]. }
  eapply memory_bind; [apply Hcr; [lia|by eauto]|]. intros p H1 HP.
  assert (H1 !! arr = Some (UCells c)) as Harr.
  { pose proof (array_lookup _ _ _ _ _ _ _ Hao). destruct p; [done|by rewrite HP|].
    destruct HP as (? & o & _ & ->). rewrite lookup_insert_ne; congruence. }
  eapply memory_bind; [eapply memory_store_cell; [done|lia]|]. intros _ ? ->.
  destruct p as [| |a]; [done| |].
  - cbn in HP. subst. apply memory_ret. eexists _, _.
    split; [by apply array_null|]. by rewrite length_insert.
  - destruct HP as (Ha & o & Ho & ->).
    eapply memory_weaken; [apply (IH ((a, o) :: l) (<[length l := Some (ptr_val a)]> c))|].
    + apply array_push; [done..|lia].
    + cbn. lia.
    + by rewrite length_insert.
    + rewrite length_insert. intros r H2 (l' & c' & ? & ? & Hr). exists l', c'.
      split_and!; [done..|]. destruct r; [done|]. cbn in Hr. lia.
Qed.

Context (R : Z → Prop) (destroy : addr → uM Z).
Context (destroy_spec : ∀ a o H, good o → H !! a = Some o →
  memory (destroy a) H (λ r H', R r ∧ H' = delete a H)).

Lemma destroy_down_spec l c H :
  array_of good arr 0 l c h H →
  memory (destroy_down (length l) arr destroy) H (λ _ H', H' = <[arr := UCells c]> h).
Proof.
  revert H. induction l as [|x l IH]; intros H Hao.
  { apply memory_ret. by destruct Hao. }
  pose proof (array_lookup _ _ _ _ _ _ _ Hao) as Harr.
  apply array_pop in Hao as (Hc & Hx & Hg & Hao). cbn.
  eapply memory_bind; [by eapply memory_load_ptr|]. intros ? ? [-> ->].
  eapply memory_bind; [by eapply destroy_spec|]. intros r ? [_ ->]. by apply IH.
Qed.

(** In the order of creation, until a call fails: [l'] is what is left. *)
Lemma destroy_up_spec l i c H r0 :
  array_of good arr i l c h H →
  memory (destroy_up (length l) i arr destroy r0) H (λ r H', ∃ l',
    l' `prefix_of` l ∧ array_of good arr (i + (length l - length l')) l' c h H' ∧
    (l = [] ∧ r = r0 ∨ ∃ z, r = Some z ∧ R z ∧ (z = 0 → l' = []))).
Proof.
  revert i H r0. induction l as [|x l IH] using rev_ind; intros i H r0 Hao.
  { apply memory_ret. exists []. split; [done|]. cbn. rewrite Nat.add_0_r. auto. }
  pose proof (array_lookup _ _ _ _ _ _ _ Hao) as Harr.
  apply array_shift in Hao as (Hc & Hx & Hg & Hao).
  rewrite length_app, Nat.add_comm. cbn.
  eapply memory_bind; [by eapply memory_load_ptr|]. intros ? ? [-> ->].
  eapply memory_bind; [by eapply destroy_spec|]. intros r ? [HR ->]. case_decide as Er.
  - apply memory_ret. exists l. split; [by apply prefix_app_r|]. split.
    + by replace (i + (S (length l) - length l))%nat with (S i) by lia.
    + right. by exists r.
  - subst r.
    eapply memory_weaken; [by apply IH|]. intros r' H' (l' & Hp & Hao' & Hr).
    exists l'. split; [by apply prefix_app_r|]. apply prefix_length in Hp as Hl. split.
    + by replace (i + (S (length l) - length l'))%nat with (S i + (length l - length l'))%nat by lia.
    + right. destruct Hr as [[-> ->]|?]; [|done]. exists 0. split_and!; [done|done|].
      intros _. by apply prefix_nil_inv.
Qed.
End loops.

(** ** Constructors *)

(** Two heaps built by insertions and deletions are equal. *)
Ltac heap_eq :=
  apply map_eq; intros ?k; rewrite ?lookup_insert, ?lookup_delete;
  repeat first [case_decide | rewrite lookup_insert | rewrite lookup_delete]; first [congruence | done].
(** Steps over a call, given what it does to memory; the heap is then the one
    named in the postcondition. *)
Tactic Notation "mstep" uconstr(lem) :=
  eapply memory_bind; [eapply lem|].

(** A store to a cell of the structure inserted last. *)
Ltac mstore :=
  mstep memory_store_cell; [apply lookup_insert_eq|vm_compute; lia|];
  intros _ ? ->; rewrite insert_insert_eq.

Section constructors.
Context `{SO : SysOps, IO : IoctlNr, ML : !MallocLaws}.
Context (worker_routine_addr : addr) (have_attr_affinity have_sched_affinity : bool).
Implicit Types (h H : gmap addr uobj).

(** The structure of a scheduler thread that runs, and that of a worker. *)
Definition sched_built (cl entry param : Z) (o : uobj) : Prop :=
  ∃ t, o = UCells [Some t; Some cl; Some entry; Some param].
Definition worker_built (o : uobj) : Prop :=
  ∃ t routine task, o = UCells [Some t; Some routine; Some task].

Lemma scheduler_out_spec a o h (good : uobj → Prop) :
  h !! a = None → memory (bench_scheduler_out a) (<[a := o]> h) (constructs good h).
Proof.
  intros Ha. mstep memory_free; [apply lookup_insert_eq|]. intros _ ? ->. apply memory_ret.
  cbn. by rewrite delete_insert_id.
Qed.

Lemma scheduler_create_spec cl entry param h :
  memory (bench_scheduler_create have_attr_affinity cl entry param) h
    (constructs (sched_built cl entry param) h).
Proof.
  mstep memory_malloc. intros [| |a] ? HP; [done|cbn in HP; subst; by apply memory_ret|].
  destruct HP as [Ha ->].
  mstore.
  mstore.
  mstore.
  mstep memory_attr_init. intros r ? ->. case_decide; [by apply scheduler_out_spec|].
  mstep memory_opt_call. intros r' ? ->. case_decide; [by apply scheduler_out_spec|].
  mstep memory_call. intros r'' ? ->. case_decide; [by apply scheduler_out_spec|].
  mstep memory_thread. intros [q [t|]] ? [Ht ->]; cbn in Ht |- *.
  - mstore.
    case_decide as Eq; [by apply scheduler_out_spec|]. apply memory_ret.
    split; [done|]. eexists. split; [by exists t|done].
  - mstep memory_done. intros _ ? ->.
    rewrite decide_True; [by apply scheduler_out_spec|]. intros ->. by destruct (proj1 Ht eq_refl).
Qed.

(** A start routine that leaves memory alone. *)
Lemma worker_create_spec start routine task h :
  (∀ v h, memory (start v) h (λ t h', (t.1 = 0 ↔ is_Some t.2) ∧ h' = h)) →
  memory (worker_create start routine task) h (constructs worker_built h).
Proof.
  intros Hs. mstep memory_malloc. intros [| |a] ? HP; [done|cbn in HP; subst; by apply memory_ret|].
  destruct HP as [Ha ->].
  mstore.
  mstore.
  mstep Hs. intros [q [t|]] ? [Ht ->]; cbn in Ht |- *.
  - mstore.
    rewrite decide_False by (intros []; apply Ht; by eexists). apply memory_ret.
    split; [done|]. eexists. split; [by exists t, routine, task|done].
  - mstep memory_done. intros _ ? ->.
    rewrite decide_True by (intros ->; by destruct (proj1 Ht eq_refl)).
    mstep memory_free; [apply lookup_insert_eq|]. intros _ ? ->. apply memory_ret.
    cbn. by rewrite delete_insert_id.
Qed.

Lemma sched_free_spec (good : uobj → Prop) a o h :
  good o → h !! a = Some o → memory (sched_free a) h (λ r h', r = 0 ∧ h' = delete a h).
Proof. intros _ Ho. mstep memory_free; [done|]. intros _ ? ->. by apply memory_ret. Qed.
Lemma worker_destroy_spec a o h :
  worker_built o → h !! a = Some o → memory (worker_destroy a) h (λ _ h', True ∧ h' = delete a h).
Proof.
  intros (t & rt & tk & ->) Ho. mstep memory_load_cell; [done|done|]. intros ? ? [-> ->].
  mstep memory_join. intros r ? ->. mstep memory_free; [done|]. intros _ ? ->. by apply memory_ret.
Qed.
End constructors.

(** The members of the base. *)
Record base_cells (cells : list (option Z)) (vtable : Z) (tasks : addr) (n_tasks : Z) : Prop := {
  bc_vtable : cells !! SUITE_VTABLE = Some (Some vtable);
  bc_tasks : cells !! SUITE_TASKS = Some (Some (ptr_val tasks));
  bc_n_tasks : cells !! SUITE_N_TASKS = Some (Some n_tasks);
}.
Lemma memory_base `{SO : SysOps} {A} a tasks n_tasks vtable cells h (k : uM A)
    (Q : A → gmap addr uobj → Prop) :
  h !! a = None → (9 ≤ length cells)%nat →
  (∀ cells', length cells' = length cells → base_cells cells' vtable tasks n_tasks →
    memory k (<[a := UCells cells']> h) Q) →
  memory (_ ← benchmark_suite_ctor a tasks n_tasks; _ ← store_cell a SUITE_VTABLE vtable; k)
    (<[a := UCells cells]> h) Q.
Proof.
  intros Ha Hl Hk. eapply memory_bind; [mstep memory_store_cell|].
  - apply lookup_insert_eq.
  - unfold SUITE_TASKS. lia.
  - intros _ ? ->. rewrite insert_insert_eq. eapply memory_store_cell; [apply lookup_insert_eq|].
    rewrite length_insert. unfold SUITE_N_TASKS. lia.
  - intros _ ? ->. rewrite insert_insert_eq. mstep memory_store_cell; [apply lookup_insert_eq| |].
    { rewrite !length_insert. unfold SUITE_VTABLE. lia. }
    intros _ ? ->. rewrite insert_insert_eq. apply Hk; [by rewrite !length_insert|].
    unfold SUITE_VTABLE, SUITE_TASKS, SUITE_N_TASKS.
    split; repeat first [rewrite list_lookup_insert_ne by done | rewrite list_lookup_insert_eq];
      try done; rewrite ?length_insert; lia.
Qed.

(** ** The suite of schedulers *)

Section ums_suite.
Context `{SO : SysOps, IO : IoctlNr, ML : !MallocLaws}.
Context (have_attr_affinity : bool) (complist : addr) (entry proc : Z).
(** The number of processors is not absurd. *)
Context (few_processors : ∀ o, sys_nproc o < 2 ^ 60).
Implicit Types (h H : gmap addr uobj) (l : list (addr * uobj)).

Lemma array_size n : 0 ≤ n < 2 ^ 60 → Z.to_nat (u64 (n * 8) / 8) = Z.to_nat n.
Proof. intros Hn. rewrite wrap_u_id by lia. by rewrite Z.div_mul. Qed.

(** The members of a suite that was built. *)
Record suite_cells (cells : list (option Z)) (n : Z) (sc wk : addr) : Prop := {
  sc_length : length cells = ums_suite_cells;
  sc_n : cells !! UMS_N_SCHEDULERS = Some (Some n);
  sc_schedulers : cells !! UMS_SCHEDULERS = Some (Some (ptr_val sc));
  sc_workers : cells !! UMS_WORKERS = Some (Some (ptr_val wk));
  sc_complist : cells !! UMS_COMPLIST = Some (Some (ptr_val complist));
}.

(** The heap of a suite at [suite]: two arrays, the schedulers in the first,
    nothing else new. *)
Definition suite_built (suite : addr) h H : Prop :=
  ∃ n sc wk l c wc cells v cl,
    suite_cells cells n sc wk ∧ length l = Z.to_nat n ∧
    h !! sc = None ∧ h !! wk = None ∧ sc ≠ wk ∧ suite ≠ sc ∧ suite ≠ wk ∧
    array_of (sched_built cl entry 0) sc 0 l c
      (<[complist := UInt v]> (<[suite := UCells cells]> (<[wk := UCells wc]> h))) H.

(** The heap of a failed initialisation. *)
Definition suite_undone (suite : addr) h H : Prop :=
  ∃ cells v, H = <[complist := UInt v]> (<[suite := UCells cells]> h).

(** The schedulers are started, or everything is undone. *)
Lemma start_schedulers_spec n cl v wo sc wk c0 base :
  (Z.to_nat n ≤ length c0)%nat → base !! complist = Some (UInt v) → base !! wk = Some wo →
  sc ≠ complist → sc ≠ wk → wk ≠ complist →
  memory (failed ← create_all (Z.to_nat n) 0 sc (λ _, bench_scheduler_create have_attr_affinity cl entry 0);
          match failed with
          | None => mret 0
          | Some i =>
              _ ← destroy_down i sc sched_free;
              _ ← delete_ums_completion_list (Ptr complist);
              _ ← free (Ptr wk); _ ← free (Ptr sc); mret (-1)
          end) (<[sc := UCells c0]> base)
    (λ r H, r = -1 ∧ (∃ v', H = delete sc (delete wk (<[complist := UInt v']> base))) ∨
      r = 0 ∧ ∃ l c, length l = Z.to_nat n ∧ array_of (sched_built cl entry 0) sc 0 l c base H).
Proof.
  intros Hlen Hc Hw Hsc Hsw Hwc.
  assert (array_of (sched_built cl entry 0) sc 0 [] c0 base (<[sc := UCells c0]> base)) as Hao0.
  { split; [done|apply NoDup_singleton|done|done]. }
  eapply memory_bind.
  { apply (create_all_spec (sched_built cl entry 0) sc base (λ _, True)
      (λ _ _ _ _ _ _, I) (Z.to_nat n) (Z.to_nat n) _ [] c0); [done| |done|done|done].
    intros i H _ _. apply scheduler_create_spec. }
  intros [k|] H (l & c & Hao & _ & Hr).
  - subst k. eapply memory_bind.
    { eapply (destroy_down_spec _ _ _ (λ r, r = 0)); [|done]. intros. by eapply sched_free_spec. }
    intros _ ? ->. mstep memory_delete_list; [by rewrite lookup_insert_ne|]. intros _ ? [v' ->].
    mstep memory_free; [rewrite !lookup_insert_ne by done; done|]. intros _ ? ->.
    mstep memory_free; [by rewrite lookup_delete_ne, lookup_insert_ne, lookup_insert_eq by done|].
    intros _ ? ->. apply memory_ret. left. split; [done|]. exists v'. heap_eq.
  - apply memory_ret. right. split; [done|]. by exists l, c.
Qed.

(** The members are written. *)
Lemma memory_fill {A} suite cells n sc wk h (k : uM A) (Q : A → gmap addr uobj → Prop) :
  length cells = ums_suite_cells → cells !! UMS_N_SCHEDULERS = Some (Some n) →
  (∀ cells', suite_cells cells' n sc wk → memory k (<[suite := UCells cells']> h) Q) →
  memory (_ ← store_cell suite UMS_SCHEDULERS (ptr_val sc);
          _ ← store_cell suite UMS_WORKERS (ptr_val wk);
          _ ← store_cell suite UMS_COMPLIST (ptr_val complist);
          _ ← store_cell suite UMS_WORKER_PROC proc; k) (<[suite := UCells cells]> h) Q.
Proof.
  intros Hl Hn Hk.
  do 4 (mstep memory_store_cell;
    [apply lookup_insert_eq|rewrite ?length_insert, Hl; vm_compute; lia|];
    intros _ ? ->; rewrite insert_insert_eq).
  apply Hk. split; [by rewrite !length_insert|..];
    repeat first [rewrite list_lookup_insert_ne by done | rewrite list_lookup_insert_eq];
    try done; rewrite ?length_insert, Hl; vm_compute; lia.
Qed.

Lemma ums_init_spec n_tasks suite cells0 v0 h :
  h !! suite = Some (UCells cells0) → length cells0 = ums_suite_cells →
  h !! complist = Some (UInt v0) →
  memory (benchmark_suite_ums_init have_attr_affinity n_tasks complist entry proc suite) h
    (λ r H, r = -1 ∧ suite_undone suite h H ∨ r = 0 ∧ suite_built suite h H).
Proof.
  intros Hs Hl Hc. assert (suite ≠ complist) by congruence.
  assert (∀ i, (i < ums_suite_cells)%nat → (i < length cells0)%nat) as Hi by (by rewrite Hl).
  eapply (memory_bind _ _ _ (λ n h', n < 2 ^ 60 ∧ h' = h)).
  { intros s <-. unfold ugives, ugets. split; [apply few_processors|done]. }
  intros n ? [Hn ->].
  mstep memory_store_cell; [done|by apply Hi; vm_compute; lia|]. intros _ ? ->.
  set (cells1 := <[UMS_N_SCHEDULERS := Some n]> cells0).
  assert (length cells1 = ums_suite_cells) as Hl1 by (unfold cells1; by rewrite length_insert).
  mstep memory_malloc_array. intros [| |sc] ? HP; [done| |].
  { cbv beta iota in HP. subst. apply memory_ret. left. split; [done|]. exists cells1, v0. heap_eq. }
  destruct HP as (Hsc & Hsz & ->). rewrite lookup_insert in Hsc. case_decide; [done|].
  set (c0 := replicate _ None).
  mstep memory_malloc_array. intros [| |wk] ? HP; [done| |].
  { cbv beta iota in HP. subst. mstep memory_free; [apply lookup_insert_eq|]. intros _ ? ->.
    apply memory_ret. left. split; [done|]. exists cells1, v0. heap_eq. }
  destruct HP as (Hwk & _ & ->). rewrite !lookup_insert in Hwk. do 2 (case_decide; [done|]).
  set (wc := replicate _ None).
  replace (<[wk := UCells wc]> _) with
    (<[suite := UCells cells1]> (<[wk := UCells wc]> (<[sc := UCells c0]> h))) by heap_eq.
  apply (memory_fill _ _ n); [done|by apply list_lookup_insert_eq, Hi; vm_compute; lia|].
  intros cells Hcells.
  assert (complist ≠ sc) by congruence. assert (complist ≠ wk) by congruence.
  mstep memory_create_list; [rewrite !lookup_insert_ne by done; done|]. intros r ? [v ->].
  replace (<[complist := UInt v]> _) with (<[sc := UCells c0]> (<[complist := UInt v]>
    (<[suite := UCells cells]> (<[wk := UCells wc]> h)))) by heap_eq.
  case_decide.
  - mstep memory_free; [rewrite !lookup_insert_ne by done; apply lookup_insert_eq|]. intros _ ? ->.
    mstep memory_free; [rewrite lookup_delete_ne by done; apply lookup_insert_eq|]. intros _ ? ->.
    apply memory_ret. left. split; [done|]. exists cells, v. heap_eq.
  - mstep memory_load_int; [rewrite lookup_insert_ne by done; apply lookup_insert_eq|].
    intros cl ? [-> ->].
    eapply memory_weaken.
    + apply (start_schedulers_spec n v v (UCells wc) sc wk c0); [| | |done..].
      * unfold c0. rewrite length_replicate. destruct (decide (0 ≤ n)); [|lia]. by rewrite array_size.
      * apply lookup_insert_eq.
      * rewrite !lookup_insert_ne by done. apply lookup_insert_eq.
    + intros r' H' [[-> [v' ->]]|(-> & l & c & Hlen & Hao)]; [left|right]; (split; [done|]).
      * exists cells, v'. heap_eq.
      * by exists n, sc, wk, l, c, wc, cells, v, v.
Qed.

(** A suite is created completely, or nothing but the value of the list
    variable has changed. *)
Lemma ums_create_spec tasks n_tasks v0 h :
  h !! complist = Some (UInt v0) →
  memory (benchmark_suite_ums_create have_attr_affinity tasks n_tasks complist entry proc) h
    (λ p H, match p with
      | Ptr a => h !! a = None ∧ suite_built a h H
      | PNull => ∃ v, H = <[complist := UInt v]> h
      | PUninit => False
      end).
Proof.
  intros Hc. mstep memory_malloc. intros [| |a] ? HP; [done| |].
  { cbv beta iota in HP. subst. apply memory_ret. exists v0. by rewrite insert_id. }
  destruct HP as [Ha ->]. assert (complist ≠ a) by congruence.
  apply memory_base; [done|vm_compute; lia|]. intros cells Hlen _.
  eapply memory_bind; [eapply (ums_init_spec _ _ cells v0); [apply lookup_insert_eq|done|]|].
  { by rewrite lookup_insert_ne. }
  intros r HH [[-> (cells' & v & ->)]|[-> Hb]].
  - rewrite decide_True by done. mstep memory_free; [rewrite lookup_insert_ne by done; apply lookup_insert_eq|].
    intros _ ? ->. apply memory_ret. exists v. heap_eq.
  - rewrite decide_False by (by intros []). apply memory_ret. split; [done|].
    destruct Hb as (n & sc & wk & l & c & wc & cells' & v & cl & Hc' & Hl & Hs & Hw & ? & ? & ? & Hao).
    exists n, sc, wk, l, c, wc, cells', v, cl. rewrite lookup_insert_ne in Hs, Hw by done.
    split_and!; try done.
    replace (<[a := UCells cells']> (<[wk := UCells wc]> h)) with
      (<[a := UCells cells']> (<[wk := UCells wc]> (<[a := UCells cells]> h))); [done|]. heap_eq.
Qed.

Lemma ums_destroy_spec a v0 h H :
  h !! complist = Some (UInt v0) → h !! a = None → suite_built a h H →
  memory (benchmark_suite_ums_destroy a) H
    (λ _ H', ∃ cells v, H' = <[complist := UInt v]> (<[a := UCells cells]> h)).
Proof.
  intros Hc Ha (n & sc & wk & l & c & wc & cells & v & cl & Hcells & Hl & Hs & Hw & ? & ? & ? & Hao).
  assert (complist ≠ a) by congruence. assert (complist ≠ sc) by congruence.
  assert (complist ≠ wk) by congruence. destruct Hcells as [_ Hn Hsc Hwk Hcl].
  assert (H !! a = Some (UCells cells)) as HA.
  { destruct Hao as [-> Hnd HF _]. rewrite with_objs_lookup.
    - rewrite !lookup_insert_ne by done. apply lookup_insert_eq.
    - intros (x & -> & Hx)%list_elem_of_fmap. rewrite Forall_forall in HF.
      destruct (HF x Hx) as [Hx' _]. by rewrite lookup_insert_ne, lookup_insert_eq in Hx' by done. }
  mstep memory_load_cell; [done|done|]. intros ? ? [-> ->].
  mstep memory_load_ptr; [done|done|]. intros ? ? [-> ->]. rewrite <- Hl.
  eapply memory_bind.
  { eapply (destroy_up_spec _ _ _ (λ r, r = 0)); [|done]. intros. by eapply sched_free_spec. }
  intros r H' (l' & Hp & Hao' & Hr).
  assert (default 0 r = 0 ∧ l' = []) as [-> ->].
  { destruct Hr as [[-> ->]|(z & -> & -> & Hz)]; [|by split; [|apply Hz]].
    split; [done|]. by apply prefix_nil_inv. }
  rewrite decide_False by (by intros []). destruct Hao' as [-> _ _ _]. cbn [with_objs foldr].
  mstep memory_free; [apply lookup_insert_eq|]. intros _ ? ->.
  mstep memory_load_ptr; [rewrite lookup_delete_ne, !lookup_insert_ne by done; apply lookup_insert_eq|done|].
  intros ? ? [-> ->].
  mstep memory_free; [rewrite lookup_delete_ne, !lookup_insert_ne by done; apply lookup_insert_eq|].
  intros _ ? ->.
  mstep memory_load_ptr; [rewrite !lookup_delete_ne, !lookup_insert_ne by done; apply lookup_insert_eq|done|].
  intros ? ? [-> ->].
  eapply memory_weaken.
  { eapply memory_delete_list. rewrite !lookup_delete_ne, lookup_insert_ne by done. apply lookup_insert_eq. }
  intros _ ? [v' ->]. exists cells, v'. heap_eq.
Qed.
End ums_suite.

(** ** Running tasks *)

Section run.
Context `{SO : SysOps, IO : IoctlNr, ML : !MallocLaws}.
Implicit Types (h H base : gmap addr uobj) (l : list (addr * uobj)).

Lemma array_keeps good arr i l c h H a o :
  h !! a = Some o → a ≠ arr → array_of good arr i l c h H → H !! a = Some o.
Proof.
  intros Ha Harr [-> _ HF _]. rewrite with_objs_lookup.
  - by rewrite lookup_insert_ne.
  - intros (x & -> & Hx)%list_elem_of_fmap. rewrite Forall_forall in HF.
    destruct (HF x Hx) as [Hx' _]. congruence.
Qed.

(** Workers are created for all tasks and joined in order.  [l] are those that
    are left because a join failed; if 0 is returned there are none. *)
Lemma run_workers_spec suite idx create cells vtable tasks tc wk c n base :
  base !! suite = Some (UCells cells) → base_cells cells vtable tasks n →
  cells !! idx = Some (Some (ptr_val wk)) → base !! tasks = Some (UCells tc) →
  suite ≠ wk → tasks ≠ wk → (Z.to_nat n ≤ length c)%nat → 0 < n →
  (∀ i, (i < Z.to_nat n)%nat → ∃ t, tc !! i = Some (Some t)) →
  (∀ task H, memory (create task) H (constructs worker_built H)) →
  memory (run_workers suite idx create) (<[wk := UCells c]> base)
    (λ r H, ∃ i l c', array_of worker_built wk i l c' base H ∧ (r = 0 → l = [])).
Proof.
  intros Hs [_ Hts Hn] Hw Ht Hsw Htw Hlen Hpos Htc Hcr.
  assert (array_of worker_built wk 0 [] c base (<[wk := UCells c]> base)) as Hao0.
  { split; [done|apply NoDup_singleton|done|done]. }
  pose proof (array_keeps _ _ _ _ _ _ _ _ _ Hs Hsw Hao0) as Hs'.
  mstep memory_load_cell; [done|done|]. intros ? ? [-> ->].
  mstep memory_load_ptr; [done|done|]. intros ? ? [-> ->].
  mstep memory_load_ptr; [done|done|]. intros ? ? [-> ->].
  eapply memory_bind.
  { apply (create_all_spec worker_built wk base (λ H, H !! tasks = Some (UCells tc))
      (λ l i c H Hk, array_keeps _ _ _ _ _ _ _ _ _ Hk Htw) (Z.to_nat n) (Z.to_nat n) _ [] c);
      [done| |done|done|done].
    intros i H Hi HH. destruct (Htc i Hi) as [t Et].
    mstep memory_load_cell; [done|done|]. intros ? ? [-> ->]. apply Hcr. }
  intros [k|] H (l & c' & Hao & _ & Hl).
  - subst k. eapply memory_bind.
    { eapply (destroy_down_spec _ _ _ (λ _, True)); [|done]. intros. by eapply worker_destroy_spec. }
    intros _ ? ->. apply memory_ret. exists 0%nat, [], c'. split; [|done].
    split; [done|apply NoDup_singleton|done|done].
  - cbn in Hl. rewrite <- Hl. eapply memory_bind.
    { eapply (destroy_up_spec _ _ _ (λ _, True)); [|done]. intros. by eapply worker_destroy_spec. }
    intros r H' (l' & Hp & Hao' & [[-> _]|(z & -> & _ & Hz)]); [cbn in Hl; lia|].
    apply memory_ret. by eexists _, l', c'.
Qed.
End run.

(** ** The life of a suite *)

Section life.
Context `{SO : SysOps, IO : IoctlNr, ML : !MallocLaws}.
Context (sched_text : Z → ums_scheduler_entry_point_t).
Implicit Types (s : ustate) (h H : gmap addr uobj).

(** What is left of the heap [h], and of a suite in it. *)
Definition suite_left (complist : addr) h (r : option addr) H : Prop := ∃ v,
  match r with
  | Some a => h !! a = None ∧
      ∃ cells, H = <[complist := UInt v]> (<[a := UCells cells]> h)
  | None => H = <[complist := UInt v]> h
  end.

Lemma suite_destroyed complist entry v0 h :
  h !! complist = Some (UInt v0) →
  ∀ p H, match p with
         | Ptr a => h !! a = None ∧ suite_built complist entry a h H
         | PNull => ∃ v, H = <[complist := UInt v]> h
         | PUninit => False
         end →
  memory (match p with Ptr a => _ ← benchmark_suite_ums_destroy a; mret (Some a) | _ => mret None end)
    H (suite_left complist h).
Proof.
  intros Hc [| |a] H HP; [done|by apply memory_ret|]. destruct HP as [Ha Hb].
  eapply memory_bind; [by eapply ums_destroy_spec|]. intros r ? (cells & v & ->).
  apply memory_ret. exists v. split; [done|]. by exists cells.
Qed.

(** ** Thread attributes *)

(** What a call adds to the number of initialised attribute variables. *)
Definition attrs {A} (m : uM A) (Q : A → Z → Prop) : Prop :=
  ∀ s a s', m s = URet a s' → Q a (u_attrs s' - u_attrs s).
Lemma attrs_bind {A B} (m : uM A) (f : A → uM B) (P : A → Z → Prop) (Q : B → Z → Prop) :
  attrs m P → (∀ a d, P a d → attrs (f a) (λ b e, Q b (d + e))) → attrs (m ≫= f) Q.
Proof.
  intros Hm Hf s b s' (a & s1 & E1 & E2)%ubind_inv.
  pose proof (Hf a _ (Hm _ _ _ E1) _ _ _ E2) as H. cbv beta in H.
  by replace (u_attrs s' - u_attrs s) with (u_attrs s1 - u_attrs s + (u_attrs s' - u_attrs s1)) by lia.
Qed.
Lemma attrs_same {A} (m : uM A) :
  (∀ s a s', m s = URet a s' → u_attrs s' = u_attrs s) → attrs m (λ _ d, d = 0).
Proof. intros Hm s a s' E. rewrite (Hm _ _ _ E). lia. Qed.
Lemma attrs_ret {A} (a : A) (Q : A → Z → Prop) : Q a 0 → attrs (mret a) Q.
Proof. intros HQ s r s' [= <- <-]. by rewrite Z.sub_diag. Qed.
Lemma attrs_store a i v : attrs (store_cell a i v) (λ _ d, d = 0).
Proof.
  apply attrs_same. intros s r s' (o & s1 & E1 & E)%ubind_inv. unfold uget in E1.
  destruct (u_heap s !! a); [|done]. injection E1 as -> ->. destruct o; try done. case_decide; [|done].
  by injection E as _ <-.
Qed.
Lemma attrs_call {A} (f : os → A * os) : attrs (ucall f) (λ _ d, d = 0).
Proof. apply attrs_same. intros s r s' E. unfold ucall in E. case_match. by simplify_eq/=. Qed.
Lemma attrs_opt_call {A} (b : bool) (f : os → A * os) v :
  attrs (if b then ucall f else mret v) (λ _ d, d = 0).
Proof. destruct b; [apply attrs_call|by apply attrs_ret]. Qed.
Lemma attrs_weaken {A} (m : uM A) (P Q : A → Z → Prop) :
  attrs m P → (∀ a d, P a d → Q a d) → attrs m Q.
Proof. intros Hm HPQ s a s' E. by apply HPQ, Hm. Qed.
Lemma attrs_free p : attrs (free p) (λ _ d, d = 0).
Proof. apply attrs_same. intros s r s' E. unfold free in E. repeat case_match; by simplify_eq/=. Qed.
Lemma attrs_malloc o : attrs (malloc o) (λ _ d, d = 0).
Proof. apply attrs_same. intros s r s' E. unfold malloc in E. repeat case_match; by simplify_eq/=. Qed.
Lemma attrs_init : attrs pthread_attr_init (λ r d, d = if decide (r = 0) then 1 else 0).
Proof.
  eapply attrs_bind; [apply attrs_call|]. intros r ? ->.
  eapply (attrs_bind _ _ (λ _ d, d = if decide (r = 0) then 1 else 0)).
  - case_decide; intros s ? s' [= _ <-]; cbn; lia.
  - intros _ d ->. apply attrs_ret. lia.
Qed.
Lemma attrs_thread attr f arg : attrs (pthread_create attr f arg) (λ _ d, d = 0).
Proof. eapply attrs_bind; [apply attrs_call|]. intros r ? ->. by apply attrs_ret. Qed.

(** Step over one call. *)
Tactic Notation "astep" uconstr(lem) := eapply attrs_bind; [apply lem|].

Lemma scheduler_create_attrs have_attr_affinity cl entry param :
  attrs (bench_scheduler_create have_attr_affinity cl entry param)
    (λ p d, 0 ≤ d ≤ 1 ∧ (p ≠ PNull → d = 1)).
Proof.
  assert (∀ a k, 0 ≤ k ≤ 1 → attrs (bench_scheduler_out a)
    (λ p d, 0 ≤ k + d ≤ 1 ∧ (p ≠ PNull → k + d = 1))) as Hout.
  { intros a k Hk. astep attrs_free. intros _ ? ->. apply attrs_ret. split; [lia|done]. }
  astep attrs_malloc. intros [| |a] ? ->; [apply attrs_ret; split; [lia|done]..|].
  do 3 (astep attrs_store; intros _ ? ->).
  astep attrs_init. cbv beta. intros r ? ->. destruct (decide (r = 0)) as [->|Hr].
  2: { rewrite decide_True by done. by apply (Hout a 0). }
  rewrite decide_False by (by intros []).
  astep attrs_opt_call. intros r' ? ->. case_decide; [by apply (Hout a 1)|].
  astep attrs_call. intros r'' ? ->. case_decide; [by apply (Hout a 1)|].
  astep attrs_thread. intros [q [t|]] ? ->; cbn [snd fst store_thread].
  - astep attrs_store. intros _ ? ->. case_decide; [by apply (Hout a 1)|]. by apply attrs_ret.
  - eapply attrs_bind; [by apply (attrs_ret _ (λ _ d, d = 0))|]. intros _ ? ->.
    case_decide; [by apply (Hout a 1)|]. by apply attrs_ret.
Qed.

Lemma scheduler_attrs_leak have_attr_affinity cl entry param s0 a s1 :
  bench_scheduler_create have_attr_affinity cl entry param s0 = URet (Ptr a) s1 →
  u_attrs s1 = u_attrs s0 + 1 ∧
  ∃ s2, bench_scheduler_destroy (Ptr a) s1 = URet 0 s2 ∧ u_attrs s2 = u_attrs s0 + 1.
Proof.
  intros E. destruct (scheduler_create_attrs _ _ _ _ _ _ _ E) as [_ Ha].
  assert (u_attrs s1 = u_attrs s0 + 1) as Hs by (specialize (Ha ltac:(done)); lia).
  pose proof (scheduler_create_spec have_attr_affinity cl entry param _ s0 eq_refl) as Hm.
  unfold ugives in Hm. rewrite E in Hm. destruct Hm as [_ (o & _ & Hh)].
  split; [done|]. eexists. split.
  - unfold bench_scheduler_destroy, free, mbind, uM_bind. by rewrite Hh, lookup_insert_eq.
  - exact Hs.
Qed.

(** C30: What the life of a suite of the benchmark leaves behind.  Of the memory
    the code obtained with [malloc], a suite of schedulers that is created and
    destroyed again has freed its arrays and every scheduler, and has not
    touched other objects; only its own structure stays, which nothing frees (a
    defect).  If it cannot be created, whichever allocation, system call or
    thread fails on the way, every block the code had allocated is freed again.
    On a system whose calls all return (a hypothesis), both calls return, and
    they never free or use memory that is not allocated.  The attributes of the
    scheduler threads are not part of this: creating a scheduler initialises
    one attribute variable, which neither the creation nor
    [ums_scheduler_destroy] gives up again, so that what [pthread_attr_init]
    holds for it is lost with every scheduler (a defect).  (The system reports
    fewer than 2^60 processors, and [complist] is an [int] of the program.) *)
Theorem ums_suite_life have_attr_affinity complist entry proc tasks n_tasks v0 s
    (Hreturn : prompt) (Hprocs : ∀ o, sys_nproc o < 2 ^ 60)
    (Hlist : u_heap s !! complist = Some (UInt v0)) :
  ∃ r s' v,
    (suite ← benchmark_suite_ums_create have_attr_affinity tasks n_tasks complist entry proc;
     match suite with
     | Ptr a => _ ← benchmark_suite_ums_destroy a; mret (Some a)
     | _ => mret None
     end) s = URet r s' ∧
    match r with
    | Some a => u_heap s !! a = None ∧
        ∃ cells, u_heap s' = <[complist := UInt v]> (<[a := UCells cells]> (u_heap s))
    | None => u_heap s' = <[complist := UInt v]> (u_heap s)
    end ∧
    ∀ cl e param s0 a s1, bench_scheduler_create have_attr_affinity cl e param s0 = URet (Ptr a) s1 →
      u_attrs s1 = u_attrs s0 + 1 ∧
      ∃ s2, bench_scheduler_destroy (Ptr a) s1 = URet 0 s2 ∧ u_attrs s2 = u_attrs s0 + 1.
Proof.
  pose proof (memory_bind _ _ (u_heap s) _ (suite_left complist (u_heap s))
    (ums_create_spec have_attr_affinity complist entry proc Hprocs tasks n_tasks v0 _ Hlist)
    (suite_destroyed _ _ _ _ Hlist) s eq_refl) as Hm.
  destruct (ugives_returns _ _ _ Hreturn Hm) as (r & s' & E & v & H). exists r, s', v.
  split_and!; [done|done|]. intros. by eapply scheduler_attrs_leak.
Qed.

(** Defect: the structure of a scheduler is freed while its detached thread may
    still need it: a thread that starts after that reads freed memory. *)
Theorem scheduler_thread_after_free have_attr_affinity have_sched_affinity fuel cl entry param o sched s :
  sched_built cl entry param o → u_heap s !! sched = Some o →
  ∃ s', bench_scheduler_destroy (Ptr sched) s = URet 0 s' ∧
    bench_sched_pthread_proc sched_text have_attr_affinity have_sched_affinity fuel sched s' =
      UCrash Segv.
Proof.
  intros (t & ->) Ho. eexists. split.
  { unfold bench_scheduler_destroy. by urun (free_run _ _ _ Ho). }
  unfold bench_sched_pthread_proc. destruct (negb _ && _).
  - unfold mbind at 1, uM_bind at 1. ured. destruct (sys_pthread_attr _) as [r e]. ured.
    unfold load_cell. ured. by rewrite lookup_delete_eq.
  - unfold load_cell. ured. by rewrite lookup_delete_eq.
Qed.

(** The heap of a suite of threads at [a]. *)
Definition pthread_suite_built (proc : Z) (tasks : addr) (n : Z) (a : addr) h H : Prop :=
  ∃ cells wk c, base_cells cells pthread_vtable tasks n ∧
    cells !! PT_WORKERS = Some (Some (ptr_val wk)) ∧
    cells !! PT_WORKER_PROC = Some (Some proc) ∧ length c = Z.to_nat n ∧
    h !! wk = None ∧ a ≠ wk ∧ H = <[wk := UCells c]> (<[a := UCells cells]> h).

Lemma pthread_create_spec proc tasks n h :
  0 < n < 2 ^ 60 →
  memory (benchmark_suite_pthread_create tasks n proc) h (λ p H,
    match p with
    | Ptr a => h !! a = None ∧ pthread_suite_built proc tasks n a h H
    | PNull => H = h
    | PUninit => False
    end).
Proof.
  intros Hn. mstep memory_malloc. intros [| |a] ? HP; [done|cbv beta iota in HP; subst; by apply memory_ret|].
  destruct HP as [Ha ->]. apply memory_base; [done|vm_compute; lia|].
  rewrite length_replicate. intros cells Hl Hb. pose proof Hb as [Hv Hts Hnt].
  eapply (memory_bind _ _ _ (λ r H, r = -1 ∧ H = <[a := UCells cells]> h ∨
    r = 0 ∧ pthread_suite_built proc tasks n a h H)).
  - mstep memory_load_cell; [apply lookup_insert_eq|done|]. intros ? ? [-> ->].
    mstep memory_malloc_array. intros [| |wk] ? HP; [done|cbv beta iota in HP; subst; apply memory_ret; by left|].
    destruct HP as (Hw & _ & ->). rewrite array_size by lia.
    rewrite lookup_insert in Hw. case_decide; [done|]. rewrite insert_insert_ne by done.
    do 2 (mstep memory_store_cell;
      [apply lookup_insert_eq|rewrite ?length_insert, Hl; vm_compute; lia|];
      intros _ ? ->; rewrite insert_insert_eq).
    apply memory_ret. right. split; [done|].
    eexists (<[PT_WORKER_PROC := _]> (<[PT_WORKERS := _]> cells)), wk, (replicate (Z.to_nat n) None).
    split_and!; [split; rewrite !list_lookup_insert_ne by done; done|..].
    + rewrite list_lookup_insert_ne, list_lookup_insert_eq; [done|rewrite Hl; vm_compute; lia|done].
    + rewrite list_lookup_insert_eq; [done|rewrite length_insert, Hl; vm_compute; lia].
    + by rewrite length_replicate.
    + done.
    + done.
    + by rewrite insert_insert_ne.
  - intros r ? [[-> ->]|[-> Hs]].
    + rewrite decide_True by done. mstep memory_free; [apply lookup_insert_eq|]. intros _ ? ->.
      apply memory_ret. by rewrite delete_insert_id.
    + rewrite decide_False by (by intros []). by apply memory_ret.
Qed.

(** A suite of threads, run and destroyed: if 0 is returned every worker was
    joined and freed, and only the structure of the suite is left. *)
Theorem pthread_suite_life proc tasks tc n s :
  u_heap s !! tasks = Some (UCells tc) → 0 < n < 2 ^ 60 →
  (∀ i, (i < Z.to_nat n)%nat → ∃ t, tc !! i = Some (Some t)) →
  ugives (suite ← benchmark_suite_pthread_create tasks n proc;
          match suite with
          | Ptr a =>
              r ← benchmark_suite_pthread_run a;
              _ ← benchmark_suite_pthread_destroy a; mret (Some (a, r))
          | _ => mret None
          end) s
    (λ r s', match r with
      | Some (a, r) => r = 0 → ∃ cells, u_heap s' = <[a := UCells cells]> (u_heap s)
      | None => u_heap s' = u_heap s
      end).
Proof.
  intros Ht Hn Htc.
  apply (memory_bind _ _ (u_heap s) _ (λ r H, match r with
      | Some (a, r) => r = 0 → ∃ cells, H = <[a := UCells cells]> (u_heap s)
      | None => H = u_heap s
      end) (pthread_create_spec proc tasks n _ Hn)); [|done].
  intros [| |a] H HP; [done|by apply memory_ret|].
  destruct HP as [Ha (cells & wk & c & Hb & Hw & Hp & Hl & Hwk & Haw & ->)].
  assert (tasks ≠ wk) by congruence. assert (tasks ≠ a) by congruence.
  eapply memory_bind.
  { mstep memory_load_cell; [rewrite lookup_insert_ne by done; apply lookup_insert_eq|done|].
    intros ? ? [-> ->]. eapply (run_workers_spec a); try done.
    - apply lookup_insert_eq.
    - rewrite lookup_insert_ne by done. exact Ht.
    - by rewrite Hl.
    - lia.
    - intros task H'. apply worker_create_spec. intros v h. apply memory_thread. }
  intros r H' (i & l & c' & Hao & Hr).
  eapply memory_bind.
  { mstep memory_load_ptr; [eapply array_keeps, Hao; [apply lookup_insert_eq|done]|done|].
    intros ? ? [-> ->]. mstep memory_free; [by eapply array_lookup|]. intros _ ? ->.
    apply memory_done. }
  intros r' ? ->. apply memory_ret. intros ->. rewrite (Hr eq_refl) in Hao.
  exists cells. destruct Hao as [-> _ _ _]. cbn. rewrite delete_insert_id; [done|].
  by rewrite lookup_insert_ne.
Qed.
End life.

(** ** The program, computed *)

(** Two processors, threads that end at once, and a clock that advances by half
    a second with each reading. *)
Definition demo_system : SysOps := {|
  os := nat;
  sys_ioctl _ cmd _ o := Some (0, if decide (cmd = IOCTL_CREATE_UMS_CLIST) then [UId 7] else [], o);
  sys_open _ _ o := (3, o);
  sys_close _ o := (0, o);
  sys_fork o := o;
  c_malloc used o := (Some (fresh used), o);
  sys_pthread_create _ _ _ o := (0, 5, o);
  sys_pthread_key_create o := (0, o);
  sys_pthread_setspecific o := (0, o);
  sys_pthread_atfork o := (0, o);
  sys_pthread_attr o := (0, o);
  sys_pthread_join _ o := Some (0, o);
  sys_nproc _ := 2;
|}.
Definition demo_clock (o : nat) : timespec * nat :=
  (mk_timespec (Z.of_nat (o / 2)) (Z.of_nat (o mod 2) * 500000000), S o).
Definition demo_start : ustate (SO := demo_system) :=
  mk_ustate (SO := demo_system) 1%nat 0 {[ 1%positive := UInt 0 ]} ∅ 3 false false None true 0 [] [].

(** The value returned, what was printed and how many objects are left: the
    variable, the suite, and the argument blocks of workers that did not run. *)
Definition demo_main (opts : list bench_opt) (args : list string) : option (Z * list string * nat) :=
  match bench_main (SO := demo_system) demo_clock 9 true 1 10 11 12 opts args demo_start with
  | URet r s => Some (r, u_stdout s, size (u_heap s))
  | _ => None
  end.

Example pthread_main_computed :
  demo_main [OptTask "prime"; OptWorkers 3] ["pthread"%string] =
    Some (0, ["num_workers: 3, nanoseconds: 500000000"%string], 2%nat).
Proof. vm_compute. reflexivity. Qed.
Example ums_main_computed :
  demo_main [OptWorkers 3] ["ums"%string] =
    Some (0, ["num_workers: 3, nanoseconds: 500000000"%string], 5%nat).
Proof. vm_compute. reflexivity. Qed.
Example main_without_workers : demo_main [] ["ums"%string] = Some (-1, [], 1%nat).
Proof. vm_compute. reflexivity. Qed.
(** An unknown suite: the tasks are not freed. *)
Example main_unknown_suite : demo_main [OptWorkers 3] ["none"%string] = Some (-1, [], 5%nat).
Proof. vm_compute. reflexivity. Qed.

Lemma demo_malloc : MallocLaws (SO := demo_system).
Proof. intros used o a o' [= <- _]. apply is_fresh. Qed.
Lemma demo_prompt : prompt (SO := demo_system).
Proof. split; intros; by eexists. Qed.

Lemma demo_scheduler :
  ∃ b s1, bench_scheduler_create (SO := demo_system) true 7 10 0 demo_start = URet (Ptr b) s1.
Proof. eexists _, _. vm_compute. reflexivity. Qed.

(** On the demonstration system both calls succeed, and so does the creation of
    a scheduler. *)
Lemma ums_suite_life_witness :
  ∃ a s' v cells,
    (suite ← benchmark_suite_ums_create (SO := demo_system) true 2 3 1 10 11;
     match suite with
     | Ptr a => _ ← benchmark_suite_ums_destroy a; mret (Some a)
     | _ => mret None
     end) demo_start = URet (Some a) s' ∧
    u_heap s' = <[1%positive := UInt v]> (<[a := UCells cells]> {[ 1%positive := UInt 0 ]}) ∧
    ∃ b s1, bench_scheduler_create (SO := demo_system) true 7 10 0 demo_start = URet (Ptr b) s1 ∧
      u_attrs s1 = 1.
Proof.
  destruct (ums_suite_life (SO := demo_system) (ML := demo_malloc) true 1 10 11 2 3 0 demo_start
    demo_prompt (λ _, eq_refl) eq_refl) as (r & s' & v & E & H & Hs).
  destruct r as [a|].
  - destruct H as (_ & cells & H). exists a, s', v, cells. refine (conj E (conj H _)).
    destruct demo_scheduler as (b & s1 & Ec). exists b, s1.
    exact (conj Ec (proj1 (Hs 7 10 0 demo_start b s1 Ec))).
  - exfalso. vm_compute in E. discriminate E.
Defined.
