(* ===== verification/Interleave.v ===== *)
(** * The queues under interleaving

    The completion lists and the event queues are shared between CPUs: any
    number of tasks add to a queue ([ums_completion_list_add],
    [enqueue_ums_sched_event]) and take from it
    ([do_dequeue_ums_complist_context], [do_dequeue_ums_sched_event]) at the
    same time.  Here the text of these functions is cut at every access to
    shared memory, and the pieces of all tasks are interleaved in any order.

    A task that finds the spinlock taken spins: its step is not enabled until
    the holder releases it.  [wait_event_interruptible] is the loop its
    definition in <linux/wait.h> describes: test, queue the task and mark it as
    sleeping, test again, look for signals, give up the CPU.  The list
    routines of <linux/list.h> are one step each; [list_empty], which is also
    called without the lock, reads one pointer that each of them writes once.

    The queues are records of operations ([wqueue]); [WqLaws] is what the
    proofs use of them. *)
From S2P Require Import Prelude ListHead ListSpec Kernel Uapi State Prims Context Proc Complist.
From S2P Require Import Scheduler.
From stdpp Require Import prelude gmap.

Local Open Scope Z_scope.

(** The shared queues: the events of a scheduler, the contexts of a completion
    list. *)
Inductive squeue := EventsOf (a : addr) | ContextsOf (a : addr).

(** What an observer of the queue sees: a node added in front or at the back,
    a batch of nodes taken, a call interrupted by a signal. *)
Inductive label :=
  | LTau
  | LPush (front : bool) (n : lnode)
  | LTake (batch : list lnode)
  | LIntr.

(** Where a task is in the text. *)
Inductive pc :=
  (** the functions that add, from [spin_lock] on *)
  | PAddLock (n : lnode) (flags : Z)
  | PAdd (n : lnode) (flags : Z)
  | PAddUnlock
  | PWake
  (** the functions that take *)
  | PLock
  | PTest
  | PTake
  | PRest (n : lnode)
  | PUnlock
  (** the body of the loop: [spin_unlock], [wait_event_interruptible] *)
  | PRelease
  | PWaitTest
  | PPrepare
  | PRetest
  | PSignal
  | PSchedule
  | PFinish (interrupted : bool).

Section interleave.
Context `{KO : KernelOps, LO : !ListOps lnode}.

(** ** The operations of a queue *)

Record wqueue := mk_wqueue {
  wq_head : lnode;
  wq_lock : kM unit;
  wq_unlock : kM unit;
  wq_wake : kM unit;                   (** [wake_up_all] *)
  wq_enter : pid_t → kM unit;          (** the task's entry in the wait queue *)
  wq_leave : pid_t → kM unit;
  wq_add_head : Z;                     (** the flags *)
  wq_add_tail : Z;
  wq_take : kM lnode;                  (** [list_first_entry], [list_del] *)
  wq_rest : lnode → kM (list lnode);   (** what follows, and the nodes handed over *)
  wq_all : bool;                       (** all nodes are taken at once *)
  wq_node : lnode → bool;              (** the nodes that can be in the queue *)
  wq_obs : gmap addr kobj → option (bool * list pid_t); (** lock and wait queue *)
}.

Definition event_queue (a : addr) : wqueue := {|
  wq_head := EventQ a;
  wq_lock := sched_spin_lock a;
  wq_unlock := sched_spin_unlock a;
  wq_wake := sched_wake_up_all a;
  wq_enter p := upd_sched a (λ s, sc_with_wait_q (wq_add p (sc_wait_q s)) s);
  wq_leave p := upd_sched a (λ s, sc_with_wait_q (wq_del p (sc_wait_q s)) s);
  wq_add_head := EVENT_ADD_HEAD;
  wq_add_tail := EVENT_ADD_TAIL;
  wq_take :=
    n ← lm_get (k_list_first (EventQ a));
    event ← entry_event n;
    _ ← lm_run (k_list_del (EventList event));
    mret (EventList event);
  wq_rest _ := mret [];
  wq_all := false;
  wq_node n := match n with EventList _ => true | _ => false end;
  wq_obs h :=
    match h !! a with Some (OSched s) => Some (sc_lock s, sc_wait_q s) | _ => None end;
|}.

Definition completion_queue (a : addr) : wqueue := {|
  wq_head := ClHead a;
  wq_lock := complist_spin_lock a;
  wq_unlock := complist_spin_unlock a;
  wq_wake := complist_wake_up_all a;
  wq_enter p := upd_complist a (λ c, cl_with_wait_q (wq_add p (cl_wait_q c)) c);
  wq_leave p := upd_complist a (λ c, cl_with_wait_q (wq_del p (cl_wait_q c)) c);
  wq_add_head := COMPLIST_ADD_HEAD;
  wq_add_tail := COMPLIST_ADD_TAIL;
  wq_take :=
    n ← lm_get (k_list_first (ClHead a));
    context ← entry_context n;
    _ ← lm_run (k_list_del (CtxList context));
    mret (CtxList context);
  wq_rest n :=
    _ ← lm_run (k_list_replace_init (ClHead a) n);
    lm_get (k_list_nodes n);
  wq_all := true;
  wq_node n := match n with CtxList _ => true | _ => false end;
  wq_obs h :=
    match h !! a with Some (OComplist c) => Some (cl_lock c, cl_wait_q c) | _ => None end;
|}.

Definition wq_of (k : squeue) : wqueue :=
  match k with EventsOf a => event_queue a | ContextsOf a => completion_queue a end.

(** ** One step of a task *)

Definition push_label (q : wqueue) (n : lnode) (flags : Z) : label :=
  if decide (Z.land flags (wq_add_head q) ≠ 0) then LPush true n
  else if decide (Z.land flags (wq_add_tail q) ≠ 0) then LPush false n
  else LTau.

(** The label and where the task goes on; [None]: the call has returned. *)
Definition run_pc (q : wqueue) (c : pc) : kM (label * option pc) :=
  match c with
  | PAddLock n flags => _ ← wq_lock q; mret (LTau, Some (PAdd n flags))
  | PAdd n flags =>
      _ ← (if decide (Z.land flags (wq_add_head q) ≠ 0) then lm_run (k_list_add n (wq_head q))
           else if decide (Z.land flags (wq_add_tail q) ≠ 0) then
             lm_run (k_list_add_tail n (wq_head q))
           else mret tt);
      mret (push_label q n flags, Some PAddUnlock)
  | PAddUnlock => _ ← wq_unlock q; mret (LTau, Some PWake)
  | PWake => _ ← wq_wake q; mret (LTau, None)
  | PLock => _ ← wq_lock q; mret (LTau, Some PTest)
  | PTest =>
      e ← lm_get (k_list_empty (wq_head q));
      mret (LTau, Some (if (e : bool) then PRelease else PTake))
  | PTake => n ← wq_take q; mret (LTau, Some (PRest n))
  | PRest n => ns ← wq_rest q n; mret (LTake (n :: ns), Some PUnlock)
  | PUnlock => _ ← wq_unlock q; mret (LTau, None)
  | PRelease => _ ← wq_unlock q; mret (LTau, Some PWaitTest)
  | PWaitTest =>
      e ← lm_get (k_list_empty (wq_head q));
      mret (LTau, Some (if (e : bool) then PPrepare else PLock))
  | PPrepare =>
      p ← gets w_cur;
      _ ← wq_enter q p;
      _ ← set_task_state p TASK_INTERRUPTIBLE;
      mret (LTau, Some PRetest)
  | PRetest =>
      e ← lm_get (k_list_empty (wq_head q));
      mret (LTau, Some (if (e : bool) then PSignal else PFinish false))
  | PSignal =>
      s ← call_env signal_pending;
      mret (LTau, Some (if (s : bool) then PFinish true else PSchedule))
  | PSchedule =>
      _ ← schedule;
      p ← gets w_cur;
      ts ← gets w_tasks;
      if decide (t_state <$> ts !! p = Some TASK_RUNNING)
      then mret (LTau, Some PPrepare) else asleep
  | PFinish interrupted =>
      p ← gets w_cur;
      _ ← set_task_state p TASK_RUNNING;
      _ ← wq_leave q p;
      mret (if (interrupted : bool) then (LIntr, None) else (LTau, Some PLock))
  end.

(** ** All tasks *)

Record csys := mk_csys { c_world : world; c_pool : gmap pid_t pc }.

(** The node a task is about to link, or has just unlinked. *)
Definition claim (c : pc) : option lnode :=
  match c with PAddLock n _ | PAdd n _ | PRest n => Some n | _ => None end.

Definition goto (p : pid_t) (next : option pc) (pool : gmap pid_t pc) : gmap pid_t pc :=
  match next with Some c => <[p := c]> pool | None => delete p pool end.

(** A task calls one of the functions (a node that is added is in no other
    hands), a task takes a step, something else in the kernel wakes a task up
    or changes its hidden state. *)
Inductive cstep (q : wqueue) : csys → label → csys → Prop :=
  | c_add w pool p n flags :
      pool !! p = None → is_Some (w_tasks w !! p) → wq_node q n = true →
      is_Some (w_lm w !! n) →
      (∀ l, k_list_nodes (wq_head q) (w_lm w) = Some l → n ∉ l) →
      (∀ p' c, pool !! p' = Some c → claim c ≠ Some n) →
      cstep q (mk_csys w pool) LTau (mk_csys w (<[p := PAddLock n flags]> pool))
  | c_dequeue w pool p :
      pool !! p = None → is_Some (w_tasks w !! p) →
      cstep q (mk_csys w pool) LTau (mk_csys w (<[p := PLock]> pool))
  | c_run w pool p c l next w' :
      pool !! p = Some c → run_pc q c (set_cur p w) = Ok (l, next) w' →
      cstep q (mk_csys w pool) l (mk_csys w' (goto p next pool))
  | c_wake w pool p t :
      w_tasks w !! p = Some t →
      cstep q (mk_csys w pool) LTau
        (mk_csys (set_tasks (<[p := mk_task TASK_RUNNING (t_usage t)]> (w_tasks w)) w) pool)
  | c_env w pool e :
      cstep q (mk_csys w pool) LTau (mk_csys (set_env e w) pool).

Inductive creach (q : wqueue) (σ0 : csys) : list label → csys → Prop :=
  | creach_refl : creach q σ0 [] σ0
  | creach_step tr l σ σ' :
      creach q σ0 tr σ → cstep q σ l σ' → creach q σ0 (tr ++ [l]) σ'.

(** Only the calls that are running go on; the hidden state of the kernel may
    change at any time. *)
Inductive rstep (q : wqueue) : csys → csys → Prop :=
  | r_run w pool p c e a next w' :
      pool !! p = Some c → run_pc q c (set_cur p (set_env e w)) = Ok (a, next) w' →
      rstep q (mk_csys w pool) (mk_csys w' (goto p next pool)).

(** A task alone, from [c] to its return. *)
Fixpoint solo (q : wqueue) (fuel : nat) (c : pc) : kM (list label) :=
  match fuel with
  | O => raise NoFuel
  | S fuel =>
      r ← run_pc q c;
      match r.2 with
      | None => mret [r.1]
      | Some c => ls ← solo q fuel c; mret (r.1 :: ls)
      end
  end.

(** No call is running; the queue holds [l]. *)
Definition cinit (q : wqueue) (l : list lnode) (σ : csys) : Prop :=
  c_pool σ = ∅ ∧ is_list (w_lm (c_world σ)) (wq_head q) l ∧
  Forall (λ n, wq_node q n = true) l ∧
  ∃ ws, wq_obs q (w_heap (c_world σ)) = Some (false, ws).
End interleave.

(** ** The queue as a sequence *)

(** A batch is one node, or all of them. *)
Definition batch_ok (all : bool) (batch l : list lnode) : Prop :=
  if all then batch ≠ [] ∧ l = [] else length batch = 1%nat.
Inductive astep (all : bool) : list lnode → label → list lnode → Prop :=
  | a_tau l : astep all l LTau l
  | a_intr l : astep all l LIntr l
  | a_front n l : astep all l (LPush true n) (n :: l)
  | a_back n l : astep all l (LPush false n) (l ++ [n])
  | a_take batch l : batch_ok all batch l → astep all (batch ++ l) (LTake batch) l.
Inductive arun (all : bool) (l0 : list lnode) : list label → list lnode → Prop :=
  | arun_refl : arun all l0 [] l0
  | arun_step tr l1 a l2 : arun all l0 tr l1 → astep all l1 a l2 → arun all l0 (tr ++ [a]) l2.

(** What was added, what was taken. *)
Definition pushed (tr : list label) : list lnode :=
  omap (λ a, match a with LPush _ n => Some n | _ => None end) tr.
Definition taken (tr : list label) : list lnode :=
  concat (omap (λ a, match a with LTake b => Some b | _ => None end) tr).
Definition only_back (tr : list label) : Prop :=
  Forall (λ a, match a with LPush front _ => front = false | _ => True end) tr.

Lemma pushed_app tr1 tr2 : pushed (tr1 ++ tr2) = pushed tr1 ++ pushed tr2.
Proof. apply omap_app. Qed.
Lemma taken_app tr1 tr2 : taken (tr1 ++ tr2) = taken tr1 ++ taken tr2.
Proof. unfold taken. by rewrite omap_app, concat_app. Qed.

(** Nothing is lost, duplicated or invented ... *)
Lemma arun_conserves all l0 tr l : arun all l0 tr l → l0 ++ pushed tr ≡ₚ taken tr ++ l.
Proof.
  induction 1 as [|tr l1 a l2 _ IH Ha]; [by rewrite app_nil_r|].
  rewrite pushed_app, taken_app, (assoc_L (++)), IH, <- !(assoc_L (++)).
  f_equiv. destruct Ha; unfold taken; simpl; rewrite ?app_nil_r; try done.
  by rewrite <- Permutation_cons_append.
Qed.
(** ... and when all are added at the back, they are taken in order. *)
Lemma arun_fifo all l0 tr l : arun all l0 tr l → only_back tr → l0 ++ pushed tr = taken tr ++ l.
Proof.
  induction 1 as [|tr l1 a l2 _ IH Ha]; intros Hb; [by rewrite app_nil_r|].
  apply Forall_app in Hb as [Hb Ha']. specialize (IH Hb). rewrite Forall_singleton in Ha'.
  rewrite pushed_app, taken_app, (assoc_L (++)), IH, <- !(assoc_L (++)).
  f_equal. destruct Ha; simplify_eq; unfold taken; simpl; rewrite ?app_nil_r; try done.
Qed.

(** ** What the proofs use of a queue *)

Section laws.
Context `{KO : KernelOps, LO : !ListOps lnode}.

Class WqLaws (q : wqueue) : Prop := {
  wql_lock w ws : wq_obs q (w_heap w) = Some (false, ws) →
    ∃ h, wq_lock q w = Ok tt (set_heap h w) ∧ wq_obs q h = Some (true, ws);
  wql_spin w ws : wq_obs q (w_heap w) = Some (true, ws) → wq_lock q w = Bug LockHeld;
  wql_unlock w ws : wq_obs q (w_heap w) = Some (true, ws) →
    ∃ h, wq_unlock q w = Ok tt (set_heap h w) ∧ wq_obs q h = Some (false, ws);
  wql_wake w b ws : wq_obs q (w_heap w) = Some (b, ws) →
    ∃ h, wq_wake q w = Ok tt (set_tasks (wake_tasks ws (w_tasks w)) (set_heap h w)) ∧
      wq_obs q h = Some (b, []);
  wql_enter w b ws p : wq_obs q (w_heap w) = Some (b, ws) →
    ∃ h, wq_enter q p w = Ok tt (set_heap h w) ∧ wq_obs q h = Some (b, wq_add p ws);
  wql_leave w b ws p : wq_obs q (w_heap w) = Some (b, ws) →
    ∃ h, wq_leave q p w = Ok tt (set_heap h w) ∧ wq_obs q h = Some (b, wq_del p ws);
  wql_take w n l : is_list (w_lm w) (wq_head q) (n :: l) → wq_node q n = true →
    ∃ m, wq_take q w = Ok n (set_lm m w) ∧ dom m = dom (w_lm w) ∧ is_list m (wq_head q) l;
  wql_rest w n l : is_list (w_lm w) (wq_head q) l → n ∉ wq_head q :: l →
    is_Some (w_lm w !! n) →
    ∃ m, wq_rest q n w = Ok (if wq_all q then l else []) (set_lm m w) ∧
      dom m = dom (w_lm w) ∧ is_list m (wq_head q) (if wq_all q then [] else l);
  wql_head : wq_node q (wq_head q) = false;
}.
End laws.

(** A memory with one list. *)
Lemma forest_single (m : lmem lnode) h l : is_list m h l → forest_ok m {[h := l]}.
Proof.
  intros Hl. split.
  - by intros k r [<- <-]%lookup_singleton_Some.
  - intros k1 r1 k2 r2 y [<- <-]%lookup_singleton_Some [<- <-]%lookup_singleton_Some. done.
Qed.
Lemma free_single n (h : lnode) l : n ∉ h :: l → free_node {[h := l]} n.
Proof. intros Hn k r [<- <-]%lookup_singleton_Some Hin. done. Qed.

Section instances.
Context `{KO : KernelOps, LO : !ListOps lnode, LL : !ListLaws lnode}.
Implicit Types (w : world).

Lemma event_obs a h b ws :
  wq_obs (event_queue a) h = Some (b, ws) →
  ∃ s, h !! a = Some (OSched s) ∧ sc_lock s = b ∧ sc_wait_q s = ws.
Proof. simpl. intros E. repeat case_match; simplify_eq. eauto. Qed.
Lemma completion_obs a h b ws :
  wq_obs (completion_queue a) h = Some (b, ws) →
  ∃ c, h !! a = Some (OComplist c) ∧ cl_lock c = b ∧ cl_wait_q c = ws.
Proof. simpl. intros E. repeat case_match; simplify_eq. eauto. Qed.

#[export] Instance event_queue_laws a : WqLaws (event_queue a).
Proof.
  split.
  - intros w ws (s & Ha & Hl & <-)%event_obs. eexists. split; [by apply sched_spin_lock_run|].
    simpl. by rewrite lookup_insert_eq.
  - intros w ws (s & Ha & Hl & <-)%event_obs. simpl. unfold sched_spin_lock.
    krun get_sched_run; [done|]. by rewrite Hl.
  - intros w ws (s & Ha & Hl & <-)%event_obs. eexists. split; [by apply sched_spin_unlock_run|].
    simpl. by rewrite lookup_insert_eq.
  - intros w b ws (s & Ha & <- & <-)%event_obs. eexists. split; [by apply sched_wake_up_all_run|].
    simpl. by rewrite lookup_insert_eq.
  - intros w b ws p (s & Ha & <- & <-)%event_obs. eexists. split; [by apply upd_sched_run|].
    simpl. by rewrite lookup_insert_eq.
  - intros w b ws p (s & Ha & <- & <-)%event_obs. eexists. split; [by apply upd_sched_run|].
    simpl. by rewrite lookup_insert_eq.
  - intros w n l Hq Hn. destruct n as [|?|?|e]; try done. simpl in *.
    pose proof (law_first _ _ _ _ Hq) as E1.
    destruct (law_del (w_lm w) (EventQ a) [] (EventList e) l Hq) as (m & E2 & [D _] & Hl).
    exists m. split; [|done]. krun lm_get_run; [exact E1|]. simpl.
    krun (eq_refl : entry_event (EventList e) w = Ok _ _). by krun lm_run_run.
  - intros w n l Hq Hn Hlive. exists (w_lm w). split_and!; [by destruct w|done..].
  - done.
Qed.
#[export] Instance completion_queue_laws a : WqLaws (completion_queue a).
Proof.
  split.
  - intros w ws (s & Ha & Hl & <-)%completion_obs. eexists.
    split; [by apply complist_spin_lock_run|]. simpl. by rewrite lookup_insert_eq.
  - intros w ws (s & Ha & Hl & <-)%completion_obs. simpl. unfold complist_spin_lock.
    krun get_complist_run; [done|]. by rewrite Hl.
  - intros w ws (s & Ha & Hl & <-)%completion_obs. eexists.
    split; [by apply complist_spin_unlock_run|]. simpl. by rewrite lookup_insert_eq.
  - intros w b ws (s & Ha & <- & <-)%completion_obs. eexists.
    split; [by apply complist_wake_up_all_run|]. simpl. by rewrite lookup_insert_eq.
  - intros w b ws p (s & Ha & <- & <-)%completion_obs. eexists. split; [by apply upd_complist_run|].
    simpl. by rewrite lookup_insert_eq.
  - intros w b ws p (s & Ha & <- & <-)%completion_obs. eexists. split; [by apply upd_complist_run|].
    simpl. by rewrite lookup_insert_eq.
  - intros w n l Hq Hn. destruct n as [|ctx|?|?]; try done. simpl in *.
    pose proof (law_first _ _ _ _ Hq) as E1.
    destruct (law_del (w_lm w) (ClHead a) [] (CtxList ctx) l Hq) as (m & E2 & [D _] & Hl).
    exists m. split; [|done]. krun lm_get_run; [exact E1|]. simpl.
    krun (eq_refl : entry_context (CtxList ctx) w = Ok _ _). by krun lm_run_run.
  - intros w n l Hq Hn Hlive. simpl in *.
    destruct (law_replace_init (w_lm w) (ClHead a) l n) as (m & E & [D _] & Hnl & Hh); [done..|].
    exists m. split_and!; [|done..].
    krun lm_run_run; [exact E|]. by apply lm_get_run, law_nodes.
  - done.
Qed.
#[export] Instance wq_of_laws k : WqLaws (wq_of k).
Proof. destruct k; apply _. Qed.
End instances.

(** ** Running an interleaving *)

(** A schedule: which call starts, which task goes on. *)
Inductive action :=
  | StartAdd (p : pid_t) (n : lnode) (flags : Z)
  | StartTake (p : pid_t)
  | Go (p : pid_t).

Section exec.
Context `{KO : KernelOps, LO : !ListOps lnode}.

Definition unclaimed (n : lnode) (pool : gmap pid_t pc) : bool :=
  bool_decide (map_Forall (λ _ c, claim c ≠ Some n) pool).
Definition unlinked (q : wqueue) (n : lnode) (m : lmem lnode) : bool :=
  match k_list_nodes (wq_head q) m with Some l => bool_decide (n ∉ l) | None => true end.
Definition idle (p : pid_t) (σ : csys) : bool :=
  bool_decide (c_pool σ !! p = None ∧ is_Some (w_tasks (c_world σ) !! p)).

Definition exec (q : wqueue) (σ : csys) (act : action) : option (label * csys) :=
  match act with
  | StartAdd p n flags =>
      if idle p σ && wq_node q n && bool_decide (is_Some (w_lm (c_world σ) !! n)) &&
         unlinked q n (w_lm (c_world σ)) && unclaimed n (c_pool σ)
      then Some (LTau, mk_csys (c_world σ) (<[p := PAddLock n flags]> (c_pool σ))) else None
  | StartTake p =>
      if idle p σ then Some (LTau, mk_csys (c_world σ) (<[p := PLock]> (c_pool σ))) else None
  | Go p =>
      match c_pool σ !! p with
      | Some c =>
          match run_pc q c (set_cur p (c_world σ)) with
          | Ok (l, next) w' => Some (l, mk_csys w' (goto p next (c_pool σ)))
          | _ => None
          end
      | None => None
      end
  end.
Fixpoint exec_all (q : wqueue) (σ : csys) (acts : list action) : option (list label * csys) :=
  match acts with
  | [] => Some ([], σ)
  | act :: acts =>
      '(l, σ1) ← exec q σ act;
      '(ls, σ2) ← exec_all q σ1 acts;
      Some (l :: ls, σ2)
  end.

Lemma exec_cstep q σ act l σ' : exec q σ act = Some (l, σ') → cstep q σ l σ'.
Proof.
  destruct σ as [w pool]. destruct act as [p n flags|p|p]; simpl; unfold idle, unclaimed, unlinked; simpl.
  - destruct (bool_decide _) eqn:E1; [|done]. destruct (wq_node q n) eqn:E2; [|done]. simpl.
    destruct (bool_decide (is_Some _)) eqn:E3; [|done]. simpl.
    destruct (match _ with Some _ => _ | None => _ end) eqn:E4; [|done]. simpl.
    destruct (bool_decide (map_Forall _ _)) eqn:E5; [|done]. intros [= <- <-].
    apply bool_decide_eq_true in E1 as [? ?], E3, E5. constructor; try done.
    intros l' El. rewrite El in E4. by apply bool_decide_eq_true in E4.
  - destruct (bool_decide _) eqn:E1; [|done]. intros [= <- <-].
    apply bool_decide_eq_true in E1 as [? ?]. by constructor.
  - destruct (pool !! p) as [c|] eqn:Hp; [|done].
    destruct (run_pc q c (set_cur p w)) as [[l1 next] w'| |] eqn:E; try done.
    intros [= <- <-]. by econstructor.
Qed.

Lemma creach_cons q σ0 l σ1 tr σ : cstep q σ0 l σ1 → creach q σ1 tr σ → creach q σ0 (l :: tr) σ.
Proof.
  intros H1. induction 1 as [|tr l2 σ2 σ3 _ IH H2].
  - eapply (creach_step _ _ []); [constructor|done].
  - exact (creach_step q σ0 (l :: tr) l2 σ2 σ3 IH H2).
Qed.
Lemma exec_all_creach q acts : ∀ σ tr σ', exec_all q σ acts = Some (tr, σ') → creach q σ tr σ'.
Proof.
  induction acts as [|act acts IH]; intros σ tr σ' E; simpl in E; [simplify_eq; constructor|].
  destruct (exec q σ act) as [[l σ1]|] eqn:E1; [|done]. simpl in E.
  destruct (exec_all q σ1 acts) as [[ls σ2]|] eqn:E2; [|done]. simplify_eq/=.
  eapply creach_cons; [by eapply exec_cstep|]. by apply IH.
Qed.
End exec.
