(* ===== verification/InterleaveInv.v ===== *)
(** * Invariants of the interleaved queues

    Mutual exclusion, the shape of the list, the wait queue and the pending
    wakeups, for any number of tasks on a queue that satisfies [WqLaws]; and
    what follows: every step of a task succeeds unless it waits for the lock
    or sleeps, and a queue that stands still is empty. *)
From S2P Require Import Prelude ListHead ListSpec Kernel Uapi State Prims Context Proc Complist.
From S2P Require Import Scheduler Interleave.
From stdpp Require Import prelude gmap.

Local Open Scope Z_scope.

(** The lock is taken at; it is held at; the task is in the wait queue, or was woken up; it
    will not look at the queue again before it sleeps; it will call
    [wake_up_all]. *)
Definition spins (c : pc) : bool :=
  match c with PAddLock _ _ | PLock => true | _ => false end.
Definition holds (c : pc) : bool :=
  match c with
  | PAdd _ _ | PAddUnlock | PTest | PTake | PRest _ | PUnlock | PRelease => true
  | _ => false
  end.
Definition waiting (c : pc) : bool :=
  match c with PRetest | PSignal | PSchedule => true | _ => false end.
Definition dozing (c : pc) : bool :=
  match c with PSignal | PSchedule => true | _ => false end.
Definition waking (c : pc) : bool :=
  match c with PAddUnlock | PWake => true | _ => false end.

(** The task is marked as sleeping. *)
Definition sleeps (ts : gmap pid_t task) (p : pid_t) : Prop :=
  t_state <$> ts !! p ≠ Some TASK_RUNNING.
#[global] Instance sleeps_dec ts p : Decision (sleeps ts p).
Proof. unfold sleeps. apply _. Defined.

(** What concerns the tasks of a state: the nodes [l] in the list, the holder
    [H] of the lock, the wait queue [ws], the run states [ts], the nodes [D] in
    memory. *)
Record shared := mk_shared {
  sh_list : list lnode;
  sh_holder : option pid_t;
  sh_wq : list pid_t;
  sh_tasks : gmap pid_t task;
  sh_nodes : gset lnode;
}.

Section pure.
Context (node : lnode → bool).
Implicit Types (s : shared) (pool : gmap pid_t pc) (p : pid_t) (c : pc).

(** Someone will call [wake_up_all]. *)
Definition wakes pool : Prop := ∃ p c, pool !! p = Some c ∧ waking c = true.

Record task_ok s (W : Prop) p c : Prop := {
  tk_take : c = PTake → sh_list s ≠ [];
  tk_claim n : claim c = Some n → node n = true ∧ n ∈ sh_nodes s ∧ n ∉ sh_list s;
  tk_holds : holds c = true ↔ sh_holder s = Some p;
  tk_wait : waiting c = true → sleeps (sh_tasks s) p → p ∈ sh_wq s;
  (** no lost wakeup *)
  tk_doze : dozing c = true → sleeps (sh_tasks s) p → sh_list s = [] ∨ W;
  tk_task : is_Some (sh_tasks s !! p);
}.
Record pool_ok s pool : Prop := {
  pl_tasks p c : pool !! p = Some c → task_ok s (wakes pool) p c;
  pl_claims p1 c1 p2 c2 n : pool !! p1 = Some c1 → pool !! p2 = Some c2 →
    claim c1 = Some n → claim c2 = Some n → p1 = p2;
  pl_holder p : sh_holder s = Some p → is_Some (pool !! p);
  pl_nodes : Forall (λ n, node n = true) (sh_list s);
  pl_nodup : NoDup (sh_list s);
}.

(** What an observer takes the queue to be: a node that was unlinked counts
    until its batch is complete. *)
Definition view s pool : list lnode :=
  match sh_holder s ≫= (pool !!.) with
  | Some (PRest n) => n :: sh_list s
  | _ => sh_list s
  end.

(** ** A task moves from [c] to [next] *)

Lemma goto_Some p next pool p' c' :
  goto p next pool !! p' = Some c' ↔
    (p' = p ∧ next = Some c') ∨ (p' ≠ p ∧ pool !! p' = Some c').
Proof.
  destruct next as [c|]; simpl.
  - rewrite lookup_insert_Some. naive_solver.
  - rewrite lookup_delete_Some. naive_solver.
Qed.

Definition next_waking (next : option pc) : bool :=
  match next with Some c => waking c | None => false end.

Lemma wakes_goto pool p c next :
  pool !! p = Some c → (waking c = true → next_waking next = true) → wakes pool →
  wakes (goto p next pool).
Proof.
  intros Hp Hw (p' & c' & Hp' & Hc'). destruct (decide (p' = p)) as [->|Hne].
  - simplify_eq. specialize (Hw Hc'). destruct next as [c''|]; [|done].
    exists p, c''. rewrite goto_Some. auto.
  - exists p', c'. rewrite goto_Some. auto.
Qed.
Lemma wakes_here pool p c : waking c = true → wakes (goto p (Some c) pool).
Proof. intros Hc. exists p, c. rewrite goto_Some. auto. Qed.

(** The scheme of all steps: what is to be shown of the task that moves and of
    the others. *)
Lemma pool_ok_goto s s' pool p c next :
  pool_ok s pool → pool !! p = Some c →
  (∀ p' c', p' ≠ p → pool !! p' = Some c' → task_ok s (wakes pool) p' c' →
     task_ok s' (wakes (goto p next pool)) p' c') →
  match next with
  | Some c' => task_ok s' (wakes (goto p next pool)) p c' ∧
      (∀ n, claim c' = Some n → claim c = Some n ∨ n ∈ sh_list s)
  | None => sh_holder s' ≠ Some p
  end →
  (∀ p', sh_holder s' = Some p' → p' = p ∨ sh_holder s = Some p') →
  Forall (λ n, node n = true) (sh_list s') → NoDup (sh_list s') →
  pool_ok s' (goto p next pool).
Proof.
  intros HP Hp Ho Hn Hh Hf Hd. split; [| | |done..].
  - intros p' c' [[-> ->]|[Hne Hp']]%goto_Some; [apply Hn|]. eapply Ho; [done..|]. by eapply pl_tasks.
  - assert (∀ p2 c1 c2 n, next = Some c1 → p2 ≠ p → pool !! p2 = Some c2 →
      claim c1 = Some n → claim c2 = Some n → False) as Hmix.
    { intros p2 c1 c2 n -> Hne H2 E1 E2. destruct Hn as [_ Hn].
      destruct (Hn n E1) as [E|Hin]; [by eapply Hne, pl_claims|].
      by destruct (tk_claim _ _ _ _ (pl_tasks _ _ HP _ _ H2) n E2) as (_ & _ & ?). }
    intros p1 c1 p2 c2 n [[-> H1]|[N1 H1]]%goto_Some [[-> H2]|[N2 H2]]%goto_Some E1 E2;
      [done|by edestruct Hmix..|by eapply pl_claims].
  - intros p' Hp'. destruct (Hh p' Hp') as [->|Hs].
    + destruct next as [c'|]; [|done]. exists c'. rewrite goto_Some. auto.
    + destruct (decide (p' = p)) as [->|Hne].
      * destruct next as [c'|]; [|done]. exists c'. rewrite goto_Some. auto.
      * destruct (pl_holder _ _ HP p' Hs) as [c' Hc']. exists c'. rewrite goto_Some. auto.
Qed.

(** A task that does not move. *)
Lemma task_ok_other s s' (W W' : Prop) p c :
  task_ok s W p c → sh_nodes s' = sh_nodes s →
  (c = PTake → sh_list s' ≠ []) → (∀ n, claim c = Some n → n ∉ sh_list s') →
  (sh_holder s' = Some p ↔ sh_holder s = Some p) →
  (sleeps (sh_tasks s') p → sleeps (sh_tasks s) p ∧ (p ∈ sh_wq s → p ∈ sh_wq s')) →
  (dozing c = true → sleeps (sh_tasks s') p → sh_list s = [] ∨ W → sh_list s' = [] ∨ W') →
  (is_Some (sh_tasks s !! p) → is_Some (sh_tasks s' !! p)) → task_ok s' W' p c.
Proof.
  intros [T1 T2 T3 T4 T5 T6] En Ht Hc Hh Hs Hd Hk. split; auto.
  - intros n Hn. rewrite En. destruct (T2 n Hn) as (? & ? & _). auto.
  - by rewrite T3.
  - intros Hw Hsl. destruct (Hs Hsl). auto.
  - intros Hdz Hsl. destruct (Hs Hsl). auto.
Qed.

(** Local steps: the queue, the lock and the tasks stay as they are. *)
Lemma pool_ok_local s pool p c c' :
  pool_ok s pool → pool !! p = Some c →
  claim c' = None → holds c' = holds c → (waking c = true → waking c' = true) →
  (c' = PTake → sh_list s ≠ []) → (waiting c' = true → waiting c = true) →
  (dozing c' = true → sh_list s = [] ∨ dozing c = true) →
  pool_ok s (<[p := c']> pool).
Proof.
  intros HP Hp Hcl Hh Hwk Ht Hw Hd. pose proof (pl_tasks _ _ HP _ _ Hp) as [T1 T2 T3 T4 T5 T6].
  eapply (pool_ok_goto s s pool p c (Some c')); [done|done| | | |exact (pl_nodes _ _ HP)|exact (pl_nodup _ _ HP)].
  - intros p1 c1 Hne H1 HT. eapply task_ok_other; [exact HT|done|by apply HT| |done| | |done].
    + intros n Hn. by apply (tk_claim _ _ _ _ HT n Hn).
    + auto.
    + intros _ _ [?|HW]; [by left|right]. by eapply wakes_goto.
  - rewrite Hcl. split; [|done]. split; [done| |by rewrite Hh| | |done].
    + intros n. by rewrite Hcl.
    + auto.
    + intros Hdz Hsl. destruct (Hd Hdz) as [?|Hdz']; [by left|].
      destruct (T5 Hdz' Hsl) as [?|HW]; [by left|right]. by eapply (wakes_goto pool p c (Some c')).
  - auto.
Qed.

Definition sh_with_holder v s := mk_shared (sh_list s) v (sh_wq s) (sh_tasks s) (sh_nodes s).
Definition sh_with_list v s := mk_shared v (sh_holder s) (sh_wq s) (sh_tasks s) (sh_nodes s).
Definition sh_with_wq v ts s := mk_shared (sh_list s) (sh_holder s) v ts (sh_nodes s).

Lemma pool_ok_lock s pool p c c' :
  pool_ok s pool → pool !! p = Some c → sh_holder s = None →
  claim c' = claim c → holds c' = true → waking c = false →
  c' ≠ PTake → waiting c' = false → dozing c' = false →
  pool_ok (sh_with_holder (Some p) s) (<[p := c']> pool).
Proof.
  intros HP Hp HN Hcl Hh Hwk Ht Hw Hd. pose proof (pl_tasks _ _ HP _ _ Hp) as [T1 T2 T3 T4 T5 T6].
  eapply (pool_ok_goto s _ pool p c (Some c')); [done|done| | | |exact (pl_nodes _ _ HP)|exact (pl_nodup _ _ HP)].
  - intros p1 c1 Hne H1 HT. eapply task_ok_other; [exact HT|done|by apply HT| | | | |done].
    + intros n Hn. by apply (tk_claim _ _ _ _ HT n Hn).
    + simpl. rewrite HN. naive_solver.
    + auto.
    + intros _ _ [?|HW]; [by left|right]. eapply wakes_goto; [done|by rewrite Hwk|done].
  - split; [|intros n; rewrite Hcl; auto]. split; simpl; try done; [|by rewrite Hw|by rewrite Hd].
    intros n. rewrite Hcl. apply T2.
  - simpl. naive_solver.
Qed.
Lemma pool_ok_unlock s pool p c next :
  pool_ok s pool → pool !! p = Some c → sh_holder s = Some p →
  (waking c = true → next_waking next = true) →
  (∀ c', next = Some c' → claim c' = None ∧ holds c' = false ∧ c' ≠ PTake ∧
     waiting c' = false ∧ dozing c' = false) →
  pool_ok (sh_with_holder None s) (goto p next pool).
Proof.
  intros HP Hp HN Hwk Hn. pose proof (pl_tasks _ _ HP _ _ Hp) as [T1 T2 T3 T4 T5 T6].
  eapply (pool_ok_goto s _ pool p c next); [done|done| | | |exact (pl_nodes _ _ HP)|exact (pl_nodup _ _ HP)].
  - intros p1 c1 Hne H1 HT. eapply task_ok_other; [exact HT|done|by apply HT| | | | |done].
    + intros n' Hn'. by apply (tk_claim _ _ _ _ HT n' Hn').
    + simpl. rewrite HN. naive_solver.
    + auto.
    + intros _ _ [?|HW]; [by left|right]. by eapply wakes_goto.
  - destruct next as [c'|]; [|done]. destruct (Hn c' eq_refl) as (E1 & E2 & E3 & E4 & E5).
    split; [|by rewrite E1]. split; simpl; try done; [by rewrite E1|by rewrite E2|by rewrite E4|by rewrite E5].
  - done.
Qed.

(** The list changes, in the hands of the holder. *)
Lemma pool_ok_list s pool p c c' l' :
  pool_ok s pool → pool !! p = Some c → sh_holder s = Some p → holds c' = true →
  c' ≠ PTake → waiting c' = false → dozing c' = false →
  (∀ n, claim c' = Some n → n ∈ sh_list s ∧ (n ∉ l') ∧ n ∈ sh_nodes s) →
  (∀ p1 c1 n, p1 ≠ p → pool !! p1 = Some c1 → claim c1 = Some n → n ∉ l') →
  (waking c = true → waking c' = true) →
  (sh_list s = [] → l' = [] ∨ waking c' = true) →
  Forall (λ n, node n = true) l' → NoDup l' →
  pool_ok (sh_with_list l' s) (<[p := c']> pool).
Proof.
  intros HP Hp HN Hh Ht Hw Hd Hcl Hoth Hwk He Hf Hnd.
  pose proof (pl_tasks _ _ HP _ _ Hp) as [T1 T2 T3 T4 T5 T6].
  pose proof (pl_nodes _ _ HP) as Hfn. rewrite Forall_forall in Hfn.
  eapply (pool_ok_goto s _ pool p c (Some c')); [done|done| | |by auto|done|done].
  - intros p1 c1 Hne H1 HT. eapply task_ok_other; [exact HT|done|..].
    + intros ->. destruct (tk_holds _ _ _ _ HT) as [HH _]. specialize (HH eq_refl). congruence.
    + intros n Hn. by eapply Hoth.
    + done.
    + auto.
    + intros _ _ [E|HW]; simpl.
      * destruct (He E) as [?|Hc']; [by left|right]. by apply wakes_here.
      * right. by eapply (wakes_goto pool p c (Some c')).
    + done.
  - split; [|intros n Hn; right; by apply Hcl]. split; simpl; try done; [|by rewrite Hw|by rewrite Hd].
    intros n Hn. destruct (Hcl n Hn) as (? & ? & ?). auto.
Qed.

(** The task changes its own run state and its entry in the wait queue. *)
Lemma pool_ok_own s pool p c next ws t :
  pool_ok s pool → pool !! p = Some c → holds c = false → waking c = false →
  (∀ p1, p1 ≠ p → p1 ∈ sh_wq s → p1 ∈ ws) →
  (∀ c', next = Some c' → claim c' = None ∧ holds c' = false ∧ c' ≠ PTake ∧ dozing c' = false ∧
     (waiting c' = true → p ∈ ws)) →
  pool_ok (sh_with_wq ws (<[p := t]> (sh_tasks s)) s) (goto p next pool).
Proof.
  intros HP Hp Hh Hwk Hws Hn. pose proof (pl_tasks _ _ HP _ _ Hp) as [T1 T2 T3 T4 T5 T6].
  eapply (pool_ok_goto s _ pool p c next); [done|done| | | |exact (pl_nodes _ _ HP)|exact (pl_nodup _ _ HP)].
  - intros p1 c1 Hne H1 HT. eapply task_ok_other; [exact HT|done|by apply HT| |done| | |].
    + intros n' Hn'. by apply (tk_claim _ _ _ _ HT n' Hn').
    + unfold sleeps. simpl. rewrite lookup_insert_ne by done. auto.
    + intros _ _ [?|HW]; [by left|right]. eapply wakes_goto; [done|by rewrite Hwk|done].
    + simpl. by rewrite lookup_insert_ne.
  - destruct next as [c'|].
    + destruct (Hn c' eq_refl) as (E1 & E2 & E3 & E4 & E5). split; [|by rewrite E1].
      split; simpl; try done; [by rewrite E1|by rewrite E2, <- T3, Hh|auto|by rewrite E4|].
      rewrite lookup_insert_eq. by eexists.
    + simpl. rewrite <- T3, Hh. done.
  - auto.
Qed.

(** All tasks in the wait queue are woken up. *)
Lemma wake_sleeps (ws : list pid_t) (ts : gmap pid_t task) p :
  sleeps (wake_tasks ws ts) p → sleeps ts p ∧ (is_Some (ts !! p) → p ∉ ws).
Proof.
  unfold sleeps. rewrite wake_tasks_lookup. destruct (ts !! p) as [t|]; simpl; [|by intros; split; [|intros []]].
  case_decide; [by intros []|done].
Qed.
Lemma pool_ok_wake s pool p :
  pool_ok s pool → pool !! p = Some PWake →
  pool_ok (sh_with_wq [] (wake_tasks (sh_wq s) (sh_tasks s)) s) (delete p pool).
Proof.
  intros HP Hp. pose proof (pl_tasks _ _ HP _ _ Hp) as [T1 T2 T3 T4 T5 T6].
  eapply (pool_ok_goto s _ pool p PWake None); [done|done| | |by auto|exact (pl_nodes _ _ HP)|exact (pl_nodup _ _ HP)].
  - intros p1 c1 Hne H1 HT. destruct HT as [U1 U2 U3 U4 U5 U6]. split; try done.
    + intros Hw [Hs Hn]%wake_sleeps. by destruct (Hn U6); auto.
    + intros Hd [Hs Hn]%wake_sleeps. destruct (Hn U6). apply U4; [by destruct c1|done].
    + simpl. rewrite wake_tasks_lookup. destruct U6 as [t ->]. by eexists.
  - simpl. by rewrite <- T3.
Qed.
Lemma pool_ok_awake s pool p t :
  pool_ok s pool → t_state t = TASK_RUNNING →
  pool_ok (sh_with_wq (sh_wq s) (<[p := t]> (sh_tasks s)) s) pool.
Proof.
  intros HP Ht. destruct HP as [P1 P2 P3 P4 P5]. split; try done.
  intros p1 c1 H1. specialize (P1 _ _ H1). eapply task_ok_other; [exact P1|done|by apply P1| |done|..].
  - intros n Hn. by apply (tk_claim _ _ _ _ P1 n Hn).
  - unfold sleeps. simpl. rewrite lookup_insert. case_decide; [|done]. simpl. rewrite Ht. done.
  - auto.
  - simpl. intros [t1 E]. rewrite lookup_insert. case_decide; by eexists.
Qed.

(** A task calls one of the functions. *)
Lemma pool_ok_call s pool p c :
  pool_ok s pool → pool !! p = None → is_Some (sh_tasks s !! p) →
  holds c = false → waiting c = false → dozing c = false → c ≠ PTake →
  (∀ n, claim c = Some n → node n = true ∧ n ∈ sh_nodes s ∧ n ∉ sh_list s) →
  (∀ n p1 c1, claim c = Some n → pool !! p1 = Some c1 → claim c1 ≠ Some n) →
  pool_ok s (<[p := c]> pool).
Proof.
  intros [P1 P2 P3 P4 P5] Hp Ht Hh Hw Hd Hnt Hc Ho. split; [| | |done..].
  - intros p1 c1 [[<- <-]|[Hne H1]]%lookup_insert_Some.
    + split; try done; [|by rewrite Hw|by rewrite Hd]. rewrite Hh. split; [done|].
      intros Hs. destruct (P3 p Hs). congruence.
    + specialize (P1 _ _ H1). eapply task_ok_other; [exact P1|done|by apply P1| |done| | |done].
      * intros n Hn. by apply (tk_claim _ _ _ _ P1 n Hn).
      * auto.
      * intros _ _ [?|(p2 & c2 & H2 & ?)]; [by left|right]. exists p2, c2.
        rewrite lookup_insert_ne by congruence. done.
  - intros p1 c1 p2 c2 n [[<- <-]|[N1 H1]]%lookup_insert_Some [[<- <-]|[N2 H2]]%lookup_insert_Some E1 E2;
      [done|by edestruct Ho..|by eapply P2].
  - intros p1 H1. destruct (P3 p1 H1) as [c1 E]. exists c1. rewrite lookup_insert_ne; [done|congruence].
Qed.
End pure.

(** ** A measure

    Each node to be linked, taken, or announced by [wake_up_all] is a token;
    between two uses of tokens every task comes closer to a return or to
    sleep, at a rate that depends on whether the queue is empty ([e]) and
    whether the task is marked as sleeping ([z]). *)

Definition tokens (c : pc) : nat :=
  match c with PAddLock _ _ | PAdd _ _ => 3 | PAddUnlock | PWake => 1 | _ => 0 end.
Definition rank (e z : bool) (c : pc) : nat :=
  match c with
  | PAddLock _ _ => 3 | PAdd _ _ => 2 | PAddUnlock => 2 | PWake => 1
  | PLock => if e then 9 else 5
  | PTest => if e then 8 else 4
  | PTake => 3 | PRest _ => 2 | PUnlock => 1
  | PRelease => 7
  | PWaitTest => 6
  | PPrepare => if e then 5 else 8
  | PRetest => if e then if z then 4 else 8 else 7
  | PSignal => if e then if z then 3 else 7 else 10
  | PSchedule => if e then if z then 2 else 6 else 9
  | PFinish true => 1
  | PFinish false => if e then 10 else 6
  end.
Definition rank_at (s : shared) (p : pid_t) (c : pc) : nat :=
  rank (bool_decide (sh_list s = [])) (bool_decide (sleeps (sh_tasks s) p)) c.

(** A step of [p] from [c] to [next] uses a token, or brings [p] closer to its
    end and does not concern the others. *)
Definition descends (s s' : shared) (p : pid_t) (c : pc) (next : option pc) : Prop :=
  (length (sh_list s') + from_option tokens 0 next < length (sh_list s) + tokens c)%nat ∨
  ((length (sh_list s') + from_option tokens 0 next ≤ length (sh_list s) + tokens c)%nat ∧
   (sh_list s' = [] ↔ sh_list s = []) ∧
   (∀ p1, p1 ≠ p → sleeps (sh_tasks s') p1 ↔ sleeps (sh_tasks s) p1) ∧
   (from_option (rank_at s' p) 0 next < rank_at s p c)%nat).

(** The sum of a function over the running calls. *)
Definition total (f : pid_t → pc → nat) (pool : gmap pid_t pc) : nat :=
  map_fold (λ p c n, f p c + n)%nat 0%nat pool.

Lemma total_insert f p c (pool : gmap pid_t pc) :
  pool !! p = None → total f (<[p := c]> pool) = (f p c + total f pool)%nat.
Proof. intros Hp. unfold total.
  apply (map_fold_insert_L (λ p c n, f p c + n)%nat 0%nat); [intros; lia|done]. Qed.
Lemma total_delete f p c (pool : gmap pid_t pc) :
  pool !! p = Some c → total f pool = (f p c + total f (delete p pool))%nat.
Proof.
  intros Hp. rewrite <- (insert_delete_id pool p c) at 1 by done.
  apply total_insert, lookup_delete_eq.
Qed.
Lemma total_goto f p c next (pool : gmap pid_t pc) :
  pool !! p = Some c →
  total f (goto p next pool) = (from_option (f p) 0 next + total f (delete p pool))%nat.
Proof.
  intros Hp. destruct next as [c'|]; simpl; [|done].
  rewrite <- insert_delete_eq. apply total_insert, lookup_delete_eq.
Qed.
Lemma total_ext f g (pool : gmap pid_t pc) :
  (∀ p c, pool !! p = Some c → f p c = g p c) → total f pool = total g pool.
Proof.
  induction pool as [|p c pool Hp IH] using map_ind; intros H; [done|].
  rewrite !total_insert by done. f_equal; [apply H, lookup_insert_eq|]. apply IH.
  intros p' c' H'. apply H. rewrite lookup_insert_ne; [done|congruence].
Qed.
Lemma total_le f k (pool : gmap pid_t pc) :
  (∀ p c, f p c ≤ k)%nat → (total f pool ≤ k * size pool)%nat.
Proof.
  intros Hf. induction pool as [|p c pool Hp IH] using map_ind.
  { unfold total. rewrite map_fold_empty. lia. }
  rewrite total_insert, map_size_insert_None by done. specialize (Hf p c). lia.
Qed.

Definition measure (N : nat) (s : shared) (pool : gmap pid_t pc) : nat :=
  ((10 * N + 1) * (length (sh_list s) + total (λ _, tokens) pool) + total (rank_at s) pool)%nat.

Lemma rank_le e z c : (rank e z c ≤ 10)%nat.
Proof. destruct c as [| | | | | | | | | | | | | | |[]], e, z; simpl; lia. Qed.
Lemma size_goto p next c (pool : gmap pid_t pc) :
  pool !! p = Some c → (size (goto p next pool) ≤ size pool)%nat.
Proof.
  intros Hp. destruct next; simpl; [by erewrite map_size_insert_Some|].
  rewrite map_size_delete, Hp. lia.
Qed.

Lemma measure_descends N s s' pool p c next :
  pool !! p = Some c → (size pool ≤ N)%nat → descends s s' p c next →
  (measure N s' (goto p next pool) < measure N s pool)%nat.
Proof.
  intros Hp HN Hd. unfold measure. rewrite (total_goto (λ _, tokens) p c) by done.
  rewrite (total_delete (λ _, tokens) p c pool) by done.
  cbv beta. destruct Hd as [Hd|(Hd & He & Hz & Hr)].
  - assert (total (rank_at s') (goto p next pool) ≤ 10 * N)%nat as Hb.
    { etrans; [apply (total_le _ 10); intros; apply rank_le|]. pose proof (size_goto p next c pool Hp). lia. }
    nia.
  - rewrite (total_goto _ p c), (total_delete (rank_at s) p c pool) by done.
    rewrite (total_ext (rank_at s') (rank_at s) (delete p pool)); [nia|].
    intros p1 c1 [Hne _]%lookup_delete_Some. unfold rank_at. f_equal; by apply bool_decide_ext; auto.
Qed.

Section views.
Implicit Types (s : shared) (pool : gmap pid_t pc).

Lemma view_list s pool :
  (∀ p n, sh_holder s = Some p → pool !! p ≠ Some (PRest n)) → view s pool = sh_list s.
Proof.
  unfold view. destruct (sh_holder s) as [p|]; simpl; [|done]. intros H.
  destruct (pool !! p) as [[]|] eqn:E; try done. by destruct (H p n).
Qed.
(** The queue looks the same after a step that leaves it alone. *)
Lemma view_goto s s' pool p c next :
  pool !! p = Some c → (∀ n, c ≠ PRest n) → (∀ n, next ≠ Some (PRest n)) →
  sh_list s' = sh_list s →
  (sh_holder s' = sh_holder s ∨ (sh_holder s = None ∧ sh_holder s' = Some p) ∨
   (sh_holder s = Some p ∧ sh_holder s' = None)) →
  view s' (goto p next pool) = view s pool.
Proof.
  intros Hp Hc Hn El Hh.
  assert (goto p next pool !! p = next) as Ep by (destruct next; simpl; by simplify_map_eq).
  destruct Hh as [E|[[E E']|[E E']]]; unfold view; rewrite ?E, ?E', El; simpl; try done.
  - destruct (sh_holder s) as [p'|]; [|done]. simpl.
    destruct (decide (p' = p)) as [->|Hne].
    + rewrite Ep, Hp. destruct c, next as [[]|]; try done;
        solve [by edestruct Hc | by edestruct Hn].
    + by destruct next; simpl; rewrite ?lookup_insert_ne, ?lookup_delete_ne by done.
  - rewrite Ep. destruct next as [[]|]; try done. by edestruct Hn.
  - rewrite Hp. destruct c; try done. by edestruct Hc.
Qed.
End views.

(** ** Worlds *)

Section worlds.
Context `{KO : KernelOps, LO : !ListOps lnode, LL : !ListLaws lnode}.
Context (q : wqueue) `{WL : !WqLaws q}.
Implicit Types (w : world) (pool : gmap pid_t pc) (σ : csys) (s : shared).

Record shows w s : Prop := {
  sw_list : is_list (w_lm w) (wq_head q) (sh_list s);
  sw_obs : wq_obs q (w_heap w) = Some (bool_decide (is_Some (sh_holder s)), sh_wq s);
  sw_tasks : sh_tasks s = w_tasks w;
  sw_nodes : sh_nodes s = dom (w_lm w);
}.
Definition cinv σ s : Prop := shows (c_world σ) s ∧ pool_ok (wq_node q) s (c_pool σ).

(** A step of [p] from [c] in [s] that ends well in [w']. *)
Definition good s pool p c (r : label * option pc) w' : Prop :=
  ∃ s', shows w' s' ∧ pool_ok (wq_node q) s' (goto p r.2 pool) ∧
    astep (wq_all q) (view s pool) r.1 (view s' (goto p r.2 pool)) ∧ descends s s' p c r.2.
(** What a task can do: a step, spin while another task holds the lock, or
    sleep. *)
Definition step_ok w s pool p c : Prop :=
  match run_pc q c (set_cur p w) with
  | Ok r w' => good s pool p c r w'
  | Sleep _ => c = PSchedule ∧ sleeps (w_tasks w) p
  | Bug b => b = LockHeld ∧ spins c = true ∧ is_Some (sh_holder s)
  end.

Lemma step_local w s pool p c c' :
  shows w s → pool_ok (wq_node q) s pool → pool !! p = Some c →
  (∀ n, c ≠ PRest n) → claim c' = None → holds c' = holds c →
  (waking c = true → waking c' = true) →
  (c' = PTake → sh_list s ≠ []) → (waiting c' = true → waiting c = true) →
  (dozing c' = true → sh_list s = [] ∨ dozing c = true) →
  (tokens c' ≤ tokens c)%nat → (rank_at s p c' < rank_at s p c)%nat →
  good s pool p c (LTau, Some c') (set_cur p w).
Proof.
  intros Hs HP Hp Hc Hcl Hh Hwk Ht Hw Hd Htk Hrk. exists s. cbn [fst snd]. split; [by destruct Hs|].
  split; [by eapply pool_ok_local|]. split.
  - rewrite (view_goto s s pool p c (Some c')); [constructor|done|done| |done|by left].
    intros n [= ->]. done.
  - right. simpl. split_and!; [lia|done..].
Qed.

Lemma head_not_node n : wq_node q n = true → n ≠ wq_head q.
Proof. intros Hn ->. by rewrite wql_head in Hn. Qed.

Lemma step_lock w s pool p c c' :
  shows w s → pool_ok (wq_node q) s pool → pool !! p = Some c → (∀ n, c ≠ PRest n) →
  claim c' = claim c → holds c = false → holds c' = true → waking c = false → c' ≠ PTake →
  (∀ n, c' ≠ PRest n) → waiting c' = false → dozing c' = false →
  (tokens c' ≤ tokens c)%nat → (rank_at s p c' < rank_at s p c)%nat →
  match (_ ← wq_lock q; mret (LTau, Some c')) (set_cur p w) with
  | Ok r w' => good s pool p c r w'
  | Sleep _ => False
  | Bug b => b = LockHeld ∧ is_Some (sh_holder s)
  end.
Proof.
  intros [S1 S2 S3 S4] HP Hp Hc Hcl Hh Hh' Hwk Ht Hr Hw Hd Htk Hrk.
  destruct (sh_holder s) as [p'|] eqn:EH.
  - assert (wq_lock q (set_cur p w) = Bug LockHeld) as E by (eapply wql_spin; exact S2).
    rewrite (bind_bug _ _ _ _ E). eauto.
  - destruct (wql_lock (set_cur p w) (sh_wq s)) as (h & E & Eh); [exact S2|].
    rewrite (bind_ok _ _ _ _ _ E). cbn [mret kM_ret]. exists (sh_with_holder (Some p) s).
    split; [by split|]. split; [by eapply pool_ok_lock|]. split.
    + cbn [fst snd]. rewrite (view_goto s _ pool p c (Some c')); [constructor|done|done| |done|by right; left].
      intros n [= ->]. by eapply Hr.
    + right. simpl. split_and!; [lia|done..].
Qed.
Lemma step_unlock w s pool p c next :
  shows w s → pool_ok (wq_node q) s pool → pool !! p = Some c → (∀ n, c ≠ PRest n) →
  holds c = true → (waking c = true → next_waking next = true) →
  (∀ c', next = Some c' → claim c' = None ∧ holds c' = false ∧ c' ≠ PTake ∧
     waiting c' = false ∧ dozing c' = false) →
  (from_option tokens 0 next ≤ tokens c)%nat →
  (from_option (rank_at s p) 0 next < rank_at s p c)%nat →
  match (_ ← wq_unlock q; mret (LTau, next)) (set_cur p w) with
  | Ok r w' => good s pool p c r w'
  | _ => False
  end.
Proof.
  intros [S1 S2 S3 S4] HP Hp Hc Hh Hwk Hn Htk Hrk.
  assert (sh_holder s = Some p) as EH by (by apply (tk_holds _ _ _ _ _ (pl_tasks _ _ _ HP _ _ Hp))).
  rewrite EH in S2. destruct (wql_unlock (set_cur p w) (sh_wq s)) as (h & E & Eh); [exact S2|].
  rewrite (bind_ok _ _ _ _ _ E). cbn [mret kM_ret]. exists (sh_with_holder None s).
  split; [by split|]. split; [by eapply pool_ok_unlock|]. split.
  - cbn [fst snd]. rewrite (view_goto s _ pool p c next); [constructor|done|done| |done|by right; right].
    intros n ->. by destruct (Hn _ eq_refl) as (? & _).
  - right. simpl. split_and!; [lia|done..].
Qed.

(** ** The steps of the functions that add and take *)

Lemma step_add w s pool p n flags :
  shows w s → pool_ok (wq_node q) s pool → pool !! p = Some (PAdd n flags) →
  step_ok w s pool p (PAdd n flags).
Proof.
  intros [S1 S2 S3 S4] HP Hp. unfold step_ok, run_pc.
  pose proof (pl_tasks _ _ _ HP _ _ Hp) as HT.
  destruct (tk_claim _ _ _ _ _ HT n eq_refl) as (Hn & Hin & Hout).
  assert (sh_holder s = Some p) as EH by (by apply (tk_holds _ _ _ _ _ HT)).
  pose proof (head_not_node n Hn) as Hhd. rewrite S4, elem_of_dom in Hin.
  destruct (add_flags_run (set_cur p w) {[wq_head q := sh_list s]} flags (wq_add_head q)
    (wq_add_tail q) n (wq_head q) (sh_list s)) as (m & E & D & HL);
    [by apply forest_single|apply lookup_singleton_eq|apply free_single; set_solver|done|exact Hin|].
  rewrite (bind_ok _ _ _ _ _ E). cbn [mret kM_ret]. clear E.
  set (l' := match push_label q n flags with
             | LPush true _ => n :: sh_list s | LPush false _ => sh_list s ++ [n]
             | _ => sh_list s end).
  assert (is_list m (wq_head q) l') as Hl'.
  { apply (proj1 HL). unfold l', push_label, list_add_flags. repeat case_decide;
      rewrite ?lookup_insert_eq; [done..|apply lookup_singleton_eq]. }
  assert (view s pool = sh_list s) as Ev.
  { apply view_list. intros p' n' E. rewrite EH in E. simplify_eq. congruence. }
  exists (sh_with_list l' s). split; [split; simpl; by rewrite ?S4, ?D|]. split.
  - assert (∀ x, x ∈ l' → x = n ∨ x ∈ sh_list s) as Hsub.
    { unfold l', push_label. repeat case_decide; set_solver. }
    pose proof (pl_nodes _ _ _ HP) as Hf. rewrite Forall_forall in Hf.
    eapply pool_ok_list; try done.
    + intros p1 c1 n' Hne H1 E1 [->|Hin']%Hsub.
      * by eapply Hne, pl_claims.
      * by destruct (tk_claim _ _ _ _ _ (pl_tasks _ _ _ HP _ _ H1) n' E1) as (_ & _ & ?).
    + by right.
    + apply Forall_forall. intros x [->|?]%Hsub; [done|by apply Hf].
    + by destruct Hl' as [[_ ?]%NoDup_cons _].
  - split; [|left; simpl; unfold l', push_label; repeat case_decide; rewrite ?length_app; simpl; lia].
    simpl. rewrite Ev, view_list. 2:{ simpl. intros p' n' E. rewrite EH in E. simplify_eq. by rewrite lookup_insert_eq. }
    simpl. unfold l', push_label. repeat case_decide; constructor.
Qed.

Lemma step_take w s pool p :
  shows w s → pool_ok (wq_node q) s pool → pool !! p = Some PTake → step_ok w s pool p PTake.
Proof.
  intros [S1 S2 S3 S4] HP Hp. unfold step_ok, run_pc.
  pose proof (pl_tasks _ _ _ HP _ _ Hp) as HT.
  assert (sh_holder s = Some p) as EH by (by apply (tk_holds _ _ _ _ _ HT)).
  pose proof (pl_nodes _ _ _ HP) as Hf. pose proof (pl_nodup _ _ _ HP) as Hnd.
  pose proof (tk_take _ _ _ _ _ HT eq_refl) as Hne.
  assert (∀ y, y ∈ sh_list s → y ∈ sh_nodes s) as Hlive.
  { intros y Hy. rewrite S4, elem_of_dom. eapply is_list_live; [done|]. by apply list_elem_of_further. }
  destruct (sh_list s) as [|n l] eqn:El; [done|]. apply Forall_cons in Hf as [Hn Hf].
  apply NoDup_cons in Hnd as [Hnl Hnd].
  destruct (wql_take (set_cur p w) n l S1 Hn) as (m & E & D & Hl).
  rewrite (bind_ok _ _ _ _ _ E). cbn [mret kM_ret]. clear E. exists (sh_with_list l s).
  split; [split; simpl; by rewrite ?S4, ?D|]. split.
  - eapply pool_ok_list; try done.
    + intros n' [= <-]. rewrite El. split; [apply list_elem_of_here|].
      split; [done|]. apply Hlive, list_elem_of_here.
    + intros p1 c1 n' Hne' H1 E1 Hin.
      destruct (tk_claim _ _ _ _ _ (pl_tasks _ _ _ HP _ _ H1) n' E1) as (_ & _ & Hout).
      rewrite El in Hout. set_solver.
    + by rewrite El.
  - split; [|left; simpl; rewrite El; simpl; lia]. simpl. unfold view at 2. simpl. rewrite EH. simpl. rewrite lookup_insert_eq.
    rewrite view_list, El; [constructor|]. intros p' n' E. rewrite EH in E. simplify_eq. congruence.
Qed.

Lemma step_rest w s pool p n :
  shows w s → pool_ok (wq_node q) s pool → pool !! p = Some (PRest n) →
  step_ok w s pool p (PRest n).
Proof.
  intros [S1 S2 S3 S4] HP Hp. unfold step_ok, run_pc.
  pose proof (pl_tasks _ _ _ HP _ _ Hp) as HT.
  destruct (tk_claim _ _ _ _ _ HT n eq_refl) as (Hn & Hin & Hout).
  assert (sh_holder s = Some p) as EH by (by apply (tk_holds _ _ _ _ _ HT)).
  pose proof (head_not_node n Hn) as Hhd. rewrite S4, elem_of_dom in Hin.
  destruct (wql_rest (set_cur p w) n (sh_list s)) as (m & E & D & Hl); [done|set_solver|done|].
  rewrite (bind_ok _ _ _ _ _ E). cbn [mret kM_ret]. clear E.
  set (l' := if wq_all q then [] else sh_list s) in *. exists (sh_with_list l' s).
  split; [split; simpl; by rewrite ?S4, ?D|].
  assert (∀ x, x ∈ l' → x ∈ sh_list s) as Hsub by (unfold l'; destruct (wq_all q); set_solver).
  pose proof (pl_nodes _ _ _ HP) as Hf. rewrite Forall_forall in Hf. split.
  - eapply pool_ok_list; try done.
    + intros p1 c1 n' Hne' H1 E1 Hin'%Hsub.
      by destruct (tk_claim _ _ _ _ _ (pl_tasks _ _ _ HP _ _ H1) n' E1) as (_ & _ & ?).
    + intros E. left. unfold l'. by destruct (wq_all q).
    + apply Forall_forall. intros x Hx%Hsub. by apply Hf.
    + by destruct Hl as [[_ ?]%NoDup_cons _].
  - split; [simpl|].
    2:{ unfold descends, rank_at, l'. simpl. destruct (wq_all q); simpl; [|right; split_and!; [lia|done..|lia]].
        destruct (sh_list s); simpl; [right; split_and!; [lia|done..|lia]|left; lia]. }
    rewrite (view_list (sh_with_list l' s)).
    2:{ simpl. intros p' n' E. rewrite EH in E. simplify_eq. by rewrite lookup_insert_eq. }
    unfold view. rewrite EH. simpl. rewrite Hp. unfold l'.
    destruct (wq_all q).
    + rewrite <- (app_nil_r (sh_list s)) at 1. by apply (a_take true (n :: sh_list s)).
    + by apply (a_take false [n]).
Qed.

Lemma step_wake w s pool p :
  shows w s → pool_ok (wq_node q) s pool → pool !! p = Some PWake → step_ok w s pool p PWake.
Proof.
  intros [S1 S2 S3 S4] HP Hp. unfold step_ok, run_pc.
  destruct (wql_wake (set_cur p w) _ (sh_wq s) S2) as (h & E & Eh).
  rewrite (bind_ok _ _ _ _ _ E). cbn [mret kM_ret]. clear E.
  exists (sh_with_wq [] (wake_tasks (sh_wq s) (sh_tasks s)) s).
  split; [split; simpl; by rewrite ?S3|]. split; [by apply pool_ok_wake|].
  split; [|left; simpl; lia]. cbn [fst snd].
  rewrite (view_goto s _ pool p PWake None); [constructor|done|done|done|done|by left].
Qed.

Lemma wq_add_in p ws : p ∈ wq_add p ws ∧ ∀ p1, p1 ∈ ws → p1 ∈ wq_add p ws.
Proof. unfold wq_add. case_decide; set_solver. Qed.

Lemma step_prepare w s pool p :
  shows w s → pool_ok (wq_node q) s pool → pool !! p = Some PPrepare →
  step_ok w s pool p PPrepare.
Proof.
  intros [S1 S2 S3 S4] HP Hp. unfold step_ok, run_pc.
  destruct (tk_task _ _ _ _ _ (pl_tasks _ _ _ HP _ _ Hp)) as [t Ht]. rewrite S3 in Ht.
  krun (eq_refl : gets w_cur _ = Ok _ _). kproj.
  destruct (wql_enter (set_cur p w) _ (sh_wq s) p S2) as (h & E & Eh).
  rewrite (bind_ok _ _ _ _ _ E). unfold set_task_state.
  krun (upd_task_run (set_heap h (set_cur p w)) p t); [done|]. cbn [mret kM_ret]. clear E.
  set (t' := mk_task TASK_INTERRUPTIBLE (t_usage t)). destruct (wq_add_in p (sh_wq s)) as [I1 I2].
  exists (sh_with_wq (wq_add p (sh_wq s)) (<[p := t']> (sh_tasks s)) s).
  split; [split; simpl; by rewrite ?S3|]. split.
  - eapply pool_ok_own; try done; [auto|]. intros c' [= <-]. by split_and!.
  - split; [cbn [fst snd]; rewrite (view_goto s _ pool p PPrepare (Some PRetest));
      [constructor|done|done|done|done|by left]|].
    right. simpl. split_and!; [lia|done| |].
    + intros p1 Hne. unfold sleeps. by rewrite lookup_insert_ne.
    + assert (sleeps (<[p := t']> (sh_tasks s)) p) as Hz
        by (unfold sleeps; rewrite lookup_insert_eq; by intros [=]).
      unfold rank_at. simpl. rewrite (bool_decide_true _ Hz). destruct (bool_decide (sh_list s = [])); lia.
Qed.
Lemma step_finish w s pool p i :
  shows w s → pool_ok (wq_node q) s pool → pool !! p = Some (PFinish i) →
  step_ok w s pool p (PFinish i).
Proof.
  intros [S1 S2 S3 S4] HP Hp. unfold step_ok, run_pc.
  destruct (tk_task _ _ _ _ _ (pl_tasks _ _ _ HP _ _ Hp)) as [t Ht]. rewrite S3 in Ht.
  krun (eq_refl : gets w_cur _ = Ok _ _). kproj. unfold set_task_state.
  krun (upd_task_run (set_cur p w) p t); [done|]. set (t' := mk_task TASK_RUNNING (t_usage t)).
  destruct (wql_leave (set_tasks (<[p := t']> (w_tasks w)) (set_cur p w)) _ (sh_wq s) p S2)
    as (h & E & Eh).
  rewrite (bind_ok _ _ _ _ _ E). cbn [mret kM_ret]. clear E. set (nx := if i then None else Some PLock).
  assert ((if i then (LIntr, None) else (LTau, Some PLock)) = (if i then LIntr else LTau, nx)) as ->
    by (unfold nx; by destruct i).
  exists (sh_with_wq (wq_del p (sh_wq s)) (<[p := t']> (sh_tasks s)) s).
  split; [split; simpl; by rewrite ?S3|]. split.
  - eapply pool_ok_own; try done.
    + intros p1 Hne Hin. unfold wq_del. by apply list_elem_of_filter.
    + cbn [fst snd]. unfold nx. intros c' E. destruct i; simplify_eq. by split_and!.
  - split; [cbn [fst snd]; rewrite (view_goto s _ pool p (PFinish i) nx);
      [destruct i; constructor|done|done|unfold nx; by destruct i|done|by left]|].
    right. simpl. split_and!; [unfold nx; destruct i; simpl; lia|done| |].
    + intros p1 Hne. unfold sleeps. by rewrite lookup_insert_ne.
    + unfold nx, rank_at. destruct i; simpl; [lia|]. destruct (bool_decide (sh_list s = [])); lia.
Qed.

(** ** Every task *)

Lemma empty_run w s p :
  shows w s →
  lm_get (k_list_empty (wq_head q)) (set_cur p w) =
    Ok (bool_decide (sh_list s = [])) (set_cur p w).
Proof. intros [S1 _ _ _]. by apply lm_get_run, law_empty. Qed.

Lemma rank_at_lt s p c1 c2 :
  (∀ z, rank (bool_decide (sh_list s = [])) z c1 < rank (bool_decide (sh_list s = [])) z c2)%nat →
  (rank_at s p c1 < rank_at s p c2)%nat.
Proof. intros H. apply H. Qed.

(** The side conditions of the rules: computed, but for the ranks. *)
Ltac side := first [done | by intros ? | by intros ? [= <-]; split_and! | simpl; lia
  | apply rank_at_lt; intros []; by destruct (bool_decide _); simpl; lia ].
Ltac discharge H :=
  repeat match type of H with
         | ?P → _ => let K := fresh in assert P as K by side; specialize (H K); clear K
         end.

Lemma step_spec w s pool p c :
  shows w s → pool_ok (wq_node q) s pool → pool !! p = Some c → step_ok w s pool p c.
Proof.
  intros Hs HP Hp. destruct c; try solve [by apply step_add | by apply step_take | by apply step_rest
    | by apply step_wake | by apply step_prepare | by apply step_finish]; unfold step_ok, run_pc.
  - pose proof (step_lock w s pool p _ (PAdd n flags) Hs HP Hp) as H. discharge H.
    destruct ((wq_lock q ≫= _) _); naive_solver.
  - pose proof (step_unlock w s pool p _ (Some PWake) Hs HP Hp) as H. discharge H.
    by destruct ((wq_unlock q ≫= _) _).
  - pose proof (step_lock w s pool p _ PTest Hs HP Hp) as H. discharge H.
    destruct ((wq_lock q ≫= _) _); naive_solver.
  - rewrite (bind_ok _ _ _ _ _ (empty_run w s p Hs)). cbn [mret kM_ret].
    case_bool_decide as El; (eapply step_local; try side). apply rank_at_lt. intros z.
    rewrite bool_decide_true by done. simpl. lia.
  - pose proof (step_unlock w s pool p _ None Hs HP Hp) as H. discharge H.
    by destruct ((wq_unlock q ≫= _) _).
  - pose proof (step_unlock w s pool p _ (Some PWaitTest) Hs HP Hp) as H. discharge H.
    by destruct ((wq_unlock q ≫= _) _).
  - rewrite (bind_ok _ _ _ _ _ (empty_run w s p Hs)). cbn [mret kM_ret].
    case_bool_decide as El; (eapply step_local; try side); apply rank_at_lt; intros z;
      [rewrite bool_decide_true by done|rewrite bool_decide_false by done]; simpl; lia.
  - rewrite (bind_ok _ _ _ _ _ (empty_run w s p Hs)). cbn [mret kM_ret].
    case_bool_decide as El; (eapply step_local; try side); try (by left); apply rank_at_lt; intros z;
      [rewrite bool_decide_true by done|rewrite bool_decide_false by done]; destruct z; simpl; lia.
  - unfold call_env. kred. destruct (signal_pending (w_env w)) as [b e].
    assert (shows (set_env e w) s) as Hs' by (by destruct Hs).
    destruct b; (eapply (step_local (set_env e w)); side).
  - unfold schedule. kred. case_decide as E; [|split; [done|exact E]].
    eapply (step_local (set_blk _ w)); try side; [by destruct Hs|].
    unfold rank_at. rewrite (bool_decide_false (sleeps _ p)).
    + destruct (bool_decide _); simpl; lia.
    + unfold sleeps. rewrite (sw_tasks _ _ Hs). by intros [].
Qed.

Lemma cinv_step σ a σ' s :
  cstep q σ a σ' → cinv σ s →
  ∃ s', cinv σ' s' ∧ astep (wq_all q) (view s (c_pool σ)) a (view s' (c_pool σ')).
Proof.
  intros Hstep [Hs HP]. destruct Hstep as [w pool p n flags Hp Ht Hn Hl Hout Hfree|w pool p Hp Ht
    |w pool p c a next w' Hp E|w pool p t Ht|w pool e]; simpl in *.
  - assert (pool_ok (wq_node q) s (<[p := PAddLock n flags]> pool)) as HP'.
    { eapply pool_ok_call; try done.
      - by rewrite (sw_tasks _ _ Hs).
      - intros n' [= <-]. split; [done|]. rewrite (sw_nodes _ _ Hs), elem_of_dom. split; [done|].
        apply Hout, law_nodes, Hs.
      - intros n' p1 c1 [= <-]. apply Hfree. }
    exists s. split; [done|]. unfold view. destruct (sh_holder s) as [p'|] eqn:EH; [|constructor].
    simpl. destruct (pl_holder _ _ _ HP p' EH) as [c' Hc'].
    rewrite lookup_insert_ne by congruence. constructor.
  - assert (pool_ok (wq_node q) s (<[p := PLock]> pool)) as HP'.
    { eapply pool_ok_call; try done. by rewrite (sw_tasks _ _ Hs). }
    exists s. split; [done|]. unfold view. destruct (sh_holder s) as [p'|] eqn:EH; [|constructor].
    simpl. destruct (pl_holder _ _ _ HP p' EH) as [c' Hc'].
    rewrite lookup_insert_ne by congruence. constructor.
  - pose proof (step_spec w s pool p c Hs HP Hp) as H. unfold step_ok in H. rewrite E in H.
    destruct H as (s' & ? & ? & ? & _). by exists s'.
  - exists (sh_with_wq (sh_wq s) (<[p := mk_task TASK_RUNNING (t_usage t)]> (sh_tasks s)) s).
    split; [split; [|by apply pool_ok_awake]|constructor]. destruct Hs as [S1 S2 S3 S4].
    split; simpl; by rewrite ?S3.
  - exists s. split; [|constructor]. by destruct Hs.
Qed.

Lemma cinv_init l σ :
  cinit q l σ → ∃ s, cinv σ s ∧ view s (c_pool σ) = l.
Proof.
  intros (Hp & Hl & Hf & ws & Ho). destruct σ as [w pool]. simpl in *. subst pool.
  exists (mk_shared l None ws (w_tasks w) (dom (w_lm w))). split; [|done]. split; [by split|].
  split; simpl; try done; [set_solver..|]. by destruct Hl as [[_ ?]%NoDup_cons _].
Qed.

Lemma creach_inv l0 σ0 tr σ :
  cinit q l0 σ0 → creach q σ0 tr σ →
  ∃ s, cinv σ s ∧ arun (wq_all q) l0 tr (view s (c_pool σ)).
Proof.
  intros Hi. induction 1 as [|tr a σ σ' _ IH Hstep].
  - destruct (cinv_init _ _ Hi) as (s & ? & <-). exists s. split; [done|constructor].
  - destruct IH as (s & Hs & Hr). destruct (cinv_step _ _ _ _ Hstep Hs) as (s' & ? & ?).
    exists s'. split; [done|by econstructor].
Qed.

(** ** Termination and rest *)

Lemma cinv_rstep N σ σ' s :
  rstep q σ σ' → cinv σ s → (size (c_pool σ) ≤ N)%nat →
  ∃ s', cinv σ' s' ∧ (size (c_pool σ') ≤ N)%nat ∧
    (measure N s' (c_pool σ') < measure N s (c_pool σ))%nat.
Proof.
  intros [w pool p c e a next w' Hp E] [Hs HP] HN. simpl in *.
  assert (shows (set_env e w) s) as Hs' by (by destruct Hs).
  pose proof (step_spec _ s pool p c Hs' HP Hp) as H. unfold step_ok in H. rewrite E in H.
  destruct H as (s' & H1 & H2 & _ & H3). exists s'. split; [done|]. split.
  - pose proof (size_goto p next c pool Hp). lia.
  - by eapply measure_descends.
Qed.
Lemma rstep_acc σ s : cinv σ s → Acc (flip (rstep q)) σ.
Proof.
  set (N := size (c_pool σ)). assert (size (c_pool σ) ≤ N)%nat as HN by (unfold N; lia). clearbody N.
  remember (measure N s (c_pool σ)) as n eqn:En. revert σ s En HN.
  induction (lt_wf n) as [n _ IH]. intros σ s -> HN Hs. constructor. intros σ' Hstep.
  destruct (cinv_rstep N _ _ _ Hstep Hs HN) as (s' & ? & ? & ?). by eapply IH.
Qed.

(** When no call can go on, all of them sleep and the queue is empty. *)
Lemma rest_empty σ s :
  cinv σ s → (∀ σ', ¬ rstep q σ σ') →
  (∀ p c, c_pool σ !! p = Some c → c = PSchedule ∧ sleeps (w_tasks (c_world σ)) p) ∧
  sh_holder s = None ∧ (c_pool σ ≠ ∅ → sh_list s = []).
Proof.
  destruct σ as [w pool]. intros [Hs HP] Hstuck. simpl in *.
  assert (∀ p c, pool !! p = Some c →
    (c = PSchedule ∧ sleeps (w_tasks w) p) ∨ (spins c = true ∧ is_Some (sh_holder s))) as Hcase.
  { intros p c Hp. pose proof (step_spec w s pool p c Hs HP Hp) as H. unfold step_ok in H.
    destruct (run_pc q c (set_cur p w)) as [[a next] w'|w'|b] eqn:E; [|by left|by right; destruct H].
    destruct (Hstuck (mk_csys w' (goto p next pool))). eapply (r_run q w pool p c (w_env w)); [done|].
    by destruct w. }
  assert (sh_holder s = None) as EH.
  { destruct (sh_holder s) as [p|] eqn:EH; [|done]. destruct (pl_holder _ _ _ HP p EH) as [c Hp].
    destruct (tk_holds _ _ _ _ _ (pl_tasks _ _ _ HP _ _ Hp)) as [_ Hh]. specialize (Hh EH).
    destruct (Hcase p c Hp) as [[-> _]|[? _]]; [done|by destruct c]. }
  assert (∀ p c, pool !! p = Some c → c = PSchedule ∧ sleeps (w_tasks w) p) as Hall.
  { intros p c Hp. destruct (Hcase p c Hp) as [?|[_ [? ?]]]; [done|congruence]. }
  split_and!; [done..|]. intros Hne. destruct (map_choose _ Hne) as (p & c & Hp).
  destruct (Hall p c Hp) as [-> Hz].
  destruct (tk_doze _ _ _ _ _ (pl_tasks _ _ _ HP _ _ Hp)) as [?|(p' & c' & Hp' & Hw)]; [done| |done|].
  { by rewrite (sw_tasks _ _ Hs). }
  by destruct (Hall p' c' Hp') as [-> _].
Qed.
End worlds.
