(* ===== verification/InterleaveSeq.v ===== *)
(** * A task alone

    The cut-up functions of [Interleave], run by one task without others in
    between, do what the sequential definitions of [Complist] and [Scheduler]
    say. *)
From S2P Require Import Prelude ListHead ListSpec Kernel Uapi State Prims Context Proc Complist.
From S2P Require Import Scheduler Interleave.
From stdpp Require Import prelude gmap.

Local Open Scope Z_scope.

#[global] Instance label_eq_dec : EqDecision label.
Proof. solve_decision. Defined.
Definition visible (ls : list label) : list label := filter (.≠ LTau) ls.

Section solo.
Context `{KO : KernelOps, LO : !ListOps lnode, LL : !ListLaws lnode}.
Implicit Types (w : world).

(** ** Adding, from any world *)

(** [enqueue_ums_sched_event] and [ums_completion_list_add], with what an
    observer sees. *)
Definition seq_add (k : squeue) (n : lnode) (flags : Z) : kM (list label) :=
  _ ← match k, n with
      | EventsOf a, EventList e => enqueue_ums_sched_event a e flags
      | ContextsOf a, CtxList ctx => ums_completion_list_add a ctx flags
      | _, _ => raise BadContainer
      end;
  mret (visible [push_label (wq_of k) n flags]).

Local Ltac next := cbn [solo run_pc fst snd]; unfold mbind, kM_bind, mret, kM_ret.
Lemma add_steps q n flags w :
  solo q 4 (PAddLock n flags) w =
    (_ ← (_ ← wq_lock q;
          _ ← (if decide (Z.land flags (wq_add_head q) ≠ 0) then lm_run (k_list_add n (wq_head q))
               else if decide (Z.land flags (wq_add_tail q) ≠ 0) then
                 lm_run (k_list_add_tail n (wq_head q))
               else mret tt);
          _ ← wq_unlock q; wq_wake q);
     mret [LTau; push_label q n flags; LTau; LTau]) w.
Proof.
  next. destruct (wq_lock q w) as [[] w1|w1|b]; [|done..]. next.
  match goal with |- context [(if ?x then ?y else ?z) w1] =>
    destruct ((if x then y else z) w1) as [[] w2|w2|b] end; [|done..]. next.
  destruct (wq_unlock q w2) as [[] w3|w3|b]; [|done..]. next.
  by destruct (wq_wake q w3) as [[] w4|w4|b].
Qed.

Lemma solo_add k n flags w :
  wq_node (wq_of k) n = true →
  (ls ← solo (wq_of k) 4 (PAddLock n flags); mret (visible ls)) w = seq_add k n flags w.
Proof.
  intros Hn. unfold seq_add, mbind at 1, kM_bind at 1. rewrite add_steps.
  assert (visible [LTau; push_label (wq_of k) n flags; LTau; LTau] =
    visible [push_label (wq_of k) n flags]) as Ev
    by (unfold push_label, visible; repeat case_decide; reflexivity).
  revert Ev. generalize (push_label (wq_of k) n flags). intros lb Ev.
  destruct k as [a|a], n as [h|ctx|h|e]; try done; unfold mbind at 1, kM_bind at 1.
  - match goal with |- context [(wq_lock ?q ≫= ?f) w] =>
      change ((wq_lock q ≫= f) w) with (enqueue_ums_sched_event a e flags w) end.
    unfold mbind, kM_bind. destruct (enqueue_ums_sched_event a e flags w); [|done..].
    unfold mret, kM_ret. by rewrite Ev.
  - match goal with |- context [(wq_lock ?q ≫= ?f) w] =>
      change ((wq_lock q ≫= f) w) with (ums_completion_list_add a ctx flags w) end.
    unfold mbind, kM_bind. destruct (ums_completion_list_add a ctx flags w); [|done..].
    unfold mret, kM_ret. by rewrite Ev.
Qed.

(** ** Taking *)

(** [do_dequeue_ums_sched_event] and [do_dequeue_ums_complist_context], with
    what an observer sees. *)
Definition seq_take (k : squeue) : kM (list label) :=
  match k with
  | EventsOf a =>
      r ← do_dequeue_ums_sched_event a;
      mret [match r with inl _ => LIntr | inr e => LTake [EventList e] end]
  | ContextsOf a =>
      r ← do_dequeue_ums_complist_context a;
      match r with
      | inl _ => mret [LIntr]
      | inr ctx => ns ← lm_get (k_list_nodes (CtxList ctx)); mret [LTake (CtxList ctx :: ns)]
      end
  end.

Lemma wq_del_add p ws : wq_del p (wq_add p ws) = wq_del p ws.
Proof.
  unfold wq_add, wq_del. case_decide; [done|]. rewrite filter_app, filter_cons_False; [|by intros []].
  by rewrite filter_nil, app_nil_r.
Qed.

(** A queue that is not empty. *)
Lemma take_steps q w w1 :
  wq_lock q w = Ok tt w1 → k_list_empty (wq_head q) (w_lm w1) = Some false →
  (ls ← solo q 8 PLock; mret (visible ls)) w =
    (n ← wq_take q; ns ← wq_rest q n; _ ← wq_unlock q; mret [LTake (n :: ns)]) w1.
Proof.
  intros E1 E2. next. rewrite E1. next. rewrite (lm_get_run _ _ _ E2). next.
  destruct (wq_take q w1) as [n w2|w2|b]; [|done..]. next.
  destruct (wq_rest q n w2) as [ns w3|w3|b]; [|done..]. next.
  by destruct (wq_unlock q w3) as [[] w4|w4|b].
Qed.

(** An empty queue: a signal, or the task sleeps in the wait queue. *)
Lemma wait_steps q w t h1 h2 h3 :
  let p := w_cur w in
  k_list_empty (wq_head q) (w_lm w) = Some true →
  w_tasks w !! p = Some t → t_state t = TASK_RUNNING →
  wq_lock q w = Ok tt (set_heap h1 w) → wq_unlock q (set_heap h1 w) = Ok tt w →
  wq_enter q p w = Ok tt (set_heap h2 w) →
  (∀ w', w_heap w' = h2 → wq_leave q p w' = Ok tt (set_heap h3 w')) →
  (ls ← solo q 8 PLock; mret (visible ls)) w =
    match signal_pending (w_env w) with
    | (true, e) => Ok [LIntr] (set_env e (set_heap h3 w))
    | (false, e) => Sleep (set_env e (set_tasks
        (<[p := mk_task TASK_INTERRUPTIBLE (t_usage t)]> (w_tasks w))
        (set_blk (w_blk w ++ [w_rcu w]) (set_heap h2 w))))
    end.
Proof.
  intros p E0 Ht Hr E1 E2 E3 E4.
  next. rewrite E1. next. rewrite (lm_get_run (set_heap h1 w) _ _ E0). next.
  rewrite E2. next. rewrite (lm_get_run w _ _ E0). next. unfold gets. fold p. rewrite E3. unfold set_task_state.
  rewrite (upd_task_run (set_heap h2 w) p t _ Ht). next.
  rewrite (lm_get_run (set_tasks _ (set_heap h2 w)) _ _ E0). next.
  unfold call_env. kproj. destruct (signal_pending (w_env w)) as [[] e]; next.
  - unfold gets. kproj. fold p. unfold set_task_state. erewrite upd_task_run by apply lookup_insert_eq.
    rewrite E4 by done. next. kproj. rewrite insert_insert_eq, insert_id; [by destruct w|].
    rewrite Ht. destruct t. simpl in *. by subst.
  - unfold schedule, modify, gets. kproj. fold p. rewrite lookup_insert_eq.
    rewrite decide_False; [by destruct w|done].
Qed.

Lemma solo_take_event_cons w a s e l :
  w_heap w !! a = Some (OSched s) → sc_lock s = false →
  is_list (w_lm w) (EventQ a) (EventList e :: l) →
  (ls ← solo (event_queue a) 8 PLock; mret (visible ls)) w = seq_take (EventsOf a) w.
Proof.
  intros Ha Hl Hq. unfold seq_take. pose proof (law_empty _ _ _ Hq) as Ee.
  erewrite take_steps; [|by apply sched_spin_lock_run|exact Ee].
  pose proof (law_first _ _ _ _ Hq) as Ef.
  destruct (law_del (w_lm w) (EventQ a) [] (EventList e) l Hq) as (m & Ed & _).
  assert (do_dequeue_ums_sched_event a w = Ok (inr e) (set_lm m w)) as Es.
  { unfold do_dequeue_ums_sched_event. krun sched_spin_lock_run; [done..|]. cbn [dequeue_event_loop].
    krun lm_get_run; [exact Ee|]. rewrite bool_decide_false by done.
    krun lm_get_run; [exact Ef|]. krun (eq_refl : entry_event (EventList e) _ = Ok _ _).
    krun lm_run_run; [exact Ed|]. krun sched_spin_unlock_run; [kproj; apply lookup_insert_eq|done|].
    kproj. rewrite sched_relock, insert_insert_eq, insert_id by done. by destruct w. }
  rewrite (bind_ok _ _ _ _ _ Es). clear Es.
  set (w1 := set_heap _ w).
  assert (wq_take (event_queue a) w1 = Ok (EventList e) (set_lm m w1)) as Et.
  { unfold wq_take, event_queue. krun lm_get_run; [exact Ef|].
    krun (eq_refl : entry_event (EventList e) _ = Ok _ _). by krun lm_run_run. }
  rewrite (bind_ok _ _ _ _ _ Et).
  krun (eq_refl : wq_rest (event_queue a) (EventList e) (set_lm m w1) = Ok [] _).
  cbn [wq_unlock event_queue].
  krun sched_spin_unlock_run; [kproj; apply lookup_insert_eq|done|].
  unfold w1. kproj. rewrite sched_relock, insert_insert_eq, insert_id by done. by destruct w.
Qed.
Lemma solo_take_event w a s l t :
  w_heap w !! a = Some (OSched s) → sc_lock s = false → is_list (w_lm w) (EventQ a) l →
  Forall (λ n, wq_node (event_queue a) n = true) l →
  w_tasks w !! w_cur w = Some t → t_state t = TASK_RUNNING →
  (ls ← solo (event_queue a) 8 PLock; mret (visible ls)) w = seq_take (EventsOf a) w.
Proof.
  intros Ha Hl Hq Hn Ht Hr. pose proof (law_empty _ _ _ Hq) as Ee. destruct l as [|n l].
  - unfold seq_take. pose proof (dequeue_event_empty_run w {[EventQ a := []]} a s t Ha Hl (forest_single _ _ _ Hq)
      (lookup_singleton_eq _ _) Ht) as Ed.
    unfold mbind at 2, kM_bind at 2. rewrite Ed.
    erewrite wait_steps; [| exact Ee|exact Ht|exact Hr|by apply sched_spin_lock_run| |
      by apply upd_sched_run|].
    + destruct (signal_pending (w_env w)) as [[] e]; [|by destruct w].
      unfold sched_interrupted. by destruct w.
    + cbn [wq_unlock event_queue]. erewrite sched_spin_unlock_run by (by try apply lookup_insert_eq).
      kproj. rewrite sched_relock, insert_insert_eq, insert_id by done. by destruct w.
    + intros w' Hw'. cbn [wq_leave event_queue]. erewrite upd_sched_run by (rewrite Hw'; apply lookup_insert_eq).
      simpl. rewrite Hw', insert_insert_eq, wq_del_add. done.
  - apply Forall_cons in Hn as [Hn _]. destruct n as [?|?|?|e]; try done. by eapply solo_take_event_cons.
Qed.

Lemma complist_relock (c : ums_complist) :
  cl_lock c = false → cl_with_lock false (cl_with_lock true c) = c.
Proof. intros E. destruct c. simpl in *. by subst. Qed.
Lemma solo_take_context_cons w a c ctx l :
  w_heap w !! a = Some (OComplist c) → cl_lock c = false →
  is_list (w_lm w) (ClHead a) (CtxList ctx :: l) →
  (ls ← solo (completion_queue a) 8 PLock; mret (visible ls)) w = seq_take (ContextsOf a) w.
Proof.
  intros Ha Hl Hq. unfold seq_take. pose proof (law_empty _ _ _ Hq) as Ee.
  erewrite take_steps; [|by apply complist_spin_lock_run|exact Ee].
  destruct (pop_replace (w_lm w) {[ClHead a := CtxList ctx :: l]} (ClHead a) (CtxList ctx) l)
    as (m1 & m & E0 & E1 & E2 & E3 & E4); [by apply forest_single|apply lookup_singleton_eq|].
  assert (k_list_nodes (CtxList ctx) m = Some l) as En.
  { apply f_nodes with (L := <[ClHead a := []]> (<[CtxList ctx := l]> {[ClHead a := CtxList ctx :: l]}));
      [apply E4|]. rewrite lookup_insert_ne by done. apply lookup_insert_eq. }
  assert (do_dequeue_ums_complist_context a w = Ok (inr ctx) (set_lm m w)) as Es.
  { unfold do_dequeue_ums_complist_context. krun complist_spin_lock_run; [done..|].
    cbn [dequeue_complist_loop]. krun lm_get_run; [exact E0|]. cbv iota.
    krun lm_get_run; [exact E1|]. krun (eq_refl : entry_context (CtxList ctx) _ = Ok _ _).
    krun lm_run_run; [exact E2|]. krun lm_run_run; [exact E3|].
    krun complist_spin_unlock_run; [kproj; apply lookup_insert_eq|done|].
    kproj. rewrite complist_relock, insert_insert_eq, insert_id by done. by destruct w. }
  rewrite (bind_ok _ _ _ _ _ Es). clear Es. krun (lm_get_run (set_lm m w)); [exact En|].
  set (w1 := set_heap _ w).
  assert (wq_take (completion_queue a) w1 = Ok (CtxList ctx) (set_lm m1 w1)) as Et.
  { unfold wq_take, completion_queue. krun lm_get_run; [exact E1|].
    krun (eq_refl : entry_context (CtxList ctx) _ = Ok _ _). by krun lm_run_run. }
  rewrite (bind_ok _ _ _ _ _ Et).
  assert (wq_rest (completion_queue a) (CtxList ctx) (set_lm m1 w1) = Ok l (set_lm m w1)) as Er.
  { unfold wq_rest, completion_queue. krun lm_run_run; [exact E3|].
    rewrite (lm_get_run _ _ l); [by destruct w|exact En]. }
  rewrite (bind_ok _ _ _ _ _ Er). cbn [wq_unlock completion_queue].
  krun complist_spin_unlock_run; [kproj; apply lookup_insert_eq|done|].
  unfold w1. kproj. rewrite complist_relock, insert_insert_eq, insert_id by done. by destruct w.
Qed.
Lemma solo_take_context w a c l t :
  w_heap w !! a = Some (OComplist c) → cl_lock c = false → is_list (w_lm w) (ClHead a) l →
  Forall (λ n, wq_node (completion_queue a) n = true) l →
  w_tasks w !! w_cur w = Some t → t_state t = TASK_RUNNING →
  (ls ← solo (completion_queue a) 8 PLock; mret (visible ls)) w = seq_take (ContextsOf a) w.
Proof.
  intros Ha Hl Hq Hn Ht Hr. pose proof (law_empty _ _ _ Hq) as Ee. destruct l as [|n l].
  - unfold seq_take. pose proof (dequeue_complist_empty_run w {[ClHead a := []]} a c t Ha Hl (forest_single _ _ _ Hq)
      (lookup_singleton_eq _ _) Ht) as Ed.
    unfold mbind at 2, kM_bind at 2. rewrite Ed.
    erewrite wait_steps; [| exact Ee|exact Ht|exact Hr|by apply complist_spin_lock_run| |
      by apply upd_complist_run|].
    + destruct (signal_pending (w_env w)) as [[] e]; [|by destruct w].
      unfold complist_interrupted. by destruct w.
    + cbn [wq_unlock completion_queue]. erewrite complist_spin_unlock_run by (by try apply lookup_insert_eq).
      kproj. rewrite complist_relock, insert_insert_eq, insert_id by done. by destruct w.
    + intros w' Hw'. cbn [wq_leave completion_queue]. erewrite upd_complist_run by (rewrite Hw'; apply lookup_insert_eq).
      simpl. rewrite Hw', insert_insert_eq, wq_del_add. done.
  - apply Forall_cons in Hn as [Hn _]. destruct n as [?|ctx|?|?]; try done.
    by eapply solo_take_context_cons.
Qed.

Lemma solo_take k w l ws t :
  wq_obs (wq_of k) (w_heap w) = Some (false, ws) → is_list (w_lm w) (wq_head (wq_of k)) l →
  Forall (λ n, wq_node (wq_of k) n = true) l →
  w_tasks w !! w_cur w = Some t → t_state t = TASK_RUNNING →
  (ls ← solo (wq_of k) 8 PLock; mret (visible ls)) w = seq_take k w.
Proof.
  destruct k as [a|a].
  - intros (s & ? & ? & _)%event_obs. by apply solo_take_event with (s := s).
  - intros (c & ? & ? & _)%completion_obs. by apply solo_take_context with (c := c).
Qed.
End solo.
