(* ===== verification/PropComplist.v ===== *)
(** * Properties of completion lists

    The theorems about [src/src/module/src/complist.c], each with a witness
    that applies it to a world of the session of [Scenario]. *)
From S2P Require Import Prelude ListHead ListSpec Kernel Uapi State Prims Context Proc.
From S2P Require Import Complist Scheduler Worker Device KernelInst Scenario.
From stdpp Require Import prelude gmap.

Local Open Scope Z_scope.

Section props.
Context `{KO : KernelOps, LO : !ListOps lnode, LL : !ListLaws lnode, KL : !KernelLaws}.
Implicit Types (w : world) (c : ums_complist) (L : forest lnode).

(** C3: Dequeuing hands over every waiting context, once and in order.  When
    a scheduler dequeues the completion list holding the workers [k :: ks]
    and then asks for the next context of each context it was given, user
    space receives exactly the pids of [k :: ks] in queue order followed by
    -1; the completion list is empty afterwards and every context is free to
    be queued again.  It fails, with -ENOMEM, exactly when procfs refuses the
    link of the first worker ([link_refused]: the insertion of this entry into
    procfs as it is when the call is made). *)
Theorem dequeue_drains_in_order w L args a s c k ks d pid
    (Hready : dq_ready w L args a s c (k :: ks)) (Hargs : u_uncopied args = 0)
    (Hdata : w_data w = Some d) (Hpids : pids_ok pid (w_heap w) d (k :: ks)) :
  ∃ r w1, ums_complist_dqcontext args w = Ok r w1 ∧
    if link_refused w s k then r = - ENOMEM else
      r = 0 ∧ ∃ w2, next_calls (pid <$> k :: ks) w1 = Ok tt w2 ∧
        w_out w2 = w_out w ++ (UPid <$> (pid <$> k :: ks) ++ [-1]) ∧
        forest_ok (w_lm w2) (emptied (k :: ks) (<[ClHead a := []]> L)) ∧
        w_rcu w2 = w_rcu w.
Proof.
  destruct (dqcontext_run w L args a s c k ks Hready) as (r & w1 & E & Hr & Hd & Hcase).
  exists r, w1. split; [done|].
  destruct Hcase as [(-> & -> & _ & HL & Hh & _ & y & Hy & Ho)|([-> [-> |?]] & _)]; [|done..].
  split; [done|]. destruct Hready as [_ _ _ HL0 Hq _].
  assert (NoDup (k :: ks)) as Hnd.
  { pose proof (forest_nodup _ _ _ _ HL0 Hq) as [_ Hnd]%NoDup_cons.
    by apply NoDup_fmap_1 in Hnd. }
  destruct (next_calls_run pid d ks k w1 (<[ClHead a := []]> (<[wnode k := wnode <$> ks]> L)))
    as (m & HLm & E2).
  - by rewrite Hd.
  - done.
  - rewrite lookup_insert_ne by done. apply lookup_insert_eq.
  - done.
  - intros j Hj. destruct (Hpids j Hj) as [? (yj & Hyj & Epid)]. split; [done|].
    destruct (up_to_links_lookup _ _ _ _ Hh Hyj) as (o & Ho' & Es).
    apply strip_worker in Es as (y' & -> & Ec & _). exists y'. by rewrite Ec.
  - eexists. split; [exact E2|]. kproj. split_and!; [| |done].
    + destruct (Hpids k) as [_ (y' & Hy' & Epid)]; [set_solver|]. simplify_eq.
      rewrite Ho, <- (assoc_L (++)), Epid. done.
    + rewrite (insert_insert_ne _ (ClHead a)) in HLm by done.
      rewrite emptied_shadow in HLm by set_solver. done.
Qed.

(** A context added to a completion list goes to the head or to the tail
    as the flags say, every task waiting for a context is made runnable and
    leaves the wait queue, and nothing else changes. *)
Theorem completion_list_add_spec w L a c l ctx flags
    (Hcl : w_heap w !! a = Some (OComplist c)) (Hunlocked : cl_lock c = false)
    (Hlists : forest_ok (w_lm w) L) (Hqueue : L !! ClHead a = Some l)
    (Hfree : free_node L (CtxList ctx)) (Hlive : is_Some (w_lm w !! CtxList ctx)) :
  ∃ w' L', ums_completion_list_add a ctx flags w = Ok tt w' ∧ forest_ok (w_lm w') L' ∧
    L' !! ClHead a = Some (if decide (Z.land flags COMPLIST_ADD_HEAD ≠ 0) then CtxList ctx :: l
                           else if decide (Z.land flags COMPLIST_ADD_TAIL ≠ 0)
                                then l ++ [CtxList ctx] else l) ∧
    (∀ h, h ≠ ClHead a → h ≠ CtxList ctx → L' !! h = L !! h) ∧
    (∀ p t, p ∈ cl_wait_q c → w_tasks w !! p = Some t →
       w_tasks w' !! p = Some (mk_task TASK_RUNNING (t_usage t))) ∧
    (∀ p, p ∉ cl_wait_q c → w_tasks w' !! p = w_tasks w !! p) ∧
    w_heap w' = <[a := OComplist (cl_with_wait_q [] c)]> (w_heap w).
Proof.
  destruct (ums_completion_list_add_run w L a c l ctx flags) as (m' & E & _ & HL'); [done..|].
  eexists _, _. split; [exact E|]. split; [exact HL'|]. kproj. split_and!.
  - unfold list_add_flags. repeat case_decide; rewrite ?lookup_insert_eq; done.
  - intros h Hh Hc. unfold list_add_flags.
    repeat case_decide; rewrite ?lookup_insert_ne, ?lookup_delete_ne; done.
  - intros p t Hp Ht. rewrite wake_tasks_lookup, Ht. simpl. by rewrite decide_True.
  - intros p Hp. rewrite wake_tasks_lookup. destruct (w_tasks w !! p); [|done]. simpl.
    by rewrite decide_False.
  - done.
Qed.

(** C17: A scheduler that waits for a context gets the one that is added.  A
    scheduler that finds the completion list empty, with no signal pending,
    goes to sleep on its wait queue.  When another task (any task, at any RCU
    nesting) then adds a context that is in no list, the scheduler is made
    runnable, and its call, resumed from the wait with nothing else in between,
    dequeues that context and leaves the list empty and no task in the wait
    queue. *)
Theorem sleeping_scheduler_gets_context w L a c t e ctx p n
    (Hcl : w_heap w !! a = Some (OComplist c)) (Hunlocked : cl_lock c = false)
    (Hlists : forest_ok (w_lm w) L) (Hempty : L !! ClHead a = Some [])
    (Htask : w_tasks w !! w_cur w = Some t)
    (Hsignal : signal_pending (w_env w) = (false, e))
    (Hfree : free_node L (CtxList ctx)) (Hlive : is_Some (w_lm w !! CtxList ctx)) :
  ∃ w1 w2 w3 L3, do_dequeue_ums_complist_context a w = Sleep w1 ∧
    t_state <$> w_tasks w1 !! w_cur w = Some TASK_INTERRUPTIBLE ∧
    ums_completion_list_add a ctx COMPLIST_ADD_TAIL (set_cur p (set_rcu n w1)) = Ok tt w2 ∧
    t_state <$> w_tasks w2 !! w_cur w = Some TASK_RUNNING ∧
    resume_dequeue_ums_complist_context a (set_cur (w_cur w) (set_rcu (w_rcu w) w2)) =
      Ok (inr ctx) w3 ∧
    forest_ok (w_lm w3) L3 ∧ L3 !! ClHead a = Some [] ∧
    w_heap w3 !! a = Some (OComplist (cl_with_wait_q [] c)).
Proof.
  pose proof (dequeue_complist_empty_run w L a c t Hcl Hunlocked Hlists Hempty Htask) as E1.
  rewrite Hsignal in E1.
  set (c1 := cl_with_wait_q (wq_add (w_cur w) (cl_wait_q c)) c).
  match type of E1 with _ = Sleep ?w1' => set (w1 := w1') in E1 end.
  assert (w_heap w1 !! a = Some (OComplist c1)) as H1 by apply lookup_insert_eq.
  destruct (ums_completion_list_add_run (set_cur p (set_rcu n w1)) L a c1 [] ctx COMPLIST_ADD_TAIL)
    as (m2 & E2 & _ & HL2); [done..|]. rewrite list_add_flags_tail in HL2.
  match type of E2 with _ = Ok _ ?w2' => set (w2 := w2') in E2 end.
  destruct (resume_dequeue_run (set_cur (w_cur w) (set_rcu (w_rcu w) w2))
    (<[ClHead a := [] ++ [CtxList ctx]]> (delete (CtxList ctx) L)) a (cl_with_wait_q [] c1) ctx [])
    as (m3 & E3 & _ & HL3);
    [apply lookup_insert_eq|done|exact HL2|apply lookup_insert_eq|].
  eexists w1, w2, _, _. split; [exact E1|]. split_and!.
  - unfold w1. kproj. by rewrite lookup_insert_eq.
  - exact E2.
  - assert (w_cur w ∈ cl_wait_q c1) as Hin.
    { unfold c1, wq_add. simpl. case_decide; [done|]. set_solver. }
    unfold w2. kproj. rewrite wake_tasks_lookup. unfold w1. kproj.
    rewrite lookup_insert_eq. simpl. by rewrite decide_True.
  - exact E3.
  - exact HL3.
  - apply lookup_insert_eq.
  - kproj. by rewrite lookup_insert_eq.
Qed.

(** An empty completion list.  The dequeue never spins: with a signal
    pending it returns -ERESTARTSYS, otherwise the task is put on the wait
    queue (once) and sleeps; the list and every other object are unchanged. *)
Theorem dequeue_empty_waits w L a c t
    (Hcl : w_heap w !! a = Some (OComplist c)) (Hunlocked : cl_lock c = false)
    (Hlists : forest_ok (w_lm w) L) (Hempty : L !! ClHead a = Some [])
    (Htask : w_tasks w !! w_cur w = Some t) :
  match do_dequeue_ums_complist_context a w with
  | Ok r w' => r = inl (- ERESTARTSYS) ∧ (signal_pending (w_env w)).1 = true ∧
      w_lm w' = w_lm w ∧ (∀ z, z ≠ a → w_heap w' !! z = w_heap w !! z)
  | Sleep w' => (signal_pending (w_env w)).1 = false ∧ w_lm w' = w_lm w ∧
      (∀ z, z ≠ a → w_heap w' !! z = w_heap w !! z) ∧
      ∃ c', w_heap w' !! a = Some (OComplist c') ∧ cl_lock c' = false ∧ w_cur w ∈ cl_wait_q c'
  | Bug _ => False
  end.
Proof.
  rewrite (dequeue_complist_empty_run w L a c t) by done.
  destruct (signal_pending (w_env w)) as [[] e]; simpl.
  - split_and!; [done..|]. intros z Hz. kproj. by rewrite lookup_insert_ne.
  - split_and!; [done..| |].
    + intros z Hz. kproj. by rewrite lookup_insert_ne.
    + eexists. split; [apply lookup_insert_eq|]. split; [done|].
      simpl. unfold wq_add. case_decide; [done|]. set_solver.
Qed.

(** What the id allocator of the pool gives. *)
Lemma created_id a i0 e1 r i e2 :
  idr_alloc a 1 (-1) i0 e1 = (r, i, e2) →
  if decide (0 < r) then idr_ents i0 !! r = None ∧ idr_ents i = <[r := a]> (idr_ents i0)
  else (r = - ENOMEM ∨ r = - ENOSPC) ∧ idr_ents i = idr_ents i0.
Proof.
  intros [[Hr ?]|(? & ? & ?)]%idr_alloc_spec; [| |lia..].
  - rewrite decide_False; [done|]. destruct Hr as [-> | ->]; done.
  - by rewrite decide_True by lia.
Qed.
Lemma create_no_memory w id e1 :
  kmalloc (dom (w_heap w)) (w_env w) = (None, e1) →
  create_ums_complist id w = Ok (- ENOMEM) (set_env e1 w).
Proof.
  intros Hk. unfold create_ums_complist, alloc_ums_complist, alloc_obj, mbind, kM_bind.
  by rewrite Hk.
Qed.

(** C27: Creation of a completion list, on every path.  Without memory for the
    list the call returns -ENOMEM and nothing changes.  Otherwise an id is asked
    for: it is either a positive number that was not in use and now names the
    new list, or a negative error number, and then the pool is as before.  In
    both cases, when user space can be written to, the call returns 0, hands
    this number over and leaves an empty, unlocked list with one reference --
    so a failure of the id allocator is reported as success, with the error
    number as the id of a list that the pool does not contain.  When user
    space cannot be written to, the call returns -EACCES and everything but the
    kernel's hidden state is as before.  (The ids in use are positive, as those
    that [idr_alloc] gives from 1 on are.) *)
Theorem create_complist_spec w L d id
    (Hdata : w_data w = Some d) (Howned : cells_owned w) (Hlists : forest_ok (w_lm w) L)
    (Hids : ∀ n b, idr_ents (d_comp_lists d) !! n = Some b → 0 < n) :
  match kmalloc (dom (w_heap w)) (w_env w) with
  | (None, e1) => create_ums_complist id w = Ok (- ENOMEM) (set_env e1 w)
  | (Some a, e1) =>
      let '(r, i, e2) := idr_alloc a 1 (-1) (d_comp_lists d) e1 in
      (if decide (0 < r) then
         idr_ents (d_comp_lists d) !! r = None ∧
         idr_ents i = <[r := a]> (idr_ents (d_comp_lists d))
       else (r = - ENOMEM ∨ r = - ENOSPC) ∧ idr_ents i = idr_ents (d_comp_lists d)) ∧
      ∃ w', if decide (u_uncopied id = 0) then
          create_ums_complist id w = Ok 0 w' ∧ w_out w' = w_out w ++ [UId r] ∧
          w_data w' = Some (d_with_comp_lists i d) ∧ w_heap w !! a = None ∧
          w_heap w' = <[a := OComplist (mk_complist r false [] 1)]> (w_heap w) ∧
          forest_ok (w_lm w') (<[ClHead a := []]> L)
        else
          create_ums_complist id w = Ok (- EACCES) w' ∧
          ∃ i', idr_ents i' = idr_ents (d_comp_lists d) ∧
            w' = set_env e2 (set_data (Some (d_with_comp_lists i' d)) w)
  end.
Proof.
  destruct (kmalloc _ _) as [[a|] e1] eqn:Halloc; [|by apply create_no_memory].
  destruct (idr_alloc _ _ _ _ _) as [[r i] e2] eqn:Hidr.
  pose proof (created_id _ _ _ _ _ _ Hidr) as Hspec.
  assert (r ≠ 0) as Hr by (case_decide; [lia|destruct Hspec as [[-> | ->] _]; done]).
  split; [done|]. destruct (create_run w L d id a e1 r i e2) as (m & HLm & _ & E); [done..|].
  destruct (decide (u_uncopied id = 0)); eexists; (split; [exact E|]); kproj.
  - split_and!; try done. apply kmalloc_fresh in Halloc. by apply not_elem_of_dom.
  - eexists. split; [|done]. rewrite idr_remove_spec. case_decide; destruct Hspec as [Hn ->].
    + by apply delete_insert_id.
    + apply delete_id, eq_None_not_Some. by intros [b ?%Hids].
Qed.

(** A failure of the id allocator is not noticed: the test of
    [ums_complist_init] is true only for 0, which [idr_alloc] never returns,
    so with a negative result the call reports success and hands the error
    number to user space as the id of a list that the pool does not contain. *)
Theorem create_complist_id_failure w L d id a e1 r i e2
    (Hdata : w_data w = Some d) (Howned : cells_owned w) (Hlists : forest_ok (w_lm w) L)
    (Halloc : kmalloc (dom (w_heap w)) (w_env w) = (Some a, e1))
    (Hidr : idr_alloc a 1 (-1) (d_comp_lists d) e1 = (r, i, e2)) (Hr : r < 0)
    (Hid : u_uncopied id = 0) :
  ∃ w', create_ums_complist id w = Ok 0 w' ∧ w_out w' = w_out w ++ [UId r] ∧
    w_data w' = Some (d_with_comp_lists i d) ∧
    idr_ents i = idr_ents (d_comp_lists d) ∧ is_Some (w_heap w' !! a).
Proof.
  pose proof Hidr as Hspec. apply idr_alloc_spec in Hspec as [[_ Hents]|(? & _)]; [|lia..].
  destruct (create_run w L d id a e1 r i e2) as (m & HLm & _ & E); [done..|lia|].
  rewrite decide_True in E by done. eexists. split; [exact E|]. kproj.
  split_and!; [done..|]. rewrite lookup_insert_eq. by eexists.
Qed.

(** C39: A dequeue that fails after taking the list loses contexts.  When
    procfs refuses the link of the first context (-ENOMEM), or its pid cannot be
    written to user space (-EACCES), only that context goes back: the completion
    list then holds [k] alone, whatever the number of contexts [ks] behind it,
    and the others are in no list any more. *)
Theorem dequeue_failure_loses_contexts w L args a s c k ks
    (Hready : dq_ready w L args a s c (k :: ks))
    (Hfails : link_refused w s k = true ∨ u_uncopied args ≠ 0) :
  ∃ r w', ums_complist_dqcontext args w = Ok r w' ∧
    r = (if link_refused w s k then - ENOMEM else - EACCES) ∧
    is_list (w_lm w') (ClHead a) [wnode k] ∧
    forest_ok (w_lm w') (<[ClHead a := [wnode k]]> (delete (wnode k) L)) ∧
    w_rcu w' = w_rcu w ∧ w_out w' = w_out w.
Proof.
  destruct (dqcontext_run w L args a s c k ks Hready) as (r & w' & E & Hr & _ & Hcase).
  exists r, w'. split; [done|].
  destruct Hcase as [(_ & Hl & Hu & _)|([Hcode _] & HL & _ & _ & Ho)].
  { destruct Hfails; [congruence|done]. }
  split_and!; [done|apply HL, lookup_insert_eq|done..].
Qed.

(** C28: Deleting a completion list.  An unknown id is refused with -EINVAL
    and nothing changes.  Otherwise one reference is dropped; the list leaves
    the pool, and is handed to RCU to be freed, exactly when it was the last
    one, and then every task waiting on it is made runnable. *)
Theorem complist_delete_spec w d id (Hdata : w_data w = Some d)
    (Hrefs : ∀ a, idr_find (d_comp_lists d) id = Some a →
      ∃ c, w_heap w !! a = Some (OComplist c) ∧ 0 < cl_refcount c ∧ cl_id c = id) :
  match idr_find (d_comp_lists d) id with
  | None => ums_complist_delete id w = Ok (- EINVAL) w
  | Some a => ∃ c w', w_heap w !! a = Some (OComplist c) ∧
      ums_complist_delete id w = Ok 0 w' ∧ w_rcu w' = w_rcu w ∧ w_lm w' = w_lm w ∧
      if decide (cl_refcount c = 1) then
        ∃ d', w_data w' = Some d' ∧ idr_find (d_comp_lists d') id = None ∧
          w_cbs w' = w_cbs w ++ [CbComplist a] ∧
          w_tasks w' = wake_tasks (cl_wait_q c) (w_tasks w)
      else
        w_data w' = Some d ∧ w_cbs w' = w_cbs w ∧ w_tasks w' = w_tasks w ∧
        w_heap w' = <[a := OComplist (cl_with_refcount (cl_refcount c - 1) c)]> (w_heap w)
  end.
Proof.
  rewrite (ums_complist_delete_run w d id Hdata). destruct (idr_find _ _) as [a|] eqn:Ha; [|done].
  destruct (Hrefs a eq_refl) as (c & Hc & Hr & Hid).
  pose proof (put_ums_complist_run (set_rcu (S (w_rcu w)) w) a c d Hc Hr Hdata) as E.
  exists c. destruct (decide (cl_refcount c = 1)); rewrite (bind_ok _ _ _ _ _ E); kred;
    (eexists; split; [done|]; split; [done|]; kproj; split_and!; try done).
  eexists. split; [done|]. split; [|done]. cbn.
  rewrite idr_find_spec, idr_remove_spec, Hid. apply lookup_delete_eq.
Qed.

(** C40: Deleting twice frees a list that is in use.  The reference taken at
    creation is dropped by every call, so with one worker on the list (two
    references) the second call frees it; once the RCU callback has run,
    destroying the worker dereferences freed memory. *)
Theorem delete_twice_frees_list_in_use w d id a c k y
    (Hdata : w_data w = Some d) (Hfind : idr_find (d_comp_lists d) id = Some a)
    (Hcl : w_heap w !! a = Some (OComplist c)) (Hrefs : cl_refcount c = 2)
    (Hworker : w_heap w !! k = Some (OWorker y)) (Huses : wk_complist y = Ptr a) :
  ∃ w1 w2 w3, ums_complist_delete id w = Ok 0 w1 ∧ ums_complist_delete id w1 = Ok 0 w2 ∧
    w_cbs w2 = w_cbs w ++ [CbComplist a] ∧ run_rcu_cb (CbComplist a) w2 = Ok tt w3 ∧
    ums_worker_destroy k w3 = Bug UseAfterFree.
Proof.
  assert (a ≠ k) as Hak by congruence.
  set (c1 := cl_with_refcount (cl_refcount c - 1) c).
  assert (ums_complist_delete id w =
    Ok 0 (set_heap (<[a := OComplist c1]> (w_heap w)) w)) as E1.
  { rewrite (ums_complist_delete_run w d id Hdata), Hfind. unfold mbind, kM_bind.
    rewrite (put_ums_complist_run _ a c d) by (done || kproj; lia).
    rewrite decide_False by lia. by destruct w. }
  set (w1 := set_heap _ w) in E1.
  assert (ums_complist_delete id w1 = Ok 0 (complist_destroyed a c1 d w1)) as E2.
  { rewrite (ums_complist_delete_run w1 d id Hdata), Hfind. unfold mbind, kM_bind.
    rewrite (put_ums_complist_run _ a c1 d);
      [|apply lookup_insert_eq|unfold c1; simpl; lia|done].
    rewrite decide_True by (unfold c1; simpl; lia). by destruct w. }
  set (w2 := complist_destroyed a c1 d w1) in E2.
  eexists w1, w2, _. split; [exact E1|]. split; [exact E2|]. split; [done|]. split.
  - cbn [run_rcu_cb]. unfold ums_complist_call_rcu, free_ums_complist, kfree.
    unfold w2, complist_destroyed. kproj. by rewrite lookup_insert_eq.
  - unfold ums_worker_destroy. krun (get_worker_run _ k y).
    { unfold w2, complist_destroyed, w1. kproj. by rewrite lookup_delete_ne, !lookup_insert_ne. }
    rewrite Huses. krun (eq_refl : deref (Ptr a) _ = Ok _ _). apply bind_bug.
    unfold put_ums_complist, get_complist, get_obj. kred. by rewrite lookup_delete_eq.
Qed.
End props.

(** ** Witnesses *)

(** The pool of the session holds the list 1 only. *)
Lemma session_ids n b : idr_ents (d_comp_lists (data_of w_list)) !! n = Some b → 0 < n.
Proof.
  change (idr_ents (d_comp_lists (data_of w_list))) with ({[ 1 := a_list ]} : gmap Z addr).
  by intros [<- _]%lookup_singleton_Some.
Qed.

Lemma dequeue_drains_in_order_witness :
  ∃ w1 w2, ums_complist_dqcontext (good (mk_dequeue_args 1 0)) w_started = Ok 0 w1 ∧
    next_calls (session_pid <$> [a_worker1; a_worker2]) w1 = Ok tt w2 ∧
    w_out w2 = w_out w_started ++ (UPid <$> (session_pid <$> [a_worker1; a_worker2]) ++ [-1]) ∧
    forest_ok (w_lm w2) (emptied [a_worker1; a_worker2] (<[ClHead a_list := []]> lists_started)).
Proof.
  destruct (dequeue_drains_in_order w_started lists_started (good (mk_dequeue_args 1 0)) a_list a_sched
    (complist_of w_started a_list) a_worker1 [a_worker2] (data_of w_started) session_pid)
    as (r & w1 & E & H).
  - apply session_dq_ready.
  - reflexivity.
  - compute_fact.
  - apply session_pids_ok.
  - assert (link_refused w_started a_sched a_worker1 = false) as Hl by compute_fact.
    rewrite Hl in H. destruct H as (-> & w2 & E2 & Ho & HL & _).
    exists w1, w2. split; [exact E|split; [exact E2|split; [exact Ho|exact HL]]].
Defined.

Lemma completion_list_add_spec_witness :
  ∃ w' L', ums_completion_list_add a_list (WorkCtx a_worker2) COMPLIST_ADD_TAIL w_drained =
      Ok tt w' ∧ forest_ok (w_lm w') L' ∧ L' !! ClHead a_list = Some ([] ++ [wnode a_worker2]).
Proof.
  destruct (completion_list_add_spec w_drained lists_drained a_list (complist_of w_drained a_list) []
    (WorkCtx a_worker2) COMPLIST_ADD_TAIL) as (w' & L' & E & HL & Hq & _).
  - compute_fact.
  - compute_fact.
  - decide_fact.
  - compute_fact.
  - decide_fact.
  - eexists. compute_fact.
  - exists w', L'. split; [exact E|split; [exact HL|exact Hq]].
Defined.

Lemma sleeping_scheduler_gets_context_witness :
  ∃ w1 w2 w3, do_dequeue_ums_complist_context a_list w_drained = Sleep w1 ∧
    ums_completion_list_add a_list (WorkCtx a_worker2) COMPLIST_ADD_TAIL
      (set_cur 12 (set_rcu 0 w1)) = Ok tt w2 ∧
    resume_dequeue_ums_complist_context a_list
      (set_cur (w_cur w_drained) (set_rcu (w_rcu w_drained) w2)) = Ok (inr (WorkCtx a_worker2)) w3.
Proof.
  destruct (sleeping_scheduler_gets_context w_drained lists_drained a_list
    (complist_of w_drained a_list) (task_of w_drained 13) [] (WorkCtx a_worker2) 12 0)
    as (w1 & w2 & w3 & L3 & E1 & _ & E2 & _ & E3 & _).
  - compute_fact.
  - compute_fact.
  - decide_fact.
  - compute_fact.
  - compute_fact.
  - compute_fact.
  - decide_fact.
  - eexists. compute_fact.
  - exists w1, w2, w3. split; [exact E1|split; [exact E2|exact E3]].
Defined.

Lemma dequeue_empty_waits_witness :
  match do_dequeue_ums_complist_context a_list w_drained with Sleep _ => True | _ => False end.
Proof.
  pose proof (dequeue_empty_waits w_drained lists_drained a_list (complist_of w_drained a_list)
    (task_of w_drained 13) ltac:(compute_fact) ltac:(compute_fact) ltac:(decide_fact)
    ltac:(compute_fact) ltac:(compute_fact)) as H.
  destruct (do_dequeue_ums_complist_context a_list w_drained) as [r w'|w'|b].
  - destruct H as (_ & Hs & _). vm_compute in Hs. discriminate.
  - exact I.
  - exact H.
Defined.

Lemma create_complist_spec_witness :
  idr_ents (d_comp_lists (data_of w_list)) !! 2 = None ∧
  ∃ w', create_ums_complist (good 0) w_list = Ok 0 w' ∧ w_out w' = w_out w_list ++ [UId 2].
Proof.
  pose proof (create_complist_spec w_list {[ ClHead a_list := [] ]} (data_of w_list) (good 0)
    ltac:(compute_fact) ltac:(owned_fact) ltac:(decide_fact) session_ids) as H.
  assert (kmalloc (dom (w_heap w_list)) (w_env w_list) = (Some 5%positive, [])) as E1 by compute_fact.
  rewrite E1 in H.
  assert (idr_alloc 5%positive 1 (-1) (d_comp_lists (data_of w_list)) [] =
    (2, <[2 := 5%positive]> (d_comp_lists (data_of w_list)), [])) as E2 by compute_fact.
  rewrite E2 in H. destruct H as [[Hn _] (w' & E & Ho & _)].
  split; [exact Hn|]. exists w'. split; [exact E|exact Ho].
Defined.

Lemma create_complist_id_failure_witness :
  ∃ w', create_ums_complist (good 0) (faults [false; true] w_list) = Ok 0 w' ∧
    w_out w' = w_out w_list ++ [UId (- ENOMEM)].
Proof.
  destruct (create_complist_id_failure (faults [false; true] w_list) {[ ClHead a_list := [] ]}
    (data_of w_list) (good 0) 5 [true] (- ENOMEM) (d_comp_lists (data_of w_list)) [])
    as (w' & E & Ho & _).
  - compute_fact.
  - owned_fact.
  - decide_fact.
  - compute_fact.
  - compute_fact.
  - unfold ENOMEM. lia.
  - reflexivity.
  - exists w'. split; [exact E|exact Ho].
Defined.

(** In the session procfs refuses the next entry; user space is writable. *)
Definition w_refusing : world := faults [true] w_started.
Lemma refusing_dq_ready :
  dq_ready w_refusing lists_started (good (mk_dequeue_args 1 0)) a_list a_sched
    (complist_of w_started a_list) [a_worker1; a_worker2].
Proof. destruct (session_dq_ready 0). by split. Qed.

Lemma dequeue_failure_loses_contexts_witness :
  ∃ w1 w2, ums_complist_dqcontext (bad (mk_dequeue_args 1 0)) w_started = Ok (- EACCES) w1 ∧
    is_list (w_lm w1) (ClHead a_list) [wnode a_worker1] ∧
    ums_complist_dqcontext (good (mk_dequeue_args 1 0)) w_refusing = Ok (- ENOMEM) w2 ∧
    is_list (w_lm w2) (ClHead a_list) [wnode a_worker1].
Proof.
  assert (link_refused w_started a_sched a_worker1 = false) as L1 by compute_fact.
  assert (link_refused w_refusing a_sched a_worker1 = true) as L2 by compute_fact.
  destruct (dequeue_failure_loses_contexts w_started lists_started (bad (mk_dequeue_args 1 0)) a_list
    a_sched (complist_of w_started a_list) a_worker1 [a_worker2]) as (r1 & w1 & E1 & Er1 & Hl1 & _).
  - apply session_dq_ready.
  - right. discriminate.
  - destruct (dequeue_failure_loses_contexts w_refusing lists_started (good (mk_dequeue_args 1 0)) a_list
      a_sched (complist_of w_started a_list) a_worker1 [a_worker2]) as (r2 & w2 & E2 & Er2 & Hl2 & _).
    + apply refusing_dq_ready.
    + left. exact L2.
    + rewrite L1 in Er1. rewrite L2 in Er2. subst r1 r2. exists w1, w2.
      split; [exact E1|split; [exact Hl1|split; [exact E2|exact Hl2]]].
Defined.

Lemma complist_delete_spec_witness :
  ∃ c w', w_heap w_list !! a_list = Some (OComplist c) ∧ ums_complist_delete 1 w_list = Ok 0 w'.
Proof.
  pose proof (complist_delete_spec w_list (data_of w_list) 1 ltac:(compute_fact)) as H.
  change (idr_find (d_comp_lists (data_of w_list)) 1) with (Some a_list) in H. cbv iota in H.
  destruct H as (c & w' & Hc & E & _).
  - intros a [= <-]. exists (complist_of w_list a_list).
    split; [compute_fact|split; [decide_fact|compute_fact]].
  - exists c, w'. split; [exact Hc|exact E].
Defined.

Lemma delete_twice_frees_list_in_use_witness :
  ∃ w1 w2 w3, ums_complist_delete 1 w_worker1 = Ok 0 w1 ∧ ums_complist_delete 1 w1 = Ok 0 w2 ∧
    w_cbs w2 = w_cbs w_worker1 ++ [CbComplist a_list] ∧
    run_rcu_cb (CbComplist a_list) w2 = Ok tt w3 ∧
    ums_worker_destroy a_worker1 w3 = Bug UseAfterFree.
Proof.
  apply (delete_twice_frees_list_in_use w_worker1 (data_of w_worker1) 1 a_list
    (complist_of w_worker1 a_list) a_worker1 (worker_of w_worker1 a_worker1)); compute_fact.
Defined.
