(* ===== verification/PropThreads.v ===== *)
(** * Properties of workers and schedulers

    The theorems about [src/src/module/src/{worker,scheduler,enter_ums}.c] and
    [context.h], each with a witness that applies it to a world of the session
    of [Scenario]. *)
From S2P Require Import Prelude ListHead ListSpec Kernel Uapi State Prims Context Proc.
From S2P Require Import Complist Scheduler Worker Device Rcu KernelInst Scenario.
From stdpp Require Import prelude gmap strings.

Local Open Scope Z_scope.

(** A context and its task, as the state of one thread of control. *)
Definition ctx_runs `{KernelOps} (w : world) (c : ctx_ref) : Prop :=
  ∃ x t, ctx_at (w_heap w) c = Some x ∧ ctx_state x = CONTEXT_RUNNING ∧
    w_tasks w !! ctx_task x = Some t ∧ t_state t = TASK_RUNNING.
Definition ctx_idles `{KernelOps} (w : world) (c : ctx_ref) : Prop :=
  ∃ x t, ctx_at (w_heap w) c = Some x ∧ ctx_state x = CONTEXT_IDLE ∧
    w_tasks w !! ctx_task x = Some t ∧ t_state t = TASK_INTERRUPTIBLE.
Definition ctx_is `{KernelOps} (w : world) (c : ctx_ref) (parent : cptr ctx_ref) (switches : Z) :
    Prop :=
  ∃ x, ctx_at (w_heap w) c = Some x ∧ ctx_parent x = parent ∧ ctx_switches x = switches.

Section props.
Context `{KO : KernelOps, LO : !ListOps lnode, LL : !ListLaws lnode, KL : !KernelLaws}.
Implicit Types (w : world) (x : ums_scheduler) (y : ums_worker) (c : ums_complist)
  (L : forest lnode).

(** ** Running a worker and coming back *)

(** The scheduler [s] of the current task can run the worker [k], which is
    not queued and whose completion list is [a]. *)
Record exec_ready w L d (s k a : addr) (pid : pid_t) x y c (q l : list lnode) tx ty : Prop := {
  er_data : w_data w = Some d;
  er_worker : rhashtable_lookup_fast (d_workers d) pid = Some k;
  er_sched : rhashtable_lookup_fast (d_schedulers d) (w_cur w) = Some s;
  er_hs : w_heap w !! s = Some (OSched x);
  er_hk : w_heap w !! k = Some (OWorker y);
  er_ha : w_heap w !! a = Some (OComplist c);
  er_link : dir_live (w_proc w) (wd_worker_link (wk_dirs y));
  er_cl : wk_complist y = Ptr a;
  er_sl : sc_lock x = false;
  er_al : cl_lock c = false;
  er_distinct : ctx_task (sc_context x) ≠ ctx_task (wk_context y);
  er_tx : w_tasks w !! ctx_task (sc_context x) = Some tx;
  er_ty : w_tasks w !! ctx_task (wk_context y) = Some ty;
  er_cache : g_event_cache (w_mod w) = true;
  er_cells : cells_owned w;
  er_lists : forest_ok (w_lm w) L;
  er_q : L !! EventQ s = Some q;
  er_l : L !! ClHead a = Some l;
  er_free : free_node L (wnode k);
  er_live : is_Some (w_lm w !! wnode k);
}.

(** The world after a successful [exec_ums_context]. *)
Definition exec_world (s k : addr) x y tx ty w : world :=
  set_blk (w_blk w ++ [w_rcu w])
    (set_heap (switch_heap (SchedCtx s) (WorkCtx k) (sc_context x) (wk_context y)
                 (<[s := OSched (uncounted_sched x)]> (w_heap w)))
      (set_tasks (switch_tasks (sc_context x) (wk_context y) tx ty (w_tasks w))
        (set_proc (proc_removed (wd_worker_link (wk_dirs y)) (w_proc w)) w))).
Definition executed_sched x : ums_scheduler :=
  sc_with_context (switched_from (sc_context x)) (uncounted_sched x).
Definition executed_worker (s : addr) y : ums_worker :=
  wk_with_context (switched_to (SchedCtx s) (wk_context y)) y.

Lemma exec_world_heap w s k x y tx ty :
  w_heap w !! s = Some (OSched x) → w_heap w !! k = Some (OWorker y) →
  w_heap (exec_world s k x y tx ty w) =
    <[k := OWorker (executed_worker s y)]> (<[s := OSched (executed_sched x)]> (w_heap w)).
Proof.
  intros Hs Hk. assert (s ≠ k) as Hne by congruence. unfold exec_world, switch_heap. kproj.
  cbn [ctx_set]. rewrite lookup_insert_eq, lookup_insert_ne, lookup_insert_ne, Hk by done.
  by rewrite insert_insert_eq.
Qed.

Lemma exec_ready_run w L d s k a pid x y c q l tx ty :
  exec_ready w L d s k a pid x y c q l tx ty →
  exec_ums_context pid w = Ok 0 (exec_world s k x y tx ty w).
Proof. intros []. by eapply exec_run. Qed.

(** The executed worker is a running worker of the scheduler. *)
Lemma exec_worker_at w L d s k a pid x y c q l tx ty :
  exec_ready w L d s k a pid x y c q l tx ty →
  worker_at (set_cur pid (exec_world s k x y tx ty w)) L d k s a (executed_worker s y)
    (executed_sched x) c q l.
Proof.
  intros []. assert (s ≠ k ∧ a ≠ s ∧ a ≠ k) as (Hsk & Has & Hak) by (split_and!; congruence).
  split; try done; kproj; rewrite ?exec_world_heap by done.
  - apply lookup_insert_eq.
  - rewrite lookup_insert_ne by done. apply lookup_insert_eq.
  - by rewrite !lookup_insert_ne.
  - intros n Hn. change (is_Some (w_heap (exec_world s k x y tx ty w) !! node_addr n)).
    rewrite exec_world_heap by done. do 2 (apply lookup_insert_is_Some'; right). by apply er_cells0.
Qed.

(** The heap and the tasks after a yield. *)
Lemma yield_heap_lookups e k s a ev y x c (h : gmap addr kobj) :
  h !! k = Some (OWorker y) → h !! s = Some (OSched x) → h !! a = Some (OComplist c) →
  h !! e = None →
  let h' := yield_heap e k s a ev y x c h in
  h' !! k = Some (OWorker (wk_with_context (switched_from (wk_context y)) y)) ∧
  h' !! s = Some (OSched (sc_with_context (switched_to (WorkCtx k) (sc_context x))
                            (sc_with_wait_q [] x))) ∧
  h' !! a = Some (OComplist (cl_with_wait_q [] c)) ∧ h' !! e = Some (OEvent ev) ∧
  ∀ z, z ≠ k → z ≠ s → z ≠ a → z ≠ e → h' !! z = h !! z.
Proof.
  intros Hk Hs Ha He. assert (s ≠ k ∧ a ≠ s ∧ a ≠ k ∧ e ≠ k ∧ e ≠ s ∧ e ≠ a)
    as (? & ? & ? & ? & ? & ?) by (split_and!; congruence).
  unfold yield_heap, switch_heap. cbn [ctx_set].
  rewrite !(lookup_insert_ne _ s k), (lookup_insert_ne _ e k), Hk by done.
  rewrite (lookup_insert_ne _ k s), lookup_insert_eq by done. split_and!.
  - by rewrite !(lookup_insert_ne _ _ k), lookup_insert_eq by done.
  - by rewrite lookup_insert_ne, lookup_insert_eq.
  - apply lookup_insert_eq.
  - rewrite !(lookup_insert_ne _ _ e) by done. apply lookup_insert_eq.
  - intros z Hzk Hzs Hza Hze. by rewrite !lookup_insert_ne.
Qed.

Lemma yield_tasks_lookups y x c ty tx (ts : gmap pid_t task) :
  ctx_task (wk_context y) ≠ ctx_task (sc_context x) →
  ctx_task (wk_context y) ∉ cl_wait_q c →
  yield_tasks y x c ty tx ts !! ctx_task (wk_context y) =
    Some (mk_task TASK_INTERRUPTIBLE (t_usage ty)) ∧
  yield_tasks y x c ty tx ts !! ctx_task (sc_context x) =
    Some (mk_task TASK_RUNNING (t_usage tx)).
Proof.
  intros Hne Hq. unfold yield_tasks, switch_tasks. rewrite !wake_tasks_lookup.
  rewrite lookup_insert_ne, !lookup_insert_eq by done. simpl. rewrite decide_False by done.
  split; [done|]. by case_decide.
Qed.

(** A third task is woken up when it waits on one of the two queues. *)
Lemma yield_tasks_others y x c ty tx (ts : gmap pid_t task) p t :
  p ≠ ctx_task (wk_context y) → p ≠ ctx_task (sc_context x) → ts !! p = Some t →
  yield_tasks y x c ty tx ts !! p =
    Some (if decide (p ∈ sc_wait_q x ∨ p ∈ cl_wait_q c)
          then mk_task TASK_RUNNING (t_usage t) else t).
Proof.
  intros Hy Hx Hp. unfold yield_tasks, switch_tasks.
  rewrite wake_tasks_lookup, !lookup_insert_ne, wake_tasks_lookup, Hp by done. simpl. f_equal.
  destruct (decide (p ∈ sc_wait_q x)), (decide (p ∈ cl_wait_q c)), (decide (_ ∨ _)); tauto.
Qed.

(** Executing a worker hands the CPU over.  The scheduler becomes idle
    and its task sleeps, the worker runs and its task is runnable, the worker
    remembers the scheduler, the scheduler has counted one more switch, and
    the CPU was given up once, at the RCU nesting of the caller. *)
Theorem exec_switches_to_worker w L d s k a pid x y c q l tx ty
    (Hready : exec_ready w L d s k a pid x y c q l tx ty) :
  ∃ w', exec_ums_context pid w = Ok 0 w' ∧
    ctx_idles w' (SchedCtx s) ∧ ctx_runs w' (WorkCtx k) ∧
    ctx_is w' (SchedCtx s) (ctx_parent (sc_context x))
      (atomic_inc (ctx_switches (sc_context x))) ∧
    ctx_is w' (WorkCtx k) (Ptr (SchedCtx s)) (ctx_switches (wk_context y)) ∧
    w_lm w' = w_lm w ∧ w_data w' = w_data w ∧ w_rcu w' = w_rcu w ∧
    w_blk w' = w_blk w ++ [w_rcu w].
Proof.
  pose proof (exec_ready_run _ _ _ _ _ _ _ _ _ _ _ _ _ _ Hready) as E.
  destruct Hready. assert (s ≠ k) as Hsk by congruence.
  pose proof (exec_world_heap w s k x y tx ty er_hs0 er_hk0) as Eh.
  assert (ctx_at (w_heap (exec_world s k x y tx ty w)) (SchedCtx s) =
    Some (switched_from (sc_context x))) as Cs.
  { rewrite Eh. simpl. by rewrite lookup_insert_ne, lookup_insert_eq. }
  assert (ctx_at (w_heap (exec_world s k x y tx ty w)) (WorkCtx k) =
    Some (switched_to (SchedCtx s) (wk_context y))) as Ck.
  { rewrite Eh. simpl. by rewrite lookup_insert_eq. }
  eexists. split; [exact E|]. split; [|split; [|split; [|split; [|done]]]].
  - eexists _, (mk_task TASK_INTERRUPTIBLE (t_usage tx)). split; [exact Cs|]. split; [done|]. split; [|done].
    unfold exec_world, switch_tasks. kproj. simpl.
    rewrite lookup_insert_ne by done. apply lookup_insert_eq.
  - eexists _, (mk_task TASK_RUNNING (t_usage ty)). split; [exact Ck|]. split; [done|]. split; [|done].
    unfold exec_world, switch_tasks. kproj. apply lookup_insert_eq.
  - eexists. split; [exact Cs|done].
  - eexists. split; [exact Ck|done].
Qed.

(** C2: A worker that yields goes back to the scheduler that ran it.  When a
    scheduler executes a worker and the worker then yields with a value,
    the scheduler runs again and the worker is idle, at the tail of its
    completion list, with a yield event carrying its pid and the value at
    the tail of the queue of the scheduler; each of the two switches is
    counted once.  Every task that waited for a context of the list or for an
    event of the scheduler is runnable, both wait queues are empty, and every
    other task is as it was.  The list has changed in its wait queue only, the
    scheduler in its context, its wait queue and its worker counts, the worker
    in its context, and no other object has changed.  (Hypotheses: there is
    memory for the event, and the task of the worker is not itself waiting for
    a context of the list.) *)
Theorem exec_yield_round_trip w L d s k a pid x y c q l tx ty value e e1
    (Hready : exec_ready w L d s k a pid x y c q l tx ty)
    (Hmem : kmalloc (dom (w_heap w)) (w_env w) = (Some e, e1))
    (Hself : ctx_task (wk_context y) ∉ cl_wait_q c) :
  ∃ w1 w2, exec_ums_context pid w = Ok 0 w1 ∧
    ums_worker_yield value (set_cur pid w1) = Ok 0 w2 ∧
    ctx_runs w2 (SchedCtx s) ∧ ctx_idles w2 (WorkCtx k) ∧
    ctx_is w2 (SchedCtx s) (Ptr (WorkCtx k)) (atomic_inc (ctx_switches (sc_context x))) ∧
    ctx_is w2 (WorkCtx k) (Ptr (SchedCtx s)) (atomic_inc (ctx_switches (wk_context y))) ∧
    w_heap w !! e = None ∧
    w_heap w2 !! e = Some (OEvent (mk_event THREAD_YIELD (yield_params pid value))) ∧
    forest_ok (w_lm w2) (<[ClHead a := l ++ [wnode k]]>
      (delete (wnode k) (<[EventQ s := q ++ [EventList e]]> L))) ∧
    (∀ p t, p ≠ ctx_task (wk_context y) → p ≠ ctx_task (sc_context x) →
       w_tasks w !! p = Some t →
       w_tasks w2 !! p = Some (if decide (p ∈ sc_wait_q x ∨ p ∈ cl_wait_q c)
                               then mk_task TASK_RUNNING (t_usage t) else t)) ∧
    w_heap w2 !! a = Some (OComplist (cl_with_wait_q [] c)) ∧
    (∃ cx, w_heap w2 !! s =
       Some (OSched (sc_with_context cx (sc_with_wait_q [] (uncounted_sched x))))) ∧
    (∃ cy, w_heap w2 !! k = Some (OWorker (wk_with_context cy y))) ∧
    (∀ z, z ≠ k → z ≠ s → z ≠ a → z ≠ e → w_heap w2 !! z = w_heap w !! z) ∧
    w_rcu w2 = w_rcu w.
Proof.
  pose proof (exec_ready_run _ _ _ _ _ _ _ _ _ _ _ _ _ _ Hready) as E.
  pose proof (exec_worker_at _ _ _ _ _ _ _ _ _ _ _ _ _ _ Hready) as Hat. destruct Hready.
  pose proof (exec_world_heap w s k x y tx ty er_hs0 er_hk0) as Eh.
  apply kmalloc_fresh in Hmem as Hf. apply not_elem_of_dom in Hf.
  assert (dom (w_heap (exec_world s k x y tx ty w)) = dom (w_heap w)) as Edom.
  { rewrite Eh, !dom_insert_lookup_L; [done|by eexists|].
    rewrite lookup_insert_ne by congruence. by eexists. }
  destruct (yield_run _ L d k s a _ _ c q l e e1 value
    (mk_task TASK_RUNNING (t_usage ty)) (mk_task TASK_INTERRUPTIBLE (t_usage tx)) Hat)
    as (m & HL & Ey); [done|done|by kproj; rewrite Edom|done|..].
  { apply lookup_insert_eq. }
  { unfold exec_world, switch_tasks. kproj. simpl. rewrite lookup_insert_ne by done.
    apply lookup_insert_eq. }
  destruct Hat as [_ _ Hk _ Hs _ _ Ha _ _ _ _ _ _]. kproj_in Hk. kproj_in Hs. kproj_in Ha.
  kproj_in Ey. set (h1 := w_heap (exec_world _ _ _ _ _ _ _)) in *.
  assert (h1 !! e = None) as He by (apply not_elem_of_dom; rewrite Edom; by apply not_elem_of_dom).
  destruct (yield_heap_lookups e k s a (mk_event THREAD_YIELD (yield_params pid value)) _ _ _ h1 Hk Hs Ha He)
    as (Yk & Ys & Ya & Ye & Yz).
  destruct (yield_tasks_lookups (executed_worker s y) (executed_sched x) c
    (mk_task TASK_RUNNING (t_usage ty)) (mk_task TASK_INTERRUPTIBLE (t_usage tx))
    (w_tasks (exec_world s k x y tx ty w))) as [Ty Tx]; [done..|].
  eexists _, _. split; [exact E|]. split; [exact Ey|]. clear E Ey. kproj.
  split_and!; try done.
  - eexists _, _. kproj. cbn [ctx_at]. rewrite Ys. split; [done|]. split; [done|]. split; [exact Tx|done].
  - eexists _, _. kproj. cbn [ctx_at]. rewrite Yk. split; [done|]. split; [done|]. split; [exact Ty|done].
  - eexists. kproj. cbn [ctx_at]. by rewrite Ys.
  - eexists. kproj. cbn [ctx_at]. by rewrite Yk.
  - intros p t Hpy Hpx Hp. apply (yield_tasks_others (executed_worker s y) (executed_sched x)); [done..|].
    unfold exec_world, switch_tasks. kproj. by rewrite !lookup_insert_ne.
  - by eexists.
  - by eexists.
  - intros z Hzk Hzs Hza Hze. rewrite Yz by done. rewrite Eh. by rewrite !lookup_insert_ne.
Qed.

(** ** Scheduling events *)

(** A sequence of [ums_sched_dqevent] calls, with the values they return. *)
Fixpoint dqevent_calls (args : list (uptr ums_sched_event)) : kM (list Z) :=
  match args with
  | [] => mret []
  | a :: args => r ← ums_sched_dqevent a; rs ← dqevent_calls args; mret (r :: rs)
  end.

(** C4: Events are delivered once each, in the order of the queue.  With the
    events [es ++ rest] in the queue of the scheduler, [length es] calls all
    return 0, copy the events of [es] to user space in this order, free them,
    and leave [rest] in the queue. *)
Theorem events_delivered_in_order args :
  ∀ w L d a s es rest evs
    (Hdata : w_data w = Some d)
    (Hsched : rhashtable_lookup_fast (d_schedulers d) (w_cur w) = Some a)
    (Hcache : g_event_cache (w_mod w) = true)
    (Hs : w_heap w !! a = Some (OSched s)) (Hunlocked : sc_lock s = false)
    (Hlists : forest_ok (w_lm w) L)
    (Hqueue : L !! EventQ a = Some (EventList <$> es ++ rest))
    (Hevents : Forall2 (λ e ev, w_heap w !! e = Some (OEvent ev)) es evs)
    (Hargs : Forall2 (λ u _, u_uncopied u = 0) args es),
  ∃ w', dqevent_calls args w = Ok (replicate (length es) 0) w' ∧
    w_out w' = w_out w ++ (UEvent <$> evs) ∧
    forest_ok (w_lm w') (<[EventQ a := EventList <$> rest]> L) ∧
    (∀ e, e ∈ es → w_heap w' !! e = None) ∧
    (∀ z, z ∉ es → w_heap w' !! z = w_heap w !! z) ∧
    w_tasks w' = w_tasks w ∧ w_rcu w' = w_rcu w.
Proof.
  induction args as [|u args IH]; intros; inversion Hargs as [|? e ? es' Hu Hargs']; subst;
    apply Forall2_cons_inv_l in Hevents || apply Forall2_nil_inv_l in Hevents; subst.
  - exists w. simpl. rewrite app_nil_r, insert_id by done. split_and!; try done. set_solver.
  - destruct Hevents as (ev & evs' & He & Hevs & ->). simpl in Hqueue.
    destruct (dqevent_run w L d a s e ev (EventList <$> es' ++ rest) u) as (m & _ & Hrun); [done..|].
    rewrite decide_True in Hrun by done. destruct Hrun as [HL E].
    assert (NoDup (EventList e :: (EventList <$> es' ++ rest))) as [Hne _]%NoDup_cons.
    { by pose proof (forest_nodup _ _ _ _ Hlists Hqueue) as [_ ?]%NoDup_cons. }
    rewrite list_elem_of_fmap in Hne.
    assert (e ∉ es') as Hnes by (intros ?; apply Hne; exists e; set_solver).
    assert (a ≠ e) as Hae by congruence.
    match type of E with _ = Ok _ ?w' => set (w1 := w') in E end.
    destruct (IH w1 (<[EventQ a := EventList <$> es' ++ rest]> L) d a s es' rest evs')
      as (w' & E' & Ho & HL' & Hf & Hz & Ht & Hr); try done.
    + unfold w1. kproj. by rewrite lookup_delete_ne.
    + unfold w1. kproj. eapply forest_agree; [exact HL|]. intros h l y Hh Hy.
      apply lookup_delete_ne. intros <-. apply lookup_insert_Some in Hh as [[<- <-]|[Hha Hh]].
      * apply elem_of_cons in Hy as [?|Hy]; [done|]. apply Hne.
        by apply list_elem_of_fmap in Hy.
      * refine (proj2 Hlists h l (EventQ a) _ (EventList e) Hh Hqueue _ Hy _); [done|set_solver].
    + apply lookup_insert_eq.
    + eapply Forall2_impl_in; [exact Hevs|].
      intros e' ev' He' Hh. unfold w1. kproj. rewrite lookup_delete_ne; [done|congruence].
    + exists w'. simpl. rewrite (bind_ok _ _ _ _ _ E), (bind_ok _ _ _ _ _ E').
      rewrite insert_insert_eq in HL'. split_and!; try done.
      * rewrite Ho. unfold w1. kproj. by rewrite <- (assoc_L (++)).
      * intros z [-> | Hin]%elem_of_cons; [|by apply Hf].
        rewrite Hz by done. unfold w1. kproj. apply lookup_delete_eq.
      * intros z Hnz. rewrite Hz by set_solver. unfold w1. kproj. apply lookup_delete_ne. set_solver.
Qed.

(** C26: An event that cannot be copied to user space is not lost: the call
    returns -EACCES and the queue and the events are as they were. *)
Theorem event_copy_failure_restores_queue w L d a s e ev rest args
    (Hdata : w_data w = Some d)
    (Hsched : rhashtable_lookup_fast (d_schedulers d) (w_cur w) = Some a)
    (Hcache : g_event_cache (w_mod w) = true)
    (Hs : w_heap w !! a = Some (OSched s)) (Hunlocked : sc_lock s = false)
    (Hev : w_heap w !! e = Some (OEvent ev)) (Hlists : forest_ok (w_lm w) L)
    (Hqueue : L !! EventQ a = Some (EventList e :: rest)) (Hfault : u_uncopied args ≠ 0) :
  ∃ w', ums_sched_dqevent args w = Ok (- EACCES) w' ∧ forest_ok (w_lm w') L ∧
    w_out w' = w_out w ∧ w_rcu w' = w_rcu w ∧
    (∀ z, z ≠ a → w_heap w' !! z = w_heap w !! z).
Proof.
  destruct (dqevent_run w L d a s e ev rest args) as (m & _ & Hrun); [done..|].
  rewrite decide_False in Hrun by done. destruct Hrun as [HL E].
  eexists. split; [exact E|]. kproj. split_and!; try done. intros z Hz. by apply lookup_insert_ne.
Qed.

(** No event is lost to a scheduler that sleeps.  A scheduler that finds
    its queue empty goes to sleep inside its call; when an event is then
    enqueued the scheduler is runnable, and its call, resumed from the wait,
    copies this event to user space, frees it, returns 0 and leaves the RCU
    section it had entered. *)
Theorem sleeping_scheduler_gets_event w L d a s t e ev e1 args p n
    (Hdata : w_data w = Some d)
    (Hsched : rhashtable_lookup_fast (d_schedulers d) (w_cur w) = Some a)
    (Hcache : g_event_cache (w_mod w) = true)
    (Hs : w_heap w !! a = Some (OSched s)) (Hunlocked : sc_lock s = false)
    (Hlists : forest_ok (w_lm w) L) (Hempty : L !! EventQ a = Some [])
    (Htask : w_tasks w !! w_cur w = Some t)
    (Hsignal : signal_pending (w_env w) = (false, e1)) (Hargs : u_uncopied args = 0)
    (Hev : w_heap w !! e = Some (OEvent ev)) (Hfree : free_node L (EventList e))
    (Hlive : is_Some (w_lm w !! EventList e)) :
  ∃ w1 w2 w3, ums_sched_dqevent args w = Sleep w1 ∧
    t_state <$> w_tasks w1 !! w_cur w = Some TASK_INTERRUPTIBLE ∧
    enqueue_ums_sched_event a e EVENT_ADD_TAIL (set_cur p (set_rcu n w1)) = Ok tt w2 ∧
    t_state <$> w_tasks w2 !! w_cur w = Some TASK_RUNNING ∧
    resume_dqevent args a (set_cur (w_cur w) (set_rcu (w_rcu w1) w2)) = Ok 0 w3 ∧
    w_out w3 = w_out w ++ [UEvent ev] ∧ w_heap w3 !! e = None ∧ w_rcu w3 = w_rcu w ∧
    w_heap w3 !! a = Some (OSched (sc_with_wait_q [] s)).
Proof.
  assert (a ≠ e) as Hae by congruence.
  pose proof (dequeue_event_empty_run (set_rcu (S (w_rcu w)) w) L a s t Hs Hunlocked Hlists Hempty Htask)
    as E1. kproj_in E1. rewrite Hsignal in E1.
  match type of E1 with _ = Sleep ?w1' => set (w1 := w1') in E1 end.
  set (s1 := sc_with_wait_q (wq_add (w_cur w) (sc_wait_q s)) s).
  assert (w_heap w1 !! a = Some (OSched s1)) as H1 by apply lookup_insert_eq.
  destruct (enqueue_event_run (set_cur p (set_rcu n w1)) L a s1 [] e EVENT_ADD_TAIL)
    as (m2 & E2 & _ & HL2); [done..|]. rewrite list_add_flags_tail in HL2.
  match type of E2 with _ = Ok _ ?w2' => set (w2 := w2') in E2 end.
  set (w2' := set_cur (w_cur w) (set_rcu (w_rcu w1) w2)).
  destruct (resume_dequeue_event_run w2' (<[EventQ a := [] ++ [EventList e]]> (delete (EventList e) L))
    a (sc_with_wait_q [] s1) e []) as (m3 & E3 & _ & _);
    [apply lookup_insert_eq|done|exact HL2|apply lookup_insert_eq|].
  eexists w1, w2, _. split.
  { rewrite (dqevent_prefix _ _ _ Hdata), Hsched. by apply bind_sleep. }
  split; [unfold w1; kproj; by rewrite lookup_insert_eq|]. split; [exact E2|]. split.
  { assert (w_cur w ∈ sc_wait_q s1) as Hin.
    { unfold s1, wq_add. simpl. case_decide; [done|]. set_solver. }
    unfold w2. kproj. rewrite wake_tasks_lookup. unfold w1. kproj.
    rewrite lookup_insert_eq. simpl. by rewrite decide_True. }
  split.
  { unfold resume_dqevent. rewrite (bind_ok _ _ _ _ _ E3). unfold dqevent_return.
    krun (get_event_run _ e ev); [|].
    { unfold sched_interrupted, w2', w2, w1. kproj. unfold sched_waiting. kproj. by rewrite !lookup_insert_ne. }
    unfold copy_to_user. rewrite decide_True by done. kred. kzero. kred.
    change (w_rcu (sched_interrupted a _ w2')) with (S (w_rcu w)). cbv iota.
    by rewrite (free_ums_event_run _ e ev);
      [|exact Hcache|unfold sched_interrupted, w2', w2, w1, sched_waiting; kproj; by rewrite !lookup_insert_ne]. }
  unfold sched_interrupted, w2', w2, w1. kproj.
  split_and!; [done|apply lookup_delete_eq|done|].
  rewrite lookup_delete_ne, lookup_insert_eq by done. done.
Qed.

(** ** The life of a worker *)

(** The list, the pool, the callbacks and the waiting tasks after the reference
    of the worker was dropped. *)
Lemma end_released a c d tb k p0 t0 q (ts : gmap pid_t task) (cbs : list rcu_cb) :
  let ts' := <[p0 := mk_task TASK_RUNNING t0]> (wake_tasks q ts) in
  let d1 := d_with_workers tb (released_data c d) in
  if decide (cl_refcount c = 1) then
    Some (OComplist (released_list c)) = Some (OComplist (mk_complist (cl_id c) (cl_lock c) [] 0)) ∧
    idr_ents (d_comp_lists d1) = delete (cl_id c) (idr_ents (d_comp_lists d)) ∧
    released_cbs a c cbs ++ [CbWorker k] = cbs ++ [CbComplist a; CbWorker k] ∧
    (∀ p, p ∈ cl_wait_q c → is_Some (ts !! p) →
       t_state <$> released_tasks c ts' !! p = Some TASK_RUNNING)
  else
    Some (OComplist (released_list c)) =
      Some (OComplist (cl_with_refcount (cl_refcount c - 1) c)) ∧
    d_comp_lists d1 = d_comp_lists d ∧ released_cbs a c cbs ++ [CbWorker k] = cbs ++ [CbWorker k].
Proof.
  cbv zeta. unfold released_list, released_data, released_cbs, released_tasks.
  destruct (decide (cl_refcount c = 1)); [|done]. split_and!; [done| | |].
  - cbn. apply idr_remove_spec.
  - by rewrite <- (assoc_L (++)).
  - intros p Hp [t Ht]. rewrite wake_tasks_lookup.
    destruct (decide (p = p0)) as [->|Hne]; [rewrite lookup_insert_eq|
      rewrite lookup_insert_ne, wake_tasks_lookup, Ht by done]; simpl; by rewrite decide_True.
Qed.

(** C23: Ending a worker that a scheduler runs.  Without memory for the
    termination event the call returns -ENOMEM and the worker goes on.
    Otherwise the scheduler that ran it is made runnable with a termination
    event at the tail of its queue; the worker leaves the table of workers,
    gives up its reference to the completion list and is handed to RCU, whose
    callback frees it and gives back the reference to its task.  If the
    reference was the last one, the list leaves the pool, is handed to RCU
    before the worker, and every task waiting on it is runnable; otherwise the
    list keeps one reference less and stays in the pool. *)
Theorem worker_end_spec w L d k s a y x c q l tx ty b
    (Hat : worker_at w L d k s a y x c q l)
    (Htx : w_tasks w !! ctx_task (sc_context x) = Some tx)
    (Hty : w_tasks w !! ctx_task (wk_context y) = Some ty)
    (Hdistinct : ctx_task (wk_context y) ≠ ctx_task (sc_context x))
    (Hrefs : 0 < cl_refcount c) (Hdirs : worker_dirs_ok w y b) :
  match kmalloc (dom (w_heap w)) (w_env w) with
  | (None, e1) => ums_worker_end w = Ok (- ENOMEM) (set_env e1 w)
  | (Some e, e1) =>
      ∃ w1 w2 d1, ums_worker_end w = Ok 0 w1 ∧ ctx_runs w1 (SchedCtx s) ∧
        w_heap w1 !! e = Some (OEvent (mk_event THREAD_TERMINATED (end_params (w_cur w)))) ∧
        forest_ok (w_lm w1) (<[EventQ s := q ++ [EventList e]]> L) ∧
        w_data w1 = Some d1 ∧
        rht_objs (d_workers d1) = rht_objs (d_workers d) ∖ {[ (ctx_pid (wk_context y), k) ]} ∧
        (if decide (cl_refcount c = 1) then
           w_heap w1 !! a = Some (OComplist (mk_complist (cl_id c) (cl_lock c) [] 0)) ∧
           idr_ents (d_comp_lists d1) = delete (cl_id c) (idr_ents (d_comp_lists d)) ∧
           w_cbs w1 = w_cbs w ++ [CbComplist a; CbWorker k] ∧
           (∀ p, p ∈ cl_wait_q c → is_Some (w_tasks w !! p) →
              t_state <$> w_tasks w1 !! p = Some TASK_RUNNING)
         else
           w_heap w1 !! a = Some (OComplist (cl_with_refcount (cl_refcount c - 1) c)) ∧
           d_comp_lists d1 = d_comp_lists d ∧ w_cbs w1 = w_cbs w ++ [CbWorker k]) ∧
        w_rcu w1 = w_rcu w ∧
        run_rcu_cb (CbWorker k) w1 = Ok tt w2 ∧ w_heap w2 !! k = None ∧
        t_usage <$> w_tasks w2 !! ctx_task (wk_context y) = Some (t_usage ty - 1)
  end.
Proof.
  destruct (kmalloc _ _) as [[e|] e1] eqn:Hmem; [|by destruct Hat; eapply end_no_memory].
  destruct (end_run w L d k s a y x c q l e e1 tx b) as (m & HL & E); [done..|].
  destruct Hat as [_ _ Hk _ Hs _ _ Ha _ _ _ _ _ _].
  apply kmalloc_fresh in Hmem as Hf. apply not_elem_of_dom in Hf.
  destruct Hdirs as (? & ? & ? & cap & str & _ & _ & _ & Hb & _).
  assert (k ≠ s ∧ a ≠ s ∧ a ≠ k ∧ e ≠ k ∧ e ≠ s ∧ e ≠ a ∧ b ≠ k ∧ b ≠ s ∧ b ≠ a ∧ b ≠ e)
    as (? & ? & ? & ? & ? & ? & ? & ? & ? & ?) by (split_and!; congruence).
  cbn [ctx_set] in E. rewrite lookup_insert_eq in E.
  match type of E with _ = Ok _ ?w1' => set (w1 := w1') in E end.
  assert (w_heap w1 !! k = Some (OWorker y)) as Hk1.
  { unfold w1. kproj. by rewrite lookup_delete_ne, !lookup_insert_ne. }
  set (ts := <[ctx_task (sc_context x) := mk_task TASK_RUNNING (t_usage tx)]>
               (wake_tasks (sc_wait_q x) (w_tasks w))).
  destruct (wake_tasks_usage (sc_wait_q x) _ _ _ Hty) as (ty0 & Ty0 & Uy0).
  destruct (released_tasks_lookup c ts (ctx_task (wk_context y)) ty0) as (ty' & Ty & Uy & _).
  { unfold ts. by rewrite lookup_insert_ne. }
  destruct (released_tasks_lookup c ts (ctx_task (sc_context x)) (mk_task TASK_RUNNING (t_usage tx)))
    as (tx' & Tx & _ & Rx); [apply lookup_insert_eq|].
  assert (w_tasks w1 = released_tasks c ts) as Ets by done.
  eassert (run_rcu_cb (CbWorker k) w1 = Ok tt _) as Ecb.
  { cbn [run_rcu_cb]. unfold ums_worker_call_rcu, free_ums_worker, kfree.
    krun (ums_context_deinit_run w1 (WorkCtx k) (wk_context y) ty'); [unfold ctx_at; by rewrite Hk1|by rewrite Ets|].
    kproj. rewrite Hk1. done. }
  assert (w_heap w1 !! a = Some (OComplist (released_list c))) as Ha1.
  { unfold w1. kproj. by rewrite lookup_delete_ne, lookup_insert_eq. }
  eexists w1, _, _. split; [exact E|]. split.
  { eexists _, tx'. rewrite Ets. unfold w1. kproj. cbn [ctx_at].
    rewrite lookup_delete_ne, lookup_insert_ne, lookup_insert_eq by done.
    split; [done|]. split; [done|]. split; [exact Tx|by apply Rx]. }
  split_and!; [..|exact Ecb| |].
  - unfold w1. kproj. by rewrite lookup_delete_ne, !lookup_insert_ne, lookup_insert_eq by done.
  - exact HL.
  - done.
  - apply rhashtable_remove_spec.
  - rewrite Ha1, Ets. by apply end_released.
  - done.
  - kproj. apply lookup_delete_eq.
  - kproj. rewrite lookup_insert_eq. simpl. by rewrite Uy, Uy0.
Qed.

(** C24: Entering worker mode.  The call fails and leaves no worker, or a
    new worker of the calling task is in the table of workers and last in
    the completion list, which has one more reference; the task sleeps
    without being in an RCU section, and every scheduler waiting for a
    context is runnable. *)
Theorem enter_worker_spec w L d t args a c l
    (Hdata : w_data w = Some d) (Hdirs : workers_dir_ok w (d_dirs d)) (Howned : cells_owned w)
    (Htask : w_tasks w !! w_cur w = Some t) (Hpid : - 2 ^ 31 ≤ w_cur w < 2 ^ 31)
    (Hfind : idr_find (d_comp_lists d) (ea_ums_complist args) = Some a)
    (Hcl : w_heap w !! a = Some (OComplist c)) (Hunlocked : cl_lock c = false)
    (Hrefs : 0 < cl_refcount c) (Hlists : forest_ok (w_lm w) L)
    (Hqueue : L !! ClHead a = Some l) (Hself : w_cur w ∉ cl_wait_q c) :
  ∃ r w', enter_ums_worker_mode args w = Ok r w' ∧ w_rcu w' = w_rcu w ∧
    ((r < 0 ∧ w_lm w' = w_lm w ∧ ∃ d', w_data w' = Some d' ∧
        rht_objs (d_workers d') = rht_objs (d_workers d)) ∨
     (r = 0 ∧ ∃ k d', w_heap w !! k = None ∧ ctx_idles w' (WorkCtx k) ∧
        forest_ok (w_lm w') (<[ClHead a := l ++ [wnode k]]> L) ∧
        w_data w' = Some d' ∧
        rht_objs (d_workers d') = {[ (w_cur w, k) ]} ∪ rht_objs (d_workers d) ∧
        w_heap w' !! a = Some (OComplist (mk_complist (cl_id c) false [] (cl_refcount c + 1))) ∧
        (∀ p, p ∈ cl_wait_q c → is_Some (w_tasks w !! p) →
           t_state <$> w_tasks w' !! p = Some TASK_RUNNING) ∧
        w_blk w' = w_blk w ++ [w_rcu w])).
Proof.
  destruct (enter_worker_run w L d t args a c l) as (r & w' & E & [(Hr & Hf)|(-> & k & He)]); [done..| |].
  - destruct Hf as (_ & ? & ? & _ & _ & _ & d' & ? & _ & ? & _).
    exists r, w'. split; [done|]. split; [done|left]. eauto 10.
  - destruct He as [(i & f & b & path & Hk) Fk Hc _ HL (tb & Htb & Hobj) Ht Hr Hb].
    exists 0, w'. split; [done|]. split; [done|right]. split; [done|]. exists k, (d_with_workers tb d).
    split_and!; try done.
    + eexists _, _. cbn [ctx_at]. rewrite Hk. split; [done|]. split; [done|].
      rewrite Ht, wake_tasks_lookup. cbn [ctx_task suspended_worker wk_context wk_with_context
        idle_context with_state registered_dirs wk_with_dirs wk_with_complist new_worker fresh_context].
      rewrite lookup_insert_eq. split; [done|]. cbn. by rewrite decide_False.
    + intros p Hp [tp Htp]. rewrite Ht, wake_tasks_lookup.
      destruct (decide (p = w_cur w)) as [->|Hne]; [done|].
      rewrite lookup_insert_ne, Htp by done. simpl. by rewrite decide_True.
Qed.


(** C29: Calls by strangers.  Every call of a worker or of a scheduler by a
    task that is none returns -ESRCH: yielding and ending by a task that is no
    worker; dequeuing an event, executing a worker and dequeuing a known
    completion list by a task that is no scheduler.  So do executing, and asking
    for the context behind, a pid that is no worker.  In none of these cases
    does anything change. *)
Theorem strangers_get_esrch w d value event pid dq nx
    (Hdata : w_data w = Some d) :
  (rhashtable_lookup_fast (d_workers d) (w_cur w) = None →
     ums_worker_yield value w = Ok (- ESRCH) w ∧ ums_worker_end w = Ok (- ESRCH) w) ∧
  (rhashtable_lookup_fast (d_schedulers d) (w_cur w) = None →
     ums_sched_dqevent event w = Ok (- ESRCH) w ∧ exec_ums_context pid w = Ok (- ESRCH) w ∧
     ∀ v a, u_val dq = Some v → idr_find (d_comp_lists d) (dq_ums_complist v) = Some a →
       ums_complist_dqcontext dq w = Ok (- ESRCH) w) ∧
  (rhashtable_lookup_fast (d_workers d) pid = None →
     exec_ums_context pid w = Ok (- ESRCH) w ∧
     ∀ v, u_val nx = Some v → nx_ums_context v = pid →
       ums_complist_next_context nx w = Ok (- ESRCH) w).
Proof.
  split_and!.
  - intros Hn. unfold ums_worker_yield, ums_worker_end, current_context_pid.
    split; krun (eq_refl : gets w_cur w = Ok _ _); krun (eq_refl : rcu_read_lock w = Ok _ _);
      krun (get_data_run (set_rcu (S (w_rcu w)) w) d Hdata); rewrite Hn; by destruct w.
  - intros Hn. split; [by rewrite (dqevent_prefix _ _ _ Hdata), Hn|].
    split; [apply (exec_esrch_run w d); auto|].
    intros v a Hv Ha. unfold ums_complist_dqcontext, current_context_pid.
    krun (eq_refl : copy_from_user dq w = Ok _ _). rewrite Hv.
    krun (eq_refl : rcu_read_lock w = Ok _ _).
    krun (idr_l_find_run (set_rcu (S (w_rcu w)) w) d _ Hdata). rewrite Ha.
    krun (eq_refl : gets w_cur (set_rcu (S (w_rcu w)) w) = Ok _ _).
    krun (get_data_run (set_rcu (S (w_rcu w)) w) d Hdata). kproj. rewrite Hn. by destruct w.
  - intros Hn. split; [apply (exec_esrch_run w d); auto|].
    intros v Hv Hp. unfold ums_complist_next_context.
    krun (eq_refl : copy_from_user nx w = Ok _ _). rewrite Hv.
    krun (eq_refl : rcu_read_lock w = Ok _ _).
    krun (get_data_run (set_rcu (S (w_rcu w)) w) d Hdata). rewrite Hp, Hn. by destruct w.
Qed.

(** ** Entering with a completion list that does not exist *)

(** C37: A defect.  A task that enters worker mode with an unknown completion
    list, and for which the worker can be created, makes the kernel follow
    the uninitialised [complist] pointer of the new worker: the call never
    returns the -EINVAL of its text. *)
Theorem enter_worker_unknown_list w d t args
    (Hdata : w_data w = Some d) (Hdirs : workers_dir_ok w (d_dirs d)) (Howned : cells_owned w)
    (Htask : w_tasks w !! w_cur w = Some t) (Hpid : - 2 ^ 31 ≤ w_cur w < 2 ^ 31)
    (Hfind : idr_find (d_comp_lists d) (ea_ums_complist args) = None) :
  match ums_worker_create w with
  | Ok (inr _) _ => enter_ums_worker_mode args w = Bug UninitPtr
  | Ok (inl r) w' => enter_ums_worker_mode args w = Ok r w' ∧ r < 0
  | _ => False
  end.
Proof.
  pose proof (enter_worker_no_complist_run w d t args Hdata Hdirs Howned Htask Hpid Hfind) as Hrun.
  destruct (ums_worker_create w) as [[r|k] w'| |]; [|done..]. by destruct Hrun as (? & ? & _).
Qed.

(** A defect.  The same holds for a task that enters scheduler mode: the
    scheduler is destroyed through its uninitialised [complist] pointer. *)
Theorem enter_scheduler_unknown_list w L d t args
    (Hdata : w_data w = Some d) (Hdirs : sched_dir_ok w (d_dirs d)) (Howned : cells_owned w)
    (Hlists : forest_ok (w_lm w) L) (Htask : w_tasks w !! w_cur w = Some t)
    (Hpid : - 2 ^ 31 ≤ w_cur w < 2 ^ 31)
    (Hfind : idr_find (d_comp_lists d) (ea_ums_complist args) = None) :
  match ums_scheduler_create w with
  | Ok (inr _) _ => enter_ums_scheduler_mode args w = Bug UninitPtr
  | Ok (inl r) w' => enter_ums_scheduler_mode args w = Ok r w' ∧ r < 0
  | _ => False
  end.
Proof.
  destruct (sched_create_run w L d t Hdata Hdirs Howned Hlists Htask Hpid) as (r & w1 & E & Hcase).
  rewrite E. destruct r as [r|s].
  { unfold enter_ums_scheduler_mode. rewrite (bind_ok _ _ _ _ _ E). by destruct Hcase. }
  destruct Hcase as [_ (f & i & k & Hh) HL _ (tb & _ & Hfr)].
  eapply (enter_sched_no_complist_run w w1 _ s _ (d_with_schedulers tb d)); [exact E|..].
  - by rewrite Hfr.
  - done.
  - rewrite Hh. apply lookup_insert_eq.
  - done.
  - done.
  - exact HL.
  - apply lookup_insert_eq.
Qed.

(** A defect.  When the scheduler could be created but there is no
    memory for its startup event, the error path leaves an RCU read-side
    section that was left before. *)
Theorem enter_scheduler_no_event_memory w L d t args a c s w1 e
    (Hdata : w_data w = Some d) (Hdirs : sched_dir_ok w (d_dirs d)) (Howned : cells_owned w)
    (Hlists : forest_ok (w_lm w) L) (Htask : w_tasks w !! w_cur w = Some t)
    (Hpid : - 2 ^ 31 ≤ w_cur w < 2 ^ 31) (Hcache : g_event_cache (w_mod w) = true)
    (Hrcu : w_rcu w = O)
    (Hfind : idr_find (d_comp_lists d) (ea_ums_complist args) = Some a)
    (Hcl : w_heap w !! a = Some (OComplist c)) (Hrefs : 0 < cl_refcount c)
    (Hcreate : ums_scheduler_create w = Ok (inr s) w1)
    (Hmem : kmalloc (dom (w_heap w1)) (w_env w1) = (None, e)) :
  enter_ums_scheduler_mode args w = Bug RcuUnbalanced.
Proof.
  destruct (sched_create_run w L d t Hdata Hdirs Howned Hlists Htask Hpid) as (r & w' & E & Hcase).
  rewrite Hcreate in E. injection E as <- <-.
  destruct Hcase as [Fs (f & i & k & Hh) HL _ (tb & _ & Hfr)].
  eapply (enter_sched_no_event_run w w1 s _ (d_with_schedulers tb d)); try done.
  - by rewrite Hfr.
  - by rewrite Hfr.
  - rewrite Hh, lookup_insert_ne; [done|congruence].
  - rewrite Hh. apply lookup_insert_eq.
  - by rewrite Hfr.
Qed.

(** A defect.  A worker or scheduler whose creation fails after its
    structure was allocated leaves the task with a reference nobody owns. *)
Theorem failed_creation_leaks_task_reference w L d t a e r1 w1 r2 w2
    (Hdata : w_data w = Some d) (Hwdirs : workers_dir_ok w (d_dirs d))
    (Hsdirs : sched_dir_ok w (d_dirs d)) (Howned : cells_owned w)
    (Hlists : forest_ok (w_lm w) L) (Htask : w_tasks w !! w_cur w = Some t)
    (Hpid : - 2 ^ 31 ≤ w_cur w < 2 ^ 31)
    (Hmem : kmalloc (dom (w_heap w)) (w_env w) = (Some a, e))
    (Hworker : ums_worker_create w = Ok (inl r1) w1)
    (Hsched : ums_scheduler_create w = Ok (inl r2) w2) :
  t_usage <$> w_tasks w1 !! w_cur w = Some (t_usage t + 1) ∧
  t_usage <$> w_tasks w2 !! w_cur w = Some (t_usage t + 1) ∧
  ∃ d1 d2, w_data w1 = Some d1 ∧ w_data w2 = Some d2 ∧
    rht_objs (d_workers d1) = rht_objs (d_workers d) ∧
    rht_objs (d_schedulers d2) = rht_objs (d_schedulers d).
Proof.
  destruct (worker_create_run w d t) as (r & w' & E1 & H1); [done..|].
  rewrite Hworker in E1. injection E1 as <- <-. clear Hworker.
  destruct H1 as (_ & _ & _ & _ & _ & _ & T1 & d1 & D1 & _ & O1 & _).
  destruct (sched_create_run w L d t) as (r & w' & E2 & H2); [done..|].
  rewrite Hsched in E2. injection E2 as <- <-.
  destruct H2 as (_ & _ & _ & _ & _ & _ & T2 & d2 & D2 & _ & O2 & _).
  rewrite (leaked_ref_some _ _ _ _ Hmem) in T1, T2. rewrite T1, T2, !lookup_insert_eq.
  split; [done|]. split; [done|]. eauto 10.
Qed.

(** ** RCU *)

(** C16: RCU discipline of the calls.  A call from user space starts outside
    RCU read-side sections; if it returns it is outside again, and it gave
    up the CPU with [schedule] only outside; if it goes to sleep it is inside
    exactly one section, which the resumed call leaves.  No call leaves a
    section it has not entered, except [IOCTL_ENTER_UMS]. *)
Theorem ioctl_rcu_discipline `{IO : IoctlNr} cmd arg w (Hrcu : w_rcu w = O) :
  match ums_dev_ioctl cmd arg w with
  | Ok _ w' => w_rcu w' = O ∧ ∃ l, w_blk w' = w_blk w ++ l ∧ Forall (eq O) l
  | Sleep w' => w_rcu w' = 1%nat ∧
      ∀ w1 cargs eargs a s, w_rcu w1 = 1%nat →
        (∀ r w2, resume_dqcontext cargs a s w1 = Ok r w2 → w_rcu w2 = O) ∧
        (∀ r w2, resume_dqevent eargs s w1 = Ok r w2 → w_rcu w2 = O)
  | Bug b => b = RcuUnbalanced → cmd = IOCTL_ENTER_UMS
  end.
Proof.
  pose proof (rcu_ioctl cmd arg w Hrcu) as H.
  destruct (ums_dev_ioctl cmd arg w) as [r w'|w'|b]; [done| |].
  - split; [done|]. intros w1 cargs eargs a s H1.
    pose proof (rcu_resume_dqcontext false cargs a s w1 H1) as Hc.
    pose proof (rcu_resume_dqevent false eargs s w1 H1) as He.
    split; intros r w2 E; rewrite E in *; by destruct_and?.
  - intros Hb%H. by apply bool_decide_eq_true in Hb.
Qed.

(** C38: A defect.  A scheduler that waits for a context or for an event does
    so inside the RCU read-side section its call has entered: the CPU is
    given up at a nesting one deeper than the caller's. *)
Theorem waits_inside_rcu_section w L cargs eargs a s c x t e
    (Hready : dq_ready w L cargs a s c [])
    (Hs : w_heap w !! s = Some (OSched x)) (Hunlocked : sc_lock x = false)
    (Hempty : L !! EventQ s = Some []) (Htask : w_tasks w !! w_cur w = Some t)
    (Hsignal : signal_pending (w_env w) = (false, e)) :
  ∃ w1 w2, ums_complist_dqcontext cargs w = Sleep w1 ∧ ums_sched_dqevent eargs w = Sleep w2 ∧
    w_blk w1 = w_blk w ++ [S (w_rcu w)] ∧ w_blk w2 = w_blk w ++ [S (w_rcu w)].
Proof.
  rewrite (dqcontext_prefix _ _ _ _ _ _ _ Hready).
  destruct Hready as [(v & d & _ & Hd & _ & Hlk) Ha Hl HL Hq _].
  rewrite (dqevent_prefix w d eargs Hd), Hlk.
  pose proof (dequeue_complist_empty_run (set_rcu (S (w_rcu w)) w) L a c t Ha Hl HL Hq Htask) as E1.
  pose proof (dequeue_event_empty_run (set_rcu (S (w_rcu w)) w) L s x t Hs Hunlocked HL Hempty Htask) as E2.
  kproj_in E1. kproj_in E2. rewrite Hsignal in E1, E2.
  eexists _, _. split; [by apply bind_sleep|]. split; [by apply bind_sleep|done].
Qed.
End props.

(** ** Witnesses *)

(** Scheduler 13 of the session can run worker 12. *)
Lemma session_exec_ready :
  exec_ready w_drained lists_drained (data_of w_drained) a_sched a_worker2 a_list 12
    (sched_of w_drained a_sched) (worker_of w_drained a_worker2) (complist_of w_drained a_list)
    [] [] (task_of w_drained 13) (task_of w_drained 12).
Proof.
  split; try compute_fact.
  - unfold dir_live. eexists. compute_fact.
  - decide_fact.
  - owned_fact.
  - decide_fact.
  - decide_fact.
  - eexists. compute_fact.
Qed.

(** Worker 12 of the session runs. *)
Lemma session_worker_at :
  worker_at w_running lists_drained (data_of w_running) a_worker2 a_sched a_list
    (worker_of w_running a_worker2) (sched_of w_running a_sched) (complist_of w_running a_list)
    [] [].
Proof. split; try compute_fact; [owned_fact|decide_fact]. Qed.

Lemma exec_switches_to_worker_witness :
  ∃ w', exec_ums_context 12 w_drained = Ok 0 w' ∧ ctx_idles w' (SchedCtx a_sched) ∧
    ctx_runs w' (WorkCtx a_worker2).
Proof.
  destruct (exec_switches_to_worker w_drained lists_drained (data_of w_drained) a_sched a_worker2
    a_list 12 (sched_of w_drained a_sched) (worker_of w_drained a_worker2)
    (complist_of w_drained a_list) [] [] (task_of w_drained 13) (task_of w_drained 12))
    as (w' & E & Hi & Hr & _).
  - apply session_exec_ready.
  - exists w'. split; [exact E|split; [exact Hi|exact Hr]].
Defined.

Lemma exec_yield_round_trip_witness :
  ∃ w1 w2, exec_ums_context 12 w_drained = Ok 0 w1 ∧
    ums_worker_yield 42 (set_cur 12 w1) = Ok 0 w2 ∧
    ctx_runs w2 (SchedCtx a_sched) ∧ ctx_idles w2 (WorkCtx a_worker2).
Proof.
  destruct (exec_yield_round_trip w_drained lists_drained (data_of w_drained) a_sched a_worker2
    a_list 12 (sched_of w_drained a_sched) (worker_of w_drained a_worker2)
    (complist_of w_drained a_list) [] [] (task_of w_drained 13) (task_of w_drained 12) 42
    (fresh (dom (w_heap w_drained))) []) as (w1 & w2 & E1 & E2 & Hr & Hi & _).
  - apply session_exec_ready.
  - compute_fact.
  - decide_fact.
  - exists w1, w2. split; [exact E1|split; [exact E2|split; [exact Hr|exact Hi]]].
Defined.

Lemma events_delivered_in_order_witness :
  ∃ w', dqevent_calls [good zero_event] w_sched = Ok [0] w' ∧
    w_out w' = w_out w_sched ++ [UEvent (mk_event SCHEDULER_STARTUP zero_params)].
Proof.
  destruct (events_delivered_in_order [good zero_event] w_sched lists_sched (data_of w_sched)
    a_sched (sched_of w_sched a_sched) [a_event] [] [mk_event SCHEDULER_STARTUP zero_params])
    as (w' & E & Ho & _); try compute_fact.
  - decide_fact.
  - constructor; [compute_fact|constructor].
  - constructor; [compute_fact|constructor].
  - exists w'. split; [exact E|exact Ho].
Defined.

Lemma event_copy_failure_restores_queue_witness :
  ∃ w', ums_sched_dqevent (bad zero_event) w_sched = Ok (- EACCES) w' ∧
    forest_ok (w_lm w') lists_sched.
Proof.
  destruct (event_copy_failure_restores_queue w_sched lists_sched (data_of w_sched) a_sched
    (sched_of w_sched a_sched) a_event zero_event [] (bad zero_event)) as (w' & E & HL & _);
    try compute_fact.
  - decide_fact.
  - discriminate.
  - exists w'. split; [exact E|exact HL].
Defined.

(** The session with an event nobody has queued yet. *)
Definition w_event : world := Eval vm_compute in after alloc_ums_event w_started.
Definition a_event2 : addr := Eval vm_compute in fresh (dom (w_heap w_started)).

Lemma sleeping_scheduler_gets_event_witness :
  ∃ w1 w2 w3, ums_sched_dqevent (good zero_event) w_event = Sleep w1 ∧
    enqueue_ums_sched_event a_sched a_event2 EVENT_ADD_TAIL (set_cur 12 (set_rcu 0 w1)) =
      Ok tt w2 ∧
    resume_dqevent (good zero_event) a_sched (set_cur 13 (set_rcu (w_rcu w1) w2)) = Ok 0 w3.
Proof.
  destruct (sleeping_scheduler_gets_event w_event lists_started (data_of w_event) a_sched
    (sched_of w_event a_sched) (task_of w_event 13) a_event2 zero_event [] (good zero_event) 12 0)
    as (w1 & w2 & w3 & E1 & _ & E2 & _ & E3 & _); try compute_fact.
  - decide_fact.
  - decide_fact.
  - eexists. compute_fact.
  - exists w1, w2, w3. split; [exact E1|split; [exact E2|exact E3]].
Defined.

Lemma session_worker_dirs :
  worker_dirs_ok w_running (worker_of w_running a_worker2) 8.
Proof.
  eexists 8%positive, 7%positive, [4; 2; 1]%positive, _, _.
  do 4 (split; [compute_fact|]). split; decide_fact.
Qed.

(** The directories for new workers and schedulers, in the worlds in which
    they are created. *)
Lemma session_workers_dir w :
  w = as_task 11 w_list ∨ w = faults [false; true] (as_task 11 w_list) →
  workers_dir_ok w (d_dirs (data_of w)).
Proof.
  intros [-> | ->]; eexists 4%positive, [2; 1]%positive, _, "/proc/ums/10/workers"%string;
    (split; [compute_fact|]); (split; [decide_fact|]); do 3 (split; [compute_fact|]); decide_fact.
Qed.
Lemma session_sched_dir w :
  w = as_task 13 w_worker2 ∨ w = faults [false; true] (as_task 11 w_list) ∨
    w = faults [false; false; false; false; false; true] (as_task 13 w_worker2) →
  sched_dir_ok w (d_dirs (data_of w)).
Proof.
  intros [-> |[-> | ->]]; eexists 3%positive, [2; 1]%positive;
    (split; [compute_fact|decide_fact]).
Qed.

Lemma worker_end_spec_witness :
  ∃ w1 w2, ums_worker_end w_running = Ok 0 w1 ∧ ctx_runs w1 (SchedCtx a_sched) ∧
    run_rcu_cb (CbWorker a_worker2) w1 = Ok tt w2 ∧ w_heap w2 !! a_worker2 = None.
Proof.
  pose proof (worker_end_spec w_running lists_drained (data_of w_running) a_worker2 a_sched a_list
    (worker_of w_running a_worker2) (sched_of w_running a_sched) (complist_of w_running a_list)
    [] [] (task_of w_running 13) (task_of w_running 12) 8 session_worker_at
    ltac:(compute_fact) ltac:(compute_fact) ltac:(decide_fact) ltac:(decide_fact)
    session_worker_dirs) as H.
  assert ((kmalloc (dom (w_heap w_running)) (w_env w_running)).1 =
    Some (fresh (dom (w_heap w_running)))) as E by compute_fact.
  destruct (kmalloc (dom (w_heap w_running)) (w_env w_running)) as [[e|] e1]; [|discriminate E].
  destruct H as (w1 & w2 & d1 & E1 & Hr & _ & _ & _ & _ & _ & _ & E2 & Hf & _).
  exists w1, w2. split; [exact E1|split; [exact Hr|split; [exact E2|exact Hf]]].
Defined.

Lemma enter_worker_spec_witness :
  ∃ r w', enter_ums_worker_mode (mk_enter_args 2 1) (as_task 11 w_list) = Ok r w' ∧
    w_rcu w' = O.
Proof.
  destruct (enter_worker_spec (as_task 11 w_list) {[ ClHead a_list := [] ]} (data_of w_list)
    (task_of w_list 11) (mk_enter_args 2 1) a_list (complist_of w_list a_list) [])
    as (r & w' & E & Hr & _); try compute_fact.
  - exact (session_workers_dir (as_task 11 w_list) (or_introl eq_refl)).
  - owned_fact.
  - decide_fact.
  - decide_fact.
  - decide_fact.
  - decide_fact.
  - exists r, w'. split; [exact E|exact Hr].
Defined.



Lemma strangers_get_esrch_witness :
  ums_worker_yield 0 w_list = Ok (- ESRCH) w_list ∧ exec_ums_context 99 w_list = Ok (- ESRCH) w_list ∧
  ums_complist_dqcontext (good (mk_dequeue_args 1 0)) w_list = Ok (- ESRCH) w_list ∧
  ums_complist_next_context (good (mk_next_args 99 0)) w_list = Ok (- ESRCH) w_list.
Proof.
  destruct (strangers_get_esrch w_list (data_of w_list) 0 (good zero_event) 99
    (good (mk_dequeue_args 1 0)) (good (mk_next_args 99 0))) as (H1 & H2 & H3).
  - compute_fact.
  - destruct H1 as [E1 _]; [compute_fact|]. destruct H2 as (_ & E2 & E3); [compute_fact|].
    destruct H3 as [_ E4]; [compute_fact|]. split; [exact E1|split; [exact E2|split]].
    + apply (E3 (mk_dequeue_args 1 0) a_list); [reflexivity|compute_fact].
    + apply (E4 (mk_next_args 99 0)); reflexivity.
Defined.

Lemma enter_worker_unknown_list_witness :
  match ums_worker_create (as_task 11 w_list) with
  | Ok (inr _) _ =>
      enter_ums_worker_mode (mk_enter_args 2 7) (as_task 11 w_list) = Bug UninitPtr
  | Ok (inl r) w' =>
      enter_ums_worker_mode (mk_enter_args 2 7) (as_task 11 w_list) = Ok r w' ∧ r < 0
  | _ => False
  end.
Proof.
  apply (enter_worker_unknown_list (as_task 11 w_list) (data_of w_list) (task_of w_list 11)
    (mk_enter_args 2 7)); try compute_fact.
  - exact (session_workers_dir (as_task 11 w_list) (or_introl eq_refl)).
  - owned_fact.
  - decide_fact.
Defined.

Lemma enter_scheduler_unknown_list_witness :
  match ums_scheduler_create (as_task 13 w_worker2) with
  | Ok (inr _) _ =>
      enter_ums_scheduler_mode (mk_enter_args 1 7) (as_task 13 w_worker2) = Bug UninitPtr
  | Ok (inl r) w' =>
      enter_ums_scheduler_mode (mk_enter_args 1 7) (as_task 13 w_worker2) = Ok r w' ∧ r < 0
  | _ => False
  end.
Proof.
  apply (enter_scheduler_unknown_list (as_task 13 w_worker2) lists_worker2 (data_of w_worker2)
    (task_of w_worker2 13) (mk_enter_args 1 7)); try compute_fact.
  - exact (session_sched_dir (as_task 13 w_worker2) (or_introl eq_refl)).
  - owned_fact.
  - decide_fact.
  - decide_fact.
Defined.

(** The session just before a scheduler is created without memory for its
    startup event, and just after its creation. *)
Definition w_low : world := faults [false; false; false; false; false; true] (as_task 13 w_worker2).
Definition w_low_created : world := Eval vm_compute in after ums_scheduler_create w_low.

Lemma enter_scheduler_no_event_memory_witness :
  enter_ums_scheduler_mode (mk_enter_args 1 1) w_low = Bug RcuUnbalanced.
Proof.
  apply (enter_scheduler_no_event_memory w_low lists_worker2 (data_of w_low) (task_of w_low 13)
    (mk_enter_args 1 1) a_list (complist_of w_low a_list) a_sched w_low_created []);
    try compute_fact.
  - exact (session_sched_dir w_low (or_intror (or_intror eq_refl))).
  - owned_fact.
  - decide_fact.
  - decide_fact.
  - decide_fact.
Defined.

(** The session in which only the structure of a worker or scheduler can be
    allocated. *)
Definition w_short : world := faults [false; true] (as_task 11 w_list).
Definition w_short1 : world := Eval vm_compute in after ums_worker_create w_short.
Definition w_short2 : world := Eval vm_compute in after ums_scheduler_create w_short.

Lemma failed_creation_leaks_task_reference_witness :
  t_usage <$> w_tasks w_short1 !! 11 = Some 2 ∧ t_usage <$> w_tasks w_short2 !! 11 = Some 2.
Proof.
  destruct (failed_creation_leaks_task_reference w_short {[ ClHead a_list := [] ]}
    (data_of w_short) (task_of w_short 11) 5 [true] (- ENOMEM) w_short1 (- ENOMEM) w_short2)
    as (H1 & H2 & _); try compute_fact.
  - exact (session_workers_dir w_short (or_intror eq_refl)).
  - exact (session_sched_dir w_short (or_intror (or_introl eq_refl))).
  - owned_fact.
  - decide_fact.
  - decide_fact.
  - split; [exact H1|exact H2].
Defined.

Definition session_arg : ioctl_arg :=
  mk_arg 7 (good 0) (good (mk_enter_args 0 0)) (good zero_event) (good (mk_dequeue_args 0 0))
    (good (mk_next_args 0 0)).

Lemma ioctl_rcu_discipline_witness :
  match ums_dev_ioctl IOCTL_UMS_YIELD
    session_arg w_running with
  | Ok _ w' => w_rcu w' = O
  | _ => True
  end.
Proof.
  pose proof (ioctl_rcu_discipline IOCTL_UMS_YIELD
    session_arg w_running eq_refl) as H.
  destruct (ums_dev_ioctl _ _ _) as [r w'|w'|b]; [|exact I|exact I].
  destruct H as [Hr _]. exact Hr.
Defined.

Lemma waits_inside_rcu_section_witness :
  ∃ w1, ums_sched_dqevent (good zero_event) w_drained = Sleep w1 ∧
    w_blk w1 = w_blk w_drained ++ [1%nat].
Proof.
  destruct (waits_inside_rcu_section w_drained lists_drained (good (mk_dequeue_args 1 0))
    (good zero_event) a_list a_sched (complist_of w_drained a_list) (sched_of w_drained a_sched)
    (task_of w_drained 13) []) as (w1 & w2 & _ & E & _ & Hb); try compute_fact.
  - split; try compute_fact.
    + eexists _, (data_of w_drained). split; [done|]. do 2 (split; [compute_fact|]). compute_fact.
    + decide_fact.
    + intros j Hj. by apply not_elem_of_nil in Hj.
  - exists w2. split; [exact E|exact Hb].
Defined.
