(* ===== verification/PropRound.v ===== *)
(** * A scheduling round

    [exec_ums_context] and [ums_worker_yield] composed: a scheduler that holds
    a batch of dequeued workers runs them one after the other, and each yields.
    The relation [round] is the sequence of calls; the theorem is by induction
    over the batch, with an invariant ([round_ready]) that says what the
    workers still to be run need. *)
From S2P Require Import Prelude ListHead ListSpec Kernel Uapi State Prims Context Proc.
From S2P Require Import Complist Scheduler Worker Device Rcu Locks System KernelInst Scenario PropThreads.
From stdpp Require Import prelude gmap strings.

Local Open Scope Z_scope.

(** ** procfs entries below others *)

Lemma pde_below_mono n n' (e e' : gmap addr pde) a b :
  e ⊆ e' → (n ≤ n')%nat → pde_below n e a b = true → pde_below n' e' a b = true.
Proof.
  intros He. revert n' b. induction n as [|n IH]; intros n' b Hn; cbn.
  - case_decide; [|done]. intros _. destruct n'; cbn; by rewrite decide_True.
  - destruct n' as [|n']; [lia|]. cbn. case_decide; [done|].
    destruct (e !! b) as [p|] eqn:E; [|done]. rewrite (lookup_weaken _ _ _ _ E He).
    destruct (pde_parent p); [|done]. apply IH. lia.
Qed.

(** ** The calls of a round *)

Inductive round `{KO : KernelOps, LO : !ListOps lnode} (sched : pid_t) :
    world → list (pid_t * Z) → world → Prop :=
  | round_nil w : round sched w [] w
  | round_cons w pid value w1 w2 l w' :
      exec_ums_context pid (set_cur sched w) = Ok 0 w1 →
      ums_worker_yield value (set_cur pid w1) = Ok 0 w2 →
      round sched w2 l w' → round sched w ((pid, value) :: l) w'.

(** Memory for [n] allocations. *)
Fixpoint plenty `{KernelOps} (n : nat) (e : kenv) : Prop :=
  match n with
  | O => True
  | S n => ∀ used, ∃ a e', kmalloc used e = (Some a, e') ∧ plenty n e'
  end.

(** A worker of the batch: the pid it is run by, its address and content. *)
Record member := mk_member { m_pid : pid_t; m_addr : addr; m_worker : ums_worker }.
Definition m_task (m : member) : pid_t := ctx_task (wk_context (m_worker m)).
Definition m_link (m : member) : cptr addr := wd_worker_link (wk_dirs (m_worker m)).

Section round.
Context `{KO : KernelOps, LO : !ListOps lnode, LL : !ListLaws lnode, KL : !KernelLaws}.
Implicit Types (w : world) (x : ums_scheduler) (y : ums_worker) (c : ums_complist)
  (L : forest lnode) (m : member) (ms : list member).

(** Removing the entry [d] leaves [d'] alone. *)
Definition apart (p : procfs) (d d' : cptr addr) : Prop :=
  match d, d' with
  | Ptr a, Ptr b => pde_below (size (proc_ents p)) (proc_ents p) a b = false
  | _, _ => True
  end.

Lemma proc_removed_sub d p : proc_ents (proc_removed d p) ⊆ proc_ents p.
Proof.
  destruct d as [| |a]; [done..|]. apply map_subseteq_spec. intros b e. cbn.
  rewrite proc_remove_spec. by destruct (pde_below _ _ _ _).
Qed.
Lemma removed_live d d' p : apart p d d' → dir_live p d' → dir_live (proc_removed d p) d'.
Proof.
  destruct d as [| |a], d' as [| |b]; try done. cbn. rewrite proc_remove_spec. by intros ->.
Qed.
Lemma removed_apart d0 d d' p : apart p d d' → apart (proc_removed d0 p) d d'.
Proof.
  destruct d as [| |a], d' as [| |b]; try done. unfold apart. intros E.
  apply not_true_is_false. intros Ht. pose proof (proc_removed_sub d0 p) as Hs.
  apply (pde_below_mono _ (size (proc_ents p)) _ (proc_ents p)) in Ht; [congruence|done|].
  by apply map_subseteq_size.
Qed.

(** What a worker needs to be run by the scheduler [x] of the list [c]. *)
Record member_ready w L (d : ums_data) (a : addr) x c m : Prop := {
  mr_lookup : rhashtable_lookup_fast (d_workers d) (m_pid m) = Some (m_addr m);
  mr_heap : w_heap w !! m_addr m = Some (OWorker (m_worker m));
  mr_list : wk_complist (m_worker m) = Ptr a;
  mr_link : dir_live (w_proc w) (m_link m);
  mr_distinct : ctx_task (sc_context x) ≠ m_task m;
  mr_task : is_Some (w_tasks w !! m_task m);
  mr_wait : m_task m ∉ cl_wait_q c;
  mr_free : free_node L (wnode (m_addr m));
}.

(** The scheduler [s] of the task [sp] can run the workers [ms], whose list is
    [a]: [q] are its events, [l] the contexts in the list. *)
Record round_ready w L (d : ums_data) (s a : addr) (sp : pid_t) x c (q l : list lnode) ms : Prop := {
  rr_data : w_data w = Some d;
  rr_sched : rhashtable_lookup_fast (d_schedulers d) sp = Some s;
  rr_hs : w_heap w !! s = Some (OSched x);
  rr_ha : w_heap w !! a = Some (OComplist c);
  rr_task : is_Some (w_tasks w !! ctx_task (sc_context x));
  rr_cache : g_event_cache (w_mod w) = true;
  rr_sound : sound ∅ w;
  rr_lists : forest_ok (w_lm w) L;
  rr_q : L !! EventQ s = Some q;
  rr_l : L !! ClHead a = Some l;
  rr_members : Forall (member_ready w L d a x c) ms;
  rr_addrs : NoDup (m_addr <$> ms);
  rr_tasks : NoDup (m_task <$> ms);
  rr_links i j m m' : ms !! i = Some m → ms !! j = Some m' → i ≠ j →
    apart (w_proc w) (m_link m) (m_link m');
}.

Lemma round_exec_ready w L d s a sp x c q l m ms tx ty :
  round_ready w L d s a sp x c q l (m :: ms) →
  w_tasks w !! ctx_task (sc_context x) = Some tx → w_tasks w !! m_task m = Some ty →
  exec_ready (set_cur sp w) L d s (m_addr m) a (m_pid m) x (m_worker m) c q l tx ty.
Proof.
  intros [] Htx Hty. apply Forall_cons in rr_members0 as [[] _]. destruct rr_sound0 as [Hlk Hex].
  split; try done.
  - destruct (sc_lock x) eqn:E; [|done]. pose proof (Hlk s _ rr_hs0 E). set_solver.
  - destruct (cl_lock c) eqn:E; [|done]. pose proof (Hlk a _ rr_ha0 E). set_solver.
  - intros n Hn. apply Hex in Hn as (o & Ho & _). by exists o.
  - apply Hex. cbn. eexists. split; [exact mr_heap0|]. cbn. apply list_elem_of_here.
Qed.

(** The scheduler, the list and a worker after a worker was run and yielded. *)
Definition back_sched (k : addr) x : ums_scheduler :=
  sc_with_context (switched_to (WorkCtx k) (sc_context (executed_sched x)))
    (sc_with_wait_q [] (executed_sched x)).
Definition back_worker (s : addr) y : ums_worker :=
  wk_with_context (switched_from (wk_context (executed_worker s y))) (executed_worker s y).

(** Lists after the yield of [k]. *)
Definition round_lists (s a k e : addr) (q l : list lnode) L : forest lnode :=
  <[ClHead a := l ++ [wnode k]]> (delete (wnode k) (<[EventQ s := q ++ [EventList e]]> L)).

(** What one run changes: [w2] is the world after it, [e] the new event. *)
Record ran (sp : pid_t) (s a : addr) x y c m value w w2 (e : addr) : Prop := {
  ran_calls : ∃ w1, exec_ums_context (m_pid m) (set_cur sp w) = Ok 0 w1 ∧
    ums_worker_yield value (set_cur (m_pid m) w1) = Ok 0 w2;
  ran_fresh : w_heap w !! e = None;
  ran_event : w_heap w2 !! e = Some (OEvent (mk_event THREAD_YIELD (yield_params (m_pid m) value)));
  ran_sched : w_heap w2 !! s = Some (OSched (back_sched (m_addr m) x));
  ran_worker : w_heap w2 !! m_addr m = Some (OWorker (back_worker s y));
  ran_list : w_heap w2 !! a = Some (OComplist (cl_with_wait_q [] c));
  ran_frame z : z ≠ m_addr m → z ≠ s → z ≠ a → z ≠ e → w_heap w2 !! z = w_heap w !! z;
  ran_stask : ∃ t, w_tasks w2 !! ctx_task (sc_context x) = Some t ∧ t_state t = TASK_RUNNING;
  ran_wtask : ∃ t, w_tasks w2 !! m_task m = Some t ∧ t_state t = TASK_INTERRUPTIBLE;
  ran_tasks p : p ≠ ctx_task (sc_context x) → p ≠ m_task m →
    is_Some (w_tasks w !! p) → is_Some (w_tasks w2 !! p) ∧
    (p ∉ sc_wait_q x → p ∉ cl_wait_q c → w_tasks w2 !! p = w_tasks w !! p);
  ran_same : w_data w2 = w_data w ∧ w_mod w2 = w_mod w ∧ w_rcu w2 = w_rcu w ∧
    w_proc w2 = proc_removed (m_link m) (w_proc w);
}.

(** The other tasks: they are woken up if they wait. *)
Lemma yield_tasks_other y x c ty tx (ts ts' : gmap pid_t task) p :
  p ≠ ctx_task (wk_context y) → p ≠ ctx_task (sc_context x) → is_Some (ts' !! p) → ts !! p = ts' !! p →
  is_Some (yield_tasks y x c ty tx ts !! p) ∧
  (p ∉ sc_wait_q x → p ∉ cl_wait_q c → yield_tasks y x c ty tx ts !! p = ts' !! p).
Proof.
  intros Hy Hx [t Ht] E. unfold yield_tasks, switch_tasks.
  rewrite wake_tasks_lookup, !lookup_insert_ne, wake_tasks_lookup, E, Ht by done. cbn.
  split; [by eexists|]. intros Hq Hc. by rewrite !decide_False.
Qed.

Lemma round_step w L d s a sp x c q l m ms value n :
  round_ready w L d s a sp x c q l (m :: ms) → plenty (S n) (w_env w) →
  ∃ w2 e, ran sp s a x (m_worker m) c m value w w2 e ∧
    forest_ok (w_lm w2) (round_lists s a (m_addr m) e q l L) ∧ plenty n (w_env w2).
Proof.
  intros HR Hmem. pose proof HR as [_ _ Hs Ha [tx Htx] _ _ _ _ _ HM _ _ _].
  apply Forall_cons in HM as [[_ Hk _ _ Hne [ty Hty] Hwq Hfree] _].
  pose proof (round_exec_ready _ _ _ _ _ _ _ _ _ _ _ _ _ _ HR Htx Hty) as Her.
  pose proof (exec_ready_run _ _ _ _ _ _ _ _ _ _ _ _ _ _ Her) as E.
  pose proof (exec_worker_at _ _ _ _ _ _ _ _ _ _ _ _ _ _ Her) as Hat.
  pose proof (er_live _ _ _ _ _ _ _ _ _ _ _ _ _ _ Her) as Hlive.
  set (k := m_addr m) in *. set (y := m_worker m) in *.
  pose proof (exec_world_heap (set_cur sp w) s k x y tx ty Hs Hk) as Eh.
  set (w1 := exec_world s k x y tx ty (set_cur sp w)) in *.
  destruct (Hmem (dom (w_heap w1))) as (e & e1 & Ekm & Hmem').
  apply kmalloc_fresh in Ekm as Hf. apply not_elem_of_dom in Hf.
  destruct (yield_run _ L d k s a _ _ c q l e e1 value
    (mk_task TASK_RUNNING (t_usage ty)) (mk_task TASK_INTERRUPTIBLE (t_usage tx)) Hat)
    as (m' & HL & Ey); [done|done|done|done|..].
  { apply lookup_insert_eq. }
  { unfold w1, exec_world, switch_tasks. kproj. simpl. rewrite lookup_insert_ne by done.
    apply lookup_insert_eq. }
  destruct Hat as [_ _ Hk1 _ Hs1 _ _ Ha1 _ _ _ _ _ _].
  destruct (yield_heap_lookups e k s a (mk_event THREAD_YIELD (yield_params (m_pid m) value)) _ _ _
    (w_heap w1) Hk1 Hs1 Ha1 Hf) as (Yk & Ys & Ya & Ye & Yz).
  destruct (yield_tasks_lookups (executed_worker s y) (executed_sched x) c
    (mk_task TASK_RUNNING (t_usage ty)) (mk_task TASK_INTERRUPTIBLE (t_usage tx))
    (w_tasks w1)) as [Ty Tx]; [done..|].
  match type of Ey with _ = Ok _ ?w2 => exists w2, e end. split; [|split; [exact HL|exact Hmem']].
  assert (w_heap w !! e = None) as He.
  { change (w_heap (set_cur sp w) !! e = None). rewrite Eh in Hf.
    do 2 apply lookup_insert_None in Hf as [Hf _]. exact Hf. }
  split.
  - eexists. split; [exact E|exact Ey].
  - exact He.
  - exact Ye.
  - exact Ys.
  - exact Yk.
  - exact Ya.
  - intros z ????. kproj. rewrite Yz by done. rewrite Eh. by rewrite !lookup_insert_ne.
  - eexists. split; [exact Tx|done].
  - eexists. split; [exact Ty|done].
  - intros p Hp1 Hp2 Hp. kproj. 
    apply (yield_tasks_other (executed_worker s y) (executed_sched x) c _ _ _ (w_tasks w)); [done..|].
    unfold w1, exec_world, switch_tasks. kproj. by rewrite !lookup_insert_ne.
  - done.
Qed.

Lemma ran_sound sp s a x y c m value w w2 e :
  ran sp s a x y c m value w w2 e → sound ∅ w → sound ∅ w2.
Proof.
  intros [(w1 & E1 & E2) _ _ _ _ _ _ _ _ _ _] Hw.
  assert (sound ∅ (set_cur sp w)) as H1 by (by eapply sound_ext).
  pose proof (held_ok _ _ _ _ _ _ (held_exec _) H1 E1) as H2.
  assert (sound ∅ (set_cur (m_pid m) w1)) as H3 by (by eapply sound_ext).
  exact (held_ok _ _ _ _ _ _ (held_yield _) H3 E2).
Qed.

(** The rest of the batch is as before. *)
Lemma round_next w L d s a sp x c q l m ms value w2 e :
  round_ready w L d s a sp x c q l (m :: ms) →
  ran sp s a x (m_worker m) c m value w w2 e →
  forest_ok (w_lm w2) (round_lists s a (m_addr m) e q l L) →
  round_ready w2 (round_lists s a (m_addr m) e q l L) d s a sp (back_sched (m_addr m) x)
    (cl_with_wait_q [] c) (q ++ [EventList e]) (l ++ [wnode (m_addr m)]) ms.
Proof.
  intros [Hd Hsp Hs Ha Htx Hg Hso HL Hq Hl HM Hna Hnt Hlk] Hran HL2.
  pose proof (ran_sound _ _ _ _ _ _ _ _ _ _ _ Hran Hso) as Hso2.
  destruct Hran as [_ Hfr _ Es _ Ea Hfrm [t [Et _]] _ Htk (Ed & Em & _ & Ep)].
  apply Forall_cons in HM as [Hm HM]. cbn in Hna, Hnt.
  apply NoDup_cons in Hna as [Hka Hna]. apply NoDup_cons in Hnt as [Hkt Hnt].
  unfold round_lists in *. split; try done; try congruence.
  - rewrite lookup_insert_ne, lookup_delete_ne by done. apply lookup_insert_eq.
  - apply lookup_insert_eq.
  - rewrite Forall_forall in HM |- *. intros m' Hin. destruct (HM m' Hin) as [Hlu Hh Hcl Hlive Hne Hts _ Hfree].
    assert (m_addr m' ≠ m_addr m) as Hk by (intros E; apply Hka; rewrite <- E; by apply list_elem_of_fmap_2).
    assert (m_task m' ≠ m_task m) as Ht by (intros E; apply Hkt; rewrite <- E; by apply list_elem_of_fmap_2).
    split; try done.
    + rewrite Hfrm; [done|done|congruence..].
    + rewrite Ep. apply removed_live; [|done]. apply list_elem_of_lookup in Hin as [j Hj].
      by apply (Hlk 0%nat (S j)).
    + by apply Htk.
    + apply not_elem_of_nil.
    + assert (wnode (m_addr m') ≠ wnode (m_addr m)) by (intros [= E]; done).
      apply (free_add_other (delete _ _)); [|by rewrite lookup_delete_ne, lookup_insert_ne|done|done].
      apply free_delete. by apply free_add_other.
  - intros i j m1 m2 H1 H2 Hij. rewrite Ep. apply removed_apart.
    apply (Hlk (S i) (S j)); [done|done|congruence].
Qed.

(** ** The world after a round *)

(** [es] are the new events; [v] are the values that were yielded. *)
Record round_done w w' L' (s a : addr) x c (q l : list lnode) ms (vs : list Z) (es : list addr) : Prop := {
  rd_lists : forest_ok (w_lm w') L';
  rd_q : L' !! EventQ s = Some (q ++ (EventList <$> es));
  rd_l : L' !! ClHead a = Some (l ++ (wnode ∘ m_addr <$> ms));
  rd_events : Forall2 (λ e mv, w_heap w' !! e =
    Some (OEvent (mk_event THREAD_YIELD (yield_params (m_pid mv.1) mv.2)))) es (zip ms vs);
  rd_idle : Forall (λ m, ctx_idles w' (WorkCtx (m_addr m))) ms;
  rd_runs : ctx_runs w (SchedCtx s) ∨ ms ≠ [] → ctx_runs w' (SchedCtx s);
  rd_heap z : is_Some (w_heap w !! z) → z ∉ m_addr <$> ms → z ≠ s → z ≠ a →
    w_heap w' !! z = w_heap w !! z;
  rd_tasks p : is_Some (w_tasks w !! p) → p ∉ m_task <$> ms → p ≠ ctx_task (sc_context x) →
    p ∉ sc_wait_q x → p ∉ cl_wait_q c → w_tasks w' !! p = w_tasks w !! p;
  rd_rcu : w_rcu w' = w_rcu w;
}.

Lemma ran_runs sp s a x y c m value w w2 e :
  ran sp s a x y c m value w w2 e → ctx_runs w2 (SchedCtx s).
Proof.
  intros [_ _ _ Es _ _ _ (t & Et & St) _ _ _]. eexists _, t. cbn [ctx_at]. by rewrite Es.
Qed.

(** A first run followed by a round. *)
Lemma round_done_cons sp w w2 w' L' s a x c q l m ms v vs e es :
  ran sp s a x (m_worker m) c m v w w2 e →
  w_heap w !! s = Some (OSched x) → w_heap w !! a = Some (OComplist c) →
  w_heap w !! m_addr m = Some (OWorker (m_worker m)) → ctx_task (sc_context x) ≠ m_task m →
  NoDup (m_addr <$> m :: ms) → NoDup (m_task <$> m :: ms) →
  Forall (λ m', is_Some (w_heap w !! m_addr m')) ms →
  round_done w2 w' L' s a (back_sched (m_addr m) x) (cl_with_wait_q [] c) (q ++ [EventList e])
    (l ++ [wnode (m_addr m)]) ms vs es →
  round_done w w' L' s a x c q l (m :: ms) (v :: vs) (e :: es).
Proof.
  intros Hran Hs Ha Hk Hne Hna Hnt HF [HL Eq El Hev Hid Hrun Hh Ht Hr].
  pose proof (ran_runs _ _ _ _ _ _ _ _ _ _ _ Hran) as Hruns.
  destruct Hran as [_ Hfr Ev Es Ek Ea Hfrm _ (tw & Etw & Stw) Htk (_ & _ & Er & _)].
  cbn in Hna, Hnt. apply NoDup_cons in Hna as [Hka Hna]. apply NoDup_cons in Hnt as [Hkt Hnt].
  assert (e ≠ s ∧ e ≠ a ∧ m_addr m ≠ s ∧ m_addr m ≠ a) as (? & ? & ? & ?) by (split_and!; congruence).
  split.
  - done.
  - rewrite Eq. f_equal. by rewrite <- app_assoc.
  - rewrite El. f_equal. by rewrite <- app_assoc.
  - cbn. constructor; [|done]. cbn. rewrite Hh; [done|by eexists| |done|done].
    intros (m' & -> & Hm')%list_elem_of_fmap. rewrite Forall_forall in HF.
    destruct (HF m' Hm'). congruence.
  - constructor; [|done]. exists (wk_context (back_worker s (m_worker m))), tw. cbn [ctx_at].
    rewrite Hh by (try done; by eexists). rewrite Ek. split; [done|]. split; [done|].
    split; [|done]. change (w_tasks w' !! m_task m = Some tw).
    rewrite Ht; [done|by eexists|done|done|apply not_elem_of_nil..].
  - intros _. apply Hrun. by left.
  - intros z Hz Hzm ??. cbn in Hzm. apply not_elem_of_cons in Hzm as [??].
    assert (z ≠ e) by (intros ->; destruct Hz; congruence).
    rewrite Hh; [by apply Hfrm|rewrite Hfrm; done|done..].
  - intros p Hp Hpm ???. cbn in Hpm. apply not_elem_of_cons in Hpm as [??].
    destruct (Htk p) as [Hp2 E2]; [done..|].
    rewrite Ht; [by apply E2|done|done|done|apply not_elem_of_nil..].
  - congruence.
Qed.

(** C5: A scheduling round.  A scheduler holds a batch of dequeued workers and
    runs them one after the other with [exec_ums_context], and each worker
    yields a value.  With memory for the events every call succeeds, in this
    order and without a fault; afterwards the scheduler runs and all workers
    are idle; they are in the completion list again, in the order they were
    run, behind what was there; and the scheduler's queue has one new event per
    worker, in the same order, with its pid and value.  No other object of the
    module has changed. *)
Theorem round_robin w L d s a sp x c q l ms vs
    (Hready : round_ready w L d s a sp x c q l ms) (Hvalues : length vs = length ms)
    (Hmem : plenty (length ms) (w_env w)) :
  ∃ w' L' es, round sp w (zip (m_pid <$> ms) vs) w' ∧
    round_done w w' L' s a x c q l ms vs es.
Proof.
  revert w L x c q l vs Hready Hvalues Hmem.
  induction ms as [|m ms IH]; intros w L x c q l vs HR Hv Hm.
  - destruct vs; [|done]. exists w, L, []. split; [constructor|]. destruct HR.
    split; try done; rewrite ?app_nil_r; try done; by intros [?|?].
  - destruct vs as [|v vs]; [done|]. cbn in Hv.
    destruct (round_step _ _ _ _ _ _ _ _ _ _ _ _ v _ HR Hm) as (w2 & e & Hran & HL & Hm2).
    pose proof (round_next _ _ _ _ _ _ _ _ _ _ _ _ _ _ _ HR Hran HL) as HR2.
    destruct (IH _ _ _ _ _ _ vs HR2) as (w' & L' & es & Hround & Hdone); [lia|done|].
    exists w', L', (e :: es). split.
    + destruct (ran_calls _ _ _ _ _ _ _ _ _ _ _ Hran) as (w1 & E1 & E2). by econstructor.
    + destruct HR as [_ _ Hs Ha _ _ _ _ _ _ HM Hna Hnt _]. apply Forall_cons in HM as [Hm0 HM].
      eapply round_done_cons; try done; [apply Hm0..|].
      eapply Forall_impl; [exact HM|]. intros m' [_ Hh _ _ _ _ _ _]. by eexists.
Qed.
End round.

(** ** Witness *)

Lemma sound_alt `{KernelOps} (w : world) :
  map_Forall (λ a o, obj_locked o = false ∧ Forall (λ n, is_Some (w_lm w !! n)) (obj_nodes a o))
    (w_heap w) →
  map_Forall (λ n _, from_option (λ o, bool_decide (n ∈ obj_nodes (node_addr n) o)) false
    (w_heap w !! node_addr n) = true) (w_lm w) →
  sound ∅ w.
Proof.
  intros Hh Hl. split.
  - intros a o Ho Hlk. destruct (Hh a o Ho). congruence.
  - intros n. split.
    + intros [c Hc]. specialize (Hl n c Hc). cbn in Hl.
      destruct (w_heap w !! node_addr n) as [o|]; [|done]. exists o. split; [done|].
      by apply bool_decide_eq_true in Hl.
    + intros (o & Ho & Hn). destruct (Hh _ _ Ho) as [_ HF]. rewrite Forall_forall in HF. by apply HF.
Qed.
Lemma inst_plenty n : plenty n ([] : kenv).
Proof. induction n as [|n IH]; [done|]. intros used. by exists (fresh used), []. Qed.

(** The scheduler of the session holds both workers. *)
Definition session_batch : list member :=
  [mk_member 11 a_worker1 (worker_of w_drained a_worker1);
   mk_member 12 a_worker2 (worker_of w_drained a_worker2)].

Lemma session_round_ready :
  round_ready w_drained lists_drained (data_of w_drained) a_sched a_list 13
    (sched_of w_drained a_sched) (complist_of w_drained a_list) [] [] session_batch.
Proof.
  split; try compute_fact.
  - eexists. compute_fact.
  - apply sound_alt; decide_fact.
  - decide_fact.
  - constructor; [|constructor; [|constructor]]; (split; try compute_fact);
      first [decide_fact | unfold dir_live; eexists; compute_fact].
  - decide_fact.
  - decide_fact.
  - intros i j m m' Hi Hj Hne.
    destruct i as [|[|i]]; [| |done]; destruct j as [|[|j]]; try done;
      injection Hi as <-; injection Hj as <-; vm_compute; reflexivity.
Qed.

Lemma round_robin_witness :
  ∃ w' (L' : forest lnode) e1 e2, round 13 w_drained [(11, 70); (12, 71)] w' ∧
    L' !! ClHead a_list = Some [wnode a_worker1; wnode a_worker2] ∧
    L' !! EventQ a_sched = Some [EventList e1; EventList e2] ∧ ctx_runs w' (SchedCtx a_sched).
Proof.
  destruct (round_robin w_drained lists_drained (data_of w_drained) a_sched a_list 13
    (sched_of w_drained a_sched) (complist_of w_drained a_list) [] [] session_batch [70; 71]
    session_round_ready eq_refl (inst_plenty 2)) as (w' & L' & es & Hr & Hd).
  destruct Hd as [_ Eq El Hev _ Hrun _ _ _].
  destruct es as [|e1 [|e2 [|e3 es]]]; try (apply Forall2_length in Hev; discriminate Hev).
  exists w', L', e1, e2. split; [exact Hr|]. split; [exact El|]. split; [exact Eq|].
  apply Hrun. right. discriminate.
Defined.
