(* ===== verification/PropDevice.v ===== *)
(** * Properties of the device and of procfs

    The theorems about [src/src/module/src/{device,ums_mod}.c] and
    [src/src/module/src/proc/], each with a witness that applies it to a world
    of the session of [Scenario]. *)
From S2P Require Import Prelude ListHead ListSpec Kernel Uapi State Prims Context Proc.
From S2P Require Import Complist Scheduler Worker Device KernelInst Scenario.
From stdpp Require Import prelude gmap strings pretty.

Local Open Scope Z_scope.

Section props.
Context `{KO : KernelOps, LO : !ListOps lnode, LL : !ListLaws lnode, KL : !KernelLaws,
  IO : IoctlNr}.
Implicit Types (w : world).

(** ** The device *)

(** Dispatch of ioctl calls.  The nine command numbers of the interface
    are pairwise different, each runs its own handler, and any other number
    gets -ENOTSUPP without an effect. *)
Theorem ioctl_dispatch arg :
  NoDup ioctl_commands ∧ length ioctl_commands = length (ioctl_handlers arg) ∧
  (∀ i cmd, ioctl_commands !! i = Some cmd →
     ioctl_handlers arg !! i = Some (ums_dev_ioctl cmd arg)) ∧
  (∀ cmd w, cmd ∉ ioctl_commands → ums_dev_ioctl cmd arg w = Ok (- ENOTSUPP) w).
Proof.
  pose proof ioctl_commands_nodup as Hnd. split_and!; [done|done| |].
  - apply ioctl_nth.
  - intros cmd w Hn. rewrite ioctl_dispatch_run.
    destruct (list_find _ _) as [[j c]|] eqn:Ef; [|done].
    apply list_find_Some in Ef as (Hj & <- & _). by apply list_elem_of_lookup_2 in Hj.
Qed.

(** C32: Loading and unloading.  Loading the module registers everything, or
    fails with nothing registered and procfs as it was; unloading a loaded
    module without pending callbacks removes the procfs directory and leaves
    nothing registered. *)
Theorem module_load_unload w
    (Hfresh : g_registered (w_mod w) = false) (Hcbs : w_cbs w = []) :
  ∃ r w1, ums_init w = Ok r w1 ∧
    ((r < 0 ∧ g_event_cache (w_mod w1) = false ∧ g_registered (w_mod w1) = false ∧
      proc_ents (w_proc w1) = proc_ents (w_proc w)) ∨
     (r = 0 ∧ g_event_cache (w_mod w1) = true ∧ g_registered (w_mod w1) = true ∧
      ∃ b w2, base_ready w1 b ∧ ums_exit w1 = Ok tt w2 ∧ g_event_cache (w_mod w2) = false ∧
        g_registered (w_mod w2) = false ∧ proc_ents (w_proc w2) !! b = None)).
Proof.
  destruct (ums_init_run w Hfresh) as (r & w1 & E & Hc & [(-> & H1 & H2 & b & Hb)|Hf]);
    eexists _, w1; (split; [exact E|]); [right|left; exact Hf].
  split_and!; [done..|]. destruct Hb as (Hg & Hl & Hp). rewrite Hcbs in Hc.
  eexists b, _. split; [done|]. split.
  - unfold ums_exit, rcu_barrier, unregister_ums_device, set_registered, ums_caches_destroy.
    unfold ums_scheduling_cache_destroy, set_event_cache, ums_proc_destroy. kred.
    rewrite Hc. cbn [run_rcu_cbs]. kred. cbn [g_proc_base_dir]. rewrite Hg.
    apply (remove_path_run _ b []). exact Hp.
  - kproj. split; [done|]. split; [done|]. rewrite proc_remove_spec. by rewrite pde_below_self.
Qed.

(** An instance that holds no object is released up to its directories. *)
Lemma release_empty_run w d :
  w_data w = Some d → rht_objs (d_workers d) = ∅ → rht_objs (d_schedulers d) = ∅ →
  idr_ents (d_comp_lists d) = ∅ →
  release_objects w = Ok tt (set_data (Some (d_with_comp_lists idr_init d)) w).
Proof.
  intros Hd Hw Hs Hi. unfold release_objects.
  assert (∀ t, rht_objs t = ∅ → rhashtable_seq t = []) as Hseq.
  { intros t Ht. destruct (rhashtable_seq t) as [|a l] eqn:E; [done|].
    destruct (proj1 (rhashtable_seq_spec t a)) as [k Hk]; [rewrite E; apply list_elem_of_here|].
    rewrite Ht in Hk. set_solver. }
  krun (get_data_run w d Hd). rewrite (Hseq _ Hw). krun (eq_refl : free_each _ [] w = Ok _ _).
  krun (get_data_run w d Hd). rewrite (Hseq _ Hs). krun (eq_refl : free_each _ [] w = Ok _ _).
  krun (eq_refl : rcu_read_lock w = Ok _ _). krun (get_data_run (set_rcu (S (w_rcu w)) w) d Hd).
  assert (idr_seq (d_comp_lists d) = []) as ->.
  { apply Permutation_nil_r. rewrite idr_seq_spec, Hi. by rewrite map_to_list_empty. }
  krun (eq_refl : IDR_L_FOR_EACH _ [] _ = Ok _ _).
  krun (rcu_read_unlock_run _ (w_rcu w)); [done|]. unfold IDR_L_DESTROY.
  krun (get_data_run (set_rcu (w_rcu w) (set_rcu (S (w_rcu w)) w)) d Hd). by destruct w.
Qed.


(** C36: A defect.  Closing the device right after it was opened uses freed
    memory: the clean-up of the procfs directories removes the directory of
    the process, with everything below it, before the directories below. *)
Theorem open_release_use_after_free w b flags w'
    (Hbase : base_ready w b) (Hpid : - 2 ^ 31 ≤ w_cur w < 2 ^ 31)
    (Hopen : ums_dev_open flags w = Ok 0 w') :
  ums_dev_release w' = Bug UseAfterFree.
Proof.
  assert (Z.land flags O_ACCMODE = O_RDONLY) as Hf.
  { unfold ums_dev_open in Hopen. by case_decide. }
  pose proof (ums_dev_open_run w b flags Hbase Hpid Hf) as Hrun.
  destruct (open_prepare w) as [[[a [r dirs]]|] w1|w1|]; [|by destruct Hrun as [E _]; rewrite E in Hopen|done..].
  case_decide; [destruct Hrun as (? & E & ? & _); rewrite E in Hopen; simplify_eq; lia|].
  destruct (table_fails (w_env w1)); [congruence|].
  destruct Hrun as (w2 & t1 & t2 & E & _ & _ & Hd & H1 & H2 & Hok).
  rewrite E in Hopen. injection Hopen as ->.
  eapply (ums_dev_release_bug w' _ _ b).
  - apply (release_empty_run w' _ Hd); [done..|apply idr_init_ents].
  - done.
  - by eapply dirs_ok_same.
Qed.

(** ** procfs *)

(** The directories of a process.  Setting them up either fails with
    -ENOMEM and gives back all memory, or creates /proc/ums/PID with its two
    subdirectories and stores exactly the paths /proc/ums/PID and
    /proc/ums/PID/workers, each in a buffer of its length plus one: no path
    is truncated and no buffer is overrun, for any 32-bit pid. *)
Theorem proc_dirs_init_spec w b
    (Hbase : base_ready w b) (Hpid : - 2 ^ 31 ≤ w_cur w < 2 ^ 31) :
  ∃ r dirs w', ums_proc_dirs_init zero_proc_dirs w = Ok (r, dirs) w' ∧
    ((r = - ENOMEM ∧ (kmalloc_refuses ∨ procfs_refuses) ∧ w_heap w' = w_heap w) ∨
     (r = 0 ∧ ∃ a1 a2 pid_dir sched_dir workers_dir,
        pd_pid_dir_path dirs = Ptr a1 ∧ pd_workers_dir_path dirs = Ptr a2 ∧
        (let path := "/proc/ums/" +:+ pretty (w_cur w) in
         w_heap w' !! a1 = Some (OBuf (S (String.length path)) path)) ∧
        (let path := "/proc/ums/" +:+ pretty (w_cur w) +:+ "/workers" in
         w_heap w' !! a2 = Some (OBuf (S (String.length path)) path)) ∧
        pd_pid_dir dirs = Ptr pid_dir ∧ pd_sched_dir dirs = Ptr sched_dir ∧
        pd_workers_dir dirs = Ptr workers_dir ∧
        pde_path (proc_ents (w_proc w')) [sched_dir; pid_dir; b] ∧
        pde_path (proc_ents (w_proc w')) [workers_dir; pid_dir; b])).
Proof.
  destruct (ums_proc_dirs_init_run w b Hbase Hpid) as (r & dirs & w' & E & _ & Hcase).
  exists r, dirs, w'. split; [exact E|].
  destruct Hcase as [?|(-> & [Hdirs _ _] & a1 & a2 & E1 & E2 & _ & _ & Hne & Hh)]; [by left|right].
  split; [done|]. destruct Hdirs as (e & s & k & Ee & Es & Ek & Ps & Pk & _).
  exists a1, a2, e, s, k. split; [done|]. split; [done|]. rewrite Hh.
  split; [by rewrite lookup_insert_ne, lookup_insert_eq|].
  split; [by rewrite lookup_insert_eq|]. done.
Qed.

(** A link name of up to 11 digits is not truncated. *)
Lemma link_name_small n : 0 ≤ n < 10 ^ 11 - 1 → link_name (u64 (n + 1)) = pretty (n + 1).
Proof.
  intros Hn. rewrite (wrap_u_id 64) by lia. unfold link_name, snprintf, fmt_d. cbn [fst].
  apply substring_all. pose proof (pretty_Z_length 10 (n + 1)) as Hl.
  rewrite decide_False in Hl by lia. assert (Z.abs (n + 1) < 10 ^ Z.of_nat 11) as Hlt by (cbn; lia).
  specialize (Hl Hlt). unfold UMS_PROC_SCHED_SYMLINK_BUFLEN. lia.
Qed.

(** C33: The link of a worker in the directory of a scheduler, made and removed.
    The link is named after the counter plus one, in decimal (so the first is
    1, although doc/kernelspace/module/proc.rst numbers the links from 0), and
    leads to the directory of the worker.  When procfs refuses it the call gives
    -ENOMEM and the scheduler and procfs are as before.  Otherwise removing it
    takes it out of procfs and brings the number of links back, and the names
    start again at 1 when no link is left.  (Hypothesis: fewer than 10^11 links
    were made since, so that the name fits its buffer.) *)
Theorem worker_link_round_trip w s k x y a cap path
    (Hs : w_heap w !! s = Some (OSched x)) (Hk : w_heap w !! k = Some (OWorker y))
    (Hpath : wd_worker_dir_path (wk_dirs y) = Ptr a)
    (Hbuf : w_heap w !! a = Some (OBuf cap path))
    (Hdir : dir_live (w_proc w) (sd_workers_dir (sc_dirs x)))
    (Hn : 0 ≤ sd_n_workers (sc_dirs x) < 2 ^ 64 - 1)
    (Hm : 0 ≤ sd_max_workers (sc_dirs x) < 10 ^ 11 - 1) :
  if link_refused w s k then
    ∃ w1, ums_scheduler_proc_register_worker s k w = Ok (- ENOMEM) w1 ∧
      w_heap w1 !! s = w_heap w !! s ∧ proc_ents (w_proc w1) = proc_ents (w_proc w)
  else
    ∃ w1 l w2 x2, ums_scheduler_proc_register_worker s k w = Ok 0 w1 ∧
      proc_ents (w_proc w1) !! l =
        Some (mk_pde (pretty (sd_max_workers (sc_dirs x) + 1))
                (dir_of (sd_workers_dir (sc_dirs x))) (PdeLink path)) ∧
      ums_scheduler_proc_unregister_worker s k w1 = Ok tt w2 ∧
      w_heap w2 !! s = Some (OSched x2) ∧ proc_ents (w_proc w2) !! l = None ∧
      sd_n_workers (sc_dirs x2) = sd_n_workers (sc_dirs x) ∧
      (sd_n_workers (sc_dirs x) = 0 → sd_max_workers (sc_dirs x2) = 0).
Proof.
  assert (s ≠ k) as Hsk by congruence.
  destruct (register_worker_run w s k x y a cap path) as (r & p' & e' & A & E); [done..|].
  unfold link_refused. rewrite Hs, Hk, Hpath, Hbuf, A. cbn [fst snd]. apply proc_add_added in A.
  unfold link_pde in A. rewrite link_name_small in A by done.
  destruct r as [l|].
  2:{ eexists. split; [exact E|]. kproj. split; [by rewrite lookup_insert_ne|exact A]. }
  destruct A as [_ A]. kproj.
  match goal with _ : _ = Ok 0 ?w1' |- _ => set (w1 := w1') in E end.
  eexists w1, l, _, (uncounted_sched (counted_sched x)). split; [exact E|].
  split; [unfold w1; kproj; rewrite A; apply lookup_insert_eq|].
  split.
  { apply (unregister_worker_run w1 s k (counted_sched x) (linked_worker (Ptr l) y)).
    - apply lookup_insert_eq.
    - unfold w1. kproj. rewrite lookup_insert_ne by done. apply lookup_insert_eq.
    - cbn. unfold w1. kproj. rewrite A, lookup_insert_eq. by eexists. }
  unfold w1. kproj. split; [apply lookup_insert_eq|]. split.
  { cbn [proc_removed wd_worker_link linked_worker wk_dirs wk_with_dirs wd_with_link].
    by rewrite proc_remove_spec, pde_below_self. }
  destruct x as [? ? ? ? [? ? ? n m]]. cbn in *.
  rewrite (wrap_u_id 64 (n + 1)), Z.add_simpl_r, (wrap_u_id 64 n) by lia. split; [done|].
  intros ->. by rewrite decide_True.
Qed.

(** The directory of a worker.  Registering a worker in procfs either
    fails with -ENOMEM and gives back all memory, or creates its directory
    and info file below the directory of workers and stores exactly the path
    of the new directory (the path of the directory of workers, a slash and
    the pid) in a buffer of its length plus one. *)
Theorem worker_register_spec w dirs k y wd l base wpath
    (Hk : w_heap w !! k = Some (OWorker y)) (Hpid : - 2 ^ 31 ≤ ctx_pid (wk_context y) < 2 ^ 31)
    (Hdir : pd_workers_dir dirs = Ptr wd) (Hlive : pde_path (proc_ents (w_proc w)) (wd :: l))
    (Hbase : pd_workers_dir_path dirs = Ptr base)
    (Hbuf : w_heap w !! base = Some (OBuf (S (String.length wpath)) wpath))
    (Hsize : pd_workers_dir_path_size dirs = Z.of_nat (String.length wpath))
    (Hsmall : Z.of_nat (String.length wpath) < 2 ^ 32) :
  ∃ r w', ums_worker_proc_register dirs k w = Ok r w' ∧
    (∀ z, z ≠ k → is_Some (w_heap w !! z) → w_heap w' !! z = w_heap w !! z) ∧
    ((r = - ENOMEM ∧ dom (w_heap w') = dom (w_heap w)) ∨
     (r = 0 ∧ ∃ i f b y', w_heap w' !! k = Some (OWorker y') ∧
        wd_worker_info_dir (wk_dirs y') = Ptr i ∧ wd_worker_dir (wk_dirs y') = Ptr f ∧
        wd_worker_dir_path (wk_dirs y') = Ptr b ∧
        (let path := wpath +:+ "/" +:+ pretty (ctx_pid (wk_context y)) in
         w_heap w' !! b = Some (OBuf (S (String.length path)) path)) ∧
        pde_path (proc_ents (w_proc w')) (i :: f :: wd :: l))).
Proof.
  destruct (worker_proc_register_run w dirs k y wd l base wpath)
    as (r & w' & E & _ & [(-> & ds & Hh)|(-> & i & f & b & Fb & Hh & Hp & _)]); [done..| |];
    eexists _, w'; (split; [exact E|]); rewrite Hh.
  - split; [intros z Hz _; by rewrite lookup_insert_ne|left]. split; [done|].
    apply dom_insert_lookup_L. by eexists.
  - assert (b ≠ k) as Hbk by congruence.
    split; [intros z Hz [o Ho]; rewrite !lookup_insert_ne; congruence|right].
    split; [done|]. eexists i, f, b, _. split; [by rewrite lookup_insert_ne, lookup_insert_eq|].
    do 3 (split; [done|]). split; [by rewrite lookup_insert_eq|exact Hp].
Qed.
End props.

(** ** Info files *)

(** The text of an info file, line by line. *)
Definition state_name (c : ums_context) : string :=
  if decide (ctx_state c = CONTEXT_RUNNING) then "R (running)" else "I (idle)".
Lemma state_name_one_line c : one_line (state_name c) = true.
Proof. unfold state_name. by case_decide. Qed.
Definition info_lines (c : ums_context) : string :=
  "Pid:" +:+ tab +:+ pretty (ctx_pid c) +:+ newline +:+
  "State:" +:+ tab +:+ state_name c +:+ newline +:+
  "Switches:" +:+ tab +:+ pretty (ctx_switches c) +:+ newline.

Lemma info_lines_text c : info_lines c = info_text c.
Proof. done. Qed.
Lemma info_lines_inj c c' :
  context_ints c → context_ints c' → info_lines c = info_lines c' →
  ctx_pid c = ctx_pid c' ∧ ctx_state c = ctx_state c' ∧ ctx_switches c = ctx_switches c'.
Proof.
  intros (Hs & _) (Hs' & _) E. unfold info_lines in E. injection E as E.
  apply line_inj in E as [Ep%(inj pretty) E]; [|apply pretty_Z_one_line..]. injection E as E.
  apply line_inj in E as [Est E]; [|apply state_name_one_line..]. injection E as E.
  apply line_inj in E as [Esw%(inj pretty) _]; [|apply pretty_Z_one_line..].
  split; [done|]. split; [|done]. unfold state_name in Est.
  destruct Hs as [Hc|Hc], Hs' as [Hc'|Hc']; rewrite Hc, Hc' in *; done.
Qed.

(** C34: A read of an info file.  For both kinds of files the text fits the
    buffer on the stack of its function, so that no byte outside of what was
    written to the buffer is ever copied; a read at or past the end, or of no
    bytes, returns 0; otherwise a non-empty piece of the buffer is copied that
    starts at the offset, is not longer than asked for and ends within the text.
    If nothing could be copied -EACCES is returned and the offset is unchanged;
    otherwise the number of bytes copied is returned and added to the offset,
    and these bytes, in user space, are those of the text (three lines:
    pid, state and number of switches) at the offset.  (The context is running
    or idle and its integers are those of C; the offset is below 2^62, and the
    count below 2^31, where the VFS caps it.) *)
Theorem info_read_spec (c : ums_context) (ubuf : Z → Z) count pos
    (Hc : context_ints c) (Hpos : 0 ≤ pos < 2 ^ 62) (Hcount : 0 ≤ count < 2 ^ 31)
    (Hubuf : ∀ n, 0 ≤ n → 0 ≤ ubuf n ≤ n) :
  ∃ rd, (∀ x, sc_context x = c → proc_read_scheduler_info x ubuf count pos = Some rd) ∧
    (∀ y, wk_context y = c → proc_read_worker_info y ubuf count pos = Some rd) ∧
    let len := Z.of_nat (String.length (info_lines c)) in
    let n := Z.min count (len - pos) in
    (String.length (info_lines c) < UMS_PROC_SCHED_INFO_BUFLEN)%nat ∧
    (String.length (info_lines c) < UMS_PROC_WORKER_INFO_BUFLEN)%nat ∧
    if decide (len ≤ pos ∨ count = 0) then rd_ret rd = 0 ∧ rd_pos rd = pos ∧ rd_bytes rd = "" else
    0 < n ∧
    if decide (ubuf n = n) then rd_ret rd = - EACCES ∧ rd_pos rd = pos ∧ rd_bytes rd = "" else
    rd_ret rd = n - ubuf n ∧ 0 < rd_ret rd ∧ rd_pos rd = pos + rd_ret rd ∧
    rd_bytes rd = String.substring (Z.to_nat pos) (Z.to_nat (rd_ret rd)) (info_lines c).
Proof.
  rewrite info_lines_text. pose proof (info_text_length c Hc) as Hlen.
  eexists. split; [intros x Hx; unfold proc_read_scheduler_info; rewrite Hx|
    split; [intros y Hy; unfold proc_read_worker_info; rewrite Hy|]].
  - apply proc_read_info_run; try done. unfold UMS_PROC_SCHED_INFO_BUFLEN. lia.
  - apply proc_read_info_run; try done. unfold UMS_PROC_WORKER_INFO_BUFLEN. lia.
  - cbv zeta. unfold UMS_PROC_SCHED_INFO_BUFLEN, UMS_PROC_WORKER_INFO_BUFLEN.
    split; [lia|]. split; [lia|]. set (len := Z.of_nat _) in *. case_decide; [done|].
    split; [lia|]. pose proof (Hubuf (Z.min count (len - pos))). case_decide; [done|].
    cbn. split_and!; [done|lia|done..].
Qed.

(** C35: Reading an info file to its end gives the whole text: reads of any
    positive size, each resumed where the last one ended, bring the bytes of
    the three lines (pid, state and number of switches) to user space, once each
    and in order, however the reads cut them -- for the file of a scheduler and
    for the file of a worker, through the buffers of their sizes -- and two
    files that read the same are of contexts with the same pid, state and
    number of switches.  At most 58 reads give bytes.  (The contexts are running
    or idle and their integers are those of C.) *)
Theorem info_read_round_trip (x : ums_scheduler) (y : ums_worker) count fuel
    (Hx : context_ints (sc_context x)) (Hy : context_ints (wk_context y))
    (Hcount : 0 < count < 2 ^ 31) (Hfuel : (58 < fuel)%nat) :
  read_file (proc_read_scheduler_info x (λ _, 0) count) fuel 0 = Some (info_lines (sc_context x)) ∧
  read_file (proc_read_worker_info y (λ _, 0) count) fuel 0 = Some (info_lines (wk_context y)) ∧
  (info_lines (sc_context x) = info_lines (wk_context y) →
     ctx_pid (sc_context x) = ctx_pid (wk_context y) ∧
     ctx_state (sc_context x) = ctx_state (wk_context y) ∧
     ctx_switches (sc_context x) = ctx_switches (wk_context y)).
Proof.
  split_and!; [| |by apply info_lines_inj].
  - pose proof (info_text_length _ Hx).
    unfold proc_read_scheduler_info. rewrite read_file_run;
      [by rewrite substring_all by lia|done|unfold UMS_PROC_SCHED_INFO_BUFLEN; lia|lia..].
  - pose proof (info_text_length _ Hy).
    unfold proc_read_worker_info. rewrite read_file_run;
      [by rewrite substring_all by lia|done|unfold UMS_PROC_WORKER_INFO_BUFLEN; lia|lia..].
Qed.

(** ** Witnesses *)

Lemma module_load_unload_witness :
  ∃ r w1, ums_init w_start = Ok r w1.
Proof.
  destruct (module_load_unload w_start) as (r & w1 & E & _).
  - compute_fact.
  - compute_fact.
  - exists r, w1. exact E.
Defined.

Lemma session_base : base_ready w_loaded 1.
Proof. split; [compute_fact|split; [compute_fact|decide_fact]]. Qed.


Lemma open_release_use_after_free_witness : ums_dev_release w_open = Bug UseAfterFree.
Proof.
  apply (open_release_use_after_free w_loaded 1 0 w_open).
  - apply session_base.
  - decide_fact.
  - compute_fact.
Defined.

Lemma proc_dirs_init_spec_witness :
  ∃ r dirs w', ums_proc_dirs_init zero_proc_dirs w_loaded = Ok (r, dirs) w'.
Proof.
  destruct (proc_dirs_init_spec w_loaded 1) as (r & dirs & w' & E & _).
  - apply session_base.
  - decide_fact.
  - exists r, dirs, w'. exact E.
Defined.

Lemma worker_link_round_trip_witness :
  ∃ w1 l w2, ums_scheduler_proc_register_worker a_sched a_worker1 w_started = Ok 0 w1 ∧
    pde_name <$> proc_ents (w_proc w1) !! l = Some "1" ∧
    ums_scheduler_proc_unregister_worker a_sched a_worker1 w1 = Ok tt w2 ∧
    proc_ents (w_proc w2) !! l = None.
Proof.
  pose proof (worker_link_round_trip w_started a_sched a_worker1 (sched_of w_started a_sched)
    (worker_of w_started a_worker1) 6 24 "/proc/ums/10/workers/11" ltac:(compute_fact)
    ltac:(compute_fact) ltac:(compute_fact) ltac:(compute_fact)
    ltac:(unfold dir_live; eexists; compute_fact) ltac:(decide_fact) ltac:(decide_fact)) as H.
  assert (link_refused w_started a_sched a_worker1 = false) as El by compute_fact.
  rewrite El in H. destruct H as (w1 & l & w2 & x2 & E1 & Hl & E2 & _ & Hn & _).
  exists w1, l, w2. split; [exact E1|]. split; [rewrite Hl; compute_fact|]. split; [exact E2|exact Hn].
Defined.

(** A world with a worker that is not registered yet. *)
Definition w_alloc : world := Eval vm_compute in
  after (ums_context_init (WorkCtx 5)) (after alloc_ums_worker (as_task 11 w_list)).

Lemma worker_register_spec_witness :
  ∃ r w', ums_worker_proc_register (d_dirs (data_of w_alloc)) 5 w_alloc = Ok r w'.
Proof.
  destruct (worker_register_spec w_alloc (d_dirs (data_of w_alloc)) 5 (worker_of w_alloc 5)
    4 [2; 1]%positive 3 "/proc/ums/10/workers") as (r & w' & E & _); try compute_fact.
  - decide_fact.
  - decide_fact.
  - decide_fact.
  - exists r, w'. exact E.
Defined.

Definition demo_context : ums_context := mk_context CONTEXT_IDLE 11 11 PNull 3.
Lemma demo_context_ints : context_ints demo_context.
Proof. unfold context_ints. cbn. split; [by right|lia]. Qed.

Definition demo_sched_file : ums_scheduler :=
  mk_scheduler demo_context PNull false [] (mk_sched_dirs PNull PNull PNull 0 0).
Definition demo_worker_file : ums_worker :=
  mk_worker demo_context PNull (mk_worker_dirs PNull 0 PNull PNull PNull).

Lemma info_read_spec_witness :
  ∃ rd, proc_read_worker_info demo_worker_file (λ _, 0) 7 5 = Some rd ∧ rd_ret rd = 7.
Proof.
  destruct (info_read_spec demo_context (λ _, 0) 7 5) as (rd & _ & E & _).
  - apply demo_context_ints.
  - lia.
  - lia.
  - intros n Hn. lia.
  - exists rd. pose proof (E demo_worker_file eq_refl) as E'. split; [exact E'|].
    vm_compute in E'. injection E' as <-. reflexivity.
Defined.

Lemma info_read_round_trip_witness :
  read_file (proc_read_scheduler_info demo_sched_file (λ _, 0) 7) 59 0 =
    Some (info_lines demo_context).
Proof.
  apply (info_read_round_trip demo_sched_file demo_worker_file 7 59);
    [apply demo_context_ints|apply demo_context_ints|lia|lia].
Defined.
