(* ===== verification/PropSystem.v ===== *)
(** * Properties of the whole module

    Invariants of the transition system of [System], and what they say about
    every call made in a reachable state. *)
From S2P Require Import Prelude ListHead ListSpec Kernel Uapi State Prims Context Proc Complist.
From S2P Require Import Scheduler Worker Device Rcu Locks Frames Private Typing System Counting.
From S2P Require Import KernelInst Scenario.
From stdpp Require Import prelude gmap.

Local Open Scope Z_scope.

Section props.
Context `{KO : KernelOps, LO : !ListOps lnode, LL : !ListLaws lnode, KL : !KernelLaws,
  IO : IoctlNr}.
Implicit Types (σ : sys).

(** C6: Memory is typed.  In every state reached from an open of the device
    by any sequence of calls, sleeping and resumed calls and RCU callbacks:
    (1) every [struct list_head] in memory is a member of a live object that
    has such a member, and every live object has its cells; (2) an id leads to
    a live completion list that has this id and at least one reference; (3) a
    pid leads to a live scheduler, or worker, of the task with this pid, and a
    worker owns the buffer its path is in, which no other worker has; (4) the
    callbacks handed to RCU are for different structures, which are all still
    allocated and can no longer be found.  So no lookup gives a freed or
    foreign structure, and none is freed while it can be found or twice. *)
Theorem reachable_memory_typed σ (Hreach : reachable σ) :
  let w := s_world σ in let h := w_heap w in
  (∀ n, is_Some (w_lm w !! n) ↔
    ∃ o, h !! node_addr n = Some o ∧ n ∈ obj_nodes (node_addr n) o) ∧
  NoDup (w_cbs w) ∧
  ∃ d, w_data w = Some d ∧
    (∀ id a, idr_find (d_comp_lists d) id = Some a →
       ∃ c, h !! a = Some (OComplist c) ∧ cl_id c = id ∧ 0 < cl_refcount c) ∧
    (∀ pid a, rhashtable_lookup_fast (d_schedulers d) pid = Some a →
       ∃ x, h !! a = Some (OSched x) ∧ ctx_pid (sc_context x) = pid) ∧
    (∀ pid a, rhashtable_lookup_fast (d_workers d) pid = Some a →
       ∃ y b cap str, h !! a = Some (OWorker y) ∧ ctx_pid (wk_context y) = pid ∧
         wd_worker_dir_path (wk_dirs y) = Ptr b ∧ h !! b = Some (OBuf cap str) ∧
         ∀ pid' a' y', rhashtable_lookup_fast (d_workers d) pid' = Some a' →
           h !! a' = Some (OWorker y') → wd_worker_dir_path (wk_dirs y') = Ptr b → a' = a) ∧
    (∀ cb, cb ∈ w_cbs w →
       match cb with
       | CbComplist a => (∃ c, h !! a = Some (OComplist c)) ∧
           ∀ id, idr_find (d_comp_lists d) id ≠ Some a
       | CbSched a => (∃ x, h !! a = Some (OSched x)) ∧
           ∀ pid, rhashtable_lookup_fast (d_schedulers d) pid ≠ Some a
       | CbWorker a => (∃ y, h !! a = Some (OWorker y)) ∧
           ∀ pid, rhashtable_lookup_fast (d_workers d) pid ≠ Some a
       end).
Proof.
  destruct (reachable_ok _ σ Hreach) as (_ & [_ Hc] & HT). cbv zeta.
  unfold holds, tabs_of, tabs_of_data in HT.
  destruct (w_data (s_world σ)) as [d|]; [|by destruct (ty_base _ _ _ HT)].
  destruct HT as [H1 H2 H3 H4 [_ H5] H6]. simpl in *. split; [exact Hc|]. split; [done|].
  exists d. split; [done|]. split_and!.
  - intros id a. rewrite idr_find_spec. apply H1.
  - intros pid a Ha%rhashtable_lookup_Some. by apply H2.
  - intros pid a Ha%rhashtable_lookup_Some.
    destruct (H3 _ _ Ha) as (y & b & cap & str & ? & ? & Hp & ?). exists y, b, cap, str.
    split_and!; [done..|]. intros pid' a' y' Ha'%rhashtable_lookup_Some Hy' Hp'.
    apply (H4 pid' a' y' pid a y); [done..|]. unfold path_of in *. congruence.
  - intros [a|a|a] Hcb; specialize (H6 _ Hcb); simpl in H6.
    + destruct H6 as (c & Ha & Hr). split; [eauto|]. intros id. rewrite idr_find_spec.
      intros (? & ? & _ & ?)%H1. simplify_eq. lia.
    + split; [apply H6|]. intros pid Ha%rhashtable_lookup_Some. by apply (proj2 H6 pid).
    + split; [apply H6|]. intros pid Ha%rhashtable_lookup_Some. by apply (proj2 H6 pid).
Qed.

(** C15: Between steps the module is quiescent.  In every reachable state no
    task outside a call is in an RCU read-side section and no spinlock of a
    completion list or scheduler is held.  So no call waits for a spinlock for
    ever: neither a new call of any task nor the resumption of a sleeping one
    finds a lock held, and neither leaves an RCU section it is not in
    ([IOCTL_ENTER_UMS] apart). *)
Theorem reachable_quiescent σ (Hreach : reachable σ) :
  w_rcu (s_world σ) = O ∧
  (∀ a c, w_heap (s_world σ) !! a = Some (OComplist c) → cl_lock c = false) ∧
  (∀ a x, w_heap (s_world σ) !! a = Some (OSched x) → sc_lock x = false) ∧
  (∀ p cmd arg, let o := ums_dev_ioctl cmd arg (set_cur p (s_world σ)) in
     o ≠ Bug LockHeld ∧ (cmd ≠ IOCTL_ENTER_UMS → o ≠ Bug RcuUnbalanced)) ∧
  (∀ p c, s_sleep σ !! p = Some c →
     let o := resume c (set_cur p (set_rcu 1 (s_world σ))) in
     o ≠ Bug LockHeld ∧ o ≠ Bug RcuUnbalanced).
Proof.
  destruct (reachable_ok _ σ Hreach) as (Hr & Hs & _). pose proof Hs as [Hl Hc].
  split_and!; cbv zeta; [done| | | |].
  - intros a c Ha. destruct (cl_lock c) eqn:E; [|done]. by pose proof (Hl a _ Ha E).
  - intros a x Ha. destruct (sc_lock x) eqn:E; [|done]. by pose proof (Hl a _ Ha E).
  - intros p cmd arg. assert (sound ∅ (set_cur p (s_world σ))) as Hw by (by eapply sound_ext).
    pose proof (held_ioctl cmd arg _ Hw) as H1.
    pose proof (rcu_ioctl cmd arg (set_cur p (s_world σ)) Hr) as H2.
    split; [intros E|intros Hcmd E]; rewrite E in *; [done|].
    specialize (H2 eq_refl). by apply bool_decide_eq_true in H2.
  - intros p c _. set (w := set_cur p _).
    assert (sound ∅ w) as Hw by (by eapply sound_ext).
    pose proof (resume_held c w Hw) as H1. pose proof (resume_triple false c w eq_refl) as H2.
    split; intros E; rewrite E in *; [done|]. by specialize (H2 eq_refl).
Qed.
(** C7: A completion list outlives its users.  Take any run, of any number of
    tasks, in which no list is deleted twice (a call names an id that was
    deleted since a list was created with it) and worker and scheduler modes are
    entered with lists that exist; [log] is the history of the creations and
    deletions that succeeded.  Then every worker and scheduler in the tables
    refers to a live completion list, still in the pool, with a positive count;
    the count of a list is exactly the number of its users, plus one as long as
    [log] has no deletion of it; and a list that was handed to RCU to be freed
    has no user left. *)
Theorem lists_outlive_users log σ (Hrun : tidy_run log σ) :
  let w := s_world σ in
  let M := members (tabs_of w) in
  let count id a := users M (w_heap w) a + (if deleted log id then 0 else 1) in
  (∀ k, k ∈ M → ∃ a c, ref_at (w_heap w) k = Some (Ptr a) ∧
     w_heap w !! a = Some (OComplist c) ∧ t_ids (tabs_of w) !! cl_id c = Some a ∧
     0 < cl_refcount c ∧ cl_refcount c = count (cl_id c) a) ∧
  (∀ id a, t_ids (tabs_of w) !! id = Some a → ∃ c, w_heap w !! a = Some (OComplist c) ∧
     cl_id c = id ∧ 0 < cl_refcount c ∧ cl_refcount c = count id a) ∧
  (∀ a k, CbComplist a ∈ w_cbs w → k ∈ M → ref_at (w_heap w) k ≠ Some (Ptr a)).
Proof.
  pose proof (counted_run log σ Hrun) as HC. apply full_empty in HC as [HT HC]. cbv zeta.
  assert (∀ id, owed (not_deleted log id) = if deleted log id then 0 else 1) as Ho
    by (intros id; unfold not_deleted; by destruct (deleted log id)).
  split_and!.
  - intros k Hk. destruct (hc_ref _ _ _ _ HC k Hk) as (a & E).
    destruct (hc_count _ _ _ _ HC a) as (c & Ha & Hi & _ & Hc); [by left; exists k|].
    pose proof (users_pos _ _ _ _ Hk E). rewrite Ho in Hc. exists a, c.
    split_and!; [done..|destruct (deleted log (cl_id c)); lia|done].
  - intros id a Hid. destruct (ty_ids _ _ _ HT _ _ Hid) as (c & Ha & <- & Hr).
    destruct (hc_count _ _ _ _ HC a) as (c' & ? & _ & _ & Hc); [by right; exists (cl_id c)|].
    simplify_eq. rewrite Ho in Hc. by exists c.
  - intros a k (c & Ha & Hr)%(ty_cbs _ _ _ HT) Hk E.
    eapply (not_tracked_dead _ _ _ _ _ a c HT HC); [done..|]. left. by exists k.
Qed.
End props.

(** ** Witnesses *)

(** The session, as steps of the transition system: the device is opened, a
    completion list is created, and a task that is no scheduler asks for an
    event. *)
Lemma session_reachable : reachable (mk_sys w_list ∅).
Proof.
  apply (reach_step _ (mk_sys w_open ∅)).
  - apply reach_initial. split; [done|]. exists w_loaded, 0. do 4 (split; [done|]). compute_fact.
  - apply (step_call _ w_open ∅ 10 IOCTL_CREATE_UMS_CLIST
      (mk_arg 0 (good 0) (good (mk_enter_args 0 0)) (good zero_event) (good (mk_dequeue_args 0 0))
        (good (mk_next_args 0 0))) 0); [done|done|compute_fact].
Qed.

Lemma reachable_memory_typed_witness :
  ∃ c d, w_data w_list = Some d ∧ idr_find (d_comp_lists d) 1 = Some a_list ∧
    w_heap w_list !! a_list = Some (OComplist c) ∧ cl_id c = 1 ∧ 0 < cl_refcount c.
Proof.
  destruct (reachable_memory_typed (mk_sys w_list ∅) session_reachable)
    as (_ & _ & d & Hd & Hids & _).
  assert ((λ d, idr_find (d_comp_lists d) 1) <$> w_data w_list = Some (Some a_list)) as Hf
    by compute_fact.
  change (w_data w_list = Some d) in Hd. rewrite Hd in Hf. injection Hf as Hf.
  destruct (Hids 1 a_list Hf) as (c & Hc). by exists c, d.
Defined.

Lemma reachable_quiescent_witness :
  w_rcu w_list = O ∧
  ums_dev_ioctl IOCTL_UMS_YIELD
    (mk_arg 0 (good 0) (good (mk_enter_args 0 0)) (good zero_event) (good (mk_dequeue_args 0 0))
      (good (mk_next_args 0 0))) (set_cur 11 w_list) ≠ Bug LockHeld.
Proof.
  destruct (reachable_quiescent (mk_sys w_list ∅) session_reachable) as (H1 & _ & _ & H2 & _).
  split; [exact H1|]. apply (H2 11 IOCTL_UMS_YIELD).
Defined.

(** Two workers and a scheduler use the list of the session, whose creator
    deletes it; it stays alive. *)
Definition w_deleted : world := Eval vm_compute in after (ums_complist_delete 1) (as_task 10 w_sched).
Definition enter_call (flags : Z) : ioctl_arg :=
  mk_arg 0 (bad 0) (good (mk_enter_args flags 1)) (bad zero_event) (bad (mk_dequeue_args 0 0))
    (bad (mk_next_args 0 0)).
Definition delete_call : ioctl_arg :=
  mk_arg 1 (bad 0) (bad (mk_enter_args 0 0)) (bad zero_event) (bad (mk_dequeue_args 0 0))
    (bad (mk_next_args 0 0)).

Lemma enter_tidy log flags w :
  is_Some (t_ids (tabs_of w) !! 1) → tidy_call log IOCTL_ENTER_UMS (enter_call flags) w.
Proof. intros Hid. split; [intros E; vm_compute in E; discriminate E|]. by intros _ v [= <-]. Qed.

(** One more call of a tidy run. *)
Lemma tidy_extend log log' w p cmd arg w' :
  tidy_run log (mk_sys w ∅) → tidy_call log cmd arg (set_cur p w) →
  ums_dev_ioctl cmd arg (set_cur p w) = Ok 0 w' → logged cmd arg 0 w' ++ log = log' →
  tidy_run log' (mk_sys w' ∅).
Proof. intros Hr Ht E <-. by apply (tidy_returns log w ∅ p cmd arg 0 w'). Qed.

Lemma session_tidy : tidy_run [Deleted 1; Created 1] (mk_sys w_deleted ∅).
Proof.
  apply (tidy_extend [Created 1] _ w_sched 10 IOCTL_DELETE_UMS_CLIST delete_call);
    [|split; [reflexivity|intros E; vm_compute in E; discriminate E]|compute_fact|compute_fact].
  apply (tidy_extend [Created 1] _ w_worker2 13 IOCTL_ENTER_UMS (enter_call 1));
    [|apply enter_tidy; eexists; compute_fact|compute_fact|compute_fact].
  apply (tidy_extend [Created 1] _ w_worker1 12 IOCTL_ENTER_UMS (enter_call 2));
    [|apply enter_tidy; eexists; compute_fact|compute_fact|compute_fact].
  apply (tidy_extend [Created 1] _ w_list 11 IOCTL_ENTER_UMS (enter_call 2));
    [|apply enter_tidy; eexists; compute_fact|compute_fact|compute_fact].
  apply (tidy_extend [] _ w_open 10 IOCTL_CREATE_UMS_CLIST
      (mk_arg 0 (good 0) (good (mk_enter_args 0 0)) (good zero_event) (good (mk_dequeue_args 0 0))
        (good (mk_next_args 0 0))));
    [|split; [reflexivity|intros E; vm_compute in E; discriminate E]|compute_fact|compute_fact].
  apply tidy_open. split; [done|]. exists w_loaded, 0. do 4 (split; [done|]). compute_fact.
Qed.

Lemma lists_outlive_users_witness :
  users (members (tabs_of w_deleted)) (w_heap w_deleted) a_list = 3 ∧
  ∃ c, w_heap w_deleted !! a_list = Some (OComplist c) ∧ cl_id c = 1 ∧ 0 < cl_refcount c ∧
    cl_refcount c = users (members (tabs_of w_deleted)) (w_heap w_deleted) a_list + 0.
Proof.
  split; [compute_fact|].
  destruct (lists_outlive_users [Deleted 1; Created 1] (mk_sys w_deleted ∅) session_tidy)
    as (_ & Hid & _).
  exact (Hid 1 a_list ltac:(compute_fact)).
Defined.
