(* ===== verification/PropUser.v ===== *)
(** * Properties of the user library and the example

    The library against any system ([SysOps]) and on top of the module
    ([UserKernel]); the ready queue and the main function of the example. *)
From S2P Require Import Prelude ListHead ListSpec Kernel Uapi State Prims Context Proc Complist.
From S2P Require Import Scheduler Worker Device Rcu Locks System KernelInst Scenario.
From S2P Require Import User UserLib Example ExampleSpec UserKernel.
From stdpp Require Import prelude gmap strings.

Local Open Scope Z_scope.

(** ** The event loop *)

Section event_loop.
Context `{SO : SysOps, IO : IoctlNr}.
Implicit Types (s : ustate) (info : ums_scheduler_startup_info_t) (e : ums_sched_event).

(** The arguments with which the loop calls the entry point for an event. *)
Definition entry_reason e : ums_reason_t :=
  match ev_type e with
  | SCHEDULER_STARTUP => UMS_SCHEDULER_STARTUP
  | THREAD_YIELD => UMS_SCHEDULER_THREAD_YIELD
  | THREAD_TERMINATED => UMS_SCHEDULER_THREAD_END
  end.
Definition entry_activation e : cptr ums_activation_t :=
  match ev_type e with
  | SCHEDULER_STARTUP => PNull
  | _ => Ptr (mk_activation (ev_context (ev_params e)))
  end.
(** The activation that the documentation of the entry point promises: NULL
    for a startup and for the end of a thread. *)
Definition documented_activation e : cptr ums_activation_t :=
  match entry_reason e with
  | UMS_SCHEDULER_STARTUP | UMS_SCHEDULER_THREAD_END => PNull
  | UMS_SCHEDULER_THREAD_YIELD => Ptr (mk_activation (ev_context (ev_params e)))
  end.
Lemma entry_activation_documented e :
  entry_activation e = documented_activation e ↔ ev_type e ≠ THREAD_TERMINATED.
Proof.
  unfold entry_activation, documented_activation, entry_reason. by destruct (ev_type e).
Qed.
Definition entry_param info e : Z :=
  match ev_type e with
  | SCHEDULER_STARTUP => si_scheduler_param info
  | THREAD_YIELD => ev_scheduler_params (ev_params e)
  | THREAD_TERMINATED => 0
  end.

(** One pass of the loop: an interrupted wait, or an event handed to the entry
    point. *)
Inductive pass info : ustate → option ums_sched_event → ustate → Prop :=
  | pass_interrupted s x s' :
      dequeue_ums_sched_event s = URet x s' → x.1 ≠ 0 → u_errno s' = EINTR →
      pass info s None s'
  | pass_event s e s1 s2 :
      dequeue_ums_sched_event s = URet (0, Some e) s1 →
      si_entry_point info (entry_reason e) (entry_activation e) (entry_param info e) s1 =
        URet tt s2 →
      pass info s (Some e) s2.
Inductive passes info : ustate → list (option ums_sched_event) → ustate → Prop :=
  | passes_nil s : passes info s [] s
  | passes_cons s x s1 xs s2 : pass info s x s1 → passes info s1 xs s2 → passes info s (x :: xs) s2.

(** The wait fails for another reason than a signal. *)
Definition wait_fails s s' : Prop :=
  ∃ x, dequeue_ums_sched_event s = URet x s' ∧ x.1 ≠ 0 ∧ u_errno s' ≠ EINTR.

Lemma proxy_event_entry info e :
  proxy_event info e =
    si_entry_point info (entry_reason e) (entry_activation e) (entry_param info e).
Proof. unfold proxy_event, entry_reason, entry_activation, entry_param. by destruct (ev_type e). Qed.

(** A pass at the head of the loop leads to the rest of the loop. *)
Lemma scheduling_loop_pass info fuel s x s1 :
  pass info s x s1 → scheduling_loop info (S fuel) s = scheduling_loop info fuel s1.
Proof.
  destruct 1 as [s x s' E Hx He|s e s1 s2 E Ee]; cbn [scheduling_loop]; urun E.
  - rewrite decide_True by done. urun (eq_refl : ugets u_errno s' = URet _ _).
    by rewrite decide_True.
  - rewrite decide_False by (by intros []). cbn [snd]. rewrite proxy_event_entry. by urun Ee.
Qed.

Lemma scheduling_loop_inv info fuel s r s' :
  scheduling_loop info fuel s = URet r s' →
  r = -1 ∧ ∃ xs s1, passes info s xs s1 ∧ (length xs < fuel)%nat ∧ wait_fails s1 s'.
Proof.
  revert s. induction fuel as [|fuel IH]; intros s; [done|]. intros Hrun.
  pose proof Hrun as Hrun'. cbn [scheduling_loop] in Hrun.
  apply ubind_inv in Hrun as (x & s1 & E & Hrun). destruct (decide (x.1 ≠ 0)) as [Hx|Hx].
  - destruct (decide (u_errno s1 = EINTR)) as [He|He].
    + assert (pass info s None s1) as P by (by eapply pass_interrupted).
      rewrite (scheduling_loop_pass _ _ _ _ _ P) in Hrun'.
      destruct (IH s1 Hrun') as (-> & xs & s2 & Hp & Hl & Hw). split; [done|].
      exists (None :: xs), s2. split_and!; [by econstructor|simpl; lia|done].
    + cbv [ugets mbind uM_bind] in Hrun. rewrite decide_False in Hrun by done.
      injection Hrun as <- <-. split; [done|]. exists [], s. split_and!; [constructor|simpl; lia|].
      by exists x.
  - destruct x as [x [e|]]; simpl in *; [|done].
    apply ubind_inv in Hrun as ([] & s2 & Ep & Hrun). rewrite proxy_event_entry in Ep.
    assert (x = 0) as -> by lia. assert (pass info s (Some e) s2) as P by (by eapply pass_event).
    destruct (IH s2 Hrun) as (-> & xs & s3 & Hp & Hl & Hw). split; [done|].
    exists (Some e :: xs), s3. split_and!; [by econstructor|simpl; lia|done].
Qed.

Lemma scheduling_loop_complete info fuel s xs s1 s' :
  passes info s xs s1 → (length xs < fuel)%nat → wait_fails s1 s' →
  scheduling_loop info fuel s = URet (-1) s'.
Proof.
  intros Hp. revert fuel. induction Hp as [s|s x s1 xs s2 P Hp IH]; intros [|fuel] Hl Hw;
    simpl in Hl; try lia.
  - destruct Hw as (x & E & Hx & He). cbn [scheduling_loop]. urun E. rewrite decide_True by done.
    urun (eq_refl : ugets u_errno s' = URet _ _). by rewrite decide_False.
  - rewrite (scheduling_loop_pass _ _ _ _ _ P). apply IH; [lia|done].
Qed.

(** C9: What [enter_ums_scheduling_mode] does, and where it departs from its
    documentation.  It returns exactly in two cases: the thread could not become
    a scheduler, or after some passes (each a wait interrupted by a signal,
    which is repeated, or one event, for which the entry point is called with
    the reason, the activation and the parameter that the code derives from the
    event) a wait fails for another reason.  Conversely every such sequence of
    passes is a run of it, so it never skips, repeats or reorders an event and
    never gives up on a signal.  Two things are not as documented: the value
    returned is always -1, although ums.h promises 0 in case of success (there
    is no such path), and the activation agrees with umsdefs.h for startup and
    yield only: for a terminated thread the code passes a pointer where
    umsdefs.h promises NULL. *)
Theorem scheduling_mode_is_event_loop info fuel s r s' :
  (enter_ums_scheduling_mode fuel (Ptr info) s = URet r s' ↔
   r = -1 ∧
   let args := mk_enter_args ENTER_UMS_SCHED (si_completion_list info) in
   ((∃ x, enter_ums_mode args s = URet x s' ∧ x ≠ 0) ∨
    (∃ s0 xs s1, enter_ums_mode args s = URet 0 s0 ∧ passes info s0 xs s1 ∧
       (length xs < fuel)%nat ∧ wait_fails s1 s'))) ∧
  ∀ e, if decide (ev_type e = THREAD_TERMINATED)
       then documented_activation e = PNull ∧
            entry_activation e = Ptr (mk_activation (ev_context (ev_params e)))
       else entry_activation e = documented_activation e.
Proof.
  split.
  2:{ intros e. case_decide as He; [|by apply entry_activation_documented].
      unfold documented_activation, entry_activation, entry_reason. by rewrite He. }
  cbv zeta. unfold enter_ums_scheduling_mode, null_check. split.
  - intros (x & s0 & E & Hrun)%ubind_inv. destruct (decide (x ≠ 0)) as [Hx|Hx].
    + injection Hrun as <- <-. split; [done|]. left. eauto.
    + apply scheduling_loop_inv in Hrun as (-> & xs & s1 & Hp & Hl & Hw). split; [done|].
      assert (x = 0) as -> by lia. right. by exists s0, xs, s1.
  - intros (-> & [(x & E & Hx)|(s0 & xs & s1 & E & Hp & Hl & Hw)]); urun E.
    + by rewrite decide_True.
    + rewrite decide_False by (by intros []). by eapply scheduling_loop_complete.
Qed.
End event_loop.

(** ** Errors *)

Section errors.
Context `{SO : SysOps, IO : IoctlNr}.
Implicit Types (s : ustate).

(** C21: The error contract of the library.  A NULL argument gives -1 with
    errno EFAULT, without a system call or any other effect.  A system call
    that fails with the error number [e] gives -1 with errno [e] and leaves the
    memory of the process as it was; in particular a failed deletion keeps the
    handle, and a failed dequeue does not write the context.  Creating a worker
    thread without memory gives -1 with ENOMEM; when the thread cannot be
    created, however, the error number is returned instead of -1, errno is not
    set, and the argument block is never freed. *)
Theorem library_reports_errors s e o :
  (create_ums_completion_list PNull s = URet (-1) (uset_errno EFAULT s) ∧
   (∀ cl, dequeue_ums_completion_list_items cl PNull s = URet (-1) (uset_errno EFAULT s)) ∧
   delete_ums_completion_list PNull s = URet (-1) (uset_errno EFAULT s) ∧
   (∀ fuel, enter_ums_scheduling_mode fuel PNull s = URet (-1) (uset_errno EFAULT s)) ∧
   (∀ attr f x, ums_pthread_create PNull (Ptr f) x s = URet (-1, None) (uset_errno EFAULT s) ∧
      ums_pthread_create (Ptr attr) PNull x s = URet (-1, None) (uset_errno EFAULT s))) ∧
  ((∀ p, fails s IOCTL_CREATE_UMS_CLIST (id_arg (u_heap s !! p)) e o →
      create_ums_completion_list (Ptr p) s = URet (-1) (failed e o s)) ∧
   (∀ cl p, fails s IOCTL_DEQUEUE_UMS_CLIST (dequeue_arg (mk_dequeue_args cl 0)) e o →
      dequeue_ums_completion_list_items cl (Ptr p) s = URet (-1) (failed e o s)) ∧
   (∀ c, fails s IOCTL_NEXT_UMS_CTX_LIST (next_arg (mk_next_args c 0)) e o →
      get_next_ums_list_item c s = URet (-1) (failed e o s)) ∧
   (∀ p id, u_heap s !! p = Some (UInt id) →
      fails s IOCTL_DELETE_UMS_CLIST (val_arg id) e o →
      delete_ums_completion_list (Ptr p) s = URet (-1) (failed e o s)) ∧
   (∀ c, fails s IOCTL_EXEC_UMS_CTX (val_arg c) e o →
      execute_ums_thread c s = URet (-1) (failed e o s)) ∧
   (∀ x, fails s IOCTL_UMS_YIELD (val_arg x) e o →
      ums_thread_yield x s = URet (-1) (failed e o s)) ∧
   (∀ fuel info, fails s IOCTL_ENTER_UMS
        (enter_arg (mk_enter_args ENTER_UMS_SCHED (si_completion_list info))) e o →
      enter_ums_scheduling_mode fuel (Ptr info) s = URet (-1) (failed e o s))) ∧
  (∀ attr f x, c_malloc (dom (u_heap s)) (u_os s) = (None, o) →
     ums_pthread_create (Ptr attr) (Ptr f) x s = URet (-1, None) (failed ENOMEM o s)) ∧
  (∀ attr f x a o1 t, c_malloc (dom (u_heap s)) (u_os s) = (Some a, o1) →
     sys_pthread_create (at_pthread_attr attr) StartWorker (ptr_val a) o1 = (e, t, o) → e ≠ 0 →
     ∃ s', ums_pthread_create (Ptr attr) (Ptr f) x s = URet (e, None) s' ∧
       u_errno s' = u_errno s ∧
       u_heap s' = <[a := UArgs (mk_worker_args (at_completion_list attr) f x)]> (u_heap s)).
Proof.
  split_and!; try done.
  - intros p. apply create_fails.
  - intros cl p. apply dequeue_items_fails.
  - intros c. apply get_next_fails.
  - intros p id Hp Hf. by eapply delete_fails.
  - intros c Hf. unfold execute_ums_thread. by urun (ums_ioctl_fails _ _ _ _ _ Hf).
  - intros x Hf. unfold ums_thread_yield. by urun (ums_ioctl_fails _ _ _ _ _ Hf).
  - intros fuel info Hf. unfold enter_ums_scheduling_mode, null_check.
    urun (enter_fails _ _ _ _ Hf). by rewrite decide_True.
  - intros attr f x Hm. unfold ums_pthread_create, malloc. ured. by rewrite Hm.
  - intros attr f x a o1 t Hm Ht He. unfold ums_pthread_create, malloc, pthread_create. ured.
    rewrite Hm. ured. rewrite Ht. ured. cbn [fst snd]. rewrite decide_False by done.
    by eexists.
Qed.
End errors.

(** ** The life of a worker thread *)

Section worker_life.
Context `{SO : SysOps, IO : IoctlNr}.
Implicit Types (s : ustate).

(** The key is created once; nothing else changes. *)
Lemma worker_key_init_run s :
  ∃ o k, worker_key_init s = URet tt (uset_key true k (uset_os o s)).
Proof.
  unfold worker_key_init, create_worker_key. ured. destruct (u_once s) eqn:E.
  - exists (u_os s), (u_key s). unfold mret, uM_ret. f_equal. destruct s; simpl in *. by subst.
  - destruct (sys_pthread_key_create (u_os s)) as [r o]. by exists o, (bool_decide (r = 0)).
Qed.

(** C20: The life of a worker thread, up to its end.  Let the thread have made
    sure of the key (state [s1]).  (1) If it cannot enter worker mode, its
    argument block is freed and the function is not run.  (2) Otherwise, if
    the block is recorded under the key, the function runs, and if it leaves
    the block alone, the thread ends by freeing the block, exactly once, and
    then leaving worker mode.  (3) If the block could not be recorded, which
    the code does not look at, the thread ends right after its function:
    without leaving worker mode, so that its scheduler is not told, and
    without freeing the block. *)
Theorem worker_thread_life text args s wa s1
    (Hargs : u_heap s !! args = Some (UArgs wa)) (Hnew : u_specific s = None)
    (Hkey : worker_key_init s = URet tt s1) :
  let enter := enter_arg (mk_enter_args ENTER_UMS_WORK (wa_completion_list wa)) in
  (∀ e o, fails s1 IOCTL_ENTER_UMS enter e o →
     ∃ s', worker_thread text args s = URet 0 s' ∧ u_heap s' = delete args (u_heap s) ∧ u_os s' = o) ∧
  (∀ out o1 o2 r s3 x o3, answers s1 IOCTL_ENTER_UMS enter 0 out o1 → u_key s1 = true →
     sys_pthread_setspecific o1 = (0, o2) →
     text (wa_func wa) (wa_args wa) (uset_specific (Some args) (uset_os o2 s1)) = URet r s3 →
     u_heap s3 !! args = Some (UArgs wa) → u_specific s3 = Some args →
     sys_ioctl (u_fileno s3) IOCTL_EXIT_UMS no_arg (u_os s3) = Some (x, [], o3) →
     ∃ s', worker_thread text args s = URet r s' ∧ u_heap s' = delete args (u_heap s3) ∧
       u_os s' = o3 ∧ u_specific s' = None) ∧
  (∀ out o1 x o2 r s3, answers s1 IOCTL_ENTER_UMS enter 0 out o1 → u_key s1 = true →
     sys_pthread_setspecific o1 = (x, o2) → x ≠ 0 →
     text (wa_func wa) (wa_args wa) (uset_os o2 s1) = URet r s3 → u_specific s3 = None →
     worker_thread text args s = URet r s3).
Proof.
  destruct (worker_key_init_run s) as (o0 & k & E0). rewrite Hkey in E0. injection E0 as ->.
  set (s1 := uset_key _ _ _) in *. cbv zeta.
  assert (u_heap s1 !! args = Some (UArgs wa)) as Hargs1 by exact Hargs. split_and!.
  - intros e o Hf. unfold worker_thread, worker_wrapper_routine.
    eexists. unfold mbind, uM_bind. rewrite (load_args_run s args wa Hargs), Hkey.
    rewrite (enter_fails _ _ _ _ Hf). rewrite decide_True by done.
    rewrite (free_run (failed e o s1) args _ Hargs1). unfold thread_exit, failed, s1.
    ured. rewrite Hnew. ured. by split_and!.
  - intros out o1 o2 r s3 x o3 Ha Hk Hsp Ht Hargs3 Hsp3 Hx.
    unfold worker_thread, worker_wrapper_routine. unfold mbind, uM_bind.
    rewrite (load_args_run s args wa Hargs), Hkey. rewrite (enter_answers _ _ _ _ Ha).
    rewrite decide_False by (by intros []). unfold set_worker_key. ured. rewrite Hk. ured.
    rewrite Hsp. ured. rewrite decide_True by done. ured. rewrite Hargs1. ured.
    change (text (wa_func wa) (wa_args wa) _) with
      (text (wa_func wa) (wa_args wa) (uset_specific (Some args) (uset_os o2 s1))).
    rewrite Ht. unfold thread_exit, destroy_worker_key, free, exit_ums_mode, ums_ioctl. ured.
    rewrite Hsp3. ured. rewrite Hargs3. ured. rewrite Hx. ured. case_decide; by eexists.
  - intros out o1 x o2 r s3 Ha Hk Hsp Hx Ht Hsp3.
    unfold worker_thread, worker_wrapper_routine. unfold mbind, uM_bind.
    rewrite (load_args_run s args wa Hargs), Hkey. rewrite (enter_answers _ _ _ _ Ha).
    rewrite decide_False by (by intros []). unfold set_worker_key. ured. rewrite Hk. ured.
    rewrite Hsp. ured. rewrite decide_False by done. ured. rewrite Hargs1. ured.
    change (text (wa_func wa) (wa_args wa) _) with
      (text (wa_func wa) (wa_args wa) (uset_os o2 s1)).
    rewrite Ht. unfold thread_exit. ured. by rewrite Hsp3.
Qed.
End worker_life.

(** ** Descriptors *)

(** open(2) creates a new open file description and a descriptor that was not
    in use, or fails; close(2) removes the descriptor; a fork copies the
    descriptors.  [fds] is the descriptor table, [opened] the descriptions
    created so far. *)
Class FdLaws `{SO : SysOps} := {
  fds : os → gmap Z nat;
  opened : os → gset nat;
  fd_open path flags o r o' : sys_open path flags o = (r, o') →
    (-4095 ≤ r < 0 ∧ fds o' = fds o) ∨
    (0 ≤ r ∧ fds o !! r = None ∧ ∃ d, (d ∉ opened o) ∧ fds o' = <[r := d]> (fds o));
  fd_close fd o r o' : sys_close fd o = (r, o') →
    fds o' = delete fd (fds o) ∧ opened o' = opened o;
  fd_fork o : fds (sys_fork o) = fds o ∧ opened (sys_fork o) = opened o;
  fd_atfork o r o' : sys_pthread_atfork o = (r, o') → fds o' = fds o;
}.

Section descriptors.
Context `{SO : SysOps, IO : IoctlNr, FL : !FdLaws}.
Implicit Types (s : ustate).

Lemma fileno_open_run s :
  ∃ s', ums_fileno_open s = URet tt s' ∧ u_atfork s' = u_atfork s ∧
    ((u_fileno s' = -1 ∧ fds (u_os s') = fds (u_os s)) ∨
     (0 ≤ u_fileno s' ∧ fds (u_os s) !! u_fileno s' = None ∧
      ∃ d, (d ∉ opened (u_os s)) ∧ fds (u_os s') = <[u_fileno s' := d]> (fds (u_os s)))).
Proof.
  unfold ums_fileno_open, open. ured.
  destruct (sys_open _ O_RDONLY (u_os s)) as [r o'] eqn:E. ured.
  apply fd_open in E as [[Hr Hf]|(Hr & Hn & d & Hd & Hf)].
  - rewrite decide_True by lia. ured. eexists. split; [done|]. split; [done|]. by left.
  - rewrite decide_False by lia. ured. eexists. split; [done|]. split; [done|]. right. eauto.
Qed.
Lemma fileno_close_run s :
  ∃ s', ums_fileno_close s = URet tt s' ∧ u_fileno s' = u_fileno s ∧ u_atfork s' = u_atfork s ∧
    fds (u_os s') = delete (u_fileno s) (fds (u_os s)) ∧ opened (u_os s') = opened (u_os s).
Proof.
  unfold ums_fileno_close, close. ured.
  destruct (sys_close (u_fileno s) (u_os s)) as [r o'] eqn:E. ured.
  apply fd_close in E as [Hf Ho]. case_decide; ured; eexists; by split_and!.
Qed.

(** C22: A forked child does not share the device with its parent.  With the
    fork handler registered, the child closes the descriptor it inherited and
    ends up either without a device, or with one whose open file description
    did not exist before the fork; no other descriptor is touched.  Without
    the handler (its registration can fail, which is not looked at) the child
    keeps the parent's descriptor.  Unloading the library closes it. *)
Theorem fork_reopens_device s :
  (u_atfork s = true → ∃ s', fork_child s = URet tt s' ∧
     ((u_fileno s' = -1 ∧ fds (u_os s') = delete (u_fileno s) (fds (u_os s))) ∨
      (0 ≤ u_fileno s' ∧ ∃ d, (d ∉ opened (u_os s)) ∧
         fds (u_os s') = <[u_fileno s' := d]> (delete (u_fileno s) (fds (u_os s)))))) ∧
  (u_atfork s = false → ∃ s', fork_child s = URet tt s' ∧ u_fileno s' = u_fileno s ∧
     fds (u_os s') = fds (u_os s)) ∧
  (∃ s', ums_exit s = URet tt s' ∧ fds (u_os s') = delete (u_fileno s) (fds (u_os s))).
Proof.
  destruct (fd_fork (u_os s)) as [Ff Fo]. split_and!.
  - intros Ha. set (s1 := uset_os (sys_fork (u_os s)) s).
    destruct (fileno_close_run s1) as (s2 & E2 & Ef2 & _ & Hf2 & Ho2).
    destruct (fileno_open_run s2) as (s3 & E3 & _ & Hcase).
    exists s3. split.
    + unfold fork_child. urun (eq_refl : umodify _ s = URet _ _). fold s1.
      urun (eq_refl : ugets u_atfork s1 = URet _ _). rewrite (Ha : u_atfork s1 = true).
      unfold ums_atfork_child_handler. by urun E2.
    + rewrite Ho2, Hf2 in Hcase. unfold s1 in Hcase. cbn in Hcase. rewrite Ff, Fo in Hcase.
      destruct Hcase as [?|(? & _ & d & Hd & Hf)]; [by left|right; eauto].
  - intros Ha. exists (uset_os (sys_fork (u_os s)) s). split_and!; [|done|exact Ff].
    unfold fork_child. ured. by rewrite Ha.
  - destruct (fileno_close_run s) as (s' & E & _ & _ & Hf & _). by exists s'.
Qed.
End descriptors.

(** ** The example *)

Section no_memory.
Context `{SO : SysOps, IO : IoctlNr, ML : !MallocLaws} (fd cl : Z) `{CS : !ContextSource fd cl}.
Implicit Types (s : ustate).

(** Without memory the example loses workers.  When the contexts
    [p :: ps] have been dequeued and the first node cannot be allocated,
    [get_next_context] returns NULL with an empty ready queue: the whole batch
    was taken from the completion list and none of it will ever be run. *)
Theorem no_memory_loses_batch comp_list s p ps out o fuel
    (Hfd : u_fileno s = fd) (Hqueue : rq_ok s [])
    (Hcl : u_heap s !! comp_list = Some (UInt cl))
    (Hdeq : sys_ioctl fd IOCTL_DEQUEUE_UMS_CLIST (dequeue_arg (mk_dequeue_args cl 0)) (u_os s) =
              Some (0, out, o))
    (Hfirst : out_pid out = Some p) (Hbatch : batch (p :: ps) o)
    (Hmem : ∀ used, (c_malloc used o).1 = None) :
  ∃ s', get_next_context comp_list (S fuel) s = URet PNull s' ∧ rq_ok s' [] ∧
    u_errno s' = ENOMEM ∧ batch (p :: ps) (u_os s').
Proof.
  set (x := fresh (dom (u_heap s))).
  assert (u_heap s !! x = None) as Hx by (apply not_elem_of_dom, is_fresh).
  set (s1 := uset_heap (<[x := UInt 0]> (u_heap s)) s).
  set (s2 := uset_heap (<[x := UInt p]> (u_heap s1)) (uset_os o s1)).
  assert (dequeue_retry comp_list (S fuel) x s1 = URet true s2) as E1.
  { cbn [dequeue_retry]. urun (load_int_run s1 comp_list cl).
    { unfold s1; uproj. by rewrite lookup_insert_ne by congruence. }
    urun (dequeue_items_answers s1 cl x 0 out o).
    { unfold answers. by rewrite (Hfd : u_fileno s1 = fd). }
    { apply lookup_insert_eq. }
    rewrite decide_False by (by intros []). by rewrite Hfirst. }
  destruct (c_malloc (dom (u_heap s2)) o) as [r e] eqn:Hm.
  assert (r = None) as -> by (pose proof (Hmem (dom (u_heap s2))) as H; by rewrite Hm in H).
  assert (refill comp_list (S fuel) x s1 = URet PNull (uset_errno ENOMEM (uset_os e s2))) as E2.
  { unfold refill. urun E1. cbn [negb]. urun (load_int_run s2 x p).
    { apply lookup_insert_eq. }
    by urun (queue_context_fails s2 p e Hm). }
  eexists. split.
  - unfold get_next_context. eapply with_local_run. cbv beta. fold x. fold s1.
    unfold ulist at 1. unfold mbind, uM_bind. rewrite (rq_empty s1 [] true); [exact E2| |done].
    destruct Hqueue. by split.
  - destruct Hqueue as [Hl _]. split; [by split|]. split; [done|].
    pose proof (src_malloc (p :: ps) (dom (u_heap s2)) o Hbatch) as Hb. by rewrite Hm in Hb.
Qed.
End no_memory.

Section example_props.
Context `{KO : KernelOps, LO : !ListOps lnode, LL : !ListLaws lnode, KL : !KernelLaws,
  IO : IoctlNr, LC : LibcOps}.
Implicit Types (s : ustate).

(** C8: From the completion list to the ready queue.  On the module, a
    scheduler of the example whose ready queue is empty calls
    [get_next_context] while workers with the pids [p :: ps] wait in the
    completion list.
    (1) When procfs refuses the link of the first worker, the call gives NULL
    with errno ENOMEM and the queue stays empty.
    (2) Otherwise, if every allocation of the process succeeds, that many calls
    of [get_next_context] give exactly these contexts, each once and in the
    order they were queued in the kernel; the batch was emptied before the
    first context was handed out (as the documentation of the library demands),
    and the queue is empty again.
    (3) Otherwise, if no allocation of the process succeeds, the call gives NULL
    with errno ENOMEM and the queue stays empty, but the batch was taken from
    the kernel: the contexts are lost to the program.
    (A process whose allocations succeed only in part is not covered.) *)
Theorem example_takes_contexts_in_order fd cl comp_list s refused p ps fuel
    (Hfd : u_fileno s = fd) (Hqueue : rq_ok s [])
    (Hwait : list_waiting fd cl refused (p :: ps) (u_os s))
    (Hcl : u_heap s !! comp_list = Some (UInt cl)) (Hfuel : (length ps < fuel)%nat) :
  if refused then
    ∃ s', get_next_context comp_list fuel s = URet PNull s' ∧ rq_ok s' [] ∧ u_errno s' = ENOMEM
  else
    (memory_available →
       (∃ a ns s', get_next_context comp_list fuel s = URet (Ptr a) s' ∧
          u_heap s' !! a = Some (UNode p) ∧ rq_ok s' ns ∧ ns.*2 = ps ∧
          list_batch fd [] (u_os s')) ∧
       (∃ s', take_contexts comp_list fuel (length (p :: ps)) s = URet (p :: ps) s' ∧ rq_ok s' [])) ∧
    ((∀ used o, (c_malloc used o).1 = None) →
       ∃ s', get_next_context comp_list fuel s = URet PNull s' ∧ rq_ok s' [] ∧
         u_errno s' = ENOMEM ∧ list_batch fd (p :: ps) (u_os s')).
Proof.
  destruct refused; [|split].
  - destruct (get_next_refills fd cl comp_list s true p ps fuel) as (o & E); [done..|].
    eexists. split; [exact E|]. destruct Hqueue. by split.
  - intros Hmem. destruct (get_next_refills fd cl comp_list s false p ps fuel)
      as (a & ns & s' & E & Ha & Hrq & _ & En & Hb & _); [done..|]. split; [by exists a, ns, s'|].
    destruct (take_waiting fd cl comp_list s p ps fuel) as (s2 & E2 & Hq & _); [done..|]. by exists s2.
  - intros Hmem. destruct fuel as [|fuel]; [lia|].
    destruct (list_dequeue fd cl false p ps (u_os s) Hwait) as (r & out & o & E & -> & Eo & Hb).
    exact (no_memory_loses_batch (CS := module_source fd cl) fd cl comp_list s p ps out o fuel
      Hfd Hqueue Hcl E Eo Hb (λ used, Hmem used o)).
Qed.
End example_props.

Section main_defect.
Context `{SO : SysOps, IO : IoctlNr}.
Implicit Types (s : ustate).

(** A thread that could not be created is joined: its [pthread_t] variable was
    never written. *)
Lemma main_joins_unset_thread comp_list proc b1 b2 s s1 ws s2
    (Hnproc : 0 < sys_nproc (u_os s))
    (Hinit : initialize_ums_scheduling comp_list b1 b2 (Z.to_nat (sys_nproc (u_os s))) s = URet 0 s1)
    (Hcreate : create_workers comp_list proc (Z.of_nat <$> seq 0 (24 * Z.to_nat (sys_nproc (u_os s)))) s1 =
       URet (None :: ws) s2) :
  main comp_list proc b1 b2 s = UCrash Undefined.
Proof.
  unfold main. urun (eq_refl : ugets _ s = URet _ _). rewrite decide_False by lia.
  urun Hinit.
  rewrite decide_False by (by intros []). urun Hcreate. done.
Qed.
End main_defect.

(** ** Events, from the module to the entry point *)

Section events.
Context `{KO : KernelOps, LO : !ListOps lnode, LL : !ListLaws lnode, KL : !KernelLaws,
  IO : IoctlNr, LC : LibcOps}.
Implicit Types (s : ustate) (w : world) (L : forest lnode) (info : ums_scheduler_startup_info_t).

(** The events [evs] are at the head of the queue of the calling scheduler
    [a], followed by the nodes [rest]. *)
Record events_ready (fd : Z) (o : kos) L (a : addr) (es rest : list addr)
    (evs : list ums_sched_event) : Prop := {
  er_fd : fd ∈ k_fds o;
  er_sched : ∃ d x, w_data (k_world o) = Some d ∧
    rhashtable_lookup_fast (d_schedulers d) (k_pid o) = Some a ∧
    w_heap (k_world o) !! a = Some (OSched x) ∧ sc_lock x = false;
  er_cache : g_event_cache (w_mod (k_world o)) = true;
  er_lists : forest_ok (w_lm (k_world o)) L;
  er_queue : L !! EventQ a = Some (EventList <$> es ++ rest);
  er_events : Forall2 (λ e ev, w_heap (k_world o) !! e = Some (OEvent ev)) es evs;
}.

(** One event is taken. *)
Lemma events_step fd o L a e es rest ev evs :
  events_ready fd o L a (e :: es) rest (ev :: evs) →
  ∃ o', module_ioctl fd IOCTL_UMS_SCHED_DQEVENT (event_arg None) o = Some (0, [UEvent ev], o') ∧
    events_ready fd o' (<[EventQ a := EventList <$> es ++ rest]> L) a es rest evs.
Proof.
  intros [Hfd (d & x & Hd & Hs & Hx & Hl) Hc HL Hq [He Hevs]%Forall2_cons].
  set (w := set_cur (k_pid o) (k_world o)).
  destruct (dqevent_run w L d a x e ev (EventList <$> es ++ rest) (arg_event (event_arg None)))
    as (m & _ & Hrun); [done..|]. rewrite decide_True in Hrun by done. destruct Hrun as [HL' E].
  rewrite <- ioctl_dqevent in E. eexists. split; [eapply module_ioctl_run; [done|done|exact E|done]|].
  assert (NoDup (EventList e :: (EventList <$> es ++ rest))) as [Hne Hnd]%NoDup_cons.
  { by pose proof (forest_nodup _ _ _ _ HL Hq) as [_ ?]%NoDup_cons. }
  assert (a ≠ e) as Hae by congruence. split; [done| |done| |apply lookup_insert_eq|].
  - exists d, x. cbn. split_and!; [done|done|by rewrite lookup_delete_ne|done].
  - cbn. eapply forest_agree; [exact HL'|]. intros h l y Hh Hy. rewrite lookup_delete_ne; [done|].
    intros <-. apply lookup_insert_Some in Hh as [[<- <-]|[Hne' Hh]].
    + apply elem_of_cons in Hy as [?|Hy]; done.
    + destruct HL as [_ Hdis]. apply (Hdis _ _ _ _ (EventList e) Hq Hh Hne'); [|done].
      apply list_elem_of_further, list_elem_of_here.
  - eapply Forall2_impl_in; [exact Hevs|]. intros z ez Hz Ez. cbn. rewrite lookup_delete_ne; [done|].
    intros <-. apply Hne. apply list_elem_of_fmap_2, elem_of_app. by left.
Qed.

(** C10: Events reach the entry point in the order of the kernel's queue.  On
    the module, with the events [evs] at the head of the queue of the calling
    scheduler and an entry point that returns without making calls of its own,
    the loop of [enter_ums_scheduling_mode] makes one pass per event, in order,
    calling the entry point with the reason, activation and parameter the code
    derives from that event; each event is taken from the kernel's queue once,
    and what is behind them is still there.  For startup and yield events the
    activation is the documented one; for the end of a thread it is a pointer to
    the context of that thread, where umsdefs.h documents NULL. *)
Theorem events_reach_entry_point info evs :
  ∀ s L a es rest
    (Hready : events_ready (u_fileno s) (u_os s) L a es rest evs)
    (Hentry : ∀ reason act param s0, ∃ s1, si_entry_point info reason act param s0 = URet tt s1 ∧
       u_os s1 = u_os s0 ∧ u_fileno s1 = u_fileno s0),
  ∃ s', passes info s (Some <$> evs) s' ∧
    events_ready (u_fileno s') (u_os s') (<[EventQ a := EventList <$> rest]> L) a [] rest [] ∧
    (∀ fuel, scheduling_loop info (length evs + fuel) s = scheduling_loop info fuel s') ∧
    Forall (λ e, ev_type e ≠ THREAD_TERMINATED ↔ entry_activation e = documented_activation e) evs.
Proof.
  induction evs as [|ev evs IH]; intros s L a es rest Hready Hentry.
  - pose proof Hready as [_ _ _ _ Hq HF]. apply Forall2_nil_inv_r in HF as ->. simpl in Hq.
    exists s. split_and!; [constructor| |done|constructor]. by rewrite insert_id.
  - pose proof Hready as [_ _ _ _ _ HF]. apply Forall2_cons_inv_r in HF as (e & es' & _ & _ & ->).
    destruct (events_step _ _ _ _ _ _ _ _ _ Hready) as (o' & E & Hready').
    assert (dequeue_ums_sched_event s = URet (0, Some ev) (uset_os o' s)) as Edq.
    { unfold dequeue_ums_sched_event. by urun (ums_ioctl_answers s _ _ 0 [UEvent ev] o'). }
    destruct (Hentry (entry_reason ev) (entry_activation ev) (entry_param info ev)
      (uset_os (SO := module_sys) o' s)) as (s1 & E1 & Eo & Ef).
    assert (pass info s (Some ev) s1) as P by (by eapply pass_event).
    destruct (IH s1 (<[EventQ a := EventList <$> es' ++ rest]> L) a es' rest)
      as (s2 & Hp & Hr & Hloop & Hact); [by rewrite Eo, Ef|done|].
    exists s2. split_and!.
    + econstructor; [exact P|exact Hp].
    + by rewrite insert_insert_eq in Hr.
    + intros fuel. cbn [length Nat.add]. by rewrite (scheduling_loop_pass _ _ _ _ _ P).
    + constructor; [|done]. symmetry. apply entry_activation_documented.
Qed.
End events.

(** ** Witnesses *)

(** A system whose ioctl calls give the answers of a script, whose threads
    cannot be created, and whose other services succeed. *)
Definition script_sys : SysOps := {|
  os := list (Z * list uval);
  sys_ioctl _ _ _ o := match o with [] => None | (r, out) :: o => Some (r, out, o) end;
  sys_open _ _ o := (3, o);
  sys_close _ o := (0, o);
  sys_fork o := o;
  c_malloc used o := (Some (fresh used), o);
  sys_pthread_create _ _ _ o := (11, 0, o);
  sys_pthread_key_create o := (0, o);
  sys_pthread_setspecific o := (0, o);
  sys_pthread_atfork o := (0, o);
  sys_pthread_attr o := (0, o);
  sys_pthread_join _ o := Some (0, o);
  sys_nproc _ := 1;
|}.

(** A worker thread with its argument block at address 5; its function returns
    its argument. *)
Definition demo_args : worker_proc_args_t := mk_worker_args 1 9 42.
Definition demo_thread (script : list (Z * list uval)) : @ustate script_sys :=
  mk_ustate (SO := script_sys) script 0 {[ 5%positive := UArgs demo_args ]} ∅ 3 false false None
    true 0 [] [].

Lemma worker_thread_life_witness :
  ∃ s', worker_thread (SO := script_sys) (λ _ x s, URet x s) 5 (demo_thread [(0, []); (0, [])]) =
      URet 42 s' ∧
    u_heap s' = delete 5%positive {[ 5%positive := UArgs demo_args ]} ∧ u_os s' = [] ∧
    u_specific s' = None.
Proof.
  pose proof (worker_thread_life (SO := script_sys) (λ _ x s, URet x s) 5
    (demo_thread [(0, []); (0, [])]) demo_args
    (uset_key (SO := script_sys) true true (demo_thread [(0, []); (0, [])]))
    eq_refl eq_refl eq_refl) as (_ & H & _).
  refine (H [] [(0, [])] [(0, [])] 42
    (uset_specific (SO := script_sys) (Some 5%positive) (uset_os (SO := script_sys) [(0, [])]
      (uset_key (SO := script_sys) true true (demo_thread [(0, []); (0, [])])))) 0 [] _ _ _ _ _ _ _);
    [split; [reflexivity|lia]|reflexivity..].
Defined.

(** Descriptors: the device always gets number 7. *)
Definition table_sys : SysOps := {|
  os := gmap Z nat * gset nat;
  sys_ioctl _ _ _ o := None;
  sys_open _ _ o :=
    match o.1 !! 7 with
    | Some _ => (-24, o)
    | None => (7, (<[7 := fresh o.2]> o.1, {[fresh o.2]} ∪ o.2))
    end;
  sys_close fd o := (0, (delete fd o.1, o.2));
  sys_fork o := o;
  c_malloc used o := (Some (fresh used), o);
  sys_pthread_create _ _ _ o := (0, 0, o);
  sys_pthread_key_create o := (0, o);
  sys_pthread_setspecific o := (0, o);
  sys_pthread_atfork o := (0, o);
  sys_pthread_attr o := (0, o);
  sys_pthread_join _ o := Some (0, o);
  sys_nproc _ := 1;
|}.
Definition table_fds : FdLaws (SO := table_sys).
Proof.
  refine (Build_FdLaws table_sys (λ o : gmap Z nat * gset nat, o.1)
    (λ o : gmap Z nat * gset nat, o.2) _ _ _ _).
  - intros path flags [t D] r o' E. cbn in *. destruct (t !! 7) eqn:E7; injection E as <- <-.
    + left. split; [lia|done].
    + right. split; [lia|]. split; [done|]. exists (fresh D). split; [apply is_fresh|done].
  - intros fd [t D] r o' E. cbn in *. by injection E as <- <-.
  - done.
  - intros [t D] r o' E. cbn in *. by injection E as <- <-.
Defined.
Definition demo_parent : @ustate table_sys :=
  mk_ustate (SO := table_sys) ({[ 7 := 0%nat ]}, {[ 0%nat ]}) 0 ∅ ∅ 7 false false None true 0 [] [].

Lemma fork_reopens_device_witness :
  ∃ s', fork_child (SO := table_sys) demo_parent = URet tt s'.
Proof.
  destruct (fork_reopens_device (SO := table_sys) (FL := table_fds) demo_parent) as (H & _ & _).
  destruct (H eq_refl) as (s' & E & _). exists s'. exact E.
Defined.

(** The module under the process of the session's scheduler; [avail]: memory
    is available to it. *)
Definition demo_libc (avail : bool) : LibcOps.
Proof.
  refine {| lenv := unit;
    l_malloc := λ used e, (if avail then Some (fresh used) else None, e);
    l_open := λ _ _ e, (-2, e); l_close := λ _ e, (-9, e); l_fork := λ e, e;
    l_pthread_create := λ _ _ _ e, (0, 1, e); l_pthread := λ e, (0, e);
    l_pthread_join := λ _ e, Some (0, e); l_nproc := λ _, 1 |}.
  intros used e a e' E. destruct avail; [|done]. injection E as <- <-. apply is_fresh.
Defined.

Definition demo_kos (b : bool) (w : world) : @kos inst_kernel (demo_libc b) :=
  mk_kos (LC := demo_libc b) w 13 {[3]} [] tt.
(** [comp_list] is at address 1; the ready queue is empty. *)
Definition demo_sched (b : bool) (w : world) : @ustate (module_sys (LC := demo_libc b)) :=
  mk_ustate (SO := module_sys (LC := demo_libc b)) (demo_kos b w) 0 {[ 1%positive := UInt 1 ]}
    {[ RqHead := mk_list_head (LNode RqHead) (LNode RqHead) ]} 3 false false None true 0 [] [].

Lemma demo_rq b w : rq_ok (SO := module_sys (LC := demo_libc b)) (demo_sched b w) [].
Proof. split; [decide_fact|constructor]. Qed.

Lemma demo_waiting b :
  list_waiting (LC := demo_libc b) 3 1 false [11; 12] (demo_kos b w_started).
Proof.
  split; [decide_fact|]. split; [decide_fact|].
  exists lists_started, a_list, a_sched, (complist_of w_started a_list), [a_worker1; a_worker2],
    (data_of w_started), session_pid. split_and!.
  - apply (session_dq_ready 0).
  - compute_fact.
  - apply session_pids_ok.
  - compute_fact.
  - intros k [= <-]. compute_fact.
Qed.

Lemma example_takes_contexts_in_order_witness :
  (∃ s', take_contexts (SO := module_sys (LC := demo_libc true)) 1 2 2 (demo_sched true w_started) =
     URet [11; 12] s') ∧
  (∃ s', get_next_context (SO := module_sys (LC := demo_libc false)) 1 2 (demo_sched false w_started) =
     URet PNull s').
Proof.
  split.
  - destruct (example_takes_contexts_in_order (LC := demo_libc true) 3 1 1 (demo_sched true w_started)
      false 11 [12] 2) as [H _]; [..|destruct H as [_ (s' & E & _)]].
    + reflexivity.
    + apply demo_rq.
    + apply demo_waiting.
    + reflexivity.
    + simpl. lia.
    + intros used o. by eexists.
    + exists s'. exact E.
  - destruct (example_takes_contexts_in_order (LC := demo_libc false) 3 1 1 (demo_sched false w_started)
      false 11 [12] 2) as [_ H]; [..|destruct H as (s' & E & _)].
    + reflexivity.
    + apply demo_rq.
    + apply demo_waiting.
    + reflexivity.
    + simpl. lia.
    + reflexivity.
    + exists s'. exact E.
Defined.

Lemma demo_events :
  events_ready (LC := demo_libc true) 3 (demo_kos true w_sched) lists_sched a_sched [a_event] []
    [mk_event SCHEDULER_STARTUP zero_params].
Proof.
  split.
  - decide_fact.
  - exists (data_of w_sched), (sched_of w_sched a_sched). split_and!; compute_fact.
  - compute_fact.
  - decide_fact.
  - compute_fact.
  - constructor; [compute_fact|constructor].
Qed.

Lemma events_reach_entry_point_witness :
  ∃ s', passes (SO := module_sys (LC := demo_libc true))
      (mk_startup_info (SO := module_sys (LC := demo_libc true)) 1 (λ _ _ _ s, URet tt s) 0)
      (demo_sched true w_sched) [Some (mk_event SCHEDULER_STARTUP zero_params)] s'.
Proof.
  destruct (events_reach_entry_point (LC := demo_libc true)
    (mk_startup_info (SO := module_sys (LC := demo_libc true)) 1 (λ _ _ _ s, URet tt s) 0)
    [mk_event SCHEDULER_STARTUP zero_params] (demo_sched true w_sched) lists_sched a_sched
    [a_event] []) as (s' & H & _).
  - apply demo_events.
  - intros reason act param s0. exists s0. split; [reflexivity|split; reflexivity].
  - exists s'. exact H.
Defined.
