(* ===== verification/PropInterleave.v ===== *)
(** * Properties of the queues under interleaving

    The theorems about the functions of [src/src/module/src/complist.c] and
    [src/src/module/src/scheduler.c] that add to and take from the completion
    lists and the event queues, called by any number of tasks at the same
    time.  Each is stated for both kinds of queue ([squeue]). *)
From S2P Require Import Prelude ListHead ListSpec Kernel Uapi State Prims Context Proc.
From S2P Require Import Complist Scheduler Worker Device KernelInst Scenario.
From S2P Require Import Interleave InterleaveInv InterleaveSeq.
From stdpp Require Import prelude gmap.

Local Open Scope Z_scope.

Section props.
Context `{KO : KernelOps, LO : !ListOps lnode, LL : !ListLaws lnode}.
Implicit Types (k : squeue) (l : list lnode) (σ : csys) (tr : list label).

(** C11: The queues deliver under every interleaving.  Any number of tasks add
    to a queue and take from it, their steps in any order, with wakeups and
    signals at any time: what an observer sees is a run of the queue as a
    sequence, where events are taken one by one and contexts all at once.
    Nothing is lost, duplicated or invented; when everything is added at the
    tail it is taken in the order it was added; and whenever no task is in
    the critical section the list in memory is that sequence. *)
Theorem queue_delivers k l0 σ0 tr σ
    (Hinit : cinit (wq_of k) l0 σ0) (Hrun : creach (wq_of k) σ0 tr σ) :
  ∃ l, arun (wq_all (wq_of k)) l0 tr l ∧ l0 ++ pushed tr ≡ₚ taken tr ++ l ∧
    (only_back tr → l0 ++ pushed tr = taken tr ++ l) ∧
    ((∀ p c, c_pool σ !! p = Some c → holds c = false) →
     is_list (w_lm (c_world σ)) (wq_head (wq_of k)) l).
Proof.
  destruct (creach_inv (wq_of k) l0 σ0 tr σ Hinit Hrun) as (s & [Hs HP] & Hr).
  eexists. split; [exact Hr|]. split_and!.
  - by eapply arun_conserves.
  - intros Hb. by eapply arun_fifo.
  - intros Hfree. rewrite view_list; [exact (sw_list _ _ _ Hs)|].
    intros p n _ Hp. by specialize (Hfree p _ Hp).
Qed.

(** C12: Mutual exclusion and absence of faults.  In every state that is
    reached, at most one task is between [spin_lock] and [spin_unlock], and
    every task whose call has not returned can take its next step, except
    that it spins on the lock while another task holds it, or is asleep. *)
Theorem queue_mutual_exclusion k l0 σ0 tr σ
    (Hinit : cinit (wq_of k) l0 σ0) (Hrun : creach (wq_of k) σ0 tr σ) :
  (∀ p1 c1 p2 c2, c_pool σ !! p1 = Some c1 → c_pool σ !! p2 = Some c2 →
     holds c1 = true → holds c2 = true → p1 = p2) ∧
  (∀ p c, c_pool σ !! p = Some c →
     match run_pc (wq_of k) c (set_cur p (c_world σ)) with
     | Ok _ _ => True
     | Sleep _ => c = PSchedule ∧ sleeps (w_tasks (c_world σ)) p
     | Bug b => b = LockHeld ∧ spins c = true ∧
         ∃ p' c', p' ≠ p ∧ c_pool σ !! p' = Some c' ∧ holds c' = true
     end).
Proof.
  destruct (creach_inv (wq_of k) l0 σ0 tr σ Hinit Hrun) as (s & [Hs HP] & _).
  destruct σ as [w pool]. simpl in *.
  assert (∀ p c, pool !! p = Some c → holds c = true ↔ sh_holder s = Some p) as Hh.
  { intros p c Hp. exact (tk_holds _ _ _ _ _ (pl_tasks _ _ _ HP _ _ Hp)). }
  split.
  - intros p1 c1 p2 c2 H1 H2 E1 E2. apply (Hh _ _ H1) in E1. apply (Hh _ _ H2) in E2. congruence.
  - intros p c Hp. pose proof (step_spec (wq_of k) w s pool p c Hs HP Hp) as H. unfold step_ok in H.
    destruct (run_pc _ c _) as [?|?|b]; [done..|]. destruct H as (-> & Hc & [p' Hp']).
    split_and!; [done..|]. destruct (pl_holder _ _ _ HP p' Hp') as [c' Hc'].
    exists p', c'. rewrite (Hh _ _ Hc'). split_and!; [|done..]. intros ->.
    apply (Hh _ _ Hp) in Hp'. by destruct c.
Qed.

(** C13: No wakeup is lost.  A task that is about to sleep is in the wait
    queue, and the queue is empty or another task is on its way to
    [wake_up_all]; when that task gets there, the sleeping one is made
    runnable. *)
Theorem no_lost_wakeup k l0 σ0 tr σ p
    (Hinit : cinit (wq_of k) l0 σ0) (Hrun : creach (wq_of k) σ0 tr σ)
    (Hasleep : c_pool σ !! p = Some PSchedule) (Hsleeps : sleeps (w_tasks (c_world σ)) p) :
  (∃ b ws, wq_obs (wq_of k) (w_heap (c_world σ)) = Some (b, ws) ∧ p ∈ ws) ∧
  (k_list_empty (wq_head (wq_of k)) (w_lm (c_world σ)) = Some true ∨
   ∃ p' c', c_pool σ !! p' = Some c' ∧ waking c' = true) ∧
  (∀ p' r w', run_pc (wq_of k) PWake (set_cur p' (c_world σ)) = Ok r w' → ¬ sleeps (w_tasks w') p).
Proof.
  destruct (creach_inv (wq_of k) l0 σ0 tr σ Hinit Hrun) as (s & [Hs HP] & _).
  destruct σ as [w pool]. simpl in *. pose proof (pl_tasks _ _ _ HP _ _ Hasleep) as HT.
  rewrite <- (sw_tasks _ _ _ Hs) in Hsleeps.
  pose proof (tk_wait _ _ _ _ _ HT eq_refl Hsleeps) as Hin. split_and!.
  - eexists _, _. split; [exact (sw_obs _ _ _ Hs)|done].
  - destruct (tk_doze _ _ _ _ _ HT eq_refl Hsleeps) as [E|?]; [left|by right].
    rewrite (law_empty _ _ _ (sw_list _ _ _ Hs)), E. done.
  - intros p' r w'. simpl.
    destruct (wql_wake (set_cur p' w) _ (sh_wq s) (sw_obs _ _ _ Hs)) as (h & E & _).
    rewrite (bind_ok _ _ _ _ _ E). intros [= _ <-] [_ Hn]%wake_sleeps.
    apply Hn; [|done]. rewrite <- (sw_tasks _ _ _ Hs). apply HT.
Qed.

(** C14: The calls settle.  From every state that is reached, the calls that
    are running come to a rest after finitely many steps, in whatever order
    they go on and whatever the environment answers: each has returned, or
    sleeps, and as long as one sleeps the lock is free and the queue is
    empty.  No task spins forever and no context or event is left in a
    queue that someone waits for. *)
Theorem queue_calls_settle k l0 σ0 tr σ
    (Hinit : cinit (wq_of k) l0 σ0) (Hrun : creach (wq_of k) σ0 tr σ) :
  sn (rstep (wq_of k)) σ ∧
  ∀ σ', rtc (rstep (wq_of k)) σ σ' → (∀ σ'', ¬ rstep (wq_of k) σ' σ'') →
    (∀ p c, c_pool σ' !! p = Some c → c = PSchedule ∧ sleeps (w_tasks (c_world σ')) p) ∧
    (∃ ws, wq_obs (wq_of k) (w_heap (c_world σ')) = Some (false, ws)) ∧
    (c_pool σ' ≠ ∅ → is_list (w_lm (c_world σ')) (wq_head (wq_of k)) []).
Proof.
  destruct (creach_inv (wq_of k) l0 σ0 tr σ Hinit Hrun) as (s & Hs & _).
  split; [exact (rstep_acc (wq_of k) σ s Hs)|]. intros σ' Hsteps Hrest.
  assert (∃ s', cinv (wq_of k) σ' s') as (s' & Hs').
  { clear Hinit Hrun Hrest tr σ0 l0. revert s Hs. induction Hsteps as [|σ σ1 σ2 H1 _ IH]; [by eauto|].
    intros s Hs. destruct (cinv_rstep _ (size (c_pool σ)) _ _ _ H1 Hs) as (s1 & ? & _); [lia|]. by eapply IH. }
  destruct (rest_empty _ _ _ Hs' Hrest) as (H1 & H2 & H3). destruct Hs' as [Hs' _].
  split_and!; [done|..].
  - exists (sh_wq s'). rewrite (sw_obs _ _ _ Hs'), H2. done.
  - intros Hne. rewrite <- (H3 Hne). apply Hs'.
Qed.

(** A task alone.  The two translations of the queue routines agree: run
    without others in between, the cut-up functions do what the functions as a
    whole do, with the same final world, the same node added, the same nodes
    taken, asleep or interrupted in the same cases. *)
Theorem alone_is_sequential k w l ws t n flags
    (Hlock : wq_obs (wq_of k) (w_heap w) = Some (false, ws))
    (Hlist : is_list (w_lm w) (wq_head (wq_of k)) l)
    (Hnodes : Forall (λ x, wq_node (wq_of k) x = true) l)
    (Hnode : wq_node (wq_of k) n = true)
    (Htask : w_tasks w !! w_cur w = Some t) (Hruns : t_state t = TASK_RUNNING) :
  (ls ← solo (wq_of k) 4 (PAddLock n flags); mret (visible ls)) w = seq_add k n flags w ∧
  (ls ← solo (wq_of k) 8 PLock; mret (visible ls)) w = seq_take k w.
Proof. split; [by apply solo_add|by eapply solo_take]. Qed.
End props.

(** ** A run of three tasks

    The completion list of the session is empty.  The scheduler, task 13,
    looks for a context and goes to sleep; the workers 11 and 12 come back to
    the list at the same time, 12 spins until 11 has released the lock; 11
    wakes the scheduler, which takes both contexts before 12 has called
    [wake_up_all]. *)
Definition idle_list : csys := mk_csys w_drained ∅.
Definition both_back : list action :=
  [StartTake 13; Go 13; Go 13; Go 13; Go 13; Go 13; Go 13; Go 13;
   StartAdd 11 (wnode a_worker1) COMPLIST_ADD_TAIL; StartAdd 12 (wnode a_worker2) COMPLIST_ADD_TAIL;
   Go 11; Go 11].
Definition handed_over : list action :=
  both_back ++ [Go 11; Go 12; Go 12; Go 12; Go 11;
   Go 13; Go 13; Go 13; Go 13; Go 13; Go 13; Go 13; Go 13; Go 13].
Definition trace_of (acts : list action) : list label :=
  match exec_all (wq_of (ContextsOf a_list)) idle_list acts with Some (tr, _) => tr | None => [] end.
Definition state_of (acts : list action) : csys :=
  match exec_all (wq_of (ContextsOf a_list)) idle_list acts with Some (_, σ) => σ | None => idle_list end.

Definition trace_back : list label := Eval vm_compute in trace_of both_back.
Definition state_back : csys := Eval vm_compute in state_of both_back.
Definition trace_over : list label := Eval vm_compute in trace_of handed_over.
Definition state_over : csys := Eval vm_compute in state_of handed_over.

Lemma idle_list_init : cinit (wq_of (ContextsOf a_list)) [] idle_list.
Proof.
  split; [done|]. split; [decide_fact|]. split; [by constructor|]. eexists. compute_fact.
Qed.
Lemma back_reached : creach (wq_of (ContextsOf a_list)) idle_list trace_back state_back.
Proof. apply (exec_all_creach _ both_back). compute_fact. Qed.
Lemma over_reached : creach (wq_of (ContextsOf a_list)) idle_list trace_over state_over.
Proof. apply (exec_all_creach _ handed_over). compute_fact. Qed.

(** Both contexts were handed over, in order; none is left. *)
Lemma queue_delivers_witness :
  taken trace_over = [wnode a_worker1; wnode a_worker2] ∧
  ∃ l, pushed trace_over = taken trace_over ++ l ∧ is_list (w_lm (c_world state_over)) (ClHead a_list) l.
Proof.
  split; [reflexivity|].
  destruct (queue_delivers (ContextsOf a_list) [] idle_list trace_over state_over
    idle_list_init over_reached) as (l & _ & _ & Hf & Hl).
  exists l. split.
  - apply Hf. repeat constructor.
  - apply Hl. intros p c Hp.
    assert (map_Forall (λ _ c, holds c = false) (c_pool state_over)) as Hall by decide_fact.
    exact (Hall p c Hp).
Defined.
(** Task 12 spins while task 11 is in the critical section. *)
Lemma queue_mutual_exclusion_witness :
  run_pc (wq_of (ContextsOf a_list)) (PAddLock (wnode a_worker2) COMPLIST_ADD_TAIL)
    (set_cur 12 (c_world state_back)) = Bug LockHeld ∧
  ∃ p' c', p' ≠ 12 ∧ c_pool state_back !! p' = Some c' ∧ holds c' = true.
Proof.
  destruct (queue_mutual_exclusion (ContextsOf a_list) [] idle_list trace_back state_back
    idle_list_init back_reached) as [_ Hstep].
  assert (run_pc (wq_of (ContextsOf a_list)) (PAddLock (wnode a_worker2) COMPLIST_ADD_TAIL)
    (set_cur 12 (c_world state_back)) = Bug LockHeld) as E by compute_fact.
  specialize (Hstep 12 (PAddLock (wnode a_worker2) COMPLIST_ADD_TAIL) eq_refl).
  rewrite E in Hstep. split; [exact E|apply Hstep].
Defined.
(** The scheduler sleeps and the list is not empty: task 11 will wake it. *)
Lemma no_lost_wakeup_witness :
  k_list_empty (ClHead a_list) (w_lm (c_world state_back)) = Some false ∧
  ∃ p' c', c_pool state_back !! p' = Some c' ∧ waking c' = true.
Proof.
  assert (k_list_empty (ClHead a_list) (w_lm (c_world state_back)) = Some false) as E by compute_fact.
  split; [exact E|].
  destruct (no_lost_wakeup (ContextsOf a_list) [] idle_list trace_back state_back 13
    idle_list_init back_reached eq_refl) as (_ & [E'|?] & _); [decide_fact| |done].
  exfalso. pose proof (eq_trans (eq_sym E') E) as Ht. discriminate Ht.
Defined.
Lemma queue_calls_settle_witness :
  c_pool state_back ≠ ∅ ∧ sn (rstep (wq_of (ContextsOf a_list))) state_back.
Proof.
  split; [by intros Hp%(f_equal (.!! 13))|].
  apply (queue_calls_settle (ContextsOf a_list) [] idle_list trace_back state_back
    idle_list_init back_reached).
Defined.
(** Alone on the empty list, the scheduler sleeps. *)
Lemma alone_is_sequential_witness :
  returns (seq_take (ContextsOf a_list) (as_task 13 w_drained)) = false ∧
  (ls ← solo (wq_of (ContextsOf a_list)) 8 PLock; mret (visible ls)) (as_task 13 w_drained) =
    seq_take (ContextsOf a_list) (as_task 13 w_drained).
Proof.
  split; [reflexivity|].
  apply (alone_is_sequential (ContextsOf a_list) (as_task 13 w_drained) [] []
    (mk_task TASK_RUNNING (t_usage (task_of w_drained 13))) (wnode a_worker1) COMPLIST_ADD_TAIL).
  - compute_fact.
  - decide_fact.
  - by constructor.
  - reflexivity.
  - compute_fact.
  - reflexivity.
Defined.
